(* ===== verification/_CoqProject ===== *)
-Q . S2P
Prelude.v
PyStr.v
Sha256.v
AuthTokens.v
IsoTime.v
Journal.v
JournalSafety.v
JournalAdmission.v
JournalDelivery.v
Ledger.v
LedgerLane.v
LedgerSafety.v
PyVal.v
Paths.v
Transforms.v
TransformLaws.v
CounterDelta.v
CounterLaws.v
WindowAggregate.v
WindowLaws.v
JsonFlatten.v
JsonFlattenLaws.v
Accounting.v
ExecKeys.v
ExecMonad.v
ExecSinks.v
Framing.v
Passthrough.v
ExecBatch.v
ExecDemo.v
ExecRel.v
ExecSafety.v
ExecLoss.v
ExecLaws.v
BatchThreads.v
Streams.v
StreamRel.v
StreamLaws.v
WorkerPool.v
WorkerPoolLaws.v
AgentServer.v
AgentLaws.v
CtlMonad.v
Manager.v
Controller.v
BatchLane.v
BootLane.v
Reconciler.v
Placements.v
ManagerSystem.v
ManagerRel.v
ManagerSafety.v
ManagerDemo.v
ManagerLaws.v
ManagerEvents.v
BootLaws.v
BootAdopt.v
ManagerFindings.v
PlacementFrame.v
PlacementSafety.v
PlacementLaws.v
FileNames.v
FileSink.v
FileSinkLaws.v
FileSinkWrites.v
