(* ===== verification/Prelude.v ===== *)
(** * TRAM: a verification library

    TRAM is a telecom mediation daemon: a manager dispatches pipeline runs to
    workers, workers execute sources, transforms and sinks, and results travel
    back to the manager.  This library models the parts that decide whether a
    run happens, happens once, and is reported, and the record transforms that
    compute what is delivered.

    ** The parts and the files

    - Prelude (this file): results of calls that return or raise ([res]), SQL
      tables as finite maps ([tbl_update], [tbl_count], [tbl_delete]), ordered
      dicts ([aget], [aset], [adel]), shared tactics and hints.
    - PyStr, Sha256, IsoTime, PyVal: the Python string operations, SHA-256 and
      HMAC, UTC timestamps as ISO text and as binary64 seconds, and the values
      of records with Python's equality and ordering.
    - AuthTokens: src/tram/agent/auth_tokens.py, the signed start
      authorizations a worker accepts ([mint_start_authorization],
      [validate_start_authorization]) and secret rotation.
    - Journal: src/tram/agent/journal.py, the worker's durable journal: the
      tables as a record [db], one definition per method of WorkerJournal, each
      run in an environment [env] that fixes the clock, the file size and what
      SQLite answers.  JournalSafety, JournalAdmission and JournalDelivery hold
      its theorems; JournalDelivery also models the outbox drain of
      src/tram/agent/server.py.
    - Ledger: src/tram/persistence/ledger.py over the tables of
      src/tram/persistence/db.py: claims, guards, attempts, intents,
      checkpoints.  LedgerLane: the statements src/tram/pipeline/controller.py
      runs on them, and the queued runs of db.py.  LedgerSafety: the theorems,
      over histories of those operations.
    - Paths, Transforms, TransformLaws: dotted paths
      (src/tram/transforms/path_utils.py, path_patterns.py) and the batch
      transforms rename, drop, value_map, limit, deduplicate, coalesce_fields,
      project, select_from_list, flatten, explode, unnest, melt, inject_meta
      and mask, one Module each, with their laws.
    - CounterDelta, CounterLaws: src/tram/transforms/counter_delta.py, the
      stateful counter deltas.
    - WindowAggregate, WindowLaws: src/tram/transforms/window_aggregate.py, the
      stateful tumbling windows, and their specification.
    - JsonFlatten, JsonFlattenLaws: src/tram/transforms/json_flatten.py over a
      store of dicts, because its rows share them.

    - Accounting: src/tram/core/context.py, src/tram/agent/metrics.py and the
      delivery accounting of src/tram/pipeline/executor.py: counters, outcomes
      of source units, the outcome of a run.
    - ExecKeys: the identities executor.py computes from the meta of a chunk
      (source units, broker records, frontiers) and the partitions of a sink
      with a record-dependent file name.
    - ExecMonad: the state of a run ([st]), the monad [M] its programs are
      written in, the trace of its effects ([event]) and the interface
      [External] of what it calls: source, sinks, serializers, transforms,
      checkpoint client, state store, clock.  [keeps R m] says that a program
      relates its states by R; ExecRel proves it for every program from its
      effects alone.
    - ExecSinks: executor.py from a chunk to its sinks ([_process_records],
      [_write_one_sink], circuit breaker, dead letters, rate limit).
      Framing, Passthrough: src/tram/pipeline/protobuf_passthrough.py.
      ExecBatch: the commit barrier, checkpoints, acknowledgements, the
      sequential chunk loop and the attempts of a batch run.  BatchThreads:
      the threaded chunk loop as a step relation.
    - ExecDemo: a concrete [External] that the witnesses run.  ExecSafety,
      ExecLoss, ExecLaws: the theorems of the executor.
    - Streams: the stream run of executor.py: the flush buffer, the cohorts of
      broker records, gaps, the interval flusher thread, over the interface
      [StreamExternal] of polling, tokens and the thread's schedule.  StreamRel
      lifts [keeps] to its programs; StreamLaws: the theorems.
    - WorkerPool: src/tram/agent/worker_pool.py, the manager's registry of
      workers as a record [pool], and src/tram/agent/stats_store.py.
      WorkerPoolLaws: the theorems.
    - AgentServer: the HTTP server of src/tram/agent/server.py over Journal: the
      registry of active runs, each request and each run thread as a machine
      that moves from one shared access to the next ([handler_step],
      [thread_step]), and [act], which lets any of them move, drains, stops,
      restarts.  AgentLaws: the theorems, and the composition with the pool.
    - CtlMonad: methods that mutate an object and may raise, and [keeps R m],
      proved along the structure of a program.
    - Manager: src/tram/pipeline/manager.py, the registry of pipelines, and the
      tables of src/tram/persistence/db.py for history, pipelines, versions,
      lifecycle operations and placements, as a record [database].
    - Controller, BatchLane, BootLane: src/tram/pipeline/controller.py with a
      database and a worker pool, as a record [ctl]: lifecycle operations,
      scheduling and stream dispatch; triggers, the bounded executor, batch
      threads, queued runs and completions; boot adoption.  Reconciler: the
      batch reconciler of src/tram/agent/reconciler.py and the lost-run verdict.
      Placements: the slots of stream placements in controller.py (reports,
      redispatch, drift, unplaced streams) and the placement reconciler.
    - ManagerSystem: the manager as one transition system ([sys], [step],
      [reach]): operators, batch threads, both reconcilers, callbacks, reports,
      the audit and restarts in any order, one section under the lock or one network call
      at a time; and [dstep], the rules its database must follow.
    - ManagerRel: every program of the controller follows the rules.
      ManagerSafety: every reachable state is well formed.  ManagerDemo: runs
      on concrete inputs.  ManagerLaws, ManagerEvents, BootLaws, BootAdopt: the
      theorems.  ManagerFindings: histories that depart from the comments.
      PlacementFrame, PlacementSafety: what leaves placements alone, and the
      invariant of the rest.  PlacementLaws: run ids, stops, and findings.
    - FileNames, FileSink: src/tram/connectors/file_sink_common.py with the local
      and the SFTP sink (src/tram/connectors/local/sink.py, sftp/sink.py): file
      names, roll-over, staging and publication over the interface
      [RollingFileBackend], with a disk whose calls may fail ([fate]) and whose
      unsynced names and data a power loss may take ([power_loss]).
      FileSinkLaws, FileSinkWrites: the theorems.

    Module and definition names are those of the code.  A method that changes
    state takes the state and returns it beside its result, also when it
    raises.  A start goes from AuthTokens into [Journal.validate_and_admit]; its
    result goes through [record_completion_and_enqueue], the outbox and
    [_drain_outbox_once]; on the manager the same attempt is claimed by
    [_claim_for_dispatch] and ended by [_terminalize_attempt].  Between the two,
    [WorkerPool._dispatch_to_worker] mints the token and posts the request that
    [AgentServer.handler_step] serves.  [ManagerSystem.step] drives both through
    [BatchLane.batch_step] and [Reconciler.recon_step].

    ** What the theorems show

    - Admission (JournalSafety, JournalAdmission): over every history of journal
      operations, restarts and failures included, an attempt is admitted at most
      once; revoked attempts and retired tokens are never admitted; the
      rejection watermark and the session epoch never go back; a refused start
      leaves the tables unchanged; a valid start is admitted and its redelivery
      is recognised.
    - Tokens (AuthTokens): minted tokens validate within their window, also
      after a secret rotation; what validates was signed under a known,
      non-empty secret for this worker session and has not expired.
    - Delivery (JournalDelivery): every unacknowledged result has exactly its
      row in the outbox; boot recovery restores that; results are acknowledged
      only after a successful post; due rows are posted; failures back off
      within bounds, until the backoff itself overflows.
    - Ledger (LedgerSafety): a pipeline has at most one live attempt; a held
      pipeline is not claimed; outcomes are final; a completion frees its
      pipeline; late callbacks touch nothing else; checkpoints never go back.
    - Records (Paths, TransformLaws): laws of the path operations; flatten,
      melt, explode, deduplicate and mask do what they say.
    - Counters (CounterLaws): emitted deltas are the true increments, wraps
      included, for any interleaving of series.
    - Windows (WindowLaws): accumulators and heap emit exactly the rows of a
      specification that keeps all records and scans; samples are conserved
      over batches, flushes and reloads; the state survives persistence.
    - Row shaping (JsonFlattenLaws): without row shaping json_flatten is
      flattening; with it, rows that share a dict lose an unwrapped choice.

    - Batch runs (ExecSafety, ExecLoss): a source unit is acknowledged only
      after a commit barrier that every sink confirmed and with no latched
      failure, and in a strict pipeline only after its checkpoint; a run that
      reports SUCCESS without dead letters lost none of the records the sinks
      were given; three ways in which a lost record is still acknowledged.
    - Threads (BatchThreads): in every interleaving a unit is finalized after
      all its chunks were processed, and units are finalized in source order.
    - Streams (StreamLaws): a broker record is acknowledged only after its sinks
      confirmed it and never at or past a gap of its partition; every buffered
      record goes to the sinks exactly once and in order; the buffer stays
      below its threshold.
    - Workers (AgentLaws): in every interleaving, restarts included, an attempt
      is handed to an executor at most once; when its thread has ended its
      result is in the journal and queued until acknowledged; a draining worker
      starts nothing new; a dispatch of the pool is admitted by its worker.
    - Manager (ManagerLaws, ManagerEvents): with everything interleaved the
      database follows its rules, a pipeline has one live attempt and one open
      queued run, queued runs move along their life cycle, recorded results are
      final, the executor is bounded, a completion touches its own run only,
      and a queued run is dispatched when a worker accepts it.
    - Boot (BootLaws, BootAdopt): an operator's stop survives a restart, and
      every attempt is settled by what the journals answer; a restart of a
      stopped pipeline does not survive it, and a queued run adopted while it
      is active stays open (ManagerFindings).
    - Streams of the manager (PlacementSafety, PlacementLaws): with single-stream
      placements a pipeline never has two active placements, whatever
      interleaves; a stop closes its placement; a redispatch supersedes the run
      it replaces, also for late reports.  A stop during a redispatch leaves a
      run behind, and slots 1 and 10 are taken for one another.
    - File sinks (FileSinkLaws, FileSinkWrites): whatever calls failed before,
      once a commit of the local sink is confirmed the staged bytes are under
      their final names after a power loss, and an interrupted commit can always
      be completed; the chunks of a unit arrive in order and once; parts stay
      within their caps on every backend.  Two units opened in the same second
      overwrite one another, and five more departures from the comments.
    - Placement (WorkerPoolLaws): every worker of a fleet at most one larger than
      the starvation threshold is chosen within a bound, and one worker more
      breaks it; the bookkeeping of runs is bounded and consistent; a worker goes
      down after exactly the configured number of failed probes.
    - Sinks (ExecLaws): attempts are bounded, the breaker opens exactly at its
      threshold, partitions hold every record exactly once, records in
      are records out plus skipped ones when sinks write all or nothing.
    - Passthrough (Framing, Passthrough): splitting terminates, what is written
      is the input byte for byte, framing is injective, and the list of
      reasons is empty exactly for the eligible pipelines.

    ** Choices and bounds

    Loops recurse on the list they consume (rows, records, fields, heap) or on
    the number of attempts the configuration allows.  There is fuel in three
    places.  Reading a dict of [JsonFlatten]'s store takes the number of cells,
    enough for every acyclic one ([load_ok]).  Splitting a payload into frames
    takes a quarter of its length plus one iterations, enough for every payload
    ([frame_loop_terminates]).  Scanning a format template takes its length,
    and every step consumes a character.  Integers are unbounded as in Python; floats are
    binary64 ([spec_float]).  A [str] is the string of its UTF-8 bytes.  SQLite
    and PostgreSQL statements are atomic steps on finite maps; each environment
    may make any statement fail.  Instants lie between 1970 and 9999 where text
    order stands for time order.

    Parameters, all universally quantified: the text of floats and containers
    ([PyText]), the parsing of record timestamps ([Clock]), the outcome of an
    HTTP request, [External] and [StreamExternal], [format] with a format spec
    ([Formatting]), the calls of an SFTP client ([SftpClient]), and for the worker's server
    the pipeline loader, [json.dumps] and what an executor came to.  Work of the
    thread pool is one step per chunk: chunks of a threaded run are processed in
    any order but do not interleave inside one another.

    The manager's clock and uuid generator are inputs of each action ([io]): one
    reading of the clock per section, and a run id that no table, thread or
    attempt has used before ([unused]).  The theorems on placements assume that
    placement ids do not repeat and that the routes checked the names of the
    configurations ([routed_reach]).  A crash of the manager falls between
    two sections, so the two transactions of a claim (claim, then dispatching)
    are one step.  Texts of exceptions are left out of operation records.

    ** Not modelled

    The pool of stream workers (_stream_run_threaded), construction and teardown
    of a run's components, the connectors other than the file sinks, serializers, HTTP routers, the
    standalone mode of the controller, Kubernetes, the linter, the models and the UI; within modelled files, schema migrations, file
    quarantine, status views, metrics and logging.  The parts that build most
    directly on what is here, in order: the file sinks as an instance of
    [External], the transforms validate, hex_decode, sort and aggregate, and the
    pool of stream workers. *)

From Stdlib Require Import ZArith Lia.
From stdpp Require Import base tactics list strings gmap option.
Import stdpp.list.

(** ** Results: Python calls that return or raise *)

Inductive res (E A : Type) : Type :=
| Ok (a : A)
| Raise (e : E).
Arguments Ok {E A} a.
Arguments Raise {E A} e.

Definition res_bind {E A B} (m : res E A) (k : A -> res E B) : res E B :=
  match m with
  | Ok a => k a
  | Raise e => Raise e
  end.

Definition res_map {E A B} (f : A -> B) (m : res E A) : res E B :=
  res_bind m (fun a => Ok (f a)).

Definition res_catch {E A} (m : res E A) (h : E -> res E A) : res E A :=
  match m with
  | Ok a => Ok a
  | Raise e => h e
  end.

Definition is_ok {E A} (m : res E A) : bool :=
  match m with Ok _ => true | Raise _ => false end.

Definition of_option {E A} (e : E) (o : option A) : res E A :=
  match o with Some a => Ok a | None => Raise e end.

Declare Scope tram_scope.
Delimit Scope tram_scope with tram.

Notation "'let?' x ':=' m 'in' k" := (res_bind m (fun x => k))
  (at level 10, x pattern, m at level 100, k at level 200) : tram_scope.
Notation "'raise' e" := (Raise e) (at level 10, e at level 9) : tram_scope.

#[global] Open Scope tram_scope.

#[global] Instance res_eq_dec {E A} `{EqDecision E, EqDecision A} : EqDecision (res E A).
Proof. solve_decision. Defined.

Fixpoint res_mapM {E A B} (f : A -> res E B) (l : list A) : res E (list B) :=
  match l with
  | [] => Ok []
  | a :: l' => let? b := f a in let? bs := res_mapM f l' in Ok (b :: bs)
  end.

Fixpoint res_foldM {E A S} (f : S -> A -> res E S) (l : list A) (s : S) : res E S :=
  match l with
  | [] => Ok s
  | a :: l' => let? s' := f s a in res_foldM f l' s'
  end.

(** ** Automation *)

Create HintDb tram.

(** Case analysis on every [match] of the goal or of a hypothesis. *)
Ltac split_match :=
  match goal with
  | |- context [match ?x with _ => _ end] => destruct x eqn:?
  | H : context [match ?x with _ => _ end] |- _ => destruct x eqn:?
  end.

(** Invert equations between constructors. *)
Ltac inv_eq := simplify_eq.

(** Reflect boolean comparisons into arithmetic facts. *)
Ltac bool_to_prop :=
  repeat match goal with
  | H : (_ && _)%bool = true |- _ => apply andb_true_iff in H as [? ?]
  | H : (_ || _)%bool = false |- _ => apply orb_false_iff in H as [? ?]
  | H : negb _ = true |- _ => apply negb_true_iff in H
  | H : negb _ = false |- _ => apply negb_false_iff in H
  | H : bool_decide _ = true |- _ => apply bool_decide_eq_true in H
  | H : bool_decide _ = false |- _ => apply bool_decide_eq_false in H
  | H : (_ <? _)%Z = true |- _ => apply Z.ltb_lt in H
  | H : (_ <? _)%Z = false |- _ => apply Z.ltb_ge in H
  | H : (_ <=? _)%Z = true |- _ => apply Z.leb_le in H
  | H : (_ <=? _)%Z = false |- _ => apply Z.leb_gt in H
  | H : (_ =? _)%Z = true |- _ => apply Z.eqb_eq in H
  | H : (_ =? _)%Z = false |- _ => apply Z.eqb_neq in H
  end.

Ltac crush := repeat (split_match; inv_eq; bool_to_prop; simplify_eq/=; try done).

(** ** Results *)

Lemma res_bind_ok {E A B} (m : res E A) (k : A -> res E B) b :
  res_bind m k = Ok b <-> exists a, m = Ok a /\ k a = Ok b.
Proof. destruct m; simpl; naive_solver. Qed.

Lemma res_mapM_length {E A B} (f : A -> res E B) l bs :
  res_mapM f l = Ok bs -> length bs = length l.
Proof.
  revert bs; induction l as [|a l IH]; intros bs H; simpl in *; [by inv_eq|].
  apply res_bind_ok in H as (b & _ & H). apply res_bind_ok in H as (bs' & Hl & H).
  inv_eq. simpl. f_equal. by apply IH.
Qed.

Lemma res_mapM_Forall2 {E A B} (f : A -> res E B) l bs :
  res_mapM f l = Ok bs <-> Forall2 (fun a b => f a = Ok b) l bs.
Proof.
  revert bs; induction l as [|a l IH]; intros bs; simpl; split; intros H.
  - inv_eq. constructor.
  - inversion H; subst; done.
  - apply res_bind_ok in H as (b & Hb & H). apply res_bind_ok in H as (bs' & Hl & H).
    inv_eq. constructor; [done|]. by apply IH.
  - inversion H as [|? b ? bs' Hb Hl]; subst. rewrite Hb; simpl.
    apply IH in Hl. by rewrite Hl.
Qed.

#[export] Hint Resolve res_mapM_length : tram.

(** ** Finite maps seen as SQL tables *)

(** [UPDATE t SET row = f row WHERE p key row]: the rows changed and the
    number of rows affected. *)
Definition tbl_update {K V} `{Countable K} (p : K -> V -> bool) (f : V -> V) (m : gmap K V) : gmap K V :=
  map_imap (fun k v => Some (if p k v then f v else v)) m.

Definition tbl_count {K V} `{Countable K} (p : K -> V -> bool) (m : gmap K V) : nat :=
  size (filter (fun kv => p kv.1 kv.2 = true) m).

(** [DELETE FROM t WHERE p key row]. *)
Definition tbl_delete {K V} `{Countable K} (p : K -> V -> bool) (m : gmap K V) : gmap K V :=
  filter (fun kv => p kv.1 kv.2 = false) m.

Section Tables.
Context {K V : Type} `{Countable K}.
Implicit Types (m : gmap K V) (p : K -> V -> bool) (f : V -> V).

Lemma lookup_tbl_update p f m k :
  tbl_update p f m !! k = (fun v => if p k v then f v else v) <$> m !! k.
Proof. unfold tbl_update. rewrite map_lookup_imap. by destruct (m !! k). Qed.

Lemma dom_tbl_update p f m : dom (tbl_update p f m) = dom m.
Proof.
  apply set_eq; intros k. rewrite !elem_of_dom, lookup_tbl_update.
  by rewrite fmap_is_Some.
Qed.

Lemma lookup_tbl_delete_Some p m k v :
  tbl_delete p m !! k = Some v <-> m !! k = Some v /\ p k v = false.
Proof. apply map_lookup_filter_Some. Qed.

Lemma lookup_tbl_delete_None p m k :
  tbl_delete p m !! k = None <-> forall v, m !! k = Some v -> p k v = true.
Proof.
  split.
  - intros Hn v Hv. destruct (p k v) eqn:E; [done|].
    assert (tbl_delete p m !! k = Some v) by by apply lookup_tbl_delete_Some. congruence.
  - intros Hp. destruct (tbl_delete p m !! k) as [v|] eqn:E; [|done].
    apply lookup_tbl_delete_Some in E as [E1 E2]. apply Hp in E1. congruence.
Qed.

Lemma dom_tbl_delete_subseteq p m : dom (tbl_delete p m) ⊆ dom m.
Proof. apply dom_filter_subseteq. Qed.

Lemma tbl_count_zero p m :
  tbl_count p m = 0 <-> forall k v, m !! k = Some v -> p k v = false.
Proof.
  unfold tbl_count. rewrite map_size_empty_iff, map_empty_filter.
  unfold map_Forall. split; intros Hp k v Hk; specialize (Hp k v Hk); simpl in *.
  - by apply not_true_is_false.
  - by rewrite Hp.
Qed.

(** A condition on the primary key selects at most one row. *)
Lemma tbl_count_key (k : K) (q : V -> bool) m :
  tbl_count (fun k' v => bool_decide (k' = k) && q v)%bool m
  = match m !! k with Some v => if q v then 1 else 0 | None => 0 end.
Proof.
  destruct (m !! k) as [v|] eqn:E; [destruct (q v) eqn:Eq|].
  - unfold tbl_count.
    assert (filter (fun kv : K * V => (bool_decide (kv.1 = k) && q kv.2)%bool = true) m
            = {[k := v]}) as ->; [|by rewrite map_size_singleton].
    apply map_eq; intros i. apply option_eq; intros w.
    rewrite map_lookup_filter_Some, lookup_singleton_Some; simpl.
    split; [intros [Hi Hp]; bool_to_prop; by simplify_eq|intros [-> ->]].
    split; [done|]. by rewrite bool_decide_eq_true_2, Eq.
  - apply tbl_count_zero. intros k' v' Hk. case_bool_decide; [|done]. by simplify_eq.
  - apply tbl_count_zero. intros k' v' Hk. case_bool_decide; [|done]. by simplify_eq.
Qed.
End Tables.

(** ** Insertion-ordered dicts with keys of any decidable type *)

Section Assoc.
Context {K V : Type} `{EqDecision K}.
Implicit Types (k : K) (v : V) (d : list (K * V)).

Fixpoint aget (k : K) (d : list (K * V)) : option V :=
  match d with
  | [] => None
  | (k', v) :: d' => if decide (k' = k) then Some v else aget k d'
  end.

(** In place when the key exists, appended otherwise. *)
Fixpoint aset (k : K) (v : V) (d : list (K * V)) : list (K * V) :=
  match d with
  | [] => [(k, v)]
  | (k', v') :: d' => if decide (k' = k) then (k', v) :: d' else (k', v') :: aset k v d'
  end.

Definition adel (k : K) (d : list (K * V)) : list (K * V) := filter (fun kv => kv.1 <> k) d.

Lemma aget_None k d : aget k d = None <-> k ∉ d.*1.
Proof.
  induction d as [|[k' v] d IH]; csimpl; [split; [intros _ H; by apply elem_of_nil in H|done]|].
  rewrite not_elem_of_cons. destruct (decide (k' = k)) as [->|Hne]; [naive_solver|].
  rewrite IH. naive_solver.
Qed.

Lemma aget_Some_elem k v d : aget k d = Some v -> (k, v) ∈ d.
Proof.
  induction d as [|[k' w] d IH]; csimpl; [done|]. destruct (decide (k' = k)) as [->|Hne].
  - intros [= ->]. by constructor.
  - intros H. apply elem_of_cons. auto.
Qed.

Lemma elem_aget k v d : NoDup d.*1 -> (k, v) ∈ d -> aget k d = Some v.
Proof.
  induction d as [|[k' w] d IH]; csimpl; intros Hn Hin; [by apply elem_of_nil in Hin|].
  apply NoDup_cons in Hn as [Hk Hn]. apply elem_of_cons in Hin as [[= -> ->]|Hin].
  - by rewrite decide_True.
  - rewrite decide_False; [by apply IH|]. intros ->. apply Hk.
    change k with ((k, v).1). by apply list_elem_of_fmap_2.
Qed.

Lemma aset_fresh k v d : k ∉ d.*1 -> aset k v d = d ++ [(k, v)].
Proof.
  induction d as [|[k' w] d IH]; csimpl; [done|]. rewrite not_elem_of_cons. intros [Hne Hk].
  rewrite decide_False by done. by rewrite IH.
Qed.

Lemma keys_aset_in k v d : k ∈ d.*1 -> (aset k v d).*1 = d.*1.
Proof.
  induction d as [|[k' w] d IH]; csimpl; intros Hk; [by apply elem_of_nil in Hk|].
  apply elem_of_cons in Hk. destruct (decide (k' = k)) as [->|Hne]; csimpl; [done|].
  rewrite IH; [done|]. by destruct Hk.
Qed.

Lemma aget_aset k v d : aget k (aset k v d) = Some v.
Proof.
  induction d as [|[k' w] d IH]; csimpl; [by rewrite decide_True|].
  destruct (decide (k' = k)) as [->|Hne]; csimpl; [by rewrite decide_True|by rewrite decide_False].
Qed.

Lemma aget_aset_ne k k' v d : k <> k' -> aget k (aset k' v d) = aget k d.
Proof.
  intros Hne. induction d as [|[x w] d IH]; simpl; repeat case_match; simplify_eq/=; try done;
    repeat case_match; congruence.
Qed.

Lemma aget_adel_ne k k' d : k <> k' -> aget k (adel k' d) = aget k d.
Proof.
  intros Hne. unfold adel. induction d as [|[n v] d IH]; [done|]. rewrite filter_cons. simpl.
  destruct (decide (n <> k')) as [Hn|Hn]; simpl; [by destruct (decide (n = k))|].
  rewrite IH. destruct (decide (n = k)); [|done]. destruct Hn. congruence.
Qed.

Lemma aget_adel k d : aget k (adel k d) = None.
Proof.
  unfold adel. induction d as [|[n v] d IH]; [done|]. rewrite filter_cons. simpl.
  destruct (decide (n <> k)) as [Hn|Hn]; simpl; [by rewrite decide_False|done].
Qed.

Lemma aget_adel_some k n d v :
  aget n (adel k d) = Some v -> n <> k /\ aget n d = Some v.
Proof.
  destruct (decide (n = k)) as [->|Hn]; [by rewrite aget_adel|]. by rewrite aget_adel_ne.
Qed.

Lemma aset_aset k v w d : aset k v (aset k w d) = aset k v d.
Proof.
  induction d as [|[k' u] d IH]; csimpl; [by rewrite decide_True|].
  destruct (decide (k' = k)) as [->|Hne]; csimpl; [by rewrite decide_True|].
  rewrite decide_False by done. by rewrite IH.
Qed.

Lemma aset_same k v d : aget k d = Some v -> aset k v d = d.
Proof.
  induction d as [|[k' w] d IH]; csimpl; [done|].
  destruct (decide (k' = k)) as [->|Hne]; [by intros [= ->]|]. intros H. by rewrite IH.
Qed.
End Assoc.
