(* ===== verification/PyStr.v ===== *)
(** * Python strings as the sources use them

    [str.split], [str.rsplit(_, 1)], [str.join], [int(str)], [str(int)] and
    the ASCII test of [hmac.compare_digest].  A Python [str] is the [string]
    of its UTF-8 bytes, so [encode()] is the identity.  [int()] is modelled on
    its ASCII grammar (surrounding blanks, one sign, digits with single
    underscores between them); CPython's 4300-digit guard and non-ASCII digits
    are outside the model. *)

From Stdlib Require Import ZArith Lia Ascii String DecimalString DecimalZ DecimalPos.
From stdpp Require Import base tactics list strings.
From S2P Require Import Prelude.

#[local] Open Scope string_scope.

(** [c in s] for a one-character [c]. *)
Fixpoint has_char (c : ascii) (s : string) : bool :=
  match s with
  | EmptyString => false
  | String a s' => (Ascii.eqb a c || has_char c s')%bool
  end.

(** [s.split(c)]. *)
Fixpoint split_on (c : ascii) (s : string) : list string :=
  match s with
  | EmptyString => [""]
  | String a s' =>
      if Ascii.eqb a c then "" :: split_on c s'
      else match split_on c s' with
           | [] => [String a ""]
           | w :: ws => String a w :: ws
           end
  end.

(** [sep.join(parts)]. *)
Definition py_join (sep : string) (parts : list string) : string := String.concat sep parts.

(** [s.rsplit(c, 1)]: [None] when [c] does not occur. *)
Fixpoint rsplit1 (c : ascii) (s : string) : option (string * string) :=
  match s with
  | EmptyString => None
  | String a s' =>
      match rsplit1 c s' with
      | Some (l, r) => Some (String a l, r)
      | None => if Ascii.eqb a c then Some ("", s') else None
      end
  end.

(** [s.startswith(p)]. *)
Fixpoint starts_with (p s : string) : bool :=
  match p, s with
  | EmptyString, _ => true
  | String a p', String b s' => (Ascii.eqb a b && starts_with p' s')%bool
  | _, _ => false
  end.

(** Every byte is below 128. *)
Fixpoint is_ascii (s : string) : bool :=
  match s with
  | EmptyString => true
  | String a s' => (Nat.ltb (nat_of_ascii a) 128 && is_ascii s')%bool
  end.

(** ** [int(str)] and [str(int)] *)

(** ASCII whitespace in the sense of [str.isspace]. *)
Definition is_space (a : ascii) : bool :=
  let n := nat_of_ascii a in
  ((9 <=? n) && (n <=? 13) || (28 <=? n) && (n <=? 32))%nat%bool.

Fixpoint lstrip (s : string) : string :=
  match s with
  | EmptyString => ""
  | String a s' => if is_space a then lstrip s' else s
  end.

Fixpoint rstrip (s : string) : string :=
  match s with
  | EmptyString => ""
  | String a s' =>
      match rstrip s' with
      | EmptyString => if is_space a then "" else String a ""
      | r => String a r
      end
  end.

(** [s.strip()]. *)
Definition strip (s : string) : string := rstrip (lstrip s).

Definition is_digit (a : ascii) : bool :=
  let n := nat_of_ascii a in ((48 <=? n) && (n <=? 57))%nat%bool.

(** Remove the underscores that [int()] allows: each one between two digits.
    [prev] says whether the previous character was a digit. *)
Fixpoint drop_underscores (prev : bool) (s : string) : option string :=
  match s with
  | EmptyString => if prev then Some "" else None
  | String a s' =>
      if is_digit a then String a <$> drop_underscores true s'
      else if (Ascii.eqb a "_" && prev)%bool then drop_underscores false s'
      else None
  end.

Definition py_uint (s : string) : option Z :=
  ds ← drop_underscores false s;
  d ← NilEmpty.uint_of_string ds;
  Some (Z.of_uint d).

(** [int(s)]; [None] is [ValueError]. *)
Definition py_int (s : string) : option Z :=
  match strip s with
  | String "-" r => Z.opp <$> py_uint r
  | String "+" r => py_uint r
  | r => py_uint r
  end.

(** [str(z)]. *)
Definition py_str (z : Z) : string := NilZero.string_of_int (Z.to_int z).

(** ** Lemmas: membership, split and py_join *)

Lemma has_char_app c s t : has_char c (s ++ t) = (has_char c s || has_char c t)%bool.
Proof. induction s as [|a s IH]; simpl; [done|]. by rewrite IH, orb_assoc. Qed.

Lemma split_on_ne c s : split_on c s <> [].
Proof. destruct s as [|a s]; simpl; [done|]. destruct (Ascii.eqb a c); [done|]. by destruct (split_on c s). Qed.

Lemma split_on_none c s : has_char c s = false -> split_on c s = [s].
Proof.
  induction s as [|a s IH]; simpl; [done|]. intros H; bool_to_prop.
  rewrite H, (IH H0). done.
Qed.

Lemma split_on_parts c s p : p ∈ split_on c s -> has_char c p = false.
Proof.
  revert p; induction s as [|a s IH]; intros p; simpl.
  - intros H. apply list_elem_of_singleton in H. by subst.
  - destruct (split_on c s) as [|q qs] eqn:E; [by apply split_on_ne in E|]. destruct (Ascii.eqb a c) eqn:Ea.
    + intros H. apply elem_of_cons in H as [->|H]; [done|]. by apply IH.
    + intros H. apply elem_of_cons in H as [->|H]; [|apply IH; by right].
      cbn [has_char]. rewrite Ea. apply IH. by left.
Qed.

Lemma split_on_app c s t :
  has_char c s = false ->
  split_on c (s ++ String c t) = s :: split_on c t.
Proof.
  induction s as [|a s IH]; simpl; [intros _; by rewrite Ascii.eqb_refl|].
  intros H; bool_to_prop. by rewrite H, (IH H0).
Qed.

(** [c.join(l).split(c) = l] for parts without [c]. *)
Lemma split_py_join c (l : list string) :
  l <> [] -> Forall (fun s => has_char c s = false) l ->
  split_on c (py_join (String c "") l) = l.
Proof.
  intros Hne Hf. induction Hf as [|s l Hs Hf IH]; [done|].
  destruct l as [|s' l]; [by apply split_on_none|].
  change (py_join (String c "") (s :: s' :: l)) with (s ++ String c (py_join (String c "") (s' :: l))).
  rewrite split_on_app by done. f_equal. by apply IH.
Qed.

(** Splitting loses nothing. *)
Lemma py_join_split c s : py_join (String c "") (split_on c s) = s.
Proof.
  induction s as [|a s IH]; [done|]. cbn [split_on].
  destruct (split_on c s) as [|w ws] eqn:E; [by apply split_on_ne in E|].
  destruct (Ascii.eqb a c) eqn:Ea.
  - apply Ascii.eqb_eq in Ea as ->.
    change (py_join (String c "") ("" :: w :: ws)) with (String c (py_join (String c "") (w :: ws))).
    by rewrite IH.
  - rewrite <- IH. by destruct ws.
Qed.

Lemma rsplit1_none c s : has_char c s = false -> rsplit1 c s = None.
Proof.
  induction s as [|a s IH]; simpl; [done|]. intros H; bool_to_prop. by rewrite IH, H.
Qed.

Lemma rsplit1_app c s t :
  has_char c t = false -> rsplit1 c (s ++ String c t) = Some (s, t).
Proof.
  intros Ht. induction s as [|a s IH]; simpl.
  - by rewrite rsplit1_none, Ascii.eqb_refl.
  - by rewrite IH.
Qed.

(** What [rsplit1] returns reassembles to the input, the right part having no
    separator. *)
Lemma rsplit1_inv c s l r :
  rsplit1 c s = Some (l, r) -> s = l ++ String c r /\ has_char c r = false.
Proof.
  revert l r; induction s as [|a s IH]; simpl; intros l r H; [done|].
  destruct (rsplit1 c s) as [[l' r']|] eqn:E.
  - inv_eq. destruct (IH l' r eq_refl) as [-> Hr]. done.
  - destruct (Ascii.eqb a c) eqn:Ea; [|done]. inv_eq. apply Ascii.eqb_eq in Ea as ->.
    split; [done|]. clear IH. induction r as [|b r IHr]; simpl in *; [done|].
    destruct (rsplit1 c r) as [[]|] eqn:E'; [done|].
    destruct (Ascii.eqb b c) eqn:Eb; [done|]. simpl. by apply IHr.
Qed.

(** ** Lemmas: integers *)

Fixpoint all_digits (s : string) : bool :=
  match s with
  | EmptyString => true
  | String a s' => (is_digit a && all_digits s')%bool
  end.

Lemma digit_not_space a : is_digit a = true -> is_space a = false.
Proof. by destruct a as [b0 b1 b2 b3 b4 b5 b6 b7]; destruct b0, b1, b2, b3, b4, b5, b6, b7. Qed.

Lemma all_digits_string_of_uint d : all_digits (NilEmpty.string_of_uint d) = true.
Proof. induction d; simpl; done. Qed.

Lemma all_digits_drop_underscores s b :
  all_digits s = true -> (s <> "" \/ b = true) -> drop_underscores b s = Some s.
Proof.
  revert b; induction s as [|a s IH]; simpl; intros b Hd Hne.
  - destruct Hne as [? | ->]; done.
  - bool_to_prop. rewrite H. rewrite IH; [done|done|by right].
Qed.

Lemma all_digits_rstrip s : all_digits s = true -> rstrip s = s.
Proof.
  induction s as [|a s IH]; simpl; [done|]. intros H; bool_to_prop.
  rewrite (IH H0). destruct s; [|done]. by rewrite (digit_not_space _ H).
Qed.

Lemma all_digits_no_char c s : is_digit c = false -> all_digits s = true -> has_char c s = false.
Proof.
  intros Hc. induction s as [|a s IH]; simpl; [done|]. intros H; bool_to_prop.
  rewrite (IH H0), orb_false_r. destruct (Ascii.eqb a c) eqn:E; [|done].
  apply Ascii.eqb_eq in E as ->. congruence.
Qed.

Lemma strip_digits_cons a s : is_space a = false -> all_digits s = true -> strip (String a s) = String a s.
Proof.
  intros Ha Hd. unfold strip. simpl. rewrite Ha. simpl.
  rewrite (all_digits_rstrip _ Hd). destruct s; [by rewrite Ha|done].
Qed.

Lemma py_uint_string d :
  d <> Decimal.Nil -> py_uint (NilEmpty.string_of_uint d) = Some (Z.of_uint d).
Proof.
  intros Hd. unfold py_uint. rewrite all_digits_drop_underscores.
  - simpl. by rewrite NilEmpty.usu.
  - apply all_digits_string_of_uint.
  - left. by destruct d.
Qed.

Lemma pos_to_uint_nonnil p : Pos.to_uint p <> Decimal.Nil.
Proof. intros E. apply (Unsigned.to_uint_nonnil p E). Qed.

(** [int(str(z)) = z]. *)
Lemma py_int_str z : py_int (py_str z) = Some z.
Proof.
  destruct z as [|p|p]; [done| |].
  - unfold py_str; simpl. pose proof (pos_to_uint_nonnil p) as Hn.
    assert (NilZero.string_of_uint (Pos.to_uint p) = NilEmpty.string_of_uint (Pos.to_uint p)) as ->
      by (by destruct (Pos.to_uint p)).
    unfold py_int. pose proof (all_digits_string_of_uint (Pos.to_uint p)) as Hd.
    pose proof (py_uint_string _ Hn) as Hu.
    assert (Z.of_uint (Pos.to_uint p) = Z.pos p) as Hz.
    { unfold Z.of_uint. rewrite Unsigned.of_to. done. }
    destruct (NilEmpty.string_of_uint (Pos.to_uint p)) as [|a s] eqn:E.
    { by destruct (Pos.to_uint p). }
    simpl in Hd. bool_to_prop. rewrite strip_digits_cons by (done || by apply digit_not_space).
    rewrite Hz in Hu. by destruct a as [b0 b1 b2 b3 b4 b5 b6 b7]; destruct b0, b1, b2, b3, b4, b5, b6, b7.
  - unfold py_str; simpl. pose proof (pos_to_uint_nonnil p) as Hn.
    assert (NilZero.string_of_uint (Pos.to_uint p) = NilEmpty.string_of_uint (Pos.to_uint p)) as ->
      by (by destruct (Pos.to_uint p)).
    unfold py_int. pose proof (all_digits_string_of_uint (Pos.to_uint p)) as Hd.
    rewrite strip_digits_cons by done. rewrite py_uint_string by done. simpl.
    unfold Z.of_uint. by rewrite Unsigned.of_to.
Qed.

Lemma py_str_inj z1 z2 : py_str z1 = py_str z2 -> z1 = z2.
Proof. intros E. pose proof (py_int_str z1) as H. rewrite E, py_int_str in H. by inv_eq. Qed.

Lemma py_str_no_char c z : is_digit c = false -> c <> "-"%char -> has_char c (py_str z) = false.
Proof.
  intros Hc Hm. pose proof (fun d => all_digits_no_char c _ Hc (all_digits_string_of_uint d)) as Hd.
  unfold py_str. assert (forall d, has_char c (NilZero.string_of_uint d) = false) as Hz.
  { intros d. destruct d; try apply Hd. cbn [NilZero.string_of_uint has_char].
    rewrite orb_false_r. apply Ascii.eqb_neq. intros <-. done. }
  destruct (Z.to_int z) as [d|d]; cbn [NilZero.string_of_int has_char]; [apply Hz|].
  rewrite Hz, orb_false_r. apply Ascii.eqb_neq. congruence.
Qed.
