(* ===== verification/Sha256.v ===== *)
(** * SHA-256 and HMAC-SHA-256

    The two [hashlib]/[hmac] digests the sources use, written out on 32-bit
    words kept as [Z] with their wrap-around, so that tokens and their hashes
    are computed by the model.  The digests are checked on the standard test
    vectors below. *)

From Stdlib Require Import ZArith Lia Ascii String.
From stdpp Require Import base tactics list strings.
From S2P Require Import Prelude PyStr.

#[local] Open Scope Z_scope.
#[local] Open Scope list_scope.

Module Sha256.

Definition w32 (x : Z) : Z := Z.land x 4294967295.
Definition add32 (x y : Z) : Z := w32 (x + y).
Definition rotr (n x : Z) : Z := w32 (Z.lor (Z.shiftr x n) (Z.shiftl x (32 - n))).
Definition not32 (x : Z) : Z := Z.lxor x 4294967295.

Definition ch (x y z : Z) : Z := Z.lxor (Z.land x y) (Z.land (not32 x) z).
Definition maj (x y z : Z) : Z := Z.lxor (Z.lxor (Z.land x y) (Z.land x z)) (Z.land y z).
Definition bsig0 (x : Z) : Z := Z.lxor (Z.lxor (rotr 2 x) (rotr 13 x)) (rotr 22 x).
Definition bsig1 (x : Z) : Z := Z.lxor (Z.lxor (rotr 6 x) (rotr 11 x)) (rotr 25 x).
Definition ssig0 (x : Z) : Z := Z.lxor (Z.lxor (rotr 7 x) (rotr 18 x)) (Z.shiftr x 3).
Definition ssig1 (x : Z) : Z := Z.lxor (Z.lxor (rotr 17 x) (rotr 19 x)) (Z.shiftr x 10).

Definition k256 : list Z :=
  [
   1116352408; 1899447441; 3049323471; 3921009573; 961987163; 1508970993;
   2453635748; 2870763221; 3624381080; 310598401; 607225278; 1426881987;
   1925078388; 2162078206; 2614888103; 3248222580; 3835390401; 4022224774;
   264347078; 604807628; 770255983; 1249150122; 1555081692; 1996064986;
   2554220882; 2821834349; 2952996808; 3210313671; 3336571891; 3584528711;
   113926993; 338241895; 666307205; 773529912; 1294757372; 1396182291;
   1695183700; 1986661051; 2177026350; 2456956037; 2730485921; 2820302411;
   3259730800; 3345764771; 3516065817; 3600352804; 4094571909; 275423344;
   430227734; 506948616; 659060556; 883997877; 958139571; 1322822218;
   1537002063; 1747873779; 1955562222; 2024104815; 2227730452; 2361852424;
   2428436474; 2756734187; 3204031479; 3329325298].

Definition h256 : list Z :=
  [
   1779033703; 3144134277; 1013904242; 2773480762; 1359893119; 2600822924;
   528734635; 1541459225].

(** Big-endian word of four bytes. *)
Fixpoint words (bs : list Z) : list Z :=
  match bs with
  | a :: b :: c :: d :: bs' => (a * 16777216 + b * 65536 + c * 256 + d) :: words bs'
  | _ => []
  end.

Definition word_bytes (w : Z) : list Z :=
  [Z.land (Z.shiftr w 24) 255; Z.land (Z.shiftr w 16) 255;
   Z.land (Z.shiftr w 8) 255; Z.land w 255].

(** Message padding: 0x80, zeros, 64-bit bit length. *)
Definition pad (bs : list Z) : list Z :=
  let n := Z.of_nat (length bs) in
  let zeros := Z.to_nat ((55 - n) mod 64) in
  let bits := n * 8 in
  bs ++ [128] ++ replicate zeros 0 ++ word_bytes (Z.shiftr bits 32) ++ word_bytes (w32 bits).

(** Message schedule, newest word first. *)
Fixpoint schedule (n : nat) (rev_ws : list Z) : list Z :=
  match n with
  | O => rev_ws
  | S n' =>
      let at_ i := nth i rev_ws 0 in
      let w := add32 (add32 (ssig1 (at_ 1%nat)) (at_ 6%nat))
                     (add32 (ssig0 (at_ 14%nat)) (at_ 15%nat)) in
      schedule n' (w :: rev_ws)
  end.

Definition round (st : list Z) (kw : Z * Z) : list Z :=
  match st with
  | [a; b; c; d; e; f; g; h] =>
      let t1 := add32 (add32 h (bsig1 e)) (add32 (ch e f g) (add32 kw.1 kw.2)) in
      let t2 := add32 (bsig0 a) (maj a b c) in
      [add32 t1 t2; a; b; c; add32 d t1; e; f; g]
  | _ => st
  end.

Definition compress (hs blk : list Z) : list Z :=
  let ws := rev (schedule 48 (rev (words blk))) in
  zip_with add32 hs (foldl round hs (zip k256 ws)).

Fixpoint blocks (fuel : nat) (bs : list Z) (hs : list Z) : list Z :=
  match fuel with
  | O => hs
  | S fuel' =>
      match bs with
      | [] => hs
      | _ => blocks fuel' (drop 64 bs) (compress hs (take 64 bs))
      end
  end.

(** [hashlib.sha256(bs).digest()]. *)
Definition digest (bs : list Z) : list Z :=
  let p := pad bs in
  blocks (S (Nat.div (length p) 64)) p h256 ≫= word_bytes.

Definition bytes_of_string (s : string) : list Z :=
  (fun a => Z.of_nat (nat_of_ascii a)) <$> list_ascii_of_string s.

Definition hex_digit (n : Z) : ascii :=
  ascii_of_nat (Z.to_nat (if n <? 10 then 48 + n else 87 + n)).

Fixpoint hex (bs : list Z) : string :=
  match bs with
  | [] => EmptyString
  | b :: bs' =>
      String (hex_digit (Z.land (Z.shiftr b 4) 15)) (String (hex_digit (Z.land b 15)) (hex bs'))
  end.

(** [hashlib.sha256(s.encode()).hexdigest()]. *)
Definition sha256_hex (s : string) : string := hex (digest (bytes_of_string s)).

(** The key of HMAC: hashed when longer than one block, zero-padded to 64 bytes. *)
Definition hmac_key (k : list Z) : list Z :=
  let k' := if (64 <? Z.of_nat (length k)) then digest k else k in
  k' ++ replicate (64 - length k') 0.

(** [hmac.new(key, msg, hashlib.sha256).digest()]. *)
Definition hmac (key msg : list Z) : list Z :=
  let k := hmac_key key in
  digest ((Z.lxor 92 <$> k) ++ digest ((Z.lxor 54 <$> k) ++ msg)).

(** [hmac.new(secret.encode(), payload.encode(), hashlib.sha256).hexdigest()]. *)
Definition hmac_hex (secret payload : string) : string :=
  hex (hmac (bytes_of_string secret) (bytes_of_string payload)).

Example sha256_abc :
  sha256_hex "abc" = "ba7816bf8f01cfea414140de5dae2223b00361a396177a9cb410ff61f20015ad"%string.
Proof. vm_compute. reflexivity. Qed.

Example sha256_two_blocks :
  sha256_hex "abcdbcdecdefdefgefghfghighijhijkijkljklmklmnlmnomnopnopq"
  = "248d6a61d20638b8e5c026930c3e6039a33ce45964ff2167f6ecedd419db06c1"%string.
Proof. vm_compute. reflexivity. Qed.

Example hmac_rfc4231_2 :
  hmac_hex "Jefe" "what do ya want for nothing?"
  = "5bdcc146bf60754e6a042426089575c75a003f089d2739839dec58b964ec3843"%string.
Proof. vm_compute. reflexivity. Qed.

(** ** Shape of a hex digest *)

Lemma hex_digit_range n : 0 <= n < 16 ->
  let k := nat_of_ascii (hex_digit n) in
  ((48 <= k <= 57) \/ (97 <= k <= 102))%nat.
Proof.
  intros H k. unfold k, hex_digit. destruct (Z.ltb_spec n 10); rewrite nat_ascii_embedding by lia; lia.
Qed.

Lemma nibble_range x : 0 <= Z.land x 15 < 16.
Proof.
  change 15 with (Z.ones 4). rewrite Z.land_ones by lia. apply Z.mod_pos_bound. lia.
Qed.

(** A character outside [0-9a-f]. *)
Definition not_hex (c : ascii) : Prop :=
  ~ ((48 <= nat_of_ascii c <= 57) \/ (97 <= nat_of_ascii c <= 102))%nat.

Lemma hex_no_char c bs : not_hex c -> has_char c (hex bs) = false.
Proof.
  intros Hc. induction bs as [|b bs IH]; [done|]. cbn [hex has_char]. rewrite IH.
  assert (forall x, Ascii.eqb (hex_digit (Z.land x 15)) c = false) as Hx.
  { intros x. apply Ascii.eqb_neq. intros <-. apply Hc, hex_digit_range, nibble_range. }
  by rewrite !Hx.
Qed.

Lemma hex_is_ascii bs : is_ascii (hex bs) = true.
Proof.
  induction bs as [|b bs IH]; [done|]. cbn [hex is_ascii]. rewrite IH.
  assert (forall x, Nat.ltb (nat_of_ascii (hex_digit (Z.land x 15))) 128 = true) as Hx.
  { intros x. apply Nat.ltb_lt. pose proof (hex_digit_range _ (nibble_range x)). simpl in *. lia. }
  by rewrite !Hx.
Qed.

End Sha256.
