(* ===== verification/AuthTokens.v ===== *)
(** * Start-authorization tokens ([src/tram/agent/auth_tokens.py])

    The manager mints [payload|hmac] for one dispatch, the worker parses it
    back and re-checks every claim.  [validate_start_authorization] returns the
    source's [AuthorizationResult] or raises: [hmac.compare_digest] refuses
    [str] arguments with non-ASCII characters ([TypeError]).  The module also
    holds the worker's session-secret rotation of [/agent/handshake]
    ([src/tram/agent/server.py]). *)

From Stdlib Require Import ZArith Lia Ascii String.
From stdpp Require Import base tactics list strings.
From S2P Require Import Prelude PyStr Sha256.

#[local] Open Scope Z_scope.
#[local] Open Scope list_scope.

Module AuthTokens.

(** The Python exceptions that leave this module. *)
Inductive auth_exn := ValueError | TypeError.

#[global] Instance auth_exn_eq_dec : EqDecision auth_exn.
Proof. solve_decision. Defined.

Definition _FIELD_COUNT : nat := 7.
Definition sep : ascii := "|"%char.
Definition _SEPARATOR : string := String sep EmptyString.

Record AuthorizationResult := mkResult {
  valid : bool;
  reason : option string;
  r_attempt_id : option string;
  r_run_id : option string;
  r_generation : option Z;
  r_slot_id : option string;
  r_issued_at_unix : option Z;
  r_ttl_s : option Z;
}.

Definition _invalid (why : string) : AuthorizationResult :=
  mkResult false (Some why) None None None None None None.

(** The seven signed claims of one dispatch. *)
Record claims := mkClaims {
  attempt_id : string;
  run_id : string;
  generation : Z;
  slot_id : string;
  worker_session : string;
  issued_at_unix : Z;
  ttl_s : Z;
}.

#[global] Instance claims_eq_dec : EqDecision claims.
Proof. solve_decision. Defined.

Definition fields (c : claims) : list string :=
  [attempt_id c; run_id c; py_str (generation c); slot_id c; worker_session c;
   py_str (issued_at_unix c); py_str (ttl_s c)].

Definition _payload (c : claims) : string := py_join _SEPARATOR (fields c).

Definition _sign (payload secret : string) : string := Sha256.hmac_hex secret payload.

Definition mint_start_authorization (c : claims) (secret : string) : res auth_exn string :=
  if existsb (has_char sep) (fields c) then raise ValueError
  else
    let payload := _payload c in
    Ok (String.append payload (String.append _SEPARATOR (_sign payload secret))).

(** [hmac.compare_digest(a, b)] on two [str]. *)
Definition compare_digest (a b : string) : res auth_exn bool :=
  if (is_ascii a && is_ascii b)%bool then Ok (String.eqb a b) else raise TypeError.

(** [not secret] for a [str | None]. *)
Definition no_secret (s : option string) : bool :=
  match s with None => true | Some x => String.eqb x "" end.

(** Signature check against the current secret, then the previous one. *)
Definition signature_ok (payload mac current : string) (previous : option string)
  : res auth_exn bool :=
  let? ok := compare_digest mac (_sign payload current) in
  if (ok : bool) then Ok true
  else match previous with
       | None => Ok false
       | Some p => compare_digest mac (_sign payload p)
       end.

Section Validate.
Context (expected_session current_secret : string) (previous_secret : option string).
Context (max_ttl_s clock_skew_s now_unix : Z).

(** The checks that follow the signature: session, skew, TTL, expiry. *)
Definition check_claims (aid rid : string) (gen : Z) (sid tsession : string) (iat ttl : Z)
  : AuthorizationResult :=
  if negb (String.eqb tsession expected_session) then _invalid "worker session mismatch"
  else if (now_unix + clock_skew_s <? iat) then _invalid "issued in the future"
  else if (ttl <? 0) then _invalid "negative ttl"
  else if (max_ttl_s <? ttl) then _invalid "ttl exceeds max"
  else if (iat + ttl <? now_unix) then _invalid "expired"
  else mkResult true None (Some aid) (Some rid) (Some gen) (Some sid) (Some iat) (Some ttl).

Definition validate_start_authorization (token : string) : res auth_exn AuthorizationResult :=
  match rsplit1 sep token with
  | None => Ok (_invalid "malformed token")
  | Some (payload, mac) =>
      match split_on sep payload with
      | [aid; rid; gen_raw; sid; tsession; iat_raw; ttl_raw] =>
          match py_int gen_raw, py_int iat_raw, py_int ttl_raw with
          | Some gen, Some iat, Some ttl =>
              if (String.eqb current_secret "" && no_secret previous_secret)%bool
              then Ok (_invalid "no session secret configured")
              else
                let? ok := signature_ok payload mac current_secret previous_secret in
                if (ok : bool) then Ok (check_claims aid rid gen sid tsession iat ttl)
                else Ok (_invalid "bad signature")
          | _, _, _ => Ok (_invalid "malformed token fields")
          end
      | _ => Ok (_invalid "malformed token payload")
      end
  end.
End Validate.

(** ** Session secrets of the worker *)

Record secrets := mkSecrets {
  auth_secret : string;
  auth_secret_previous : option string;
}.

(** Process start: the bootstrap secret of the environment, or none. *)
Definition boot_secrets (env_secret : string) : secrets := mkSecrets env_secret None.

(** [/agent/handshake]: rotate to a freshly minted secret. *)
Definition handshake (new_secret : string) (s : secrets) : secrets :=
  mkSecrets new_secret
    (if String.eqb (auth_secret s) "" then None else Some (auth_secret s)).

(** ** Lemmas *)

Lemma existsb_false_Forall (p : string -> bool) l :
  existsb p l = false <-> Forall (fun s => p s = false) l.
Proof.
  induction l as [|s l IH]; simpl; [split; [constructor|done]|].
  rewrite orb_false_iff, Forall_cons, IH. done.
Qed.

Lemma sep_not_hex : Sha256.not_hex sep.
Proof. intros [H|H]; vm_compute in H; lia. Qed.

Lemma sign_no_sep payload secret : has_char sep (_sign payload secret) = false.
Proof. apply Sha256.hex_no_char, sep_not_hex. Qed.

Lemma sign_is_ascii payload secret : is_ascii (_sign payload secret) = true.
Proof. apply Sha256.hex_is_ascii. Qed.

Lemma compare_digest_true a b : compare_digest a b = Ok true -> a = b.
Proof.
  unfold compare_digest. destruct (_ && _)%bool; [|done].
  intros H. inv_eq. by apply String.eqb_eq.
Qed.

Lemma compare_digest_sign mac payload secret :
  is_ascii mac = true ->
  compare_digest mac (_sign payload secret) = Ok (String.eqb mac (_sign payload secret)).
Proof. intros H. unfold compare_digest. by rewrite H, sign_is_ascii. Qed.

Lemma compare_digest_refl payload secret :
  compare_digest (_sign payload secret) (_sign payload secret) = Ok true.
Proof. rewrite compare_digest_sign by apply sign_is_ascii. by rewrite String.eqb_refl. Qed.

Lemma append_sep payload mac :
  String.append payload (String.append _SEPARATOR mac) = String.append payload (String sep mac).
Proof. done. Qed.

(** The claims read back from a payload built by [_payload]. *)
Lemma split_payload c :
  existsb (has_char sep) (fields c) = false -> split_on sep (_payload c) = fields c.
Proof.
  intros H. apply existsb_false_Forall in H. by apply split_py_join.
Qed.

Lemma signature_ok_true payload mac cur prev :
  signature_ok payload mac cur prev = Ok true ->
  mac = _sign payload cur \/ (exists p, prev = Some p /\ mac = _sign payload p).
Proof.
  unfold signature_ok. intros H. apply res_bind_ok in H as (ok & H1 & H2).
  destruct ok; [left; by apply compare_digest_true|].
  destruct prev as [p|]; [|done]. right. exists p. by apply compare_digest_true in H2.
Qed.

(** A valid result pins every check that was made. *)
Lemma check_claims_valid ses mx sk now aid rid gen sid ts iat ttl :
  valid (check_claims ses mx sk now aid rid gen sid ts iat ttl) = true ->
  ts = ses /\ iat <= now + sk /\ 0 <= ttl <= mx /\ now <= iat + ttl /\
  check_claims ses mx sk now aid rid gen sid ts iat ttl
  = mkResult true None (Some aid) (Some rid) (Some gen) (Some sid) (Some iat) (Some ttl).
Proof.
  unfold check_claims.
  destruct (negb _) eqn:E1; [done|]. destruct (now + sk <? iat) eqn:E2; [done|].
  destruct (ttl <? 0) eqn:E3; [done|]. destruct (mx <? ttl) eqn:E4; [done|].
  destruct (iat + ttl <? now) eqn:E5; [done|]. intros _. bool_to_prop.
  apply String.eqb_eq in E1. repeat split; done || lia.
Qed.

(** The worker's acceptance window for a token. *)
Definition in_window (ses : string) (mx sk now : Z) (c : claims) : Prop :=
  worker_session c = ses /\ issued_at_unix c <= now + sk /\
  0 <= ttl_s c <= mx /\ now <= issued_at_unix c + ttl_s c.

(** The result that carries exactly the claims [c]. *)
Definition accepted (c : claims) : AuthorizationResult :=
  mkResult true None (Some (attempt_id c)) (Some (run_id c)) (Some (generation c))
    (Some (slot_id c)) (Some (issued_at_unix c)) (Some (ttl_s c)).

Lemma check_claims_window ses mx sk now c :
  in_window ses mx sk now c ->
  check_claims ses mx sk now (attempt_id c) (run_id c) (generation c) (slot_id c)
    (worker_session c) (issued_at_unix c) (ttl_s c) = accepted c.
Proof.
  intros (Hs & Hi & Ht & He). unfold check_claims.
  assert (String.eqb (worker_session c) ses = true) as -> by (by apply String.eqb_eq).
  cbn [negb].
  destruct (now + sk <? issued_at_unix c) eqn:E1; [bool_to_prop; lia|].
  destruct (ttl_s c <? 0) eqn:E2; [bool_to_prop; lia|].
  destruct (mx <? ttl_s c) eqn:E3; [bool_to_prop; lia|].
  destruct (issued_at_unix c + ttl_s c <? now) eqn:E4; [bool_to_prop; lia|]. done.
Qed.

(** What validation of a minted token comes down to: the signature check. *)
Lemma validate_minted ses cur prev mx sk now c secret tok :
  mint_start_authorization c secret = Ok tok ->
  in_window ses mx sk now c ->
  (String.eqb cur "" && no_secret prev)%bool = false ->
  signature_ok (_payload c) (_sign (_payload c) secret) cur prev = Ok true ->
  validate_start_authorization ses cur prev mx sk now tok = Ok (accepted c).
Proof.
  unfold mint_start_authorization. intros Hm Hw Hsec Hsig.
  destruct (existsb _ _) eqn:Ef; [done|]. inv_eq.
  unfold validate_start_authorization.
  rewrite append_sep, rsplit1_app by apply sign_no_sep.
  rewrite (split_payload _ Ef). cbn [fields]. rewrite !py_int_str, Hsec, Hsig. cbn [res_bind].
  by rewrite check_claims_window.
Qed.

(** ** Properties *)

(** Round trip of a dispatch authorization.  A token minted for the claims
    [c] under the worker's current session secret, presented inside its
    acceptance window (session, clock skew, TTL cap, expiry), is validated and
    returns exactly the seven claims that were minted; minting itself succeeds
    whenever no field contains the separator. *)
Theorem mint_validate_roundtrip ses prev mx sk now c secret :
  existsb (has_char sep) (fields c) = false ->
  secret <> ""%string ->
  in_window ses mx sk now c ->
  exists tok, mint_start_authorization c secret = Ok tok /\
    validate_start_authorization ses secret prev mx sk now tok = Ok (accepted c).
Proof.
  intros Hf Hsec Hw. eexists; split; [unfold mint_start_authorization; by rewrite Hf|].
  eapply validate_minted; [by unfold mint_start_authorization; rewrite Hf|done| |].
  - apply andb_false_iff; left. by apply String.eqb_neq.
  - unfold signature_ok. by rewrite compare_digest_refl.
Qed.

Definition demo_claims : claims :=
  mkClaims "r1-a1" "r1" 3 "" "w0-ab12cd34" 1000 60.

Lemma mint_validate_roundtrip_witness :
  exists tok, mint_start_authorization demo_claims "k" = Ok tok /\
    validate_start_authorization "w0-ab12cd34" "k" None 600 5 1010 tok = Ok (accepted demo_claims).
Proof.
  apply (mint_validate_roundtrip "w0-ab12cd34" None 600 5 1010 demo_claims "k").
  - reflexivity.
  - discriminate.
  - unfold in_window; simpl; repeat split; lia.
Defined.

(** A token survives one secret rotation.  After a handshake rotates the
    worker's secret, a token minted under the previous one is still validated
    to the same claims inside its window, for every freshly minted secret. *)
Theorem handshake_keeps_previous_tokens ses mx sk now c st new tok :
  auth_secret st <> ""%string ->
  mint_start_authorization c (auth_secret st) = Ok tok ->
  in_window ses mx sk now c ->
  let st' := handshake new st in
  validate_start_authorization ses (auth_secret st') (auth_secret_previous st') mx sk now tok
  = Ok (accepted c).
Proof.
  intros Hne Hm Hw st'. subst st'. unfold handshake; simpl.
  destruct (String.eqb (auth_secret st) "") eqn:E; [by apply String.eqb_eq in E|].
  eapply validate_minted; [exact Hm|done|cbn [no_secret]; by rewrite E, andb_false_r|].
  unfold signature_ok. rewrite compare_digest_sign by apply sign_is_ascii. cbn [res_bind].
  destruct (String.eqb (_sign _ _) _); [done|]. apply compare_digest_refl.
Qed.

Lemma handshake_keeps_previous_tokens_witness :
  exists tok, mint_start_authorization demo_claims "old" = Ok tok /\
    validate_start_authorization "w0-ab12cd34" "new" (Some "old"%string) 600 5 1010 tok
    = Ok (accepted demo_claims).
Proof.
  eexists; split; [reflexivity|].
  apply (handshake_keeps_previous_tokens "w0-ab12cd34" 600 5 1010 demo_claims
           (boot_secrets "old") "new").
  - discriminate.
  - reflexivity.
  - unfold in_window; simpl; repeat split; lia.
Defined.



(** The secret states of a worker process: boot, then handshakes.  The minted
    secret is [secrets.token_hex(32)], 64 hex digits. *)
Inductive secrets_reachable : secrets -> Prop :=
| sr_boot env : secrets_reachable (boot_secrets env)
| sr_handshake st new :
    secrets_reachable st -> new <> ""%string -> secrets_reachable (handshake new st).

Lemma secrets_reachable_inv st :
  secrets_reachable st ->
  auth_secret_previous st <> Some ""%string /\
  (auth_secret st = ""%string -> auth_secret_previous st = None).
Proof.
  induction 1 as [env|st new _ [IH1 IH2] Hn]; simpl; [done|].
  destruct (String.eqb (auth_secret st) "") eqn:E; split; try done.
  apply String.eqb_neq in E. naive_solver.
Qed.

(** No empty-key forgery.  In every secret state a worker process can
    reach, an accepted token carries a MAC under a non-empty secret: an
    unconfigured (empty) secret never validates anything, neither as the
    current secret nor as the one retained by the first handshake. *)
Theorem accepted_under_nonempty_secret ses st mx sk now tok r :
  secrets_reachable st ->
  validate_start_authorization ses (auth_secret st) (auth_secret_previous st) mx sk now tok = Ok r ->
  valid r = true ->
  exists payload mac k, rsplit1 sep tok = Some (payload, mac) /\
    k <> ""%string /\ mac = _sign payload k /\
    (k = auth_secret st \/ auth_secret_previous st = Some k).
Proof.
  intros Hr%secrets_reachable_inv. destruct Hr as [Hp Hc]. unfold validate_start_authorization.
  destruct (rsplit1 sep tok) as [[payload mac]|] eqn:Er; [|intros; by inv_eq].
  destruct (split_on sep payload) as [|aid [|rid [|graw [|sid [|ts [|iraw [|traw [|x l]]]]]]]];
    try (intros; by inv_eq).
  destruct (py_int graw), (py_int iraw), (py_int traw); try (intros; by inv_eq).
  destruct (_ && _)%bool eqn:Es; [intros; by inv_eq|].
  destruct (signature_ok _ _ _ _) as [[]|] eqn:Esig; cbn [res_bind]; intros H Hv; [|by inv_eq|done].
  exists payload, mac. apply signature_ok_true in Esig as [Hm | (p & Hpp & Hm)].
  - exists (auth_secret st). repeat split; try done; [|by left].
    intros E. by rewrite E, (Hc E) in Es.
  - exists p. repeat split; try done; [|by right]. congruence.
Qed.

Lemma accepted_under_nonempty_secret_witness :
  exists tok payload mac k, mint_start_authorization demo_claims "old" = Ok tok /\
    rsplit1 sep tok = Some (payload, mac) /\
    k <> ""%string /\ mac = _sign payload k /\ (k = "new"%string \/ Some "old"%string = Some k).
Proof.
  eexists. destruct (accepted_under_nonempty_secret "w0-ab12cd34"
    (handshake "new" (boot_secrets "old")) 600 5 1010
    (match mint_start_authorization demo_claims "old" with Ok t => t | _ => ""%string end)
    (accepted demo_claims)) as (payload & mac & k & H).
  - apply sr_handshake; [apply sr_boot|discriminate].
  - vm_compute. reflexivity.
  - reflexivity.
  - exists payload, mac, k. split; [vm_compute; reflexivity|exact H].
Defined.

(** A well-formed token whose MAC part holds a non-ASCII character is not
    refused: the signature comparison raises [TypeError] out of the validator,
    whatever the secrets are. *)
Theorem non_ascii_mac_raises ses cur prev mx sk now tok payload mac aid rid graw sid ts iraw traw :
  rsplit1 sep tok = Some (payload, mac) ->
  split_on sep payload = [aid; rid; graw; sid; ts; iraw; traw] ->
  is_Some (py_int graw) -> is_Some (py_int iraw) -> is_Some (py_int traw) ->
  cur <> ""%string -> is_ascii mac = false ->
  validate_start_authorization ses cur prev mx sk now tok = raise TypeError.
Proof.
  intros Ht Hs [g Hg] [i Hi] [t Htt] Hc Ha. unfold validate_start_authorization.
  rewrite Ht, Hs, Hg, Hi, Htt. destruct (String.eqb cur "") eqn:E; [by apply String.eqb_eq in E|].
  cbn [andb]. unfold signature_ok, compare_digest. by rewrite Ha.
Qed.

Lemma non_ascii_mac_raises_witness :
  validate_start_authorization "w" "k" None 600 5 10
    (String.append "a|r|1||w|5|60|" (String (Ascii.ascii_of_nat 195) EmptyString)) = raise TypeError.
Proof.
  eapply (non_ascii_mac_raises "w" "k" None 600 5 10); [reflexivity|reflexivity|..].
  - eexists; reflexivity.
  - eexists; reflexivity.
  - eexists; reflexivity.
  - discriminate.
  - reflexivity.
Defined.

End AuthTokens.
