(* ===== verification/IsoTime.v ===== *)
(** * UTC datetimes, their ISO text and their millisecond clock

    The journal stores instants as the text of [datetime.isoformat()] and lets
    SQLite compare them as text; its watermark is
    [int(now.timestamp() * 1000)].  A UTC datetime is the number of
    microseconds since the Unix epoch.  This file writes out the rendering
    (the proleptic Gregorian calendar of CPython's [_ord2ymd], the microsecond
    part omitted when zero) and the binary64 rounding of [timestamp()], and
    proves the two facts the journal relies on: text order is chronological
    order, and the millisecond clock never falls below a whole second that has
    passed. *)

From Stdlib Require Import ZArith Lia Ascii String.
From stdpp Require Import base tactics list strings.
From S2P Require Import Prelude PyStr.

#[local] Open Scope Z_scope.

Module IsoTime.

Infix "+++" := String.append (at level 60, right associativity).

(** ** Rendering *)

Definition digit (n : Z) : ascii := ascii_of_nat (Z.to_nat (48 + n)).

(** [f"{n:0wd}"] for [0 <= n < 10 ^ w]. *)
Fixpoint zpad (w : nat) (n : Z) : string :=
  match w with
  | O => ""%string
  | S w' => String (digit ((n / 10 ^ Z.of_nat w') mod 10)) (zpad w' n)
  end.

Definition days_before_month (m : Z) : Z :=
  nth (Z.to_nat m) [0; 0; 31; 59; 90; 120; 151; 181; 212; 243; 273; 304; 334] 0.
Definition days_in_month (m : Z) : Z :=
  nth (Z.to_nat m) [0; 31; 28; 31; 30; 31; 30; 31; 31; 30; 31; 30; 31] 0.

(** Month and day of day [n] of a year. *)
Definition month_day (leap : bool) (n : Z) : Z * Z :=
  let month := Z.shiftr (n + 50) 5 in
  let preceding := days_before_month month + Z.b2z ((2 <? month) && leap)%bool in
  if (n <? preceding) then
    let month' := month - 1 in
    let preceding' := preceding - (days_in_month month' + Z.b2z ((month' =? 2) && leap)%bool) in
    (month', n - preceding' + 1)
  else (month, n - preceding + 1).

(** The date from the century, 4-year, year and day digits of CPython's
    [_ord2ymd]. *)
Definition ymd_digits (n100 n4 n1 n : Z) : Z * Z * Z :=
  let year := 1 + n100 * 100 + n4 * 4 + n1 in
  if ((n1 =? 4) || (n100 =? 4))%bool then (year - 1, 12, 31)
  else
    let leap := ((n1 =? 3) && (negb (n4 =? 24) || (n100 =? 3)))%bool in
    let '(m, d) := month_day leap n in (year, m, d).

(** Year offset (1..400), month and day of day [n] of a 400-year cycle. *)
Definition cycle_ymd (n : Z) : Z * Z * Z :=
  let n100 := n / 36524 in let n := n mod 36524 in
  let n4 := n / 1461 in let n := n mod 1461 in
  let n1 := n / 365 in let n := n mod 365 in
  ymd_digits n100 n4 n1 n.

Definition ymd_of_days (d : Z) : Z * Z * Z :=
  let n := d + 719162 in
  let '(y, m, dd) := cycle_ymd (n mod 146097) in
  ((n / 146097) * 400 + y, m, dd).

Definition us_per_day : Z := 86400000000.

Definition micro_tail (us : Z) : string :=
  (if us =? 0 then ""%string else ("." +++ zpad 6 us)) +++ "+00:00".

(** [datetime.isoformat()] of the UTC instant [t]. *)
Definition isoformat (t : Z) : string :=
  let '(y, m, d) := ymd_of_days (t / us_per_day) in
  let r := t mod us_per_day in
  zpad 4 y +++ "-" +++ zpad 2 m +++ "-" +++ zpad 2 d +++ "T" +++
  zpad 2 (r / 3600000000) +++ ":" +++ zpad 2 ((r / 60000000) mod 60) +++ ":" +++
  zpad 2 ((r / 1000000) mod 60) +++ micro_tail (r mod 1000000).

(** SQLite's [a <= b] on TEXT (binary collation). *)
Definition text_leb (a b : string) : bool :=
  match String.compare a b with Gt => false | _ => true end.

(** ** The millisecond clock *)

(** Nearest integer to [n / d], ties to even. *)
Definition round_div (n d : Z) : Z :=
  let q := n / d in
  let r := n mod d in
  match (2 * r ?= d) with
  | Lt => q
  | Gt => q + 1
  | Eq => if Z.even q then q else q + 1
  end.

(** The binary64 number nearest to [n / d] for [d <= n < 2 ^ 53 * d]: its
    mantissa and the negated exponent. *)
Definition binary64 (n d : Z) : Z * Z :=
  let s := 52 - Z.log2 (n / d) in
  (round_div (n * 2 ^ s) d, s).

(** [int(t.timestamp() * 1000)]: seconds as a binary64, times 1000 rounded
    again, truncated.  Exact for instants from one second after the epoch. *)
Definition timestamp_ms (t : Z) : Z :=
  let '(m, s) := binary64 t 1000000 in
  let '(m', s') := binary64 (m * 1000) (2 ^ s) in
  m' / 2 ^ s'.

(** [int(t.timestamp())]. *)
Definition timestamp_s (t : Z) : Z :=
  let '(m, s) := binary64 t 1000000 in m / 2 ^ s.

(** [datetime.fromtimestamp(n, tz=UTC)] for an integer [n]. *)
Definition fromtimestamp (n : Z) : Z := n * 1000000.

Example iso_example : isoformat 1700000000123456 = "2023-11-14T22:13:20.123456+00:00"%string.
Proof. vm_compute. reflexivity. Qed.

Example iso_example_whole : isoformat 951782400000000 = "2000-02-29T00:00:00+00:00"%string.
Proof. vm_compute. reflexivity. Qed.

Example timestamp_ms_example : timestamp_ms 1700000000123456 = 1700000000123.
Proof. vm_compute. reflexivity. Qed.

(** ** Lexicographic comparison *)

Definition lex (c d : comparison) : comparison :=
  match c with Eq => d | _ => c end.

Lemma lex_assoc a b c : lex (lex a b) c = lex a (lex b c).
Proof. by destruct a. Qed.

Lemma compare_app a a' b b' :
  String.length a = String.length a' ->
  String.compare (a +++ b) (a' +++ b') = lex (String.compare a a') (String.compare b b').
Proof.
  revert a'; induction a as [|x a IH]; intros [|x' a'] Hl; try discriminate.
  - reflexivity.
  - change (String x a +++ b) with (String x (a +++ b)).
    change (String x' a' +++ b') with (String x' (a' +++ b')). cbn [String.compare].
    destruct (Ascii.compare x x'); [|reflexivity|reflexivity]. apply IH. by injection Hl.
Qed.

Lemma compare_refl s : String.compare s s = Eq.
Proof.
  induction s as [|a s IH]; [done|]. cbn. unfold Ascii.compare. by rewrite N.compare_refl.
Qed.

Lemma zpad_length w n : String.length (zpad w n) = w.
Proof. induction w as [|w IH]; cbn; [done|by rewrite IH]. Qed.

Lemma digit_compare a b :
  0 <= a < 10 -> 0 <= b < 10 -> Ascii.compare (digit a) (digit b) = (a ?= b).
Proof.
  intros Ha Hb.
  assert (forall x, 0 <= x < 10 -> N_of_ascii (digit x) = Z.to_N (48 + x)) as Hd.
  { intros x Hx. unfold digit, ascii_of_nat. rewrite N_ascii_embedding by lia. lia. }
  unfold Ascii.compare. rewrite !Hd by done.
  destruct (Z.compare_spec a b);
    [apply N.compare_eq_iff|apply N.compare_lt_iff|apply N.compare_gt_iff]; lia.
Qed.

(** Mixed-radix numbers compare digit by digit. *)
Lemma radix_compare B q r q' r' :
  0 <= r < B -> 0 <= r' < B ->
  (q * B + r ?= q' * B + r') = lex (q ?= q') (r ?= r').
Proof.
  intros Hr Hr'. destruct (Z.compare_spec q q') as [->|Hlt|Hgt]; cbn.
  - apply Zcompare_plus_compat.
  - apply Z.compare_lt_iff. nia.
  - apply Z.compare_gt_iff. nia.
Qed.

Lemma zpad_compare w n m :
  0 <= n -> 0 <= m ->
  String.compare (zpad w n) (zpad w m) = (n mod 10 ^ Z.of_nat w ?= m mod 10 ^ Z.of_nat w).
Proof.
  intros Hn Hm. induction w as [|w IH].
  - cbn -[Z.modulo]. by rewrite !Z.mod_1_r.
  - cbn [zpad String.compare]. rewrite digit_compare by (apply Z.mod_pos_bound; lia).
    rewrite IH. rewrite Nat2Z.inj_succ, Z.pow_succ_r by lia.
    assert (0 < 10 ^ Z.of_nat w) as Hp by (apply Z.pow_pos_nonneg; lia).
    rewrite (Z.mul_comm 10).
    rewrite !Z.rem_mul_r by lia.
    rewrite (Z.add_comm (n mod _)), (Z.add_comm (m mod _)).
    rewrite !(Z.mul_comm (10 ^ Z.of_nat w)).
    rewrite radix_compare by (apply Z.mod_pos_bound; lia). by destruct ((n / _) mod 10 ?= _).
Qed.

Lemma zpad_compare_small w n m :
  0 <= n < 10 ^ Z.of_nat w -> 0 <= m < 10 ^ Z.of_nat w ->
  String.compare (zpad w n) (zpad w m) = (n ?= m).
Proof. intros Hn Hm. rewrite zpad_compare by lia. by rewrite !Z.mod_small. Qed.

(** A zero-padded field followed by more text. *)
Lemma zpad_app_compare w n m s t :
  0 <= n < 10 ^ Z.of_nat w -> 0 <= m < 10 ^ Z.of_nat w ->
  String.compare (zpad w n +++ s) (zpad w m +++ t) = lex (n ?= m) (String.compare s t).
Proof. intros Hn Hm. rewrite compare_app by (by rewrite !zpad_length). by rewrite zpad_compare_small. Qed.

Lemma const_app_compare c s t :
  String.compare (c +++ s) (c +++ t) = String.compare s t.
Proof. rewrite compare_app by done. by rewrite compare_refl. Qed.

Lemma micro_tail_compare a b :
  0 <= a < 1000000 -> 0 <= b < 1000000 ->
  String.compare (micro_tail a) (micro_tail b) = (a ?= b).
Proof.
  intros Ha Hb. unfold micro_tail.
  destruct (a =? 0) eqn:Ea, (b =? 0) eqn:Eb; bool_to_prop; subst.
  - by rewrite compare_refl.
  - symmetry. apply Z.compare_lt_iff. lia.
  - symmetry. apply Z.compare_gt_iff. lia.
  - change (("." +++ zpad 6 a) +++ "+00:00") with ("." +++ (zpad 6 a +++ "+00:00")).
    change (("." +++ zpad 6 b) +++ "+00:00") with ("." +++ (zpad 6 b +++ "+00:00")).
    rewrite const_app_compare, zpad_app_compare by (cbn; lia).
    rewrite compare_refl. by destruct (a ?= b).
Qed.

(** ** The calendar is increasing *)

Definition ymd_key (k : Z * Z * Z) : Z := let '(y, m, d) := k in (y * 13 + m) * 32 + d.

Definition ymd_ok (k : Z * Z * Z) : bool :=
  let '(y, m, d) := k in
  ((1 <=? y) && (y <=? 400) && (1 <=? m) && (m <=? 12) && (1 <=? d) && (d <=? 31))%bool.

(** Every day of a year is a valid date, later than the day before. *)
Fixpoint check_year (leap : bool) (fuel : nat) (n : Z) : bool :=
  match fuel with
  | O => true
  | S f =>
      let '(m, d) := month_day leap n in
      let '(m', d') := month_day leap (n + 1) in
      ((1 <=? m) && (m <=? 12) && (1 <=? d) && (d <=? 31) && (m * 32 + d <? m' * 32 + d')
       && check_year leap f (n + 1))%bool
  end.

Lemma check_year_ok leap : check_year leap 365 0 = true.
Proof. destruct leap; vm_compute; reflexivity. Qed.

Lemma check_year_sound leap fuel n :
  check_year leap fuel n = true ->
  forall i, n <= i < n + Z.of_nat fuel ->
  let '(m, d) := month_day leap i in
  let '(m', d') := month_day leap (i + 1) in
  1 <= m <= 12 /\ 1 <= d <= 31 /\ m * 32 + d < m' * 32 + d'.
Proof.
  revert n; induction fuel as [|f IH]; intros n H i Hi; [lia|].
  cbn [check_year] in H. destruct (decide (i = n)) as [->|Hne].
  - destruct (month_day leap n), (month_day leap (n + 1)). bool_to_prop. lia.
  - apply (IH (n + 1)); [|lia]. destruct (month_day leap n), (month_day leap (n + 1)). by bool_to_prop.
Qed.

Lemma month_day_step leap i : 0 <= i < 365 ->
  let '(m, d) := month_day leap i in
  let '(m', d') := month_day leap (i + 1) in
  1 <= m <= 12 /\ 1 <= d <= 31 /\ m * 32 + d < m' * 32 + d'.
Proof. intros Hi. apply (check_year_sound _ _ _ (check_year_ok leap)). lia. Qed.

Lemma month_day_first leap : month_day leap 0 = (1, 1).
Proof. by destruct leap. Qed.

Lemma month_day_365_leap : month_day true 364 = (12, 30).
Proof. done. Qed.

(** The digits of a day number. *)
Definition digits_ok (c q y r : Z) : Prop :=
  0 <= c /\ 0 <= q /\ 0 <= y /\ 0 <= r < 365 /\ 365 * y + r < 1461 /\
  1461 * q + 365 * y + r < 36524.

Definition of_digits (c q y r : Z) : Z := 36524 * c + 1461 * q + 365 * y + r.

Lemma cycle_of_digits c q y r :
  digits_ok c q y r -> cycle_ymd (of_digits c q y r) = ymd_digits c q y r.
Proof.
  intros (Hc & Hq & Hy & Hr & H1 & H2). unfold cycle_ymd, of_digits.
  assert (forall b x z, 0 <= z < b -> (b * x + z) / b = x /\ (b * x + z) mod b = z) as Hd.
  { intros b x z Hz. split; [symmetry; by apply Z.div_unique with z; lia|].
    symmetry; by apply Z.mod_unique with x; lia. }
  replace (36524 * c + 1461 * q + 365 * y + r) with (36524 * c + (1461 * q + (365 * y + r))) by lia.
  destruct (Hd 36524 c (1461 * q + (365 * y + r))) as [-> ->]; [lia|].
  destruct (Hd 1461 q (365 * y + r)) as [-> ->]; [lia|].
  by destruct (Hd 365 y r) as [-> ->]; [lia|].
Qed.

Lemma digits_exist n : 0 <= n -> exists c q y r, digits_ok c q y r /\ n = of_digits c q y r.
Proof.
  intros Hn.
  exists (n / 36524), (n mod 36524 / 1461), (n mod 36524 mod 1461 / 365), (n mod 36524 mod 1461 mod 365).
  unfold digits_ok, of_digits.
  pose proof (Z.div_mod n 36524 ltac:(lia)). pose proof (Z.mod_pos_bound n 36524 ltac:(lia)).
  pose proof (Z.div_mod (n mod 36524) 1461 ltac:(lia)).
  pose proof (Z.mod_pos_bound (n mod 36524) 1461 ltac:(lia)).
  pose proof (Z.div_mod (n mod 36524 mod 1461) 365 ltac:(lia)).
  pose proof (Z.mod_pos_bound (n mod 36524 mod 1461) 365 ltac:(lia)).
  repeat split; try lia; try (apply Z.div_pos; lia).
Qed.

(** The digits of the next day. *)
Lemma digits_succ c q y r :
  digits_ok c q y r -> of_digits c q y r < 146096 ->
  exists c' q' y' r', digits_ok c' q' y' r' /\
    of_digits c q y r + 1 = of_digits c' q' y' r' /\
    ((y < 4 /\ c' = c /\ q' = q /\ y' = y /\ r' = r + 1) \/
     (y < 3 /\ r = 364 /\ c' = c /\ q' = q /\ y' = y + 1 /\ r' = 0) \/
     (y = 3 /\ r = 364 /\ q < 24 /\ c' = c /\ q' = q /\ y' = 4 /\ r' = 0) \/
     (y = 3 /\ r = 364 /\ q = 24 /\ c' = c + 1 /\ q' = 0 /\ y' = 0 /\ r' = 0) \/
     (y = 4 /\ r = 0 /\ c' = c /\ q' = q + 1 /\ y' = 0 /\ r' = 0)).
Proof.
  intros (Hc & Hq & Hy & Hr & H1 & H2) Hn. unfold digits_ok, of_digits in *.
  destruct (decide (y = 4)) as [->|Hy4].
  { exists c, (q + 1), 0, 0. lia. }
  destruct (decide (r = 364)) as [->|Hr4].
  2: { exists c, q, y, (r + 1). lia. }
  destruct (decide (y < 3)). { exists c, q, (y + 1), 0. lia. }
  destruct (decide (q = 24)). { exists (c + 1), 0, 0, 0. lia. }
  exists c, q, 4, 0. lia.
Qed.

Lemma ymd_digits_ok c q y r :
  digits_ok c q y r -> of_digits c q y r < 146097 -> ymd_ok (ymd_digits c q y r) = true.
Proof.
  intros (Hc & Hq & Hy & Hr & H1 & H2) Hn. unfold of_digits, ymd_digits in *.
  destruct (_ || _)%bool eqn:E.
  - unfold ymd_ok. rewrite !andb_true_iff, !Z.leb_le. apply orb_true_iff in E.
    rewrite !Z.eqb_eq in E. lia.
  - set (leap := (_ && _)%bool). pose proof (month_day_step leap r Hr) as Hm.
    destruct (month_day leap r), (month_day leap (r + 1)). bool_to_prop.
    unfold ymd_ok. rewrite !andb_true_iff, !Z.leb_le. lia.
Qed.

Lemma ymd_digits_key c q y r :
  digits_ok c q y r -> y <> 4 -> c <> 4 ->
  exists m d leap, month_day leap r = (m, d) /\ 1 <= m <= 12 /\ 1 <= d <= 31 /\
    leap = ((y =? 3) && (negb (q =? 24) || (c =? 3)))%bool /\
    ymd_digits c q y r = (1 + c * 100 + q * 4 + y, m, d).
Proof.
  intros (Hc & Hq & Hy & Hr & H1 & H2) Hy4 Hc4. unfold ymd_digits.
  apply Z.eqb_neq in Hy4, Hc4. rewrite Hy4, Hc4. cbn [orb].
  set (leap := (_ && _)%bool). pose proof (month_day_step leap r Hr) as Hm.
  destruct (month_day leap r) as [m d] eqn:E, (month_day leap (r + 1)).
  exists m, d, leap. repeat split; try done; lia.
Qed.

Lemma cycle_step i : 0 <= i < 146096 -> ymd_key (cycle_ymd i) < ymd_key (cycle_ymd (i + 1)).
Proof.
  intros Hi. destruct (digits_exist i) as (c & q & y & r & Hd & ->); [lia|].
  destruct (digits_succ c q y r Hd) as (c' & q' & y' & r' & Hd' & -> & Hcase); [lia|].
  rewrite !cycle_of_digits by done.
  pose proof Hd as Hd0. destruct Hd0 as (? & ? & ? & Hr & ? & ?).
  assert (c < 4) as Hc by (unfold of_digits in Hi; lia).
  destruct Hcase as [Hx|[Hx|[Hx|[Hx|Hx]]]]; destruct_and! Hx; subst.
  - destruct (ymd_digits_key c q y r Hd) as (m & d & leap & Em & ? & ? & Hl & ->); [lia|lia|].
    destruct (ymd_digits_key c q y (r + 1) Hd') as (m' & d' & l' & Em' & ? & ? & Hl' & ->); [lia|lia|].
    subst l'. rewrite <- Hl in Em'. pose proof (month_day_step leap r Hr) as Hm.
    rewrite Em, Em' in Hm. cbn. lia.
  - destruct (ymd_digits_key c q y 364 Hd) as (m & d & leap & Em & ? & ? & Hl & ->); [lia|lia|].
    destruct (ymd_digits_key c q (y + 1) 0 Hd') as (m' & d' & l' & Em' & ? & ? & Hl' & ->); [lia|lia|].
    cbn. lia.
  - destruct (ymd_digits_key c q 3 364 Hd) as (m & d & leap & Em & ? & ? & Hl & ->); [lia|lia|].
    assert ((q =? 24) = false) as Hq24 by (apply Z.eqb_neq; lia).
    rewrite Hq24 in Hl. cbn in Hl. subst leap. rewrite month_day_365_leap in Em. inv_eq.
    cbn. lia.
  - destruct (ymd_digits_key c 24 3 364 Hd) as (m & d & leap & Em & ? & ? & Hl & ->); [lia|lia|].
    destruct (decide (c = 3)) as [->|Hc3].
    + cbn in Hl. subst leap. rewrite month_day_365_leap in Em. inv_eq. reflexivity.
    + destruct (ymd_digits_key (c + 1) 0 0 0 Hd') as (m' & d' & l' & Em' & ? & ? & Hl' & ->); [lia|lia|].
      cbn. lia.
  - destruct (ymd_digits_key c (q + 1) 0 0 Hd') as (m' & d' & l' & Em' & ? & ? & Hl' & ->); [lia|lia|].
    unfold ymd_digits. cbn [Z.eqb Pos.eqb orb]. cbn. lia.
Qed.

Lemma cycle_ok i : 0 <= i < 146097 -> ymd_ok (cycle_ymd i) = true.
Proof.
  intros Hi. destruct (digits_exist i) as (c & q & y & r & Hd & ->); [lia|].
  rewrite cycle_of_digits by done. apply ymd_digits_ok; [done|lia].
Qed.

Lemma ymd_of_days_key d :
  ymd_key (ymd_of_days d)
  = (d + 719162) / 146097 * 166400 + ymd_key (cycle_ymd ((d + 719162) mod 146097)).
Proof. unfold ymd_of_days. destruct (cycle_ymd _) as [[y m] dd]. cbn. lia. Qed.

Lemma cycle_last : ymd_key (cycle_ymd 146096) = (400 * 13 + 12) * 32 + 31.
Proof. reflexivity. Qed.
Lemma cycle_first : ymd_key (cycle_ymd 0) = (13 + 1) * 32 + 1.
Proof. reflexivity. Qed.

Lemma ymd_key_succ d : ymd_key (ymd_of_days d) < ymd_key (ymd_of_days (d + 1)).
Proof.
  rewrite !ymd_of_days_key. set (n := d + 719162).
  replace (d + 1 + 719162) with (n + 1) by lia.
  pose proof (Z.mod_pos_bound n 146097 ltac:(lia)) as Hb.
  pose proof (Z.div_mod n 146097 ltac:(lia)) as Hn.
  destruct (decide (n mod 146097 = 146096)) as [Hlast|Hne].
  - assert ((n + 1) / 146097 = n / 146097 + 1) as ->.
    { symmetry. apply Z.div_unique with 0; lia. }
    assert ((n + 1) mod 146097 = 0) as ->.
    { symmetry. apply Z.mod_unique with (n / 146097 + 1); lia. }
    rewrite Hlast, cycle_last, cycle_first. lia.
  - assert ((n + 1) / 146097 = n / 146097) as ->.
    { symmetry. apply Z.div_unique with (n mod 146097 + 1); lia. }
    assert ((n + 1) mod 146097 = n mod 146097 + 1) as ->.
    { symmetry. apply Z.mod_unique with (n / 146097); lia. }
    pose proof (cycle_step (n mod 146097) ltac:(lia)). lia.
Qed.

Lemma ymd_key_mono d d' : d < d' -> ymd_key (ymd_of_days d) < ymd_key (ymd_of_days d').
Proof.
  intros H. assert (exists k, d' = d + 1 + Z.of_nat k) as [k ->].
  { exists (Z.to_nat (d' - d - 1)). lia. }
  clear H. induction k as [|k IH].
  - replace (d + 1 + Z.of_nat 0) with (d + 1) by lia. apply ymd_key_succ.
  - etransitivity; [exact IH|]. replace (d + 1 + Z.of_nat (S k)) with (d + 1 + Z.of_nat k + 1) by lia.
    apply ymd_key_succ.
Qed.

Lemma ymd_key_compare d d' : (ymd_key (ymd_of_days d) ?= ymd_key (ymd_of_days d')) = (d ?= d').
Proof.
  destruct (Z.compare_spec d d') as [->|Hlt|Hgt].
  - apply Z.compare_refl.
  - apply Z.compare_lt_iff, ymd_key_mono, Hlt.
  - apply Z.compare_gt_iff, ymd_key_mono, Hgt.
Qed.

(** ** Text order is chronological order *)

(** The instants [isoformat] renders with a four-digit year. *)
Definition in_range (t : Z) : Prop := 0 <= t < 253402300800000000.

Lemma ymd_range t : in_range t ->
  let '(y, m, d) := ymd_of_days (t / us_per_day) in
  0 <= y < 10000 /\ 1 <= m <= 12 /\ 1 <= d <= 31.
Proof.
  intros Ht. unfold in_range in Ht.
  assert (0 <= t / us_per_day <= 2932896) as Hd.
  { unfold us_per_day. split; [apply Z.div_pos; lia|].
    assert (t / 86400000000 < 2932897); [apply Z.div_lt_upper_bound; lia|lia]. }
  assert (ymd_key (ymd_of_days (t / us_per_day)) <= ymd_key (ymd_of_days 2932896)) as Hk.
  { destruct (decide (t / us_per_day = 2932896)) as [->|]; [lia|].
    apply Z.lt_le_incl, ymd_key_mono. lia. }
  assert (ymd_key (ymd_of_days 0) <= ymd_key (ymd_of_days (t / us_per_day))) as Hk0.
  { destruct (decide (t / us_per_day = 0)) as [->|]; [lia|].
    apply Z.lt_le_incl, ymd_key_mono. lia. }
  change (ymd_key (ymd_of_days 2932896)) with 4159999 in Hk.
  change (ymd_key (ymd_of_days 0)) with 819553 in Hk0.
  unfold ymd_of_days in *.
  pose proof (cycle_ok ((t / us_per_day + 719162) mod 146097) (Z.mod_pos_bound _ 146097 eq_refl)) as Hc.
  revert Hk Hk0 Hc. destruct (cycle_ymd _) as [[y m] d]. unfold ymd_ok, ymd_key.
  intros. bool_to_prop. lia.
Qed.

Lemma clock_decompose r : 0 <= r < us_per_day ->
  r = ((r / 3600000000 * 60 + (r / 60000000) mod 60) * 60 + (r / 1000000) mod 60) * 1000000
      + r mod 1000000.
Proof.
  intros _. pose proof (Z.div_mod r 1000000 ltac:(lia)).
  assert (r / 60000000 = r / 1000000 / 60) as -> by (by rewrite Z.div_div by lia).
  assert (r / 3600000000 = r / 1000000 / 60 / 60) as -> by (by rewrite !Z.div_div by lia).
  pose proof (Z.div_mod (r / 1000000) 60 ltac:(lia)).
  pose proof (Z.div_mod (r / 1000000 / 60) 60 ltac:(lia)). lia.
Qed.

Lemma hours_range r : 0 <= r < us_per_day -> 0 <= r / 3600000000 < 24.
Proof.
  unfold us_per_day. intros H. split; [apply Z.div_pos; lia|apply Z.div_lt_upper_bound; lia].
Qed.

Lemma mod60_range x : 0 <= x mod 60 < 60.
Proof. apply Z.mod_pos_bound. lia. Qed.

Lemma instant_compare a b :
  let ra := a mod us_per_day in let rb := b mod us_per_day in
  (a ?= b) = lex (a / us_per_day ?= b / us_per_day)
    (lex (ra / 3600000000 ?= rb / 3600000000)
      (lex ((ra / 60000000) mod 60 ?= (rb / 60000000) mod 60)
        (lex ((ra / 1000000) mod 60 ?= (rb / 1000000) mod 60)
          (ra mod 1000000 ?= rb mod 1000000)))).
Proof.
  intros ra rb.
  pose proof (Z.mod_pos_bound a us_per_day ltac:(unfold us_per_day; lia)) as Ha. fold ra in Ha.
  pose proof (Z.mod_pos_bound b us_per_day ltac:(unfold us_per_day; lia)) as Hb. fold rb in Hb.
  rewrite (Z.div_mod a us_per_day) at 1 by (unfold us_per_day; lia).
  rewrite (Z.div_mod b us_per_day) at 1 by (unfold us_per_day; lia).
  fold ra rb. rewrite !(Z.mul_comm us_per_day), radix_compare by lia. f_equal.
  rewrite (clock_decompose ra Ha), (clock_decompose rb Hb) at 1.
  rewrite radix_compare by (apply Z.mod_pos_bound; lia).
  rewrite radix_compare by apply mod60_range.
  rewrite radix_compare by apply mod60_range.
  by rewrite !lex_assoc.
Qed.

Lemma isoformat_compare a b :
  in_range a -> in_range b -> String.compare (isoformat a) (isoformat b) = (a ?= b).
Proof.
  intros Ha Hb. rewrite instant_compare. rewrite <- ymd_key_compare.
  pose proof (ymd_range a Ha) as Ra. pose proof (ymd_range b Hb) as Rb. unfold isoformat.
  destruct (ymd_of_days (a / us_per_day)) as [[ya ma] da].
  destruct (ymd_of_days (b / us_per_day)) as [[yb mb] db].
  set (ra := a mod us_per_day). set (rb := b mod us_per_day).
  assert (0 <= ra / 3600000000 < 24) by (apply hours_range, Z.mod_pos_bound; unfold us_per_day; lia).
  assert (0 <= rb / 3600000000 < 24) by (apply hours_range, Z.mod_pos_bound; unfold us_per_day; lia).
  pose proof (mod60_range (ra / 60000000)). pose proof (mod60_range (rb / 60000000)).
  pose proof (mod60_range (ra / 1000000)). pose proof (mod60_range (rb / 1000000)).
  unfold ymd_key. rewrite !radix_compare by lia.
  repeat (rewrite zpad_app_compare by (cbn; lia); rewrite ?const_app_compare).
  rewrite micro_tail_compare by (apply Z.mod_pos_bound; lia).
  by rewrite !lex_assoc.
Qed.

Lemma text_leb_iso a b :
  in_range a -> in_range b -> text_leb (isoformat a) (isoformat b) = (a <=? b).
Proof.
  intros Ha Hb. unfold text_leb, Z.leb. by rewrite isoformat_compare.
Qed.

(** ** The millisecond clock *)

Lemma round_div_ge n d k : 0 < d -> k * d <= n -> k <= round_div n d.
Proof.
  intros Hd Hn. unfold round_div.
  assert (k <= n / d) by (apply Z.div_le_lower_bound; lia).
  destruct (2 * (n mod d) ?= d); [destruct (Z.even _)| |]; lia.
Qed.

(** Rounding to binary64 does not cross an integer. *)
Lemma binary64_ge n d k m s :
  0 < d -> 0 <= k -> k * d <= n -> d <= n < 2 ^ 53 * d ->
  binary64 n d = (m, s) -> 0 <= s /\ k * 2 ^ s <= m.
Proof.
  intros Hd Hk Hn Hr H. unfold binary64 in H. inv_eq.
  assert (1 <= n / d) by (apply Z.div_le_lower_bound; lia).
  assert (n / d < 2 ^ 53) by (apply Z.div_lt_upper_bound; lia).
  assert (Z.log2 (n / d) < 53) by (apply Z.log2_lt_pow2; lia).
  pose proof (Z.log2_nonneg (n / d)).
  assert (0 <= 52 - Z.log2 (n / d)) as Hs by lia. split; [done|].
  apply round_div_ge; [done|].
  assert (0 < 2 ^ (52 - Z.log2 (n / d))) by (apply Z.pow_pos_nonneg; lia). nia.
Qed.

Lemma round_div_le n d k : 0 < d -> n <= k * d -> round_div n d <= k.
Proof.
  intros Hd Hn. unfold round_div.
  pose proof (Z.div_mod n d ltac:(lia)) as Hdm.
  pose proof (Z.mod_pos_bound n d Hd) as Hb.
  destruct (decide (n / d < k)) as [Hlt|Hge]; [destruct (_ ?= _); [destruct (Z.even _)| |]; lia|].
  assert (n mod d = 0 /\ n / d = k) as [Hz Hq] by nia.
  rewrite Hz, Hq. destruct (2 * 0 ?= d) eqn:E; [apply Z.compare_eq_iff in E; lia|lia|].
  apply Z.compare_gt_iff in E. lia.
Qed.

Lemma binary64_le n d k m s :
  0 < d -> n <= k * d -> d <= n < 2 ^ 53 * d -> binary64 n d = (m, s) -> m <= k * 2 ^ s.
Proof.
  intros Hd Hn Hr H. unfold binary64 in H. inv_eq.
  assert (n / d < 2 ^ 53) by (apply Z.div_lt_upper_bound; lia).
  assert (1 <= n / d) by (apply Z.div_le_lower_bound; lia).
  assert (Z.log2 (n / d) < 53) by (apply Z.log2_lt_pow2; lia).
  apply round_div_le; [done|].
  assert (0 < 2 ^ (52 - Z.log2 (n / d))) by (apply Z.pow_pos_nonneg; lia). nia.
Qed.

(** The millisecond clock is at least [1000 * k] once [k] whole seconds have
    passed: the two roundings of [timestamp() * 1000] cannot lose a second
    boundary. *)
Lemma timestamp_ms_seconds t k :
  in_range t -> 1000000 <= t -> 0 <= k -> k * 1000000 <= t -> k * 1000 <= timestamp_ms t.
Proof.
  intros Ht Ht1 Hk Hkt. unfold in_range in Ht. unfold timestamp_ms.
  destruct (binary64 t 1000000) as [m s] eqn:E1.
  destruct (binary64_ge t 1000000 k m s) as [Hs Hm]; [lia|lia|lia|lia|done|].
  assert (1 * 2 ^ s <= m) as Hm1 by (eapply (binary64_ge t 1000000 1 m s); [lia|lia|lia|lia|done]).
  assert (m <= 253402300800 * 2 ^ s) as Hm2
    by (eapply (binary64_le t 1000000 253402300800 m s); [lia|lia|lia|done]).
  assert (0 < 2 ^ s) as Hp by (apply Z.pow_pos_nonneg; lia).
  destruct (binary64 (m * 1000) (2 ^ s)) as [m' s'] eqn:E2.
  destruct (binary64_ge (m * 1000) (2 ^ s) (k * 1000) m' s') as [Hs' Hm']; [lia|lia|nia|nia|done|].
  apply Z.div_le_lower_bound; [apply Z.pow_pos_nonneg; lia|]. lia.
Qed.

End IsoTime.
