(* ===== verification/Journal.v ===== *)
(** * The worker journal ([src/tram/agent/journal.py])

    Durable admission/completion store of one worker.  The SQLite tables are
    finite maps keyed by their primary keys ([outbox] is the list of its rows
    in [seq] order, with the AUTOINCREMENT counter), text columns hold the text
    the code stores, and a transaction is a function on the tables that either
    commits a new state or leaves it unchanged.  What the code reads from its
    surroundings (the injected clock, the file sizes, whether SQLite answers)
    is the record [env]; [config] holds the environment-variable settings.
    SQL statements fail in the model only by the constraints of the schema. *)

From Stdlib Require Import ZArith Lia Ascii String.
From stdpp Require Import base tactics list strings gmap option sorting.
From S2P Require Import Prelude PyStr Sha256 AuthTokens IsoTime.

#[local] Open Scope Z_scope.
#[local] Open Scope list_scope.

Module Journal.
Import IsoTime.

(** ** Schema *)

Inductive res_state := Reserved | Running | Completed | Interrupted.

#[global] Instance res_state_eq_dec : EqDecision res_state.
Proof. solve_decision. Defined.

(** A row of [admission_reservations]. *)
Record reservation := mkReservation {
  rs_run_id : string;
  rs_pipeline_name : string;
  rs_generation : Z;
  rs_slot_id : string;
  rs_worker_session : string;
  rs_reserved_at : string;
  rs_state : res_state;
  rs_thread_started : bool;
}.

(** A row of [revocation_tombstones]. *)
Record tombstone := mkTombstone {
  tb_run_id : string;
  tb_reason : string;
  tb_revoked_at : string;
  tb_session_epoch : Z;
}.

(** A row of [start_authorizations]. *)
Record authorization := mkAuthorization {
  au_run_id : string;
  au_session_epoch : Z;
  au_token_hash : string;
  au_issued_at : string;
  au_expires_at : string;
}.

(** A row of [clock_watermarks]. *)
Record watermark := mkWatermark {
  wm_ms : Z;
  wm_updated_at : string;
}.

(** A row of [completions]. *)
Record completion := mkCompletion {
  cp_run_id : string;
  cp_result_json : string;
  cp_completed_at : string;
  cp_acked : bool;
  cp_acked_at : option string;
}.

(** A row of [outbox]. *)
Record OutboxRow := mkOutbox {
  ob_seq : Z;
  ob_attempt_id : string;
  ob_kind : string;
  ob_payload_json : string;
  ob_created_at : string;
  ob_next_attempt_at : string;
  ob_attempts : Z;
  ob_last_error : option string;
}.

(** The journal file: [session_epoch] is the [journal_meta] value,
    [outbox_seq] the AUTOINCREMENT counter. *)
Record db := mkDb {
  session_epoch_meta : option Z;
  reservations : gmap string reservation;
  tombstones : gmap string tombstone;
  authorizations : gmap string authorization;
  watermarks : gmap Z watermark;
  completions : gmap string completion;
  outbox : list OutboxRow;
  outbox_seq : Z;
}.

(** A journal file just created by [_open]. *)
Definition fresh_db : db := mkDb (Some 1) ∅ ∅ ∅ ∅ ∅ [] 0.

Definition set_reservations (f : gmap string reservation -> gmap string reservation) (t : db) : db :=
  mkDb (session_epoch_meta t) (f (reservations t)) (tombstones t) (authorizations t)
    (watermarks t) (completions t) (outbox t) (outbox_seq t).
Definition set_tombstones (f : gmap string tombstone -> gmap string tombstone) (t : db) : db :=
  mkDb (session_epoch_meta t) (reservations t) (f (tombstones t)) (authorizations t)
    (watermarks t) (completions t) (outbox t) (outbox_seq t).
Definition set_authorizations (f : gmap string authorization -> gmap string authorization) (t : db) : db :=
  mkDb (session_epoch_meta t) (reservations t) (tombstones t) (f (authorizations t))
    (watermarks t) (completions t) (outbox t) (outbox_seq t).
Definition set_watermarks (f : gmap Z watermark -> gmap Z watermark) (t : db) : db :=
  mkDb (session_epoch_meta t) (reservations t) (tombstones t) (authorizations t)
    (f (watermarks t)) (completions t) (outbox t) (outbox_seq t).
Definition set_completions (f : gmap string completion -> gmap string completion) (t : db) : db :=
  mkDb (session_epoch_meta t) (reservations t) (tombstones t) (authorizations t)
    (watermarks t) (f (completions t)) (outbox t) (outbox_seq t).
Definition set_outbox (f : list OutboxRow -> list OutboxRow) (t : db) : db :=
  mkDb (session_epoch_meta t) (reservations t) (tombstones t) (authorizations t)
    (watermarks t) (completions t) (f (outbox t)) (outbox_seq t).
Definition set_session_epoch (e : Z) (t : db) : db :=
  mkDb (Some e) (reservations t) (tombstones t) (authorizations t)
    (watermarks t) (completions t) (outbox t) (outbox_seq t).

(** ** Errors, results, configuration *)

(** The exceptions that leave the journal. *)
Inductive journal_exn :=
| JournalError
| JournalUnavailableError
| AdmissionClosedError
| AdmissionConflictError (attempt_id : string)
| TypeErrorExn
| OverflowErrorExn.

#[global] Instance journal_exn_eq_dec : EqDecision journal_exn.
Proof. solve_decision. Defined.

Record AuthorizationDecision := mkDecision {
  d_valid : bool;
  d_reason : option string;
  d_attempt_id : option string;
  d_run_id : option string;
  d_generation : option Z;
  d_slot_id : option string;
  d_worker_session : option string;
  d_session_epoch : option Z;
  d_token_hash : option string;
  d_issued_at : option string;
  d_expires_at : option string;
}.

(** A valid decision with every field of [_AUTH_REQUIRED_FIELDS]. *)
Record full_decision := mkFull {
  f_attempt_id : string;
  f_run_id : string;
  f_generation : Z;
  f_slot_id : string;
  f_worker_session : string;
  f_session_epoch : Z;
  f_token_hash : string;
  f_issued_at : string;
  f_expires_at : string;
}.

Definition required_fields (a : AuthorizationDecision) : option full_decision :=
  aid ← d_attempt_id a; rid ← d_run_id a; gen ← d_generation a; sid ← d_slot_id a;
  ses ← d_worker_session a; ep ← d_session_epoch a; th ← d_token_hash a;
  iat ← d_issued_at a; exp ← d_expires_at a;
  Some (mkFull aid rid gen sid ses ep th iat exp).

Inductive attempt_kind := KTombstone | KCompletion | KActive | KInterrupted.

#[global] Instance attempt_kind_eq_dec : EqDecision attempt_kind.
Proof. solve_decision. Defined.

(** [AttemptRecord]; [None] fields are the dataclass defaults. *)
Record AttemptRecord := mkAttempt {
  ar_kind : attempt_kind;
  ar_attempt_id : string;
  ar_run_id : option string;
  ar_reason : option string;
  ar_revoked_at : option string;
  ar_session_epoch : option Z;
  ar_result_json : option string;
  ar_completed_at : option string;
  ar_acked : option bool;
  ar_acked_at : option string;
  ar_pipeline_name : option string;
  ar_generation : option Z;
  ar_slot_id : option string;
  ar_worker_session : option string;
  ar_reserved_at : option string;
  ar_state : option res_state;
  ar_thread_started : option bool;
}.

Inductive admission_outcome := Admitted_ok | AlreadyAdmitted | Revoked | RefusedAuth.

#[global] Instance admission_outcome_eq_dec : EqDecision admission_outcome.
Proof. solve_decision. Defined.

Record AdmissionResult := mkAdmission {
  outcome : admission_outcome;
  adm_attempt_id : option string;
  existing : option AttemptRecord;
  tombstone_reason : option string;
  tombstone_revoked_at : option string;
  refusal_reason : option string;
}.

(** The settings of [tram.core.config] the journal reads, in seconds. *)
Record config := mkConfig {
  auth_max_ttl_s : Z;
  auth_clock_skew_s : Z;
  audit_retention_s : Z;
  replay_retention_s : Z;
}.

Definition default_config : config := mkConfig 600 5 604800 86400.

(** What SQLite answers to a probe or an open. *)
Inductive sql_outcome := SqlOk | SqlOperationalError | SqlDatabaseError | SqlOtherError.

#[global] Instance sql_outcome_eq_dec : EqDecision sql_outcome.
Proof. solve_decision. Defined.

Record env := mkEnv {
  clock : Z;               (* [self._clock()], microseconds since the epoch *)
  db_size : Z;             (* [_db_size_locked()] *)
  open_outcome : sql_outcome;
  probe_outcome : sql_outcome;
}.

Inductive fatal_kind := Unavailable | Corrupt.

#[global] Instance fatal_kind_eq_dec : EqDecision fatal_kind.
Proof. solve_decision. Defined.

(** The [WorkerJournal] object over its file. *)
Record journal := mkJournal {
  tables : db;
  is_open : bool;                (* [self._conn is not None] *)
  fatal : option fatal_kind;     (* [self._fatal_kind] *)
  quarantined : bool;            (* [self._quarantined] *)
  quota_bytes : Z;
  headroom_bytes : Z;
}.

Definition set_tables (t : db) (j : journal) : journal :=
  mkJournal t (is_open j) (fatal j) (quarantined j) (quota_bytes j) (headroom_bytes j).

(** [_set_fatal]; a corrupt file is also copied aside, once. *)
Definition _set_fatal (k : fatal_kind) (j : journal) : journal :=
  mkJournal (tables j) (is_open j) (Some k)
    (match k with Corrupt => true | Unavailable => quarantined j end)
    (quota_bytes j) (headroom_bytes j).

Definition quota_enabled (j : journal) : bool := 0 <? quota_bytes j.

(** Admission closes once the size reaches quota minus headroom. *)
Definition quota_threshold_bytes (j : journal) : option Z :=
  if quota_enabled j then Some (Z.max 0 (quota_bytes j - headroom_bytes j)) else None.

(** ** Lifecycle and health *)

Definition fatal_of_sql (o : sql_outcome) : option fatal_kind :=
  match o with
  | SqlOk => None
  | SqlOperationalError => Some Unavailable
  | SqlDatabaseError => Some Corrupt
  | SqlOtherError => Some Unavailable
  end.

(** [_open] on an existing or new file: the schema statements are
    [IF NOT EXISTS] / [INSERT OR IGNORE]. *)
Definition _open (j : journal) : journal :=
  let t := tables j in
  mkJournal
    (mkDb (match session_epoch_meta t with None => Some 1 | e => e end)
       (reservations t) (tombstones t) (authorizations t) (watermarks t) (completions t)
       (outbox t) (outbox_seq t))
    true (fatal j) (quarantined j) (quota_bytes j) (headroom_bytes j).

Definition close (j : journal) : journal :=
  mkJournal (tables j) false (fatal j) (quarantined j) (quota_bytes j) (headroom_bytes j).

(** The constructor: open the file, caching a failure as fatal.  The quotas
    are given in bytes. *)
Definition init (e : env) (t : db) (quota headroom : Z) : journal :=
  let j := mkJournal t false None false (Z.max quota 0) (Z.max headroom 0) in
  match fatal_of_sql (open_outcome e) with
  | None => _open j
  | Some k => _set_fatal k j
  end.

Definition _ensure_open (e : env) (j : journal) : res journal_exn unit * journal :=
  match fatal j with
  | Some _ => (raise JournalUnavailableError, j)
  | None =>
      if is_open j then (Ok tt, j)
      else match fatal_of_sql (open_outcome e) with
           | None => (Ok tt, _open j)
           | Some k => (raise JournalUnavailableError, _set_fatal k j)
           end
  end.

Inductive health_state := HOk | HUnavailable | HCorrupt | HQuota.

#[global] Instance health_state_eq_dec : EqDecision health_state.
Proof. solve_decision. Defined.

Definition health_of_fatal (k : fatal_kind) : health_state :=
  match k with Unavailable => HUnavailable | Corrupt => HCorrupt end.

(** [JournalHealth], without its free-text detail. *)
Record JournalHealth := mkHealth {
  h_state : health_state;
  h_size_bytes : Z;
  h_quota_bytes : option Z;
  h_headroom_bytes : option Z;
}.

Definition report (e : env) (j : journal) (st : health_state) : JournalHealth :=
  mkHealth st (db_size e)
    (if quota_enabled j then Some (quota_bytes j) else None)
    (if quota_enabled j then Some (headroom_bytes j) else None).

Definition _health_locked (e : env) (j : journal) : JournalHealth * journal :=
  match fatal j with
  | Some k => (report e j (health_of_fatal k), j)
  | None =>
      match _ensure_open e j with
      | (Raise _, j1) =>
          (report e j1 (match fatal j1 with Some k => health_of_fatal k | None => HUnavailable end), j1)
      | (Ok _, j1) =>
          match fatal_of_sql (probe_outcome e) with
          | Some k => (report e j1 (health_of_fatal k), _set_fatal k j1)
          | None =>
              match quota_threshold_bytes j1 with
              | Some q => (report e j1 (if q <=? db_size e then HQuota else HOk), j1)
              | None => (report e j1 HOk, j1)
              end
          end
      end
  end.

Definition _ensure_admitting (e : env) (j : journal) : res journal_exn unit * journal :=
  let '(h, j1) := _health_locked e j in
  if bool_decide (h_state h = HOk) then (Ok tt, j1) else (raise AdmissionClosedError, j1).

(** ** Transactions *)

(** [_txn]: commit what [fn] returns, or roll back when it raises. *)
Definition _txn {A} (e : env) (fn : db -> res journal_exn (A * db)) (j : journal)
  : res journal_exn A * journal :=
  match _ensure_open e j with
  | (Raise x, j1) => (Raise x, j1)
  | (Ok _, j1) =>
      match fn (tables j1) with
      | Raise x => (Raise x, j1)
      | Ok (a, t') => (Ok a, set_tables t' j1)
      end
  end.

(** A query under the lock, outside any transaction. *)
Definition _query {A} (e : env) (fn : db -> A) (j : journal) : res journal_exn A * journal :=
  match _ensure_open e j with
  | (Raise x, j1) => (Raise x, j1)
  | (Ok _, j1) => (Ok (fn (tables j1)), j1)
  end.

Definition _session_epoch_locked (t : db) : Z := default 0 (session_epoch_meta t).

Definition _advance_watermark_locked (epoch now_ms : Z) (now_iso : string) (t : db) : db :=
  set_watermarks (fun w =>
    <[epoch := mkWatermark
        (match w !! epoch with Some r => Z.max (wm_ms r) now_ms | None => now_ms end)
        now_iso]> w) t.

(** ** Admission *)

(** [INSERT INTO start_authorizations ... ON CONFLICT(attempt_id) DO NOTHING]:
    [None] is the violation of [token_hash UNIQUE]. *)
Definition insert_authorization (a : full_decision) (t : db) : option db :=
  match authorizations t !! f_attempt_id a with
  | Some _ => Some t
  | None =>
      if decide (map_Exists (fun _ r => au_token_hash r = f_token_hash a) (authorizations t))
      then None
      else Some (set_authorizations
             (<[f_attempt_id a := mkAuthorization (f_run_id a) (f_session_epoch a)
                 (f_token_hash a) (f_issued_at a) (f_expires_at a)]>) t)
  end.

Definition _attempt_from_reservation (aid : string) (r : reservation) : AttemptRecord :=
  mkAttempt
    (match rs_state r with
     | Reserved | Running => KActive
     | Interrupted => KInterrupted
     | Completed => KCompletion
     end)
    aid (Some (rs_run_id r)) None None None None None None None
    (Some (rs_pipeline_name r)) (Some (rs_generation r)) (Some (rs_slot_id r))
    (Some (rs_worker_session r)) (Some (rs_reserved_at r)) (Some (rs_state r))
    (Some (rs_thread_started r)).

(** The admission transaction: its result and the tables it leaves. *)
Definition admit_txn (cfg : config) (now : Z) (a : full_decision) (pipeline : string) (t : db)
  : res journal_exn AdmissionResult * db :=
  let aid := f_attempt_id a in
  let epoch := _session_epoch_locked t in
  let now_ms := timestamp_ms now in
  let t1 := _advance_watermark_locked epoch now_ms (isoformat now) t in
  let wm := match watermarks t1 !! epoch with Some r => wm_ms r | None => now_ms end in
  if now_ms <? wm - auth_clock_skew_s cfg * 1000 then (raise AdmissionClosedError, t)
  else match insert_authorization a t1 with
  | None => (raise (AdmissionConflictError aid), t)
  | Some t2 =>
      match tombstones t2 !! aid with
      | Some tb =>
          (Ok (mkAdmission Revoked (Some aid) None (Some (tb_reason tb))
                 (Some (tb_revoked_at tb)) None), t)
      | None =>
          match reservations t2 !! aid with
          | Some ex =>
              if decide ((rs_run_id ex, rs_generation ex, rs_slot_id ex)
                         = (f_run_id a, f_generation a, f_slot_id a))
              then (Ok (mkAdmission AlreadyAdmitted (Some aid)
                          (Some (_attempt_from_reservation aid ex)) None None None), t)
              else (raise (AdmissionConflictError aid), t)
          | None =>
              (Ok (mkAdmission Admitted_ok (Some aid) None None None None),
               set_reservations
                 (<[aid := mkReservation (f_run_id a) pipeline (f_generation a) (f_slot_id a)
                      (f_worker_session a) (isoformat now) Reserved false]>) t2)
          end
      end
  end.

Definition journal_admit (cfg : config) (e : env) (auth : AuthorizationDecision)
  (pipeline : string) (j : journal) : res journal_exn AdmissionResult * journal :=
  if negb (d_valid auth) then
    (Ok (mkAdmission RefusedAuth (d_attempt_id auth) None None None (d_reason auth)), j)
  else match required_fields auth with
  | None => (raise JournalError, j)
  | Some a =>
      match _ensure_admitting e j with
      | (Raise x, j1) => (Raise x, j1)
      | (Ok _, j1) =>
          let '(r, t') := admit_txn cfg (clock e) a pipeline (tables j1) in
          (r, set_tables t' j1)
      end
  end.

Definition refused (aid : option string) (why : string) : AdmissionResult :=
  mkAdmission RefusedAuth aid None None None (Some why).

(** The gate between a validated token and [admit]: the epoch of its recorded
    authorization, or the watermark when no row remembers it. *)
Definition replay_gate (cfg : config) (token_hash : string) (iat ttl : Z) (t : db) : option string :=
  let epoch := _session_epoch_locked t in
  match (snd <$> map_to_list (filter (fun kv => au_token_hash kv.2 = token_hash) (authorizations t))) with
  | row :: _ => if au_session_epoch row =? epoch then None else Some "old session epoch"%string
  | [] =>
      match watermarks t !! epoch with
      | Some w =>
          if (iat + ttl + auth_clock_skew_s cfg) * 1000 <=? wm_ms w
          then Some "token retired by watermark"%string else None
      | None => None
      end
  end.

Definition validate_and_admit (cfg : config) (e : env) (token pipeline worker_session current : string)
  (previous : option string) (now : option Z) (j : journal)
  : res journal_exn AdmissionResult * journal :=
  let now_dt := default (clock e) now in
  match _ensure_open e j with
  | (Raise x, j1) => (Raise x, j1)
  | (Ok _, j1) =>
      match AuthTokens.validate_start_authorization worker_session current previous
              (auth_max_ttl_s cfg) (auth_clock_skew_s cfg) (timestamp_s now_dt) token with
      | Raise _ => (raise TypeErrorExn, j1)
      | Ok r =>
          match AuthTokens.valid r, AuthTokens.r_issued_at_unix r, AuthTokens.r_ttl_s r with
          | true, Some iat, Some ttl =>
              let token_hash := Sha256.sha256_hex token in
              match replay_gate cfg token_hash iat ttl (tables j1) with
              | Some why => (Ok (refused (AuthTokens.r_attempt_id r) why), j1)
              | None =>
                  journal_admit cfg e
                    (mkDecision true None (AuthTokens.r_attempt_id r) (AuthTokens.r_run_id r)
                       (AuthTokens.r_generation r) (AuthTokens.r_slot_id r) (Some worker_session)
                       (Some (_session_epoch_locked (tables j1))) (Some token_hash)
                       (Some (isoformat (fromtimestamp iat)))
                       (Some (isoformat (fromtimestamp (iat + ttl))))) pipeline j1
              end
          | _, _, _ =>
              journal_admit cfg e
                (mkDecision false (AuthTokens.reason r) (AuthTokens.r_attempt_id r)
                   None None None None None None None None) pipeline j1
          end
      end
  end.

Definition mark_running (e : env) (aid : string) (j : journal) : res journal_exn bool * journal :=
  _txn e (fun t =>
    match reservations t !! aid with
    | Some r =>
        if decide (rs_state r = Reserved) then
          Ok (true, set_reservations
            (<[aid := mkReservation (rs_run_id r) (rs_pipeline_name r) (rs_generation r)
                 (rs_slot_id r) (rs_worker_session r) (rs_reserved_at r) Running true]>) t)
        else Ok (false, t)
    | None => Ok (false, t)
    end) j.

(** ** Revocation *)

Definition record_tombstone (e : env) (aid run_id reason : string) (j : journal)
  : res journal_exn tombstone * journal :=
  _txn e (fun t =>
    let tb := mkTombstone run_id reason (isoformat (clock e)) (_session_epoch_locked t) in
    Ok (tb, set_tombstones (<[aid := tb]>) t)) j.

(** ** Completion protocol *)

Definition run_complete : string := "run-complete".

Definition is_run_complete_for (aid : string) (o : OutboxRow) : bool :=
  bool_decide (ob_attempt_id o = aid /\ ob_kind o = run_complete).

(** The completions [_respool_completions_locked] selects: unacked, of the
    given attempt if any, with no run-complete outbox row. *)
Definition needs_respool (only : option string) (t : db) (aid : string) (c : completion) : bool :=
  (negb (cp_acked c)
   && match only with None => true | Some a => bool_decide (aid = a) end
   && negb (existsb (is_run_complete_for aid) (outbox t)))%bool.

(** [INSERT INTO outbox ... SELECT]: one new row per selected completion, with
    consecutive sequence numbers. *)
Fixpoint spool_rows (now : string) (seq : Z) (sel : list (string * completion)) : list OutboxRow :=
  match sel with
  | [] => []
  | (aid, c) :: sel' =>
      mkOutbox (seq + 1) aid run_complete (cp_result_json c) now now 0 None
      :: spool_rows now (seq + 1) sel'
  end.

Definition _respool_completions_locked (now : string) (only : option string) (t : db) : Z * db :=
  let sel := map_to_list (filter (fun kv => needs_respool only t kv.1 kv.2 = true) (completions t)) in
  (Z.of_nat (length sel),
   mkDb (session_epoch_meta t) (reservations t) (tombstones t) (authorizations t) (watermarks t)
     (completions t) (outbox t ++ spool_rows now (outbox_seq t) sel)
     (outbox_seq t + Z.of_nat (length sel))).

Definition complete_reservation (r : reservation) : reservation :=
  mkReservation (rs_run_id r) (rs_pipeline_name r) (rs_generation r) (rs_slot_id r)
    (rs_worker_session r) (rs_reserved_at r) Completed (rs_thread_started r).

(** [INSERT INTO completions ... ON CONFLICT(attempt_id) DO NOTHING]. *)
Definition insert_completion (aid : string) (c : completion) (m : gmap string completion)
  : gmap string completion :=
  match m !! aid with Some _ => m | None => <[aid := c]> m end.

Definition _record_completion (e : env) (aid result_json : string) (run_id : option string)
  (enqueue : bool) (j : journal) : res journal_exn unit * journal :=
  _txn e (fun t =>
    let? rid := match run_id with
                | Some r => Ok r
                | None => of_option JournalError (rs_run_id <$> reservations t !! aid)
                end in
    let t1 := set_reservations (alter complete_reservation aid) t in
    let t2 := set_completions
      (insert_completion aid (mkCompletion rid result_json (isoformat (clock e)) false None)) t1 in
    Ok (tt, if enqueue then (_respool_completions_locked (isoformat (clock e)) (Some aid) t2).2
            else t2)) j.

Definition record_completion (e : env) (aid result_json : string) (run_id : option string) (j : journal) :=
  _record_completion e aid result_json run_id false j.

Definition record_completion_and_enqueue (e : env) (aid result_json : string) (run_id : option string)
  (j : journal) :=
  _record_completion e aid result_json run_id true j.

Definition respool_unacked_completions (e : env) (j : journal) : res journal_exn Z * journal :=
  _txn e (fun t => Ok (_respool_completions_locked (isoformat (clock e)) None t)) j.

Definition enqueue_outbox (e : env) (aid kind payload_json : string) (j : journal)
  : res journal_exn Z * journal :=
  _txn e (fun t =>
    let now := isoformat (clock e) in
    let seq := outbox_seq t + 1 in
    Ok (seq, mkDb (session_epoch_meta t) (reservations t) (tombstones t) (authorizations t)
               (watermarks t) (completions t)
               (outbox t ++ [mkOutbox seq aid kind payload_json now now 0 None]) seq)) j.

Definition ack_completion (now : string) (c : completion) : completion :=
  if cp_acked c then c
  else mkCompletion (cp_run_id c) (cp_result_json c) (cp_completed_at c) true (Some now).

Definition mark_acked (e : env) (aid : string) (j : journal) : res journal_exn unit * journal :=
  _txn e (fun t =>
    Ok (tt, set_outbox (filter (fun o => ob_attempt_id o <> aid))
              (set_completions (alter (ack_completion (isoformat (clock e))) aid) t))) j.

(** [WHERE next_attempt_at <= now ORDER BY seq LIMIT max(1, limit)]; the list
    is kept in [seq] order. *)
Definition fetch_due_outbox (e : env) (limit : Z) (j : journal) : res journal_exn (list OutboxRow) * journal :=
  _query e (fun t =>
    take (Z.to_nat (Z.max 1 limit))
      (filter (fun o => text_leb (ob_next_attempt_at o) (isoformat (clock e)) = true) (outbox t))) j.

(** [min(1.0 * 2 ** k, 300.0)] in seconds; [float(2 ** k)] overflows from
    [k = 1024] on. *)
Definition backoff_delay (k : Z) : res journal_exn Z :=
  if k <? 1024 then Ok (Z.min (2 ^ k) 300) else raise OverflowErrorExn.

Definition record_outbox_failure (e : env) (seq : Z) (last_error : string) (j : journal)
  : res journal_exn unit * journal :=
  _txn e (fun t =>
    match list_find (fun o => ob_seq o = seq) (outbox t) with
    | None => raise JournalError
    | Some (_, row) =>
        let attempts := ob_attempts row + 1 in
        let? delay := backoff_delay (attempts - 1) in
        let next_at := isoformat (clock e + delay * 1000000) in
        Ok (tt, set_outbox (fmap (fun o =>
              if decide (ob_seq o = seq) then
                mkOutbox (ob_seq o) (ob_attempt_id o) (ob_kind o) (ob_payload_json o)
                  (ob_created_at o) next_at attempts (Some last_error)
              else o)) t)
    end) j.

(** ** Query / replay *)

Definition attempt_from_completion (aid : string) (c : completion) : AttemptRecord :=
  mkAttempt KCompletion aid (Some (cp_run_id c)) None None None (Some (cp_result_json c))
    (Some (cp_completed_at c)) (Some (cp_acked c)) (cp_acked_at c)
    None None None None None None None.

Definition lookup_attempt (t : db) (aid : string) : option AttemptRecord :=
  match tombstones t !! aid with
  | Some tb =>
      Some (mkAttempt KTombstone aid (Some (tb_run_id tb)) (Some (tb_reason tb))
              (Some (tb_revoked_at tb)) (Some (tb_session_epoch tb))
              None None None None None None None None None None None)
  | None =>
      match completions t !! aid with
      | Some c => Some (attempt_from_completion aid c)
      | None => _attempt_from_reservation aid <$> reservations t !! aid
      end
  end.

Definition get_attempt (e : env) (aid : string) (j : journal) : res journal_exn (option AttemptRecord) * journal :=
  _query e (fun t => lookup_attempt t aid) j.

(** [ORDER BY completed_at, attempt_id]. *)
Definition completion_order (a b : string * completion) : Prop :=
  match String.compare (cp_completed_at a.2) (cp_completed_at b.2) with
  | Lt => True
  | Eq => text_leb a.1 b.1 = true
  | Gt => False
  end.

#[global] Instance completion_order_dec : RelDecision completion_order.
Proof. intros a b. unfold completion_order. destruct (String.compare _ _); apply _. Defined.

Definition list_unacked_completions (e : env) (j : journal) : res journal_exn (list AttemptRecord) * journal :=
  _query e (fun t =>
    (fun kv => attempt_from_completion kv.1 kv.2) <$>
      merge_sort completion_order
        (map_to_list (filter (fun kv => cp_acked kv.2 = false) (completions t)))) j.

(** ** Boot, epochs and watermark *)

Definition interrupt_reservation (r : reservation) : reservation :=
  match rs_state r with
  | Reserved | Running =>
      mkReservation (rs_run_id r) (rs_pipeline_name r) (rs_generation r) (rs_slot_id r)
        (rs_worker_session r) (rs_reserved_at r) Interrupted (rs_thread_started r)
  | _ => r
  end.

Definition is_active (r : reservation) : bool :=
  match rs_state r with Reserved | Running => true | _ => false end.

Definition mark_interrupted_on_boot (e : env) (j : journal) : res journal_exn Z * journal :=
  _txn e (fun t =>
    Ok (Z.of_nat (tbl_count (fun _ r => is_active r) (reservations t)),
        set_reservations (fmap interrupt_reservation) t)) j.

Definition session_epoch (e : env) (j : journal) : res journal_exn Z * journal :=
  _query e _session_epoch_locked j.

Definition advance_session_epoch (e : env) (j : journal) : res journal_exn Z * journal :=
  _txn e (fun t =>
    let new_epoch := _session_epoch_locked t + 1 in
    Ok (new_epoch, set_session_epoch new_epoch t)) j.

Definition recover_clock_lowering (e : env) (j : journal) : res journal_exn Z * journal :=
  _txn e (fun t =>
    let new_epoch := _session_epoch_locked t + 1 in
    Ok (new_epoch,
        _advance_watermark_locked new_epoch (timestamp_ms (clock e)) (isoformat (clock e))
          (set_session_epoch new_epoch t))) j.

Record WatermarkStatus := mkWatermarkStatus {
  ws_session_epoch : Z;
  ws_watermark_ms : option Z;
  ws_now_ms : Z;
  ws_behind_ms : Z;
  ws_admitting : bool;
}.

Definition watermark_status (cfg : config) (e : env) (j : journal) : res journal_exn WatermarkStatus * journal :=
  _query e (fun t =>
    let epoch := _session_epoch_locked t in
    let wm := wm_ms <$> watermarks t !! epoch in
    let now_ms := timestamp_ms (clock e) in
    mkWatermarkStatus epoch wm now_ms
      (match wm with Some w => w - now_ms | None => 0 end)
      (match wm with Some w => w - auth_clock_skew_s cfg * 1000 <=? now_ms | None => true end)) j.

(** ** GC and retention *)

Record GcReport := mkGcReport {
  gc_authorizations_deleted : Z;
  gc_tombstones_deleted : Z;
  gc_watermark_ms : Z;
}.

Definition expired_at (cutoff : string) (_ : string) (a : authorization) : bool :=
  text_leb (au_expires_at a) cutoff.

Definition gc_expired (cfg : config) (e : env) (now : option Z) (j : journal) : res journal_exn GcReport * journal :=
  _txn e (fun t =>
    let now_dt := default (clock e) now in
    let now_ms := timestamp_ms now_dt in
    let cutoff := isoformat (now_dt - auth_clock_skew_s cfg * 1000000) in
    let t1 := _advance_watermark_locked (_session_epoch_locked t) now_ms (isoformat (clock e)) t in
    let expired := dom (filter (fun kv => expired_at cutoff kv.1 kv.2 = true) (authorizations t1)) in
    let in_expired (aid : string) (_ : tombstone) := bool_decide (aid ∈ expired) in
    Ok (mkGcReport (Z.of_nat (tbl_count (expired_at cutoff) (authorizations t1)))
          (Z.of_nat (tbl_count in_expired (tombstones t1))) now_ms,
        set_tombstones (tbl_delete in_expired)
          (set_authorizations (tbl_delete (expired_at cutoff)) t1))) j.

Record RetentionReport := mkRetentionReport {
  rt_completions_deleted : Z;
  rt_outbox_deleted : Z;
  rt_tombstones_deleted : Z;
}.

Definition acked_before (cutoff : string) (_ : string) (c : completion) : bool :=
  (cp_acked c && match cp_acked_at c with Some x => text_leb x cutoff | None => false end)%bool.

Definition cleanup_retention (cfg : config) (e : env) (now : option Z) (j : journal)
  : res journal_exn RetentionReport * journal :=
  _txn e (fun t =>
    let now_dt := default (clock e) now in
    let now_ms := timestamp_ms now_dt in
    let audit_cutoff := isoformat (now_dt - audit_retention_s cfg * 1000000) in
    let replay_cutoff := isoformat (now_dt - replay_retention_s cfg * 1000000) in
    let resolved_cutoff := isoformat (now_dt - auth_clock_skew_s cfg * 1000000) in
    let t1 := _advance_watermark_locked (_session_epoch_locked t) now_ms (isoformat (clock e)) t in
    let acked_old := dom (filter (fun kv => acked_before audit_cutoff kv.1 kv.2 = true) (completions t1)) in
    let resolved (aid : string) (tb : tombstone) :=
      (text_leb (tb_revoked_at tb) replay_cutoff
       && match authorizations t1 !! aid with
          | Some a => text_leb (au_expires_at a) resolved_cutoff
          | None => false
          end)%bool in
    Ok (mkRetentionReport
          (Z.of_nat (tbl_count (acked_before audit_cutoff) (completions t1)))
          (Z.of_nat (length (filter (fun o => ob_attempt_id o ∈ acked_old) (outbox t1))))
          (Z.of_nat (tbl_count resolved (tombstones t1))),
        set_tombstones (tbl_delete resolved)
          (set_outbox (filter (fun o => ob_attempt_id o ∉ acked_old))
             (set_completions (tbl_delete (acked_before audit_cutoff)) t1)))) j.

End Journal.
