(* ===== verification/JournalSafety.v ===== *)
(** * Admission safety of the worker journal

    The journal's public operations as the steps of a trace, the invariants
    every step preserves, and what they give: an attempt is admitted at most
    once over any history, a revoked attempt is never admitted again, the
    rejection watermark never goes back and a retired token stays refused. *)

From Stdlib Require Import ZArith Lia Ascii String.
From stdpp Require Import base tactics list strings gmap option.
From S2P Require Import Prelude PyStr Sha256 AuthTokens IsoTime Journal.

#[local] Open Scope Z_scope.
#[local] Open Scope list_scope.

Module JournalSafety.
Import IsoTime Journal.

(** ** Operations as steps *)

Inductive op :=
| OAdmit (auth : AuthorizationDecision) (pipeline : string)
| OValidate (token pipeline worker_session current : string) (previous : option string) (now : option Z)
| OMarkRunning (aid : string)
| OTombstone (aid run_id reason : string)
| OComplete (aid result_json : string) (run_id : option string) (enqueue : bool)
| ORespool
| OEnqueue (aid kind payload : string)
| OAck (aid : string)
| OFailure (seq : Z) (last_error : string)
| OInterrupt
| OAdvanceEpoch
| ORecover
| OGc (now : option Z)
| ORetention (now : option Z)
| OHealth
| OClose
| ORestart.

(** The attempt an admission result lets through. *)
Definition admitted_id (r : res journal_exn AdmissionResult) : option string :=
  match r with
  | Ok a => if decide (outcome a = Admitted_ok) then adm_attempt_id a else None
  | Raise _ => None
  end.

(** One operation: the attempt it admitted, if any, and the journal it leaves. *)
Definition step (cfg : config) (e : env) (o : op) (j : journal) : option string * journal :=
  match o with
  | OAdmit auth p => let '(r, j') := journal_admit cfg e auth p j in (admitted_id r, j')
  | OValidate tok p ses cur prev now =>
      let '(r, j') := validate_and_admit cfg e tok p ses cur prev now j in (admitted_id r, j')
  | OMarkRunning aid => (None, (mark_running e aid j).2)
  | OTombstone aid rid why => (None, (record_tombstone e aid rid why j).2)
  | OComplete aid r rid q => (None, (_record_completion e aid r rid q j).2)
  | ORespool => (None, (respool_unacked_completions e j).2)
  | OEnqueue aid k p => (None, (enqueue_outbox e aid k p j).2)
  | OAck aid => (None, (mark_acked e aid j).2)
  | OFailure seq err => (None, (record_outbox_failure e seq err j).2)
  | OInterrupt => (None, (mark_interrupted_on_boot e j).2)
  | OAdvanceEpoch => (None, (advance_session_epoch e j).2)
  | ORecover => (None, (recover_clock_lowering e j).2)
  | OGc now => (None, (gc_expired cfg e now j).2)
  | ORetention now => (None, (cleanup_retention cfg e now j).2)
  | OHealth => (None, (_health_locked e j).2)
  | OClose => (None, close j)
  | ORestart => (None, init e (tables j) (quota_bytes j) (headroom_bytes j))
  end.

(** A history: the attempts admitted, in order, and the final journal. *)
Fixpoint run (cfg : config) (ops : list (env * op)) (j : journal) : list string * journal :=
  match ops with
  | [] => ([], j)
  | (e, o) :: ops' =>
      let '(ev, j1) := step cfg e o j in
      let '(evs, j2) := run cfg ops' j1 in
      (option_list ev ++ evs, j2)
  end.

(** ** Invariants *)

(** Every recorded authorization has its reservation. *)
Definition inv (t : db) : Prop := dom (authorizations t) ⊆ dom (reservations t).

(** The attempt can no longer be admitted. *)
Definition blocked (aid : string) (t : db) : Prop :=
  aid ∈ dom (tombstones t) \/ aid ∈ dom (reservations t).

Definition wm_le (t t' : db) : Prop :=
  forall ep w, watermarks t !! ep = Some w ->
  exists w', watermarks t' !! ep = Some w' /\ wm_ms w <= wm_ms w'.

(** How the tables may evolve. *)
Record evolves (t t' : db) : Prop := mkEvolves {
  ev_inv : inv t -> inv t';
  ev_res : dom (reservations t) ⊆ dom (reservations t');
  ev_blocked : inv t -> forall aid, blocked aid t -> blocked aid t';
  ev_wm : wm_le t t';
  ev_epoch : _session_epoch_locked t <= _session_epoch_locked t';
  ev_meta : is_Some (session_epoch_meta t) -> is_Some (session_epoch_meta t');
}.

(** Unchanged watermarks. *)
Ltac wm_same := intros ? w ?; exists w; split; [assumption|lia].

Lemma wm_le_refl t : wm_le t t.
Proof. intros ep w H. eauto with lia. Qed.

Lemma evolves_refl t : evolves t t.
Proof. split; [done|done|done|apply wm_le_refl|lia|done]. Qed.

Lemma evolves_trans t1 t2 t3 : evolves t1 t2 -> evolves t2 t3 -> evolves t1 t3.
Proof.
  intros [I1 R1 B1 W1 E1 M1] [I2 R2 B2 W2 E2 M2]. split; [auto|set_solver|auto| |lia|auto].
  intros ep w H. destruct (W1 ep w H) as (w1 & H1 & ?). destruct (W2 ep w1 H1) as (w2 & H2 & ?).
  exists w2. split; [done|lia].
Qed.

#[export] Hint Resolve evolves_refl wm_le_refl : tram.

(** Tables that keep reservations, tombstones, authorizations, watermarks and
    epoch. *)
Lemma evolves_same t t' :
  reservations t' = reservations t -> tombstones t' = tombstones t ->
  authorizations t' = authorizations t -> watermarks t' = watermarks t ->
  session_epoch_meta t' = session_epoch_meta t -> evolves t t'.
Proof.
  intros Hr Ht Ha Hw He.
  split; unfold _session_epoch_locked, inv, blocked, wm_le; rewrite ?Hr, ?Ht, ?Ha, ?Hw, ?He;
    try done. wm_same.
Qed.

(** Updates of reservation rows that keep the key set. *)
Lemma evolves_reservations f t :
  (forall m, dom (f m) = dom m) -> evolves t (set_reservations f t).
Proof.
  intros Hf. split; unfold inv, blocked, set_reservations, wm_le, _session_epoch_locked; simpl;
    rewrite ?Hf; try done. wm_same.
Qed.

Lemma advance_watermark_lookup epoch ms iso t ep :
  watermarks (_advance_watermark_locked epoch ms iso t) !! ep
  = if decide (epoch = ep)
    then Some (mkWatermark (match watermarks t !! epoch with Some r => Z.max (wm_ms r) ms | None => ms end) iso)
    else watermarks t !! ep.
Proof. unfold _advance_watermark_locked; simpl. apply lookup_insert. Qed.

Lemma evolves_watermark epoch ms iso t : evolves t (_advance_watermark_locked epoch ms iso t).
Proof.
  split; try done.
  intros ep w H. rewrite advance_watermark_lookup. case_decide as Heq; [subst|eauto with lia].
  rewrite H. eexists; split; [done|]. simpl. lia.
Qed.

Lemma evolves_epoch t e : _session_epoch_locked t <= e -> evolves t (set_session_epoch e t).
Proof. intros He. split; try done. wm_same. Qed.

Lemma evolves_tombstone_insert aid tb t : evolves t (set_tombstones (<[aid := tb]>) t).
Proof.
  split; unfold inv, blocked; simpl; try done; [|wm_same].
  intros _ a. rewrite dom_insert_L. set_solver.
Qed.

Lemma evolves_delete_authorizations pa t : evolves t (set_authorizations (tbl_delete pa) t).
Proof.
  split; unfold inv, blocked; simpl; try done; [|wm_same].
  pose proof (dom_tbl_delete_subseteq pa (authorizations t)). set_solver.
Qed.

(** Deleting tombstones of attempts that hold a reservation. *)
Lemma evolves_delete_tombstones pt t :
  (inv t -> forall a tb, tombstones t !! a = Some tb -> pt a tb = true -> a ∈ dom (reservations t)) ->
  evolves t (set_tombstones (tbl_delete pt) t).
Proof.
  intros Hpt. split; unfold inv, blocked; simpl; try done; [|wm_same].
  intros Hinv a [[tb Ha]%elem_of_dom|Ha]; [|by right].
  destruct (pt a tb) eqn:E; [right; by eapply Hpt|left].
  apply elem_of_dom. exists tb. by apply lookup_tbl_delete_Some.
Qed.

Lemma evolves_trans_r t1 t2 t3 : evolves t2 t3 -> evolves t1 t2 -> evolves t1 t3.
Proof. intros H1 H2. by eapply evolves_trans. Qed.

(** GC: the tombstones deleted belong to authorized, hence reserved, attempts. *)
Lemma evolves_gc (pa : string -> authorization -> bool) t :
  let expired := dom (filter (fun kv => pa kv.1 kv.2 = true) (authorizations t)) in
  evolves t (set_tombstones (tbl_delete (fun a _ => bool_decide (a ∈ expired)))
               (set_authorizations (tbl_delete pa) t)).
Proof.
  intros expired.
  apply evolves_trans_r with (set_tombstones (tbl_delete (fun a _ => bool_decide (a ∈ expired))) t).
  - apply evolves_delete_authorizations with (t := set_tombstones _ t).
  - apply evolves_delete_tombstones. intros Hinv a tb _ Hx. bool_to_prop.
    apply Hinv. apply elem_of_dom in Hx as [y Hx].
    apply map_lookup_filter_Some in Hx as [Hx _]. apply elem_of_dom. eauto.
Qed.

(** ** Transactions preserve [evolves] *)

Lemma open_tables_evolves j : evolves (tables j) (tables (_open j)).
Proof.
  unfold _open; simpl. split; simpl; try done; [wm_same| |].
  - unfold _session_epoch_locked; simpl. destruct (session_epoch_meta _); simpl; lia.
  - by destruct (session_epoch_meta _).
Qed.

Lemma ensure_open_evolves e j : evolves (tables j) (tables (_ensure_open e j).2).
Proof.
  unfold _ensure_open. destruct (fatal j); [apply evolves_refl|].
  destruct (is_open j); [apply evolves_refl|].
  destruct (fatal_of_sql _); [apply evolves_refl|].
  apply open_tables_evolves.
Qed.

Lemma txn_evolves {A} e (fn : db -> res journal_exn (A * db)) j :
  (forall t a t', fn t = Ok (a, t') -> evolves t t') ->
  evolves (tables j) (tables (_txn e fn j).2).
Proof.
  intros Hfn. pose proof (ensure_open_evolves e j) as Ho. unfold _txn.
  destruct (_ensure_open e j) as [[u|x] j1]; simpl in *; [|done].
  destruct (fn (tables j1)) as [[a t']|x] eqn:E; simpl; [|done].
  eapply evolves_trans; [exact Ho|]. by eapply Hfn.
Qed.

Lemma health_evolves e j : evolves (tables j) (tables (_health_locked e j).2).
Proof.
  pose proof (ensure_open_evolves e j) as Ho. unfold _health_locked.
  destruct (fatal j); [apply evolves_refl|].
  destruct (_ensure_open e j) as [[u|x] j1]; simpl in *; [|done].
  destruct (fatal_of_sql _); [done|]. by destruct (quota_threshold_bytes j1).
Qed.

(** ** Admission *)

Lemma insert_authorization_spec a t t2 :
  insert_authorization a t = Some t2 ->
  reservations t2 = reservations t /\ tombstones t2 = tombstones t /\
  watermarks t2 = watermarks t /\ session_epoch_meta t2 = session_epoch_meta t /\
  dom (authorizations t2) = {[f_attempt_id a]} ∪ dom (authorizations t).
Proof.
  unfold insert_authorization. destruct (authorizations t !! f_attempt_id a) as [r|] eqn:E.
  - intros H. inv_eq. repeat split; try done.
    assert (f_attempt_id a ∈ dom (authorizations t2)) by (apply elem_of_dom; eauto). set_solver.
  - destruct (decide _); [done|]. intros H. inv_eq. repeat split; try done. apply dom_insert_L.
Qed.

(** The admission transaction evolves the tables, and admits only an attempt
    that was not blocked. *)
Lemma admit_txn_spec cfg now a p t r t' :
  admit_txn cfg now a p t = (r, t') ->
  evolves t t' /\
  (forall aid, admitted_id r = Some aid ->
     aid = f_attempt_id a /\ ~ blocked aid t /\ aid ∈ dom (reservations t') /\
     (inv t -> ~ map_Exists (fun _ x => au_token_hash x = f_token_hash a) (authorizations t))).
Proof.
  unfold admit_txn. set (t1 := _advance_watermark_locked _ _ _ t).
  assert (evolves t t1) as Hev by apply evolves_watermark.
  destruct (_ <? _); [intros H; inv_eq; split; [apply evolves_refl|done]|].
  destruct (insert_authorization a t1) as [t2|] eqn:Ei;
    [|intros H; inv_eq; split; [apply evolves_refl|done]].
  destruct (insert_authorization_spec _ _ _ Ei) as (Hr & Ht & Hw & He & Ha).
  destruct (tombstones t2 !! f_attempt_id a) as [tb|] eqn:Etb;
    [intros H; inv_eq; split; [apply evolves_refl|done]|].
  destruct (reservations t2 !! f_attempt_id a) as [ex|] eqn:Ex.
  { destruct (decide _); intros H; inv_eq; (split; [apply evolves_refl|done]). }
  intros H; inv_eq. rewrite Hr in Ex. rewrite Ht in Etb.
  change (reservations t1) with (reservations t) in Ex, Hr.
  change (tombstones t1) with (tombstones t) in Etb, Ht.
  change (authorizations t1) with (authorizations t) in Ha.
  split.
  - eapply evolves_trans; [exact Hev|]. split; unfold inv, blocked; simpl.
    + rewrite Ha, dom_insert_L, Hr. set_solver.
    + rewrite dom_insert_L, Hr. set_solver.
    + intros _ aid. rewrite dom_insert_L, Hr, Ht. set_solver.
    + intros ep w H. exists w. split; [by simpl; rewrite Hw|lia].
    + unfold _session_epoch_locked; simpl. by rewrite He.
    + by rewrite He.
  - intros aid Hid. simpl in Hid. inv_eq. split; [done|].
    assert (f_attempt_id a ∉ dom (reservations t)) as Hnr by (by apply not_elem_of_dom).
    assert (f_attempt_id a ∉ dom (tombstones t)) as Hnt by (by apply not_elem_of_dom).
    split; [by intros [?|?]|]. split; [simpl; rewrite dom_insert_L; set_solver|].
    intros Hinv. unfold inv in Hinv. unfold insert_authorization in Ei.
    change (authorizations t1) with (authorizations t) in Ei.
    assert (authorizations t !! f_attempt_id a = None) as Eau
      by (apply not_elem_of_dom; set_solver).
    rewrite Eau in Ei. by destruct (decide _).
Qed.

Lemma journal_admit_spec cfg e auth p j r j' :
  journal_admit cfg e auth p j = (r, j') ->
  evolves (tables j) (tables j') /\
  (forall aid, admitted_id r = Some aid ->
     ~ blocked aid (tables j) /\ aid ∈ dom (reservations (tables j')) /\
     (inv (tables j) ->
      forall th, d_token_hash auth = Some th ->
      ~ map_Exists (fun _ x => au_token_hash x = th) (authorizations (tables j)))).
Proof.
  unfold journal_admit. destruct (negb _); [intros H; inv_eq; split; [apply evolves_refl|done]|].
  destruct (required_fields auth) as [a|] eqn:Ea; [|intros H; inv_eq; split; [apply evolves_refl|done]].
  pose proof (health_evolves e j) as Hh. unfold _ensure_admitting.
  assert (tombstones (tables (_health_locked e j).2) = tombstones (tables j) /\
          reservations (tables (_health_locked e j).2) = reservations (tables j) /\
          authorizations (tables (_health_locked e j).2) = authorizations (tables j)) as (Et & Er & Eu).
  { unfold _health_locked, _ensure_open. destruct (fatal j); [done|]. destruct (is_open j).
    - destruct (fatal_of_sql (probe_outcome e)); [done|]. by destruct (quota_threshold_bytes _).
    - destruct (fatal_of_sql (open_outcome e)); [done|].
      destruct (fatal_of_sql (probe_outcome e)); [done|]. by destruct (quota_threshold_bytes _). }
  destruct (_health_locked e j) as [h j1]. simpl in Hh, Et, Er, Eu.
  destruct (bool_decide _); [|intros H; inv_eq; split; [done|done]].
  destruct (admit_txn cfg (clock e) a p (tables j1)) as [r1 t'] eqn:Etx. intros H; inv_eq.
  destruct (admit_txn_spec _ _ _ _ _ _ _ Etx) as [Hev Had]. simpl.
  split; [by eapply evolves_trans|].
  intros aid Hid. destruct (Had aid Hid) as (-> & Hb & Hres & Hth).
  unfold blocked in *. rewrite Et, Er in Hb. split; [done|]. split; [done|].
  intros Hinv th Hdth. rewrite <- Eu.
  assert (f_token_hash a = th) as <-.
  { unfold required_fields in Ea. simplify_option_eq. done. }
  apply Hth. unfold inv in *. by rewrite Er, Eu.
Qed.

Lemma validate_and_admit_spec cfg e tok p ses cur prev now j r j' :
  validate_and_admit cfg e tok p ses cur prev now j = (r, j') ->
  evolves (tables j) (tables j') /\
  (forall aid, admitted_id r = Some aid ->
     ~ blocked aid (tables j) /\ aid ∈ dom (reservations (tables j'))).
Proof.
  pose proof (ensure_open_evolves e j) as Ho. unfold validate_and_admit.
  assert (tombstones (tables (_ensure_open e j).2) = tombstones (tables j) /\
          reservations (tables (_ensure_open e j).2) = reservations (tables j)) as [Et Er].
  { unfold _ensure_open. destruct (fatal j); [done|]. destruct (is_open j); [done|].
    by destruct (fatal_of_sql _). }
  destruct (_ensure_open e j) as [[u|x] j1]; simpl in *; [|intros H; inv_eq; done].
  destruct (AuthTokens.validate_start_authorization _ _ _ _ _ _ _) as [v|x]; [|intros H; inv_eq; done].
  assert (forall auth, journal_admit cfg e auth p j1 = (r, j') ->
    evolves (tables j) (tables j') /\
    (forall aid, admitted_id r = Some aid ->
       ~ blocked aid (tables j) /\ aid ∈ dom (reservations (tables j')))) as Hadm.
  { intros auth H. apply journal_admit_spec in H as [Hev Had].
    split; [by eapply evolves_trans|]. intros aid Hid. destruct (Had aid Hid) as (Hb & Hr & _).
    unfold blocked in *. by rewrite Et, Er in Hb. }
  destruct (AuthTokens.valid v); [|apply Hadm].
  destruct (AuthTokens.r_issued_at_unix v); [|apply Hadm].
  destruct (AuthTokens.r_ttl_s v); [|apply Hadm].
  destruct (replay_gate _ _ _ _ _); [intros H; inv_eq; done|apply Hadm].
Qed.

(** ** Every step *)

Lemma init_evolves e t q h : evolves t (tables (init e t q h)).
Proof.
  unfold init. destruct (fatal_of_sql _); [apply evolves_refl|].
  apply (open_tables_evolves (mkJournal t false None false (Z.max q 0) (Z.max h 0))).
Qed.

(** The tables a committed transaction leaves. *)
Ltac txn_step :=
  apply txn_evolves; intros t ? t' E; cbv zeta in E; simplify_eq.

Lemma step_spec cfg e o j ev j' :
  step cfg e o j = (ev, j') ->
  evolves (tables j) (tables j') /\
  (forall aid, ev = Some aid -> ~ blocked aid (tables j) /\ aid ∈ dom (reservations (tables j'))).
Proof.
  destruct o; simpl; intros H.
  1:{ destruct (journal_admit _ _ _ _ _) as [r j1] eqn:E. inv_eq.
      apply journal_admit_spec in E as [? Had]. split; [done|]. intros aid Hid.
      by destruct (Had aid Hid) as (? & ? & _). }
  1:{ destruct (validate_and_admit _ _ _ _ _ _ _ _ _) as [r j1] eqn:E. inv_eq.
      by apply validate_and_admit_spec in E. }
  all: inv_eq; split; [|done].
  - apply txn_evolves. intros t a t' E.
    destruct (reservations t !! aid) as [r|] eqn:Er; [|by inv_eq; auto with tram].
    case_decide; inv_eq; [|auto with tram]. split; unfold inv, blocked; simpl; try done.
    all: rewrite ?dom_insert_lookup_L by eauto; try done. wm_same.
  - txn_step. apply evolves_tombstone_insert.
  - apply txn_evolves. intros t a t' E. apply res_bind_ok in E as (rid & _ & E).
    cbv zeta in E. inv_eq.
    apply evolves_trans_r with (set_reservations (alter complete_reservation aid) t).
    + by destruct enqueue; apply evolves_same.
    + apply evolves_reservations. intros m. apply dom_alter_L.
  - txn_step. by apply evolves_same.
  - txn_step. by apply evolves_same.
  - txn_step. by apply evolves_same.
  - apply txn_evolves. intros t a t' E. destruct (list_find _ _) as [[i row]|]; [|done].
    apply res_bind_ok in E as (d & _ & E). cbv zeta in E. inv_eq. by apply evolves_same.
  - txn_step. apply evolves_reservations. intros m. apply dom_fmap_L.
  - txn_step. apply evolves_epoch. lia.
  - txn_step. eapply evolves_trans; [apply evolves_epoch|apply evolves_watermark]. lia.
  - txn_step. eapply evolves_trans; [apply evolves_watermark|].
    apply (evolves_gc (expired_at _) (_advance_watermark_locked _ _ _ t)).
  - txn_step. eapply evolves_trans; [apply evolves_watermark|].
    eapply evolves_trans_r; [apply evolves_delete_tombstones|by apply evolves_same].
    intros Hinv a tb _ Hx. bool_to_prop. apply Hinv, elem_of_dom.
    destruct (authorizations _ !! a) eqn:Ea; [eauto|done].
  - apply health_evolves.
  - apply evolves_refl.
  - apply init_evolves.
Qed.

Lemma run_spec cfg ops j evs j' :
  run cfg ops j = (evs, j') ->
  evolves (tables j) (tables j') /\
  (inv (tables j) ->
     NoDup evs /\ forall aid, aid ∈ evs -> ~ blocked aid (tables j)).
Proof.
  revert j evs j'; induction ops as [|[e o] ops IH]; intros j evs j' H; simpl in H.
  { inv_eq. split; [apply evolves_refl|]. intros _. split; [constructor|]. intros aid Hin.
    by apply elem_of_nil in Hin. }
  destruct (step cfg e o j) as [ev j1] eqn:Es. destruct (run cfg ops j1) as [evs1 j2] eqn:Er.
  inv_eq. destruct (step_spec _ _ _ _ _ _ Es) as [Hev Hadm].
  destruct (IH _ _ _ Er) as [Hev2 Hrun]. split; [by eapply evolves_trans|].
  intros Hinv. destruct (Hrun (ev_inv _ _ Hev Hinv)) as [Hnd Hnb].
  assert (forall aid, aid ∈ evs1 -> ~ blocked aid (tables j)) as Hold.
  { intros aid Hin Hb. apply (Hnb aid Hin). by apply (ev_blocked _ _ Hev). }
  destruct ev as [aid|]; simpl; [|done].
  destruct (Hadm aid eq_refl) as [Hb Hres]. split.
  - constructor; [|done]. intros Hin. apply (Hnb aid Hin). by right.
  - intros a Hin. apply elem_of_cons in Hin as [->|Hin]; [done|auto].
Qed.

Lemma run_evolves cfg ops j : evolves (tables j) (tables (run cfg ops j).2).
Proof. destruct (run cfg ops j) as [evs j'] eqn:E. by apply run_spec in E as [Hev _]. Qed.

(** ** Reachable journals *)

(** The journals a worker can have: a fresh file, then any history. *)
Definition reachable (cfg : config) (j : journal) : Prop :=
  exists e q h ops, j = (run cfg ops (init e fresh_db q h)).2.

Lemma inv_fresh : inv fresh_db.
Proof. unfold inv. simpl. by rewrite !dom_empty_L. Qed.

Lemma reachable_inv cfg j :
  reachable cfg j -> inv (tables j) /\ is_Some (session_epoch_meta (tables j)).
Proof.
  intros (e & q & h & ops & ->).
  destruct (run cfg ops (init e fresh_db q h)) as [evs j'] eqn:E. simpl.
  apply run_spec in E as [Hev _].
  assert (evolves fresh_db (tables j')) as H by (eapply evolves_trans; [apply init_evolves|exact Hev]).
  split; [apply (ev_inv _ _ H), inv_fresh|]. apply (ev_meta _ _ H). by eexists.
Qed.

Lemma run_app cfg ops1 ops2 j :
  run cfg (ops1 ++ ops2) j
  = ((run cfg ops1 j).1 ++ (run cfg ops2 (run cfg ops1 j).2).1, (run cfg ops2 (run cfg ops1 j).2).2).
Proof.
  revert j; induction ops1 as [|[e o] ops1 IH]; intros j; simpl.
  - by destruct (run cfg ops2 j).
  - destruct (step cfg e o j) as [ev j1]. rewrite IH.
    destruct (run cfg ops1 j1) as [evs1 j2]; simpl.
    destruct (run cfg ops2 j2) as [evs2 j3]; simpl. by rewrite app_assoc.
Qed.

Lemma reachable_run cfg ops j : reachable cfg j -> reachable cfg (run cfg ops j).2.
Proof.
  intros (e & q & h & ops0 & ->). exists e, q, h, (ops0 ++ ops). by rewrite run_app.
Qed.

Lemma reachable_step cfg e o j : reachable cfg j -> reachable cfg (step cfg e o j).2.
Proof.
  intros H. apply (reachable_run cfg [(e, o)]) in H. simpl in H.
  by destruct (step cfg e o j) as [ev j1].
Qed.

(** On a file that carries its epoch, opening changes no table. *)
Lemma ensure_open_tables e j :
  is_Some (session_epoch_meta (tables j)) -> tables (_ensure_open e j).2 = tables j.
Proof.
  intros [ep Hep]. unfold _ensure_open, _open. destruct (fatal j); [done|].
  destruct (is_open j); [done|]. destruct (fatal_of_sql _); [done|]. simpl.
  rewrite Hep. by destruct (tables j); simpl in *; subst.
Qed.

(** A transaction that returned ran on the tables and committed. *)
Lemma txn_ok {A} e (fn : db -> res journal_exn (A * db)) j a j' :
  is_Some (session_epoch_meta (tables j)) ->
  _txn e fn j = (Ok a, j') -> fn (tables j) = Ok (a, tables j').
Proof.
  intros Hm. pose proof (ensure_open_tables e j Hm) as Ht. unfold _txn.
  destruct (_ensure_open e j) as [[u|x] j1]; simpl in *; [|done]. rewrite Ht.
  destruct (fn (tables j)) as [[a' t']|x]; [|done]. intros H. by inv_eq.
Qed.

(** ** Properties *)

(** C21: at-most-once admission.  Over any history of journal operations on a
    worker that starts from a fresh file (tokens valid or forged, repeated or
    concurrent dispatches, revocations, completions, GC, retention, epoch
    changes, restarts, clock jumps), no attempt id is admitted twice. *)
Theorem admission_at_most_once cfg e q h ops :
  NoDup (run cfg ops (init e fresh_db q h)).1.
Proof.
  destruct (run cfg ops (init e fresh_db q h)) as [evs j'] eqn:E. simpl.
  apply run_spec in E as [_ H]. apply H. apply (ev_inv _ _ (init_evolves e fresh_db q h)), inv_fresh.
Qed.

(** Revocation is permanent.  Once [record_tombstone] has returned for an
    attempt, no later operation of any history admits it, not even after GC
    or retention deleted the tombstone row. *)
Theorem revoked_never_admitted cfg e aid rid why j tb j1 ops :
  reachable cfg j ->
  record_tombstone e aid rid why j = (Ok tb, j1) ->
  aid ∉ (run cfg ops j1).1.
Proof.
  intros Hr Ht Hin. destruct (reachable_inv _ _ Hr) as [Hinv Hm].
  assert (evolves (tables j) (tables j1)) as Hev.
  { pose proof (step_spec cfg e (OTombstone aid rid why) j) as Hs. simpl in Hs.
    rewrite Ht in Hs. by destruct (Hs None j1 eq_refl). }
  apply (txn_ok _ _ _ _ _ Hm) in Ht. cbv zeta in Ht. injection Ht as _ Ht.
  destruct (run cfg ops j1) as [evs j2] eqn:E. apply run_spec in E as [_ H].
  destruct (H (ev_inv _ _ Hev Hinv)) as [_ Hnb]. apply (Hnb aid Hin). left.
  rewrite <- Ht. simpl. rewrite dom_insert_L. set_solver.
Qed.

(** The rejection watermark and the session epoch never go back, whatever
    the clock does: over any history each epoch's watermark only grows, the
    epoch only grows, and no reservation is ever deleted. *)
Theorem watermark_never_lowered cfg ops j :
  let j' := (run cfg ops j).2 in
  wm_le (tables j) (tables j') /\
  _session_epoch_locked (tables j) <= _session_epoch_locked (tables j') /\
  dom (reservations (tables j)) ⊆ dom (reservations (tables j')).
Proof.
  intros j'. pose proof (run_evolves cfg ops j) as Hev. fold j' in Hev. repeat split; apply Hev.
Qed.

(** A retired token stays retired.  If [gc_expired] ran at a time when a
    token's validity window (issue + TTL + skew) was over, then for the rest of
    that session epoch the token is never admitted, even when its row is gone
    and the local clock has been set back inside its validity window. *)
Theorem retired_token_refused cfg e now j rep j1 ops e' tok p ses cur prev now' v iat ttl :
  reachable cfg j ->
  gc_expired cfg e (Some now) j = (Ok rep, j1) ->
  in_range now -> 1000000 <= now ->
  (iat + ttl + auth_clock_skew_s cfg) * 1000000 <= now ->
  0 <= iat + ttl + auth_clock_skew_s cfg ->
  let j2 := (run cfg ops j1).2 in
  _session_epoch_locked (tables j2) = _session_epoch_locked (tables j1) ->
  AuthTokens.validate_start_authorization ses cur prev (auth_max_ttl_s cfg) (auth_clock_skew_s cfg)
    (timestamp_s (default (clock e') now')) tok = Ok v ->
  AuthTokens.r_issued_at_unix v = Some iat -> AuthTokens.r_ttl_s v = Some ttl ->
  admitted_id (validate_and_admit cfg e' tok p ses cur prev now' j2).1 = None.
Proof.
  intros Hr Hgc Hrng Hpos Hwin Hnn j2 Hep Hv Hiat Httl.
  assert (reachable cfg j1) as Hr1
    by (pose proof (reachable_step cfg e (OGc (Some now)) j Hr) as H; simpl in H; by rewrite Hgc in H).
  pose proof (reachable_run cfg ops j1 Hr1) as Hr2. fold j2 in Hr2.
  destruct (reachable_inv _ _ Hr) as [_ Hm]. destruct (reachable_inv _ _ Hr2) as [Hinv2 Hm2].
  apply (txn_ok _ _ _ _ _ Hm) in Hgc. cbv zeta in Hgc. injection Hgc as _ Ht1. simpl in Ht1.
  assert (exists w, watermarks (tables j1) !! _session_epoch_locked (tables j1) = Some w /\
                    timestamp_ms now <= wm_ms w) as (w & Hw & Hwl).
  { assert (_session_epoch_locked (tables j1) = _session_epoch_locked (tables j)) as -> by (by rewrite <- Ht1).
    rewrite <- Ht1. cbn [watermarks set_tombstones set_authorizations].
    rewrite advance_watermark_lookup, decide_True by done. eexists; split; [done|]. simpl.
    destruct (watermarks (tables j) !! _); lia. }
  destruct (run_evolves cfg ops j1) as [_ _ _ Hwm _ _]. fold j2 in Hwm.
  destruct (Hwm _ _ Hw) as (w2 & Hw2 & Hw2l).
  pose proof (timestamp_ms_seconds now _ Hrng Hpos Hnn Hwin) as Hms.
  unfold validate_and_admit. pose proof (ensure_open_tables e' j2 Hm2) as Htab.
  destruct (_ensure_open e' j2) as [[u|x] j3]; simpl in Htab; [|done]. rewrite Hv, Hiat, Httl, Htab.
  destruct (AuthTokens.valid v); [|done].
  destruct (replay_gate cfg _ iat ttl (tables j2)) as [why|] eqn:Eg; [done|].
  destruct (journal_admit _ _ _ _ _) as [r j4] eqn:Ea. simpl.
  destruct (admitted_id r) as [aid|] eqn:Eid; [exfalso|done].
  destruct (journal_admit_spec _ _ _ _ _ _ _ Ea) as [_ Had].
  destruct (Had aid Eid) as (_ & _ & Hth). rewrite Htab in Hth.
  specialize (Hth Hinv2 _ eq_refl). unfold replay_gate in Eg.
  destruct (map_to_list (filter _ (authorizations (tables j2)))) as [|[k row] l] eqn:El; simpl in Eg.
  - rewrite Hep, Hw2 in Eg. destruct (_ <=? _) eqn:E; [done|]. bool_to_prop. lia.
  - assert ((k, row) ∈ map_to_list (filter (fun kv => au_token_hash kv.2 = Sha256.sha256_hex tok)
      (authorizations (tables j2)))) as Hin by (rewrite El; apply elem_of_cons; by left).
    apply elem_of_map_to_list, map_lookup_filter_Some in Hin as [Hin Hh].
    apply Hth. by exists k, row.
Qed.

(** ** A concrete worker *)

Definition demo_env (t : Z) : env := mkEnv t 4096 SqlOk SqlOk.
Definition demo_start : journal := init (demo_env 1000000000) fresh_db 0 0.
Definition demo_token : string :=
  match AuthTokens.mint_start_authorization AuthTokens.demo_claims "k" with
  | Ok t => t | Raise _ => ""%string
  end.

Lemma demo_reachable cfg : reachable cfg demo_start.
Proof. by exists (demo_env 1000000000), 0, 0, []. Qed.

Lemma revoked_never_admitted_witness :
  "r1-a1"%string ∉ (run default_config
     [(demo_env 1010000000, OValidate demo_token "p" "w0-ab12cd34" "k" None None)]
     (record_tombstone (demo_env 1001000000) "r1-a1" "r1" "stopped" demo_start).2).1.
Proof.
  eapply (revoked_never_admitted default_config (demo_env 1001000000) "r1-a1" "r1" "stopped" demo_start).
  - apply demo_reachable.
  - reflexivity.
Defined.

Lemma retired_token_refused_witness :
  admitted_id (validate_and_admit default_config (demo_env 1010000000) demo_token "p" "w0-ab12cd34" "k"
    None None (gc_expired default_config (demo_env 2000000000) (Some 2000000000) demo_start).2).1 = None.
Proof.
  eapply (retired_token_refused default_config (demo_env 2000000000) 2000000000 demo_start _ _ []
    (demo_env 1010000000) demo_token "p" "w0-ab12cd34" "k" None None
    (AuthTokens.accepted AuthTokens.demo_claims) 1000 60).
  - apply demo_reachable.
  - reflexivity.
  - unfold in_range; lia.
  - lia.
  - simpl; lia.
  - simpl; lia.
  - reflexivity.
  - vm_compute. reflexivity.
  - reflexivity.
  - reflexivity.
Defined.

End JournalSafety.
