(* ===== verification/JournalAdmission.v ===== *)
(** * What one presented start does to the worker journal

    The decisions of [WorkerJournal.validate_and_admit] (agent/journal.py):
    a start that is not admitted changes no table, a fresh valid token is
    admitted with exactly one new reservation, and presenting it again answers
    "already admitted" without a second reservation. *)

From Stdlib Require Import ZArith Lia Ascii String.
From stdpp Require Import base tactics list strings gmap option.
From S2P Require Import Prelude PyStr Sha256 AuthTokens IsoTime Journal JournalSafety.

#[local] Open Scope Z_scope.
#[local] Open Scope list_scope.

Module JournalAdmission.
Import IsoTime Journal JournalSafety.

(** ** Admission decisions *)

(** A healthy probe of an open journal changes nothing. *)
Lemma health_open_id e j :
  is_open j = true -> fatal j = None -> h_state (_health_locked e j).1 = HOk ->
  (_health_locked e j).2 = j.
Proof.
  intros Ho Hf. unfold _health_locked, _ensure_open. rewrite Ho, Hf.
  destruct (fatal_of_sql (probe_outcome e)) as [k|]; [by destruct k|].
  by destruct (quota_threshold_bytes j).
Qed.

(** A journal that answered a healthy probe is open and keeps its tables. *)
Lemma health_ok_inv e j :
  is_Some (session_epoch_meta (tables j)) ->
  h_state (_health_locked e j).1 = HOk ->
  let j1 := (_health_locked e j).2 in
  is_open j1 = true /\ fatal j1 = None /\ tables j1 = tables j /\ _ensure_open e j = (Ok tt, j1) /\
  (_health_locked e j1) = ((_health_locked e j).1, j1).
Proof.
  intros Hm. pose proof (ensure_open_tables e j Hm) as Ht. unfold _health_locked at 1.
  destruct (fatal j) as [k|] eqn:Ef; [by destruct k|].
  destruct (_ensure_open e j) as [[[]|x] j1] eqn:Eo; simpl in Ht;
    [|simpl; destruct (fatal j1) as [[]|]; done].
  assert (is_open j1 = true /\ fatal j1 = None) as [Ho Hf].
  { unfold _ensure_open in Eo. rewrite Ef in Eo. destruct (is_open j) eqn:E; [by inv_eq|].
    by destruct (fatal_of_sql (open_outcome e)); inv_eq. }
  destruct (fatal_of_sql (probe_outcome e)) as [k|] eqn:Ep; [by destruct k|]. intros Hq.
  assert (_health_locked e j = (_health_locked e j1)) as Heq.
  { unfold _health_locked. rewrite Ef, Hf, Eo. unfold _ensure_open. by rewrite Hf, Ho. }
  assert ((_health_locked e j1).2 = j1) as Hid.
  { unfold _health_locked, _ensure_open. rewrite Hf, Ho, Ep. by destruct (quota_threshold_bytes j1). }
  rewrite Heq, Hid. split_and!; try done. by destruct (_health_locked e j1); simpl in *; subst.
Qed.

Lemma health_tables e j :
  is_Some (session_epoch_meta (tables j)) -> tables (_health_locked e j).2 = tables j.
Proof.
  intros Hm. pose proof (ensure_open_tables e j Hm) as Ht. unfold _health_locked.
  destruct (fatal j); [done|]. destruct (_ensure_open e j) as [[u|x] j1]; simpl in *; [|done].
  destruct (fatal_of_sql _); [done|]. by destruct (quota_threshold_bytes j1).
Qed.

Lemma admit_txn_refused cfg now a p t :
  admitted_id (admit_txn cfg now a p t).1 = None -> (admit_txn cfg now a p t).2 = t.
Proof.
  unfold admit_txn. destruct (_ <? _); [done|]. destruct (insert_authorization _ _); [|done].
  destruct (tombstones _ !! _); [done|]. destruct (reservations _ !! _); [|done].
  by destruct (decide _).
Qed.

Lemma journal_admit_refused cfg e auth p j :
  is_Some (session_epoch_meta (tables j)) ->
  admitted_id (journal_admit cfg e auth p j).1 = None ->
  tables (journal_admit cfg e auth p j).2 = tables j.
Proof.
  intros Hm. unfold journal_admit. destruct (negb _); [done|].
  destruct (required_fields auth) as [a|]; [|done].
  pose proof (health_tables e j Hm) as Hh. unfold _ensure_admitting.
  destruct (_health_locked e j) as [h j1]; simpl in Hh. destruct (bool_decide _); [|done].
  pose proof (admit_txn_refused cfg (clock e) a p (tables j1)) as Hr.
  destruct (admit_txn cfg (clock e) a p (tables j1)) as [r t']. simpl in *. intros H.
  by rewrite (Hr H).
Qed.

(** C34: an admission is all or nothing.  Whenever a presented start does not
    end in an admission (invalid token, retired or replayed token, revoked or
    already admitted attempt, conflicting claims, closed or unavailable
    journal), every table of the journal file is exactly as before: no
    authorization, reservation or watermark row stays behind. *)
Theorem refused_start_leaves_no_trace cfg e tok p ses cur prev now j :
  reachable cfg j ->
  admitted_id (validate_and_admit cfg e tok p ses cur prev now j).1 = None ->
  tables (validate_and_admit cfg e tok p ses cur prev now j).2 = tables j.
Proof.
  intros Hr. destruct (reachable_inv _ _ Hr) as [_ Hm].
  pose proof (ensure_open_tables e j Hm) as Ho. unfold validate_and_admit.
  destruct (_ensure_open e j) as [[u|x] j1]; simpl in *; [|done].
  rewrite <- Ho in Hm. intros H. rewrite <- Ho. revert H.
  destruct (AuthTokens.validate_start_authorization _ _ _ _ _ _ _) as [v|x]; [|done].
  destruct (AuthTokens.valid v); [|by apply journal_admit_refused].
  destruct (AuthTokens.r_issued_at_unix v); [|by apply journal_admit_refused].
  destruct (AuthTokens.r_ttl_s v); [|by apply journal_admit_refused].
  destruct (replay_gate _ _ _ _ _); [done|by apply journal_admit_refused].
Qed.

(** ** A fresh token is admitted *)

(** The reservation row an admission of the claims [c] writes. *)
Definition reserved_row (c : AuthTokens.claims) (p : string) (now : Z) : reservation :=
  mkReservation (AuthTokens.run_id c) p (AuthTokens.generation c) (AuthTokens.slot_id c)
    (AuthTokens.worker_session c) (isoformat now) Reserved false.

(** The decision [validate_and_admit] hands to [admit] for the claims [c]. *)
Definition decision_of (c : AuthTokens.claims) (tok : string) (ep : Z) : full_decision :=
  mkFull (AuthTokens.attempt_id c) (AuthTokens.run_id c) (AuthTokens.generation c)
    (AuthTokens.slot_id c) (AuthTokens.worker_session c) ep (Sha256.sha256_hex tok)
    (isoformat (fromtimestamp (AuthTokens.issued_at_unix c)))
    (isoformat (fromtimestamp (AuthTokens.issued_at_unix c + AuthTokens.ttl_s c))).

(** The clock has not run behind the epoch's watermark by more than the skew. *)
Definition clock_sane (cfg : config) (now : Z) (t : db) : Prop :=
  forall w, watermarks t !! _session_epoch_locked t = Some w ->
  wm_ms w - auth_clock_skew_s cfg * 1000 <= timestamp_ms now.

(** The recorded rows of this token, if any, belong to the current epoch, and
    without one the watermark has not passed the token's window. *)
Definition not_retired (cfg : config) (c : AuthTokens.claims) (tok : string) (t : db) : Prop :=
  let rows := filter (fun kv => au_token_hash kv.2 = Sha256.sha256_hex tok) (authorizations t) in
  map_Forall (fun _ r => au_session_epoch r = _session_epoch_locked t) rows /\
  (rows = ∅ -> forall w, watermarks t !! _session_epoch_locked t = Some w ->
     wm_ms w < (AuthTokens.issued_at_unix c + AuthTokens.ttl_s c + auth_clock_skew_s cfg) * 1000).

Lemma replay_gate_passes cfg c tok t :
  not_retired cfg c tok t ->
  replay_gate cfg (Sha256.sha256_hex tok) (AuthTokens.issued_at_unix c) (AuthTokens.ttl_s c) t = None.
Proof.
  unfold not_retired, replay_gate. set (rows := filter _ _). intros [Hall Hw].
  destruct (map_to_list rows) as [|[k r] l] eqn:E; simpl.
  - apply map_to_list_empty_iff in E. destruct (watermarks t !! _) as [w|]; [|done].
    specialize (Hw E w eq_refl). by rewrite (proj2 (Z.leb_gt _ _)) by lia.
  - assert (rows !! k = Some r) as Hk by (apply elem_of_map_to_list; rewrite E; by left).
    by rewrite (proj2 (Z.eqb_eq _ _) (Hall _ _ Hk)).
Qed.

Lemma watermark_check_passes cfg now iso t :
  0 <= auth_clock_skew_s cfg -> clock_sane cfg now t ->
  let ep := _session_epoch_locked t in
  (timestamp_ms now <?
    match watermarks (_advance_watermark_locked ep (timestamp_ms now) iso t) !! ep with
    | Some r => wm_ms r | None => timestamp_ms now end - auth_clock_skew_s cfg * 1000) = false.
Proof.
  intros Hsk Hc ep. rewrite advance_watermark_lookup, decide_True by done. apply Z.ltb_ge. simpl.
  unfold clock_sane in Hc. fold ep in Hc.
  destruct (watermarks t !! ep) as [w|]; [specialize (Hc w eq_refl)|]; lia.
Qed.

(** A validated token that passes the gate reaches the admission transaction. *)
Lemma validate_and_admit_reaches cfg e tok p c cur prev j :
  is_Some (session_epoch_meta (tables j)) ->
  AuthTokens.validate_start_authorization (AuthTokens.worker_session c) cur prev
    (auth_max_ttl_s cfg) (auth_clock_skew_s cfg) (timestamp_s (clock e)) tok
    = Ok (AuthTokens.accepted c) ->
  h_state (_health_locked e j).1 = HOk ->
  not_retired cfg c tok (tables j) ->
  let j1 := (_health_locked e j).2 in
  validate_and_admit cfg e tok p (AuthTokens.worker_session c) cur prev None j
  = let '(r, t') := admit_txn cfg (clock e)
                      (decision_of c tok (_session_epoch_locked (tables j))) p (tables j) in
    (r, set_tables t' j1).
Proof.
  intros Hm Hv Hh Hnr j1. destruct (health_ok_inv e j Hm Hh) as (Ho & Hf & Ht & He & Hh1).
  fold j1 in Ho, Hf, Ht, He, Hh1. unfold validate_and_admit. rewrite He. cbn [default]. rewrite Hv.
  cbn [AuthTokens.valid AuthTokens.r_issued_at_unix AuthTokens.r_ttl_s AuthTokens.accepted].
  rewrite Ht, replay_gate_passes by done. unfold decision_of.
  generalize (Sha256.sha256_hex tok) as th. intros th. unfold journal_admit, _ensure_admitting.
  rewrite Hh1, bool_decide_true, Ht by done. reflexivity.
Qed.

Lemma admit_txn_fresh cfg now a p t :
  0 <= auth_clock_skew_s cfg -> clock_sane cfg now t -> inv t ->
  ~ blocked (f_attempt_id a) t ->
  ~ map_Exists (fun _ x => au_token_hash x = f_token_hash a) (authorizations t) ->
  exists t', admit_txn cfg now a p t
    = (Ok (mkAdmission Admitted_ok (Some (f_attempt_id a)) None None None None), t') /\
    session_epoch_meta t' = session_epoch_meta t /\ tombstones t' = tombstones t /\
    completions t' = completions t /\ outbox t' = outbox t /\
    reservations t' = <[f_attempt_id a := mkReservation (f_run_id a) p (f_generation a) (f_slot_id a)
                      (f_worker_session a) (isoformat now) Reserved false]> (reservations t) /\
    authorizations t' = <[f_attempt_id a := mkAuthorization (f_run_id a) (f_session_epoch a)
                 (f_token_hash a) (f_issued_at a) (f_expires_at a)]> (authorizations t).
Proof.
  intros Hsk Hc Hinv Hb Hth. unfold admit_txn. rewrite watermark_check_passes by done.
  set (t1 := _advance_watermark_locked _ _ _ t).
  assert (reservations t !! f_attempt_id a = None) as Er.
  { apply not_elem_of_dom. intros ?. apply Hb. by right. }
  assert (tombstones t !! f_attempt_id a = None) as Et.
  { apply not_elem_of_dom. intros ?. apply Hb. by left. }
  assert (authorizations t !! f_attempt_id a = None) as Ea.
  { apply not_elem_of_dom. unfold inv in Hinv. apply not_elem_of_dom in Er. set_solver. }
  unfold insert_authorization. change (authorizations t1) with (authorizations t).
  rewrite Ea, decide_False by done. cbn [tombstones reservations set_authorizations].
  change (tombstones t1) with (tombstones t). change (reservations t1) with (reservations t).
  rewrite Et, Er. by eexists.
Qed.

Lemma admit_txn_again cfg now a p t r :
  0 <= auth_clock_skew_s cfg -> clock_sane cfg now t ->
  is_Some (authorizations t !! f_attempt_id a) ->
  tombstones t !! f_attempt_id a = None ->
  reservations t !! f_attempt_id a = Some r ->
  (rs_run_id r, rs_generation r, rs_slot_id r) = (f_run_id a, f_generation a, f_slot_id a) ->
  admit_txn cfg now a p t
  = (Ok (mkAdmission AlreadyAdmitted (Some (f_attempt_id a))
           (Some (_attempt_from_reservation (f_attempt_id a) r)) None None None), t).
Proof.
  intros Hsk Hc [x Ea] Et Er Heq. unfold admit_txn. rewrite watermark_check_passes by done.
  set (t1 := _advance_watermark_locked _ _ _ t).
  unfold insert_authorization. change (authorizations t1) with (authorizations t). rewrite Ea.
  change (tombstones t1) with (tombstones t). change (reservations t1) with (reservations t).
  by rewrite Et, Er, decide_True.
Qed.

(** A valid, unspent start is admitted, once, and its redelivery is
    idempotent.  On a healthy journal whose clock has not regressed, a token
    that validates to the claims [c], is not retired and whose attempt has
    neither tombstone nor reservation is admitted: exactly one reservation is
    added, in state [reserved], carrying the claims.  Any later valid
    presentation of the same token answers [already_admitted] with that
    reservation and changes nothing. *)
Theorem start_admitted_then_idempotent cfg e e2 tok p p2 c cur prev j :
  let ses := AuthTokens.worker_session c in
  let aid := AuthTokens.attempt_id c in
  let validates t := AuthTokens.validate_start_authorization ses cur prev (auth_max_ttl_s cfg)
        (auth_clock_skew_s cfg) (timestamp_s t) tok = Ok (AuthTokens.accepted c) in
  reachable cfg j -> 0 <= auth_clock_skew_s cfg ->
  validates (clock e) -> h_state (_health_locked e j).1 = HOk ->
  clock_sane cfg (clock e) (tables j) -> not_retired cfg c tok (tables j) ->
  ~ blocked aid (tables j) ->
  ~ map_Exists (fun _ x => au_token_hash x = Sha256.sha256_hex tok) (authorizations (tables j)) ->
  exists j',
    validate_and_admit cfg e tok p ses cur prev None j
      = (Ok (mkAdmission Admitted_ok (Some aid) None None None None), j') /\
    reservations (tables j') = <[aid := reserved_row c p (clock e)]> (reservations (tables j)) /\
    (validates (clock e2) -> h_state (_health_locked e2 j').1 = HOk ->
     clock_sane cfg (clock e2) (tables j') ->
     validate_and_admit cfg e2 tok p2 ses cur prev None j'
     = (Ok (mkAdmission AlreadyAdmitted (Some aid)
              (Some (_attempt_from_reservation aid (reserved_row c p (clock e)))) None None None), j')).
Proof.
  intros ses aid validates Hr Hsk Hv Hh Hc Hnr Hb Hth. destruct (reachable_inv _ _ Hr) as [Hinv Hm].
  pose proof (validate_and_admit_reaches cfg e tok p c cur prev j Hm Hv Hh Hnr) as Hreach.
  destruct (admit_txn_fresh cfg (clock e) (decision_of c tok (_session_epoch_locked (tables j))) p
    (tables j) Hsk Hc Hinv Hb Hth) as (t' & Etx & Hep & Htb & _ & _ & Hres & Hau).
  rewrite Etx in Hreach. simpl in Hreach.
  destruct (health_ok_inv e j Hm Hh) as (Ho & Hf & _ & _ & _).
  eexists; split; [exact Hreach|]. split; [exact Hres|]. simpl. intros Hv2 Hh2 Hc2.
  set (j' := set_tables t' _) in *.
  assert (is_Some (session_epoch_meta (tables j'))) as Hm' by (simpl; by rewrite Hep).
  assert (_session_epoch_locked (tables j') = _session_epoch_locked (tables j)) as Hep'
    by (unfold _session_epoch_locked; simpl; by rewrite Hep).
  assert (not_retired cfg c tok (tables j')) as Hnr'.
  { unfold not_retired. rewrite Hep'. simpl (authorizations _). rewrite Hau. split.
    - intros k r Hk. apply map_lookup_filter_Some in Hk as [Hk Hx]. simpl in Hx.
      destruct (decide (k = aid)) as [->|Hne].
      + unfold aid in Hk. simpl in Hk. rewrite lookup_insert_eq in Hk. by inv_eq.
      + rewrite lookup_insert_ne in Hk by (simpl; intros <-; by apply Hne). exfalso. apply Hth. by exists k, r.
    - intros H. exfalso. apply map_empty_filter in H. eapply (H (AuthTokens.attempt_id c)).
      + apply lookup_insert_eq.
      + done. }
  etransitivity; [exact (validate_and_admit_reaches cfg e2 tok p2 c cur prev j' Hm' Hv2 Hh2 Hnr')|].
  assert ((_health_locked e2 j').2 = j') as ->.
  { apply health_open_id; simpl; [exact Ho|exact Hf|exact Hh2]. }
  rewrite (admit_txn_again cfg (clock e2) _ p2 (tables j') (reserved_row c p (clock e))); try done.
  - simpl. rewrite Hau. simpl. rewrite lookup_insert_eq. by eexists.
  - simpl. rewrite Htb. apply not_elem_of_dom. intros ?. apply Hb. by left.
  - simpl. rewrite Hres. apply lookup_insert_eq.
Qed.

Lemma refused_start_leaves_no_trace_witness :
  tables (validate_and_admit default_config (demo_env 1010000000) "forged" "p" "w0-ab12cd34" "k" None None
    demo_start).2 = tables demo_start.
Proof.
  apply (refused_start_leaves_no_trace default_config (demo_env 1010000000) "forged" "p" "w0-ab12cd34" "k"
    None None demo_start).
  - apply demo_reachable.
  - vm_compute. reflexivity.
Defined.

Lemma start_admitted_then_idempotent_witness :
  exists j',
    validate_and_admit default_config (demo_env 1010000000) demo_token "p" "w0-ab12cd34" "k" None None
      demo_start
      = (Ok (mkAdmission Admitted_ok (Some "r1-a1"%string) None None None None), j') /\
    reservations (tables j')
      = <["r1-a1"%string := reserved_row AuthTokens.demo_claims "p" 1010000000]> ∅.
Proof.
  edestruct (start_admitted_then_idempotent default_config (demo_env 1010000000) (demo_env 1011000000)
    demo_token "p" "p" AuthTokens.demo_claims "k" None demo_start) as (j' & H1 & H2 & _).
  - apply demo_reachable.
  - vm_compute; discriminate.
  - vm_compute; reflexivity.
  - reflexivity.
  - intros w H. vm_compute in H. discriminate.
  - split; [apply map_Forall_lookup; intros k r H; vm_compute in H; discriminate|].
    intros _ w H. vm_compute in H. discriminate.
  - intros [H|H]; vm_compute in H; discriminate.
  - intros (k & r & H & _). vm_compute in H. discriminate.
  - exists j'. split; [exact H1|exact H2].
Defined.

End JournalAdmission.
