(* ===== verification/JournalDelivery.v ===== *)
(** * Result delivery: completions, the outbox and the drain loop

    The delivery half of the worker journal (agent/journal.py) and
    [_drain_outbox_once] of agent/server.py, which posts the due rows to the
    manager.  The invariant is that the outbox holds exactly one run-complete
    row per unacknowledged completion, with its very payload; what follows is
    that a committed result is delivered until the manager acknowledged it,
    and is acknowledged only after a successful post. *)

From Stdlib Require Import ZArith Lia Ascii String Sorting.
From stdpp Require Import base tactics list strings gmap option sorting.
From S2P Require Import Prelude PyStr Sha256 AuthTokens IsoTime Journal JournalSafety.

#[local] Open Scope Z_scope.
#[local] Open Scope list_scope.

Module JournalDelivery.
Import IsoTime Journal JournalSafety.

(** ** The drain pass *)

(** What posting a row's payload comes to: the payload does not parse as
    JSON, the request fails or answers non-2xx, or it is delivered. *)
Inductive post_outcome := Unparseable (err : string) | PostFailed (err : string) | Delivered.

Definition _OUTBOX_DRAIN_BATCH : Z := 10.

Definition already_acked (r : option AttemptRecord) : bool :=
  match r with
  | Some a => (bool_decide (ar_kind a = KCompletion) && default false (ar_acked a))%bool
  | None => false
  end.

(** The loop over the fetched rows; the [i]-th row's journal calls run in the
    environment [ev i]. *)
Fixpoint drain_rows (post : string -> post_outcome) (ev : nat -> env) (i : nat)
  (rows : list OutboxRow) (processed : Z) (j : journal) : res journal_exn Z * journal :=
  match rows with
  | [] => (Ok processed, j)
  | row :: rows' =>
      match get_attempt (ev i) (ob_attempt_id row) j with
      | (Raise x, j1) => (Raise x, j1)
      | (Ok rec, j1) =>
          if already_acked rec then drain_rows post ev (S i) rows' processed j1
          else
            let call := match post (ob_payload_json row) with
                        | Unparseable err =>
                            record_outbox_failure (ev i) (ob_seq row) ("unparseable payload: " ++ err) j1
                        | PostFailed err => record_outbox_failure (ev i) (ob_seq row) err j1
                        | Delivered => mark_acked (ev i) (ob_attempt_id row) j1
                        end in
            match call with
            | (Raise x, j2) => (Raise x, j2)
            | (Ok _, j2) => drain_rows post ev (S i) rows' (processed + 1) j2
            end
      end
  end.

(** [has_url]: a manager URL is configured. *)
Definition _drain_outbox_once (has_url : bool) (post : string -> post_outcome) (ev : nat -> env)
  (j : journal) : res journal_exn Z * journal :=
  if negb has_url then (Ok 0, j)
  else match fetch_due_outbox (ev 0%nat) _OUTBOX_DRAIN_BATCH j with
  | (Raise x, j1) => (Raise x, j1)
  | (Ok rows, j1) => drain_rows post ev 1%nat rows 0 j1
  end.

(** ** The delivery part of the tables *)

Definition dpart (t : db) : gmap string completion * list OutboxRow * Z :=
  (completions t, outbox t, outbox_seq t).

(** Every row is the only one of an unacknowledged completion and carries its
    result; with [q], every unacknowledged completion has its row, so that the
    two correspond one to one. *)
Record delivery_inv (q : bool) (t : db) : Prop := mkDeliveryInv {
  di_cover : q = true ->
    forall aid c, completions t !! aid = Some c -> cp_acked c = false ->
    exists o, o ∈ outbox t /\ ob_attempt_id o = aid;
  di_row : forall o, o ∈ outbox t -> ob_kind o = run_complete /\
    exists c, completions t !! ob_attempt_id o = Some c /\ cp_acked c = false /\
      ob_payload_json o = cp_result_json c;
  di_nodup : NoDup (ob_attempt_id <$> outbox t);
  di_sorted : StronglySorted Z.lt (ob_seq <$> outbox t);
  di_seq : Forall (fun o => ob_seq o <= outbox_seq t) (outbox t);
}.

Lemma delivery_inv_dpart q t t' : dpart t' = dpart t -> delivery_inv q t -> delivery_inv q t'.
Proof.
  unfold dpart. intros H. injection H as Hc Ho Hs. intros [? ? ? ? ?].
  split; rewrite ?Hc, ?Ho, ?Hs; auto.
Qed.

Lemma delivery_inv_weaken q t : delivery_inv true t -> delivery_inv q t.
Proof. intros [Hc ? ? ? ?]. split; [intros _; exact (Hc eq_refl)|assumption..]. Qed.

Lemma delivery_inv_fresh q : delivery_inv q fresh_db.
Proof.
  split; simpl; try constructor; try done.
  all: match goal with H : _ ∈ [] |- _ => by apply elem_of_nil in H end.
Qed.

(** ** Rows spooled from completions *)

Lemma spool_rows_ids now seq sel : ob_attempt_id <$> spool_rows now seq sel = sel.*1.
Proof. revert seq; induction sel as [|[a c] sel IH]; intros seq; simpl; [done|]. by rewrite IH. Qed.

Lemma spool_rows_elem now seq sel o :
  o ∈ spool_rows now seq sel ->
  ob_kind o = run_complete /\ seq < ob_seq o <= seq + Z.of_nat (length sel) /\
  exists c, (ob_attempt_id o, c) ∈ sel /\ ob_payload_json o = cp_result_json c.
Proof.
  revert seq; induction sel as [|[a c] sel IH]; intros seq H; simpl in H; [by apply elem_of_nil in H|].
  apply elem_of_cons in H as [->|H]; simpl.
  - split; [done|]. split; [lia|]. exists c. split; [by left|done].
  - destruct (IH _ H) as (Hk & Hs & c' & Hin & Hp). split; [done|]. split; [lia|].
    exists c'. split; [by right|done].
Qed.

Lemma spool_rows_sorted now seq sel : StronglySorted Z.lt (ob_seq <$> spool_rows now seq sel).
Proof.
  revert seq; induction sel as [|[a c] sel IH]; intros seq; simpl; constructor; [apply IH|].
  apply Forall_fmap, Forall_forall. intros o Ho. apply spool_rows_elem in Ho as (_ & Hs & _).
  simpl. lia.
Qed.

Lemma sorted_app_lt (l1 l2 : list Z) m :
  StronglySorted Z.lt l1 -> StronglySorted Z.lt l2 ->
  Forall (fun x => x <= m) l1 -> Forall (fun y => m < y) l2 -> StronglySorted Z.lt (l1 ++ l2).
Proof.
  induction 1 as [|x l1 Hs IH Hx]; intros H2 Hm Hl; simpl; [done|].
  inversion Hm; subst. constructor; [auto|]. apply Forall_app. split; [done|].
  eapply Forall_impl; [exact Hl|]. intros y Hy. simpl in *. lia.
Qed.

Lemma sorted_filter_seq (P : OutboxRow -> Prop) `{!forall o, Decision (P o)} l :
  StronglySorted Z.lt (ob_seq <$> l) -> StronglySorted Z.lt (ob_seq <$> filter P l).
Proof.
  induction l as [|o l IH]; intros Hs; [done|]. inversion Hs as [|? ? Hs' Hf]; subst.
  rewrite filter_cons. destruct (decide (P o)); [|auto]. simpl. constructor; [auto|].
  apply Forall_forall. intros s Hin. rewrite Forall_forall in Hf. apply Hf.
  apply list_elem_of_fmap in Hin as (o' & -> & Ho). apply list_elem_of_fmap.
  exists o'. split; [done|]. by apply list_elem_of_filter in Ho as [_ ?].
Qed.

Lemma filter_none_dropped (P : OutboxRow -> Prop) `{!forall o, Decision (P o)} (l : list OutboxRow) :
  (forall o, o ∈ l -> P o) -> filter P l = l.
Proof.
  induction l as [|o l IH]; intros Hl; [done|]. rewrite filter_cons_True by (apply Hl; by left).
  f_equal. apply IH. intros o' Ho'. apply Hl. by right.
Qed.

Lemma nodup_filter_ids (P : OutboxRow -> Prop) `{!forall o, Decision (P o)} l :
  NoDup (ob_attempt_id <$> l) -> NoDup (ob_attempt_id <$> filter P l).
Proof. intros Hnd. eapply sublist_NoDup; [exact Hnd|]. apply fmap_sublist, sublist_filter. Qed.

(** ** The invariant through each table update *)

Lemma not_spooled t aid o :
  existsb (is_run_complete_for aid) (outbox t) = false -> o ∈ outbox t ->
  ob_kind o = run_complete -> ob_attempt_id o <> aid.
Proof.
  intros H Hin Hk <-. rewrite <- Bool.not_true_iff_false, existsb_exists in H. apply H.
  exists o. split; [by apply list_elem_of_In|]. unfold is_run_complete_for. by apply bool_decide_eq_true.
Qed.

Lemma spooled t aid :
  existsb (is_run_complete_for aid) (outbox t) = true -> exists o, o ∈ outbox t /\ ob_attempt_id o = aid.
Proof.
  rewrite existsb_exists. intros (o & Hin & Ho). apply bool_decide_eq_true in Ho as [Ha _].
  exists o. split; [by apply list_elem_of_In|done].
Qed.

(** Spooling keeps the rows and covers every selected completion. *)
Lemma respool_rows now only t :
  delivery_inv false t -> delivery_inv false (_respool_completions_locked now only t).2.
Proof.
  intros [_ Hrow Hnd Hso Hsq]. unfold _respool_completions_locked. set (sel := map_to_list _).
  assert (forall a c, (a, c) ∈ sel -> completions t !! a = Some c /\ needs_respool only t a c = true) as Hsel.
  { intros a c H. apply elem_of_map_to_list, map_lookup_filter_Some in H. done. }
  split; simpl; [done|..].
  - intros o Ho. apply elem_of_app in Ho as [Ho|Ho]; [auto|].
    apply spool_rows_elem in Ho as (Hk & _ & c & Hin & Hp). split; [done|].
    destruct (Hsel _ _ Hin) as [Hc Hn]. exists c. unfold needs_respool in Hn. bool_to_prop.
    by repeat split.
  - rewrite fmap_app, spool_rows_ids. apply NoDup_app. split_and!; [done| |apply NoDup_fst_map_to_list].
    intros a Ha Hs. apply list_elem_of_fmap in Ha as (o & -> & Ho).
    apply list_elem_of_fmap in Hs as ([a c] & Heq & Hin). simpl in Heq. subst a.
    destruct (Hsel _ _ Hin) as [_ Hn]. unfold needs_respool in Hn. bool_to_prop.
    by eapply not_spooled; [done..|apply Hrow|].
  - rewrite fmap_app. apply sorted_app_lt with (outbox_seq t); [done|apply spool_rows_sorted| |].
    + by apply Forall_fmap.
    + apply Forall_fmap, Forall_forall. intros o Ho. apply spool_rows_elem in Ho as (_ & Hs & _).
      simpl. lia.
  - apply Forall_app. split.
    + eapply Forall_impl; [exact Hsq|]. intros o Ho. simpl in *. lia.
    + apply Forall_forall. intros o Ho. apply spool_rows_elem in Ho as (_ & Hs & _). lia.
Qed.

Lemma respool_covers now only t aid c :
  completions t !! aid = Some c -> cp_acked c = false ->
  (only = None \/ only = Some aid) ->
  exists o, o ∈ outbox (_respool_completions_locked now only t).2 /\ ob_attempt_id o = aid.
Proof.
  intros Hc Ha Ho. unfold _respool_completions_locked. set (sel := map_to_list _). simpl.
  destruct (existsb (is_run_complete_for aid) (outbox t)) eqn:E.
  - apply spooled in E as (o & Hin & Hid). exists o. rewrite elem_of_app. auto.
  - assert (aid ∈ (ob_attempt_id <$> spool_rows now (outbox_seq t) sel)) as Hin.
    { rewrite spool_rows_ids. apply list_elem_of_fmap. exists (aid, c). split; [done|].
      apply elem_of_map_to_list, map_lookup_filter_Some. split; [done|]. simpl.
      unfold needs_respool. rewrite Ha, E. destruct Ho as [->| ->]; [done|]. by rewrite bool_decide_true. }
    apply list_elem_of_fmap in Hin as (o & -> & Hin). exists o. rewrite elem_of_app. auto.
Qed.

Lemma respool_keeps now only t o :
  o ∈ outbox t -> o ∈ outbox (_respool_completions_locked now only t).2.
Proof. intros H. simpl. rewrite elem_of_app. auto. Qed.

(** Boot recovery re-establishes the invariant from the rows alone: whatever
    completions were stranded, each gets its row. *)
Lemma respool_all_inv now t :
  delivery_inv false t -> delivery_inv true (_respool_completions_locked now None t).2.
Proof.
  intros Hr. destruct (respool_rows now None t Hr) as [_ ? ? ? ?]. split; try done.
  intros _ aid c Hc Ha. apply respool_covers with c; auto.
Qed.

Lemma insert_completion_keeps aid c m a x :
  m !! a = Some x -> insert_completion aid c m !! a = Some x.
Proof.
  intros Hx. unfold insert_completion. destruct (m !! aid) eqn:E; [done|].
  rewrite lookup_insert_ne; [done|]. intros ->. congruence.
Qed.

(** Recording a result alone keeps the rows. *)
Lemma insert_completion_rows aid c t :
  delivery_inv false t -> delivery_inv false (set_completions (insert_completion aid c) t).
Proof.
  intros [_ Hrow ? ? ?]. split; try done. intros o Ho. destruct (Hrow o Ho) as (? & x & Hx & ? & ?).
  split; [done|]. exists x. split; [|done]. by apply insert_completion_keeps.
Qed.

Lemma complete_inv now aid c t q :
  delivery_inv q t ->
  delivery_inv q (_respool_completions_locked now (Some aid) (set_completions (insert_completion aid c) t)).2.
Proof.
  intros Hinv. set (t1 := set_completions _ t).
  assert (delivery_inv false t1) as Hr.
  { apply insert_completion_rows. destruct Hinv. by split. }
  destruct (respool_rows now (Some aid) t1 Hr) as [_ ? ? ? ?]. split; try done.
  intros Hq a x Hx Ha. simpl in Hx. destruct (decide (a = aid)) as [->|Hne].
  { apply respool_covers with x; auto. }
  assert (completions t !! a = Some x) as Hx'.
  { unfold insert_completion in Hx. destruct (completions t !! aid); [done|].
    by rewrite lookup_insert_ne in Hx. }
  destruct (di_cover _ _ Hinv Hq a x Hx' Ha) as (o & Ho & Hid). exists o. split; [|done].
  apply respool_keeps. done.
Qed.

(** Acknowledging an attempt removes its row and nothing else. *)
Lemma ack_inv now aid t q :
  delivery_inv q t ->
  delivery_inv q (set_outbox (filter (fun o => ob_attempt_id o <> aid))
                 (set_completions (alter (ack_completion now) aid) t)).
Proof.
  intros [Hc Hrow Hnd Hso Hsq]. split; simpl.
  - intros Hq a c Ha Hac. destruct (decide (a = aid)) as [->|Hne].
    + rewrite lookup_alter_eq in Ha. destruct (completions t !! aid) as [c0|]; [|done]. simpl in Ha.
      inv_eq. unfold ack_completion in Hac. destruct (cp_acked c0) eqn:E; simpl in Hac; congruence.
    + rewrite lookup_alter_ne in Ha by done. destruct (Hc Hq a c Ha Hac) as (o & Ho & Hid).
      exists o. split; [|done]. apply list_elem_of_filter. split; [by rewrite Hid|done].
  - intros o Ho. apply list_elem_of_filter in Ho as [Hne Ho]. rewrite lookup_alter_ne by done. auto.
  - by apply nodup_filter_ids.
  - by apply sorted_filter_seq.
  - apply Forall_forall. intros o Ho. apply list_elem_of_filter in Ho as [_ Ho].
    rewrite Forall_forall in Hsq. auto.
Qed.

(** A row update that keeps identity, kind and payload. *)
Lemma fmap_rows_inv f t q :
  (forall o, ob_attempt_id (f o) = ob_attempt_id o /\ ob_kind (f o) = ob_kind o /\
     ob_payload_json (f o) = ob_payload_json o /\ ob_seq (f o) = ob_seq o) ->
  delivery_inv q t -> delivery_inv q (set_outbox (fmap f) t).
Proof.
  intros Hf [Hc Hrow Hnd Hso Hsq].
  assert (ob_attempt_id <$> (f <$> outbox t) = ob_attempt_id <$> outbox t) as Hi.
  { rewrite <- list_fmap_compose. apply list_fmap_ext. intros i o _. apply Hf. }
  assert (ob_seq <$> (f <$> outbox t) = ob_seq <$> outbox t) as Hs.
  { rewrite <- list_fmap_compose. apply list_fmap_ext. intros i o _. apply Hf. }
  split; simpl; rewrite ?Hi, ?Hs; try done.
  - intros Hq aid c Ha Hac. destruct (Hc Hq aid c Ha Hac) as (o & Ho & Hid). exists (f o).
    split; [by apply list_elem_of_fmap_2|]. by rewrite (proj1 (Hf o)).
  - intros o Ho. apply list_elem_of_fmap in Ho as (o' & -> & Ho). destruct (Hf o') as (-> & -> & -> & _).
    auto.
  - apply Forall_fmap. eapply Forall_impl; [exact Hsq|]. intros o Ho. simpl.
    destruct (Hf o) as (_ & _ & _ & ->). done.
Qed.

(** Retention deletes acknowledged completions only, so no row. *)
Lemma retention_inv cutoff t q :
  let old := dom (filter (fun kv : string * completion => acked_before cutoff kv.1 kv.2 = true) (completions t)) in
  delivery_inv q t ->
  delivery_inv q (set_outbox (filter (fun o => ob_attempt_id o ∉ old))
                 (set_completions (tbl_delete (acked_before cutoff)) t)).
Proof.
  intros old [Hc Hrow Hnd Hso Hsq].
  assert (forall aid c, completions t !! aid = Some c -> cp_acked c = false -> aid ∉ old) as Hold.
  { intros aid c Ha Hac Hin. apply elem_of_dom in Hin as [c' Hin].
    apply map_lookup_filter_Some in Hin as [Hin Hb]. simpl in Hb. rewrite Ha in Hin. inv_eq.
    unfold acked_before in Hb. by rewrite Hac in Hb. }
  split; simpl.
  - intros Hq aid c Ha Hac. apply lookup_tbl_delete_Some in Ha as [Ha _].
    destruct (Hc Hq aid c Ha Hac) as (o & Ho & <-). exists o. split; [|done].
    apply list_elem_of_filter. eauto.
  - intros o Ho. apply list_elem_of_filter in Ho as [Hne Ho]. destruct (Hrow o Ho) as (Hk & c & Ha & Hac & Hp).
    split; [done|]. exists c. split; [|done]. apply lookup_tbl_delete_Some. split; [done|].
    unfold acked_before. by rewrite Hac.
  - by apply nodup_filter_ids.
  - by apply sorted_filter_seq.
  - apply Forall_forall. intros o Ho. apply list_elem_of_filter in Ho as [_ Ho].
    rewrite Forall_forall in Hsq. auto.
Qed.

(** ** Every journal operation *)

Lemma ensure_open_dpart e j : dpart (tables (_ensure_open e j).2) = dpart (tables j).
Proof.
  unfold _ensure_open. destruct (fatal j); [done|]. destruct (is_open j); [done|].
  by destruct (fatal_of_sql _).
Qed.

Lemma health_dpart e j : dpart (tables (_health_locked e j).2) = dpart (tables j).
Proof.
  pose proof (ensure_open_dpart e j) as Ho. unfold _health_locked. destruct (fatal j); [done|].
  destruct (_ensure_open e j) as [[u|x] j1]; simpl in *; [|done].
  destruct (fatal_of_sql _); [done|]. by destruct (quota_threshold_bytes j1).
Qed.

Lemma journal_admit_dpart cfg e auth p j : dpart (tables (journal_admit cfg e auth p j).2) = dpart (tables j).
Proof.
  pose proof (health_dpart e j) as Hh. unfold journal_admit. destruct (negb _); [done|].
  destruct (required_fields auth) as [a|]; [|done]. unfold _ensure_admitting.
  destruct (_health_locked e j) as [h j1]; simpl in *. destruct (bool_decide _); [|done].
  destruct (admit_txn cfg (clock e) a p (tables j1)) as [r t'] eqn:E. simpl. rewrite <- Hh.
  unfold admit_txn in E. destruct (_ <? _); [by inv_eq|].
  destruct (insert_authorization a _) as [t2|] eqn:Ei; [|by inv_eq].
  assert (dpart t2 = dpart (tables j1)) as H2.
  { unfold insert_authorization in Ei. destruct (authorizations _ !! _); [by injection Ei as <-|].
    destruct (decide _); [done|]. by injection Ei as <-. }
  destruct (tombstones t2 !! _); [by injection E as _ <-|].
  destruct (reservations t2 !! _); [|by injection E as _ <-].
  by destruct (decide _); injection E as _ <-.
Qed.

Lemma validate_and_admit_dpart cfg e tok p ses cur prev now j :
  dpart (tables (validate_and_admit cfg e tok p ses cur prev now j).2) = dpart (tables j).
Proof.
  pose proof (ensure_open_dpart e j) as Ho. unfold validate_and_admit.
  destruct (_ensure_open e j) as [[u|x] j1]; simpl in *; [|done]. rewrite <- Ho.
  destruct (AuthTokens.validate_start_authorization _ _ _ _ _ _ _) as [v|x]; [|done].
  destruct (AuthTokens.valid v); [|apply journal_admit_dpart].
  destruct (AuthTokens.r_issued_at_unix v); [|apply journal_admit_dpart].
  destruct (AuthTokens.r_ttl_s v); [|apply journal_admit_dpart].
  destruct (replay_gate _ _ _ _ _); [done|apply journal_admit_dpart].
Qed.

(** A transaction either leaves the delivery tables or commits its function
    applied to tables that agree with them. *)
Lemma txn_cases {A} e (fn : db -> res journal_exn (A * db)) j :
  dpart (tables (_txn e fn j).2) = dpart (tables j) \/
  exists t0 a, dpart t0 = dpart (tables j) /\ fn t0 = Ok (a, tables (_txn e fn j).2).
Proof.
  pose proof (ensure_open_dpart e j) as Ho. unfold _txn.
  destruct (_ensure_open e j) as [[u|x] j1]; simpl in *; [|by left].
  destruct (fn (tables j1)) as [[a t']|x] eqn:E; simpl; [|by left]. right. by exists (tables j1), a.
Qed.

(** A predicate on the delivery tables that every commit preserves. *)
Lemma txn_dpart_ind {A} (P : db -> Prop) e (fn : db -> res journal_exn (A * db)) j :
  (forall t t', dpart t' = dpart t -> P t -> P t') ->
  (forall t a t', fn t = Ok (a, t') -> P t -> P t') ->
  P (tables j) -> P (tables (_txn e fn j).2).
Proof.
  intros Hd Hfn HP. destruct (txn_cases e fn j) as [H|(t0 & a & H0 & H)].
  - by eapply Hd.
  - eapply Hfn; [exact H|]. by eapply Hd.
Qed.

(** The operations a history may contain: nothing but the completion lane
    writes the outbox, and with [q] every result is committed together with
    its row, as in production. *)
Definition allowed (q : bool) (o : op) : bool :=
  match o with
  | OComplete _ _ _ enqueue => implb q enqueue
  | OEnqueue _ _ _ => false
  | _ => true
  end.

Ltac same_dpart := intros t ? t' E; cbv zeta in E; inv_eq; by apply delivery_inv_dpart.

Lemma failure_row_update seq next_at attempts err o :
  let f o := if decide (ob_seq o = seq) then
      mkOutbox (ob_seq o) (ob_attempt_id o) (ob_kind o) (ob_payload_json o)
        (ob_created_at o) next_at attempts (Some err) else o in
  ob_attempt_id (f o) = ob_attempt_id o /\ ob_kind (f o) = ob_kind o /\
  ob_payload_json (f o) = ob_payload_json o /\ ob_seq (f o) = ob_seq o.
Proof. intros f. unfold f. by destruct (decide _). Qed.

Lemma step_delivery cfg e o j q :
  allowed q o = true -> delivery_inv q (tables j) -> delivery_inv q (tables (step cfg e o j).2).
Proof.
  intros Hp Hinv. pose proof (delivery_inv_dpart q) as Hd. destruct o; simpl in *; try done.
  - pose proof (journal_admit_dpart cfg e auth pipeline j) as H.
    destruct (journal_admit _ _ _ _ _); simpl in *; eauto.
  - pose proof (validate_and_admit_dpart cfg e token pipeline worker_session current previous now j) as H.
    destruct (validate_and_admit _ _ _ _ _ _ _ _ _); simpl in *; eauto.
  - apply (txn_dpart_ind (delivery_inv q)); [done| |done]. intros t a t' E.
    destruct (reservations t !! aid); [|by inv_eq]. case_decide; inv_eq; [|done]. by apply delivery_inv_dpart.
  - apply (txn_dpart_ind (delivery_inv q)); [done|same_dpart|done].
  - apply (txn_dpart_ind (delivery_inv q)); [done| |done]. intros t a t' E Ht.
    apply res_bind_ok in E as (rid & _ & E). cbv zeta in E.
    destruct enqueue; [|destruct q; [done|]; injection E as _ <-; apply insert_completion_rows;
      by apply (Hd t)].
    match type of E with Ok (_, ?x) = _ => replace t' with x by congruence end.
    apply (complete_inv (isoformat (clock e)) aid
      (mkCompletion rid result_json (isoformat (clock e)) false None)
      (set_reservations (alter complete_reservation aid) t)). by apply (Hd t).
  - apply (txn_dpart_ind (delivery_inv q)); [done| |done]. intros t a t' E Ht. injection E as _ <-.
    apply delivery_inv_weaken, respool_all_inv. destruct Ht. by split.
  - apply (txn_dpart_ind (delivery_inv q)); [done| |done]. intros t a t' E Ht. injection E as _ <-. by apply ack_inv.
  - apply (txn_dpart_ind (delivery_inv q)); [done| |done]. intros t a t' E Ht.
    destruct (list_find _ _) as [[i row]|]; [|done]. apply res_bind_ok in E as (d & _ & E).
    cbv zeta in E. injection E as _ <-. apply fmap_rows_inv; [|done]. intros ?. apply failure_row_update.
  - apply (txn_dpart_ind (delivery_inv q)); [done|same_dpart|done].
  - apply (txn_dpart_ind (delivery_inv q)); [done|same_dpart|done].
  - apply (txn_dpart_ind (delivery_inv q)); [done|same_dpart|done].
  - apply (txn_dpart_ind (delivery_inv q)); [done|same_dpart|done].
  - apply (txn_dpart_ind (delivery_inv q)); [done| |done]. intros t a t' E Ht. cbv zeta in E. injection E as _ <-.
    eapply Hd; [|apply (retention_inv (isoformat (default (clock e) now - audit_retention_s cfg * 1000000)) t q Ht)].
    done.
  - eapply Hd; [apply health_dpart|done].
  - eapply Hd; [|exact Hinv]. unfold init. by destruct (fatal_of_sql _).
Qed.

Lemma run_delivery cfg ops j q :
  forallb (fun eo => allowed q eo.2) ops = true ->
  delivery_inv q (tables j) -> delivery_inv q (tables (run cfg ops j).2).
Proof.
  revert j; induction ops as [|[e o] ops IH]; intros j Ha Hinv; simpl in *; [done|].
  apply andb_true_iff in Ha as [Ho Ha]. pose proof (step_delivery cfg e o j q Ho Hinv) as Hs.
  destruct (step cfg e o j) as [ev j1]. simpl in Hs. specialize (IH j1 Ha Hs).
  by destruct (run cfg ops j1).
Qed.

Lemma init_delivery e t quota headroom q :
  delivery_inv q t -> delivery_inv q (tables (init e t quota headroom)).
Proof. apply delivery_inv_dpart. unfold init. by destruct (fatal_of_sql _). Qed.

(** ** A result stays until it is acknowledged *)

Definition acks (aid : string) (o : op) : bool :=
  match o with OAck a => bool_decide (a = aid) | _ => false end.

Section stable.
Context (aid : string) (c : completion).
Hypothesis unacked : cp_acked c = false.

Definition holds (t : db) : Prop := completions t !! aid = Some c.

Lemma holds_dpart t t' : dpart t' = dpart t -> holds t -> holds t'.
Proof. unfold dpart, holds. intros H. injection H as Hc _ _. by rewrite Hc. Qed.

Ltac same_holds := intros t ? t' E; cbv zeta in E; inv_eq; by apply holds_dpart.

Lemma step_holds cfg e o j :
  acks aid o = false -> holds (tables j) -> holds (tables (step cfg e o j).2).
Proof.
  intros Ho Hj. pose proof holds_dpart as Hd. destruct o; simpl in *.
  - pose proof (journal_admit_dpart cfg e auth pipeline j) as H.
    destruct (journal_admit _ _ _ _ _); simpl in *; eauto.
  - pose proof (validate_and_admit_dpart cfg e token pipeline worker_session current previous now j) as H.
    destruct (validate_and_admit _ _ _ _ _ _ _ _ _); simpl in *; eauto.
  - apply (txn_dpart_ind holds); [done| |done]. intros t a t' E.
    destruct (reservations t !! aid0); [|by inv_eq]. case_decide; inv_eq; [|done]. by apply holds_dpart.
  - apply (txn_dpart_ind holds); [done|same_holds|done].
  - apply (txn_dpart_ind holds); [done| |done]. intros t a t' E Ht.
    apply res_bind_ok in E as (rid & _ & E). cbv zeta in E. injection E as _ <-.
    unfold holds. by destruct enqueue; simpl; apply insert_completion_keeps.
  - apply (txn_dpart_ind holds); [done| |done]. intros t a t' E Ht. by injection E as _ <-.
  - apply (txn_dpart_ind holds); [done| |done]. intros t a t' E Ht. by injection E as _ <-.
  - apply (txn_dpart_ind holds); [done| |done]. intros t a t' E Ht. injection E as _ <-.
    unfold holds. simpl. apply bool_decide_eq_false in Ho. by rewrite lookup_alter_ne.
  - apply (txn_dpart_ind holds); [done| |done]. intros t a t' E Ht.
    destruct (list_find _ _) as [[i row]|]; [|done]. apply res_bind_ok in E as (d & _ & E).
    cbv zeta in E. by injection E as _ <-.
  - apply (txn_dpart_ind holds); [done|same_holds|done].
  - apply (txn_dpart_ind holds); [done|same_holds|done].
  - apply (txn_dpart_ind holds); [done|same_holds|done].
  - apply (txn_dpart_ind holds); [done|same_holds|done].
  - apply (txn_dpart_ind holds); [done| |done]. intros t a t' E Ht. cbv zeta in E. injection E as _ <-.
    unfold holds. simpl. apply lookup_tbl_delete_Some. split; [done|].
    unfold acked_before. by rewrite unacked.
  - eapply Hd; [apply health_dpart|done].
  - done.
  - eapply Hd; [|exact Hj]. unfold init. by destruct (fatal_of_sql _).
Qed.

Lemma run_holds cfg ops j :
  forallb (fun eo => negb (acks aid eo.2)) ops = true ->
  holds (tables j) -> holds (tables (run cfg ops j).2).
Proof.
  revert j; induction ops as [|[e o] ops IH]; intros j Ha Hj; simpl in *; [done|].
  apply andb_true_iff in Ha as [Ho Ha]. apply negb_true_iff in Ho.
  pose proof (step_holds cfg e o j Ho Hj) as Hs.
  destruct (step cfg e o j) as [ev j1]. specialize (IH j1 Ha Hs). by destruct (run cfg ops j1).
Qed.
End stable.

(** ** Properties of the queue *)

(** C22: no result is lost between commit and delivery.  Over any production
    history from a fresh file (every result recorded with
    [record_completion_and_enqueue]), crashes and restarts included, the
    outbox holds exactly one run-complete row for each unacknowledged
    completion, with its exact payload, in strictly increasing [seq] order,
    and no row for anything else. *)
Theorem unacked_results_are_queued cfg e quota headroom ops :
  forallb (fun eo => allowed true eo.2) ops = true ->
  delivery_inv true (tables (run cfg ops (init e fresh_db quota headroom)).2).
Proof. intros Ha. apply run_delivery; [done|]. apply init_delivery, delivery_inv_fresh. Qed.

(** Boot recovery.  Even when results were recorded without an outbox row
    (the compatibility primitive [record_completion]), a successful
    [respool_unacked_completions] queues each unacknowledged one exactly once
    and duplicates none. *)
Theorem respool_recovers_stranded cfg e quota headroom ops e' n j' :
  forallb (fun eo => allowed false eo.2) ops = true ->
  respool_unacked_completions e' (run cfg ops (init e fresh_db quota headroom)).2 = (Ok n, j') ->
  delivery_inv true (tables j').
Proof.
  intros Ha Hr.
  assert (delivery_inv false (tables (run cfg ops (init e fresh_db quota headroom)).2)) as Hinv.
  { apply run_delivery; [done|]. apply init_delivery, delivery_inv_fresh. }
  revert Hr Hinv. set (j := (run cfg ops _).2). unfold respool_unacked_completions, _txn. intros Hr Hinv.
  pose proof (ensure_open_dpart e' j) as Ho. destruct (_ensure_open e' j) as [[u|x] j1]; [|done].
  injection Hr as _ <-. apply (respool_all_inv (isoformat (clock e'))). by eapply delivery_inv_dpart.
Qed.

(** First result wins, and stays.  An unacknowledged completion keeps its
    run id, payload and timestamp through any history (later completions of
    the same attempt, retention, GC, failures, restarts) in which the manager
    does not acknowledge that attempt. *)
Theorem unacked_result_immutable cfg ops j aid c :
  completions (tables j) !! aid = Some c -> cp_acked c = false ->
  forallb (fun eo => negb (acks aid eo.2)) ops = true ->
  completions (tables (run cfg ops j).2) !! aid = Some c.
Proof. intros Hc Hu Ha. by apply (run_holds aid c Hu cfg ops j Ha). Qed.

(** ** Properties of the drain pass *)

(** How one pass may change a completion: only to acknowledge it, and only
    when the manager took its payload. *)
Definition drained (post : string -> post_outcome) (c c' : completion) : Prop :=
  cp_run_id c' = cp_run_id c /\ cp_result_json c' = cp_result_json c /\
  cp_completed_at c' = cp_completed_at c /\
  (cp_acked c = true -> c' = c) /\
  (cp_acked c' = true -> cp_acked c = true \/ post (cp_result_json c) = Delivered).

Definition drained_db post (t t' : db) : Prop :=
  forall aid, option_Forall2 (drained post) (completions t !! aid) (completions t' !! aid).

Lemma drained_refl post c : drained post c c.
Proof. unfold drained. auto 6. Qed.

Lemma drained_trans post c1 c2 c3 : drained post c1 c2 -> drained post c2 c3 -> drained post c1 c3.
Proof.
  intros (R1 & P1 & T1 & A1 & D1) (R2 & P2 & T2 & A2 & D2).
  split_and!; try congruence.
  - intros Ha. specialize (A1 Ha). subst c2. auto.
  - intros Ha. destruct (D2 Ha) as [H|H]; [auto|]. rewrite P1 in H. auto.
Qed.

#[export] Instance drained_preorder post : PreOrder (drained post).
Proof. split; [intros c; apply drained_refl|intros c1 c2 c3; apply drained_trans]. Qed.

#[export] Instance drained_db_preorder post : PreOrder (drained_db post).
Proof.
  split.
  - intros t aid. reflexivity.
  - intros t1 t2 t3 H1 H2 aid. by transitivity (completions t2 !! aid).
Qed.

Lemma drained_db_dpart post t t' : dpart t' = dpart t -> drained_db post t t'.
Proof. unfold dpart. intros H aid. injection H as -> _ _. reflexivity. Qed.

(** The rows of a pass carry the payload of their completion. *)
Definition row_ok (t : db) (o : OutboxRow) : Prop :=
  exists c, completions t !! ob_attempt_id o = Some c /\ ob_payload_json o = cp_result_json c.

Lemma row_ok_drained post t t' o : drained_db post t t' -> row_ok t o -> row_ok t' o.
Proof.
  intros H (c & Hc & Hp). specialize (H (ob_attempt_id o)). rewrite Hc in H.
  inversion H as [? c' Hd Heq|]; subst. exists c'. split; [done|].
  destruct Hd as (_ & -> & _). done.
Qed.

Lemma mark_acked_drained post e o j :
  row_ok (tables j) o -> post (ob_payload_json o) = Delivered ->
  drained_db post (tables j) (tables (mark_acked e (ob_attempt_id o) j).2).
Proof.
  intros (c & Hc & Hp) Hpost. unfold mark_acked.
  match goal with |- context [_txn e ?fn j] =>
    destruct (txn_cases e fn j) as [H|(t0 & a & H0 & H)]; [by apply drained_db_dpart|] end.
  injection H as _ H. unfold dpart in H0. injection H0 as H0 _ _. intros aid.
  rewrite <- H. simpl. rewrite H0.
  destruct (decide (aid = ob_attempt_id o)) as [->|Hne]; [|rewrite lookup_alter_ne by done; reflexivity].
  rewrite lookup_alter_eq, Hc. simpl. constructor. unfold ack_completion.
  destruct (cp_acked c) eqn:E; [apply drained_refl|]. unfold drained; simpl. rewrite <- Hp.
  split_and!; auto; congruence.
Qed.

Lemma failure_drained post e seq err j :
  drained_db post (tables j) (tables (record_outbox_failure e seq err j).2).
Proof.
  unfold record_outbox_failure.
  match goal with |- context [_txn e ?fn j] =>
    destruct (txn_cases e fn j) as [H|(t0 & a & H0 & H)]; [by apply drained_db_dpart|] end.
  destruct (list_find _ _) as [[i row]|]; [|done]. apply res_bind_ok in H as (d & _ & H). cbv zeta in H.
  injection H as _ <-. unfold dpart in H0. injection H0 as H0 _ _. intros aid. simpl. rewrite H0.
  reflexivity.
Qed.

Lemma get_attempt_dpart e aid j : dpart (tables (get_attempt e aid j).2) = dpart (tables j).
Proof.
  pose proof (ensure_open_dpart e j) as Ho. unfold get_attempt, _query.
  by destruct (_ensure_open e j) as [[u|x] j1].
Qed.

Lemma drain_rows_spec post ev rows :
  forall i n j r j',
  Forall (row_ok (tables j)) rows -> delivery_inv true (tables j) ->
  drain_rows post ev i rows n j = (r, j') ->
  drained_db post (tables j) (tables j') /\ delivery_inv true (tables j').
Proof.
  induction rows as [|o rows IH]; intros i n j r j' Hok Hinv H; simpl in H; [by inv_eq|].
  pose proof (get_attempt_dpart (ev i) (ob_attempt_id o) j) as Hg.
  destruct (get_attempt (ev i) (ob_attempt_id o) j) as [[rec|x] j1]; simpl in Hg.
  2:{ injection H as _ <-. split; [by apply drained_db_dpart|by eapply delivery_inv_dpart]. }
  assert (drained_db post (tables j) (tables j1)) as Hd1 by by apply drained_db_dpart.
  assert (delivery_inv true (tables j1)) as Hinv1 by by eapply delivery_inv_dpart.
  assert (Forall (row_ok (tables j1)) (o :: rows)) as Hok1.
  { eapply Forall_impl; [exact Hok|]. intros o'. by apply (row_ok_drained post). }
  clear Hok Hinv Hg. inversion Hok1 as [|? ? Ho Hrows]; subst.
  destruct (already_acked rec).
  { destruct (IH _ _ _ _ _ Hrows Hinv1 H) as [? ?]. split; [by etransitivity|done]. }
  assert (exists r2 j2, (match post (ob_payload_json o) with
      | Unparseable err => record_outbox_failure (ev i) (ob_seq o) ("unparseable payload: " ++ err) j1
      | PostFailed err => record_outbox_failure (ev i) (ob_seq o) err j1
      | Delivered => mark_acked (ev i) (ob_attempt_id o) j1 end) = (r2, j2) /\
      drained_db post (tables j1) (tables j2) /\ delivery_inv true (tables j2)) as (r2 & j2 & E2 & Hd2 & Hinv2).
  { destruct (post (ob_payload_json o)) as [err|err|] eqn:Ep.
    - eexists _, _. split; [apply surjective_pairing|]. split; [apply failure_drained|].
      by apply (step_delivery default_config (ev i) (OFailure _ _)).
    - eexists _, _. split; [apply surjective_pairing|]. split; [apply failure_drained|].
      by apply (step_delivery default_config (ev i) (OFailure _ _)).
    - eexists _, _. split; [apply surjective_pairing|]. split; [by apply mark_acked_drained|].
      by apply (step_delivery default_config (ev i) (OAck _)). }
  rewrite E2 in H. assert (drained_db post (tables j) (tables j2)) as Hd12 by by etransitivity.
  destruct r2 as [u|x]; [|by inv_eq].
  edestruct IH as [Hd3 Hinv3]; [|exact Hinv2|exact H|split; [by etransitivity|done]].
  eapply Forall_impl; [exact Hrows|]. intros o'. by apply (row_ok_drained post).
Qed.

(** A result is acknowledged only after the manager took it.  Whatever a
    drain pass does (skip, deliver, back off, raise midway), no completion is
    created, lost or altered except that an unacknowledged one may become
    acknowledged, and then the post of its exact payload succeeded; the
    results still unacknowledged all keep their outbox row. *)
Theorem drain_acks_only_delivered has_url post ev j r j' :
  delivery_inv true (tables j) ->
  _drain_outbox_once has_url post ev j = (r, j') ->
  drained_db post (tables j) (tables j') /\ delivery_inv true (tables j').
Proof.
  unfold _drain_outbox_once. intros Hinv. destruct has_url; simpl; [|intros; by inv_eq].
  unfold fetch_due_outbox, _query. pose proof (ensure_open_dpart (ev 0%nat) j) as Ho.
  destruct (_ensure_open (ev 0%nat) j) as [[u|x] j1]; simpl in Ho.
  2:{ intros H. injection H as _ <-. split; [by apply drained_db_dpart|by eapply delivery_inv_dpart]. }
  assert (delivery_inv true (tables j1)) as Hinv1 by by eapply delivery_inv_dpart.
  intros H. apply drain_rows_spec in H as [Hd Hinv']; [|apply Forall_forall|done].
  - split; [|done]. etransitivity; [by apply drained_db_dpart|done].
  - intros o Hin. apply elem_of_take in Hin as (i & Hi & _).
    apply list_elem_of_lookup_2, list_elem_of_filter in Hi as [_ Hi].
    destruct (di_row _ _ Hinv1 o Hi) as (_ & c & Hc & _ & Hp). by exists c.
Qed.

(** ** Progress, backoff and the overflow of the backoff *)

(** An open journal that was not found broken. *)
Definition live (j : journal) : Prop := is_open j = true /\ fatal j = None.

Lemma ensure_open_live e j : live j -> _ensure_open e j = (Ok tt, j).
Proof. intros [Ho Hf]. unfold _ensure_open. by rewrite Hf, Ho. Qed.

Lemma txn_live {A} e (fn : db -> res journal_exn (A * db)) j :
  live j -> _txn e fn j = match fn (tables j) with
                          | Raise x => (Raise x, j)
                          | Ok (a, t') => (Ok a, set_tables t' j)
                          end.
Proof. intros Hl. unfold _txn. by rewrite ensure_open_live. Qed.

Lemma get_attempt_live e aid j : live j -> get_attempt e aid j = (Ok (lookup_attempt (tables j) aid), j).
Proof. intros Hl. unfold get_attempt, _query. by rewrite ensure_open_live. Qed.

Definition due_rows (e : env) (t : db) : list OutboxRow :=
  take (Z.to_nat _OUTBOX_DRAIN_BATCH)
    (filter (fun o => text_leb (ob_next_attempt_at o) (isoformat (clock e)) = true) (outbox t)).

Lemma drain_live post ev j :
  live j -> _drain_outbox_once true post ev j = drain_rows post ev 1 (due_rows (ev 0%nat) (tables j)) 0 j.
Proof. intros Hl. unfold _drain_outbox_once, fetch_due_outbox, _query. simpl. by rewrite ensure_open_live. Qed.

Lemma unacked_not_skipped t aid c :
  completions t !! aid = Some c -> cp_acked c = false -> already_acked (lookup_attempt t aid) = false.
Proof.
  intros Hc Ha. unfold lookup_attempt. destruct (tombstones t !! aid); [done|]. rewrite Hc. simpl.
  by rewrite Ha.
Qed.

Lemma due_rows_subset e t o : o ∈ due_rows e t -> o ∈ outbox t.
Proof.
  intros H. apply elem_of_take in H as (i & Hi & _).
  by apply list_elem_of_lookup_2, list_elem_of_filter in Hi as [_ Hi].
Qed.

Lemma due_rows_nodup e t : NoDup (ob_attempt_id <$> outbox t) -> NoDup (ob_attempt_id <$> due_rows e t).
Proof.
  intros Hnd. eapply sublist_NoDup; [exact Hnd|]. apply fmap_sublist.
  etransitivity; [apply sublist_take|apply sublist_filter].
Qed.

Lemma drain_rows_delivers post ev rows : forall i n j,
  live j -> delivery_inv true (tables j) ->
  NoDup (ob_attempt_id <$> rows) -> (forall o, o ∈ rows -> o ∈ outbox (tables j)) ->
  (forall o, o ∈ rows -> post (ob_payload_json o) = Delivered) ->
  exists j', drain_rows post ev i rows n j = (Ok (n + Z.of_nat (length rows)), j') /\
    outbox (tables j') = filter (fun o => ob_attempt_id o ∉ (ob_attempt_id <$> rows)) (outbox (tables j)) /\
    forall o, o ∈ rows -> exists c, completions (tables j') !! ob_attempt_id o = Some c /\ cp_acked c = true.
Proof.
  induction rows as [|o rows IH]; intros i n j Hl Hinv Hnd Hsub Hpost; simpl.
  { exists j. split; [f_equal; f_equal; lia|]. split.
    - symmetry. apply filter_none_dropped. intros o _ H. by apply elem_of_nil in H.
    - intros o H. by apply elem_of_nil in H. }
  apply NoDup_cons in Hnd as [Hno Hnd].
  destruct (di_row _ _ Hinv o (Hsub o ltac:(by left))) as (_ & c & Hc & Ha & Hp).
  rewrite get_attempt_live, (unacked_not_skipped _ _ c) by done. rewrite Hpost by by left.
  unfold mark_acked. rewrite txn_live by done. set (j1 := set_tables _ j).
  assert (delivery_inv true (tables j1)) as Hinv1 by by apply ack_inv.
  destruct (IH (S i) (n + 1) j1) as (j' & E & Ho & Hack); [done|done|done| | |].
  - intros o' Ho'. simpl. apply list_elem_of_filter. split; [|apply Hsub; by right].
    intros Heq. apply Hno. rewrite <- Heq. by apply list_elem_of_fmap_2.
  - intros o' Ho'. apply Hpost. by right.
  - exists j'. split; [rewrite E; f_equal; f_equal; lia|]. split.
    + rewrite Ho. simpl. rewrite list_filter_filter. apply list_filter_iff. intros o'.
      rewrite not_elem_of_cons. tauto.
    + intros o' Ho'. apply elem_of_cons in Ho' as [->|Ho']; [|auto].
      assert (drained_db post (tables j1) (tables j')) as Hd.
      { eapply drain_rows_spec; [|exact Hinv1|exact E]. apply Forall_forall. intros o' Ho'.
        destruct (di_row _ _ Hinv o' (Hsub o' ltac:(by right))) as (_ & c' & Hc' & _ & Hp').
        exists c'. split; [|done]. simpl. rewrite lookup_alter_ne; [done|].
        intros Heq. apply Hno. rewrite Heq. by apply list_elem_of_fmap_2. }
      specialize (Hd (ob_attempt_id o)). simpl in Hd. rewrite lookup_alter_eq, Hc in Hd. simpl in Hd.
      inversion Hd as [? c' Hdr Heq|]; subst. exists c'. split; [done|].
      unfold ack_completion in Hdr. rewrite Ha in Hdr. destruct Hdr as (_ & _ & _ & Hsame & _).
      by rewrite (Hsame eq_refl).
Qed.

(** C35: delivery makes progress.  On a live journal whose outbox matches its
    unacknowledged results, a pass in which the manager takes every payload
    acknowledges exactly the first ten due results, counts them, and leaves
    exactly the other rows in the outbox, in order; so repeated passes empty
    the queue. *)
Theorem drain_delivers_due post ev j :
  live j -> delivery_inv true (tables j) ->
  let due := due_rows (ev 0%nat) (tables j) in
  (forall o, o ∈ due -> post (ob_payload_json o) = Delivered) ->
  exists j', _drain_outbox_once true post ev j = (Ok (Z.of_nat (length due)), j') /\
    outbox (tables j') = filter (fun o => ob_attempt_id o ∉ (ob_attempt_id <$> due)) (outbox (tables j)) /\
    forall o, o ∈ due -> exists c, completions (tables j') !! ob_attempt_id o = Some c /\ cp_acked c = true.
Proof.
  intros Hl Hinv due Hpost. rewrite drain_live by done.
  apply (drain_rows_delivers post ev due 1 0 j); try done.
  - by apply due_rows_nodup, (di_nodup true).
  - intros o. apply due_rows_subset.
Qed.

Lemma list_find_head (o : OutboxRow) rest : list_find (fun x => ob_seq x = ob_seq o) (o :: rest) = Some (0%nat, o).
Proof. simpl. by rewrite decide_True. Qed.

(** The backoff bound.  Recording the [k]-th failure of a row ([k] < 1024)
    makes it due again exactly [min(2^k, 300)] seconds later, never sooner: a
    drain at time [t] fetches the row if and only if that delay, between 1 and
    300 seconds, has passed. *)
Theorem failure_backs_off e j o rest err t :
  live j -> outbox (tables j) = o :: rest ->
  0 <= ob_attempts o < 1024 ->
  let delay := Z.min (2 ^ ob_attempts o) 300 in
  in_range (clock e + delay * 1000000) -> in_range t ->
  1 <= delay <= 300 /\
  exists j' o', record_outbox_failure e (ob_seq o) err j = (Ok tt, j') /\
    head (outbox (tables j')) = Some o' /\
    ob_attempts o' = ob_attempts o + 1 /\ ob_payload_json o' = ob_payload_json o /\
    (text_leb (ob_next_attempt_at o') (isoformat t) = true <-> clock e + delay * 1000000 <= t).
Proof.
  intros Hl Ho Hk delay Hr Ht. split.
  { unfold delay. pose proof (Z.pow_pos_nonneg 2 (ob_attempts o)). lia. }
  unfold record_outbox_failure. rewrite txn_live, Ho, list_find_head by done. unfold backoff_delay.
  replace (ob_attempts o + 1 - 1) with (ob_attempts o) by lia.
  rewrite (proj2 (Z.ltb_lt _ _)) by lia. fold delay. eexists _, _. split; [reflexivity|]. simpl.
  rewrite Ho. simpl. rewrite decide_True by done. split; [reflexivity|]. simpl.
  rewrite text_leb_iso by done. split_and!; try done; apply Z.leb_le.
Qed.

(** After 1024 failures the backoff overflows and the queue stops.  When
    the oldest due row has failed 1024 times and its post fails again,
    [float(2 ** 1024)] raises out of [record_outbox_failure], the pass ends
    with that exception having delivered nothing, and the journal is exactly
    as before, so that every later pass that finds the row due fails the same
    way, whatever the manager would answer for the rows behind it. *)
Theorem overflowing_row_blocks_queue post ev j o rest err :
  live j -> outbox (tables j) = o :: rest ->
  text_leb (ob_next_attempt_at o) (isoformat (clock (ev 0%nat))) = true ->
  already_acked (lookup_attempt (tables j) (ob_attempt_id o)) = false ->
  1024 <= ob_attempts o ->
  post (ob_payload_json o) = PostFailed err ->
  _drain_outbox_once true post ev j = (Raise OverflowErrorExn, j).
Proof.
  intros Hl Ho Hdue Hack Hk Hpost. rewrite drain_live by done. unfold due_rows. rewrite Ho.
  rewrite filter_cons_True by done. change (Z.to_nat _OUTBOX_DRAIN_BATCH) with 10%nat. simpl.
  rewrite get_attempt_live, Hack, Hpost by done. unfold record_outbox_failure.
  rewrite txn_live, Ho, list_find_head by done. unfold backoff_delay.
  by rewrite (proj2 (Z.ltb_ge _ _)) by lia.
Qed.

(** ** A concrete worker *)

Definition demo_ops : list (env * op) :=
  [(demo_env 1001000000, OComplete "a1" "{1}" (Some "r1"%string) true);
   (demo_env 1002000000, OComplete "a2" "{2}" (Some "r2"%string) true);
   (demo_env 1003000000, OComplete "a1" "{3}" (Some "r1"%string) true);
   (demo_env 1004000000, ORestart)].

Definition demo_queue : journal := (run default_config demo_ops demo_start).2.

Lemma demo_queue_inv : delivery_inv true (tables demo_queue).
Proof. apply run_delivery; [reflexivity|]. apply init_delivery, delivery_inv_fresh. Qed.

Lemma unacked_results_are_queued_witness : delivery_inv true (tables demo_queue).
Proof. apply (unacked_results_are_queued default_config (demo_env 1000000000) 0 0 demo_ops). reflexivity. Defined.

Lemma respool_recovers_stranded_witness :
  exists j', respool_unacked_completions (demo_env 1005000000)
    (run default_config [(demo_env 1001000000, OComplete "a1" "{1}" (Some "r1"%string) false)] demo_start).2
    = (Ok 1, j') /\ delivery_inv true (tables j').
Proof.
  eexists. split; [vm_compute; reflexivity|].
  apply (respool_recovers_stranded default_config (demo_env 1000000000) 0 0
    [(demo_env 1001000000, OComplete "a1" "{1}" (Some "r1"%string) false)] (demo_env 1005000000) 1).
  - reflexivity.
  - vm_compute. reflexivity.
Defined.

Lemma unacked_result_immutable_witness :
  completions (tables (run default_config demo_ops demo_queue).2) !! "a1"%string
  = Some (mkCompletion "r1" "{1}" (isoformat 1001000000) false None).
Proof.
  apply (unacked_result_immutable default_config demo_ops demo_queue "a1").
  - vm_compute. reflexivity.
  - reflexivity.
  - reflexivity.
Defined.

(** The manager takes the first payload and refuses the second. *)
Definition demo_post (p : string) : post_outcome :=
  if bool_decide (p = "{1}"%string) then Delivered else PostFailed "503".

Lemma drain_acks_only_delivered_witness :
  exists j', _drain_outbox_once true demo_post (fun _ => demo_env 1006000000) demo_queue = (Ok 2, j') /\
    drained_db demo_post (tables demo_queue) (tables j') /\ delivery_inv true (tables j').
Proof.
  eexists. split; [vm_compute; reflexivity|].
  apply (drain_acks_only_delivered true demo_post (fun _ => demo_env 1006000000) demo_queue (Ok 2)).
  - apply demo_queue_inv.
  - vm_compute. reflexivity.
Defined.

Lemma drain_delivers_due_witness :
  exists j', _drain_outbox_once true (fun _ => Delivered) (fun _ => demo_env 1006000000) demo_queue
    = (Ok 2, j') /\ outbox (tables j') = [].
Proof.
  edestruct (drain_delivers_due (fun _ => Delivered) (fun _ => demo_env 1006000000) demo_queue)
    as (j' & H1 & H2 & _).
  - split; vm_compute; reflexivity.
  - apply demo_queue_inv.
  - reflexivity.
  - exists j'. split; [exact H1|]. rewrite H2. vm_compute. reflexivity.
Defined.

Definition demo_row (attempts : Z) : OutboxRow :=
  mkOutbox 1 "a1" run_complete "{9}" (isoformat 1000000000) (isoformat 1000000000) attempts None.

Definition demo_failing (attempts : Z) : journal :=
  mkJournal (mkDb (Some 1) ∅ ∅ ∅ ∅
      {["a1"%string := mkCompletion "r1" "{9}" (isoformat 1000000000) false None]} [demo_row attempts] 1)
    true None false 0 0.

Lemma failure_backs_off_witness :
  exists j' o', record_outbox_failure (demo_env 1001000000) 1 "503" (demo_failing 9) = (Ok tt, j') /\
    head (outbox (tables j')) = Some o' /\
    (text_leb (ob_next_attempt_at o') (isoformat 1301000000) = true <-> 1301000000 <= 1301000000).
Proof.
  edestruct (failure_backs_off (demo_env 1001000000) (demo_failing 9) (demo_row 9) [] "503" 1301000000)
    as (_ & j' & o' & H1 & H2 & _ & _ & H3).
  - split; reflexivity.
  - reflexivity.
  - simpl. lia.
  - unfold in_range. simpl. lia.
  - unfold in_range. lia.
  - exists j', o'. split; [exact H1|]. split; [exact H2|exact H3].
Defined.

Lemma overflowing_row_blocks_queue_witness :
  _drain_outbox_once true demo_post (fun _ => demo_env 1001000000) (demo_failing 1024)
  = (Raise OverflowErrorExn, demo_failing 1024).
Proof.
  apply (overflowing_row_blocks_queue demo_post (fun _ => demo_env 1001000000) (demo_failing 1024)
    (demo_row 1024) [] "503").
  - split; reflexivity.
  - reflexivity.
  - vm_compute. reflexivity.
  - vm_compute. reflexivity.
  - simpl. lia.
  - vm_compute. reflexivity.
Defined.

End JournalDelivery.
