(* ===== verification/Ledger.v ===== *)
(** * The manager's execution ledger

    persistence/ledger.py over the tables of persistence/db.py: the claim of a
    run (guard acquire, intent claim, attempt insert in one transaction), guard
    release, fenced attempt transitions, intent resolution and checkpoint
    upserts.  Tables are finite maps keyed by their primary key; a conditional
    UPDATE is [tbl_update] and its rowcount [tbl_count]; CHECK domains are
    inductive types.  [fence_token] (a fresh UUID4) and [now] are arguments. *)

From Stdlib Require Import ZArith Lia Ascii String.
From stdpp Require Import base tactics list strings gmap option.
From S2P Require Import Prelude PyStr.

#[local] Open Scope Z_scope.
#[local] Open Scope list_scope.

Module Ledger.

(** ** Tables *)

Inductive guard_kind := Batch | StreamSlot.

Inductive attempt_state := SClaimed | SDispatching | SRunning | SStopping | SUnknown | STerminal.

#[global] Instance attempt_state_eq_dec : EqDecision attempt_state.
Proof. solve_decision. Defined.

Inductive final_outcome := OSuccess | OPartial | OFailed | OAborted | OExpired | OSuperseded.

#[global] Instance final_outcome_eq_dec : EqDecision final_outcome.
Proof. solve_decision. Defined.

(** A row of [execution_guards]; free when [g_attempt_id] is NULL. *)
Record guard := mkGuard {
  g_kind : guard_kind;
  g_run_id : option string;
  g_attempt_id : option string;
  g_generation : option Z;
  g_acquired_at : option string;
}.

(** A row of [run_intents]. *)
Record intent := mkIntent {
  in_pipeline : string;
  in_origin : string;
  in_flush : bool;
  in_requested_at : string;
  in_expires_at : option string;
  in_requested_generation : Z;
  in_yaml_snapshot : option string;
  in_schedule_type : option string;
  in_final_outcome : option final_outcome;
  in_final_attempt_id : option string;
  in_resolved_at : option string;
}.

(** A row of [execution_attempts]. *)
Record attempt := mkAttempt {
  at_run_id : string;
  at_pipeline : string;
  at_ordinal : Z;
  at_generation : Z;
  at_slot_id : string;
  at_worker_id : option string;
  at_fence_token : string;
  at_state : attempt_state;
  at_dispatch_sent_at : option string;
  at_accepted_at : option string;
  at_finished_at : option string;
  at_uncertainty_reason : option string;
  at_cancel_reason : option string;
}.

(** A row of [delivery_checkpoints]; the key is (pipeline_name, source_unit). *)
Record checkpoint := mkCheckpoint {
  ck_id : string;
  ck_generation : Z;
  ck_attempt_id : string;
  ck_run_id : string;
  ck_frontier_json : string;
  ck_frontier_seq : Z;
  ck_sink_receipts : string;
  ck_state_revision : Z;
  ck_committed_at : string;
}.

Record ledger := mkLedger {
  intents : gmap string intent;
  attempts : gmap string attempt;
  guards : gmap string guard;
  checkpoints : gmap (string * string) checkpoint;
}.

Definition set_intents f (l : ledger) : ledger :=
  mkLedger (f (intents l)) (attempts l) (guards l) (checkpoints l).
Definition set_attempts f (l : ledger) : ledger :=
  mkLedger (intents l) (f (attempts l)) (guards l) (checkpoints l).
Definition set_guards f (l : ledger) : ledger :=
  mkLedger (intents l) (attempts l) (f (guards l)) (checkpoints l).
Definition set_checkpoints f (l : ledger) : ledger :=
  mkLedger (intents l) (attempts l) (guards l) (f (checkpoints l)).

Definition empty_ledger : ledger := mkLedger ∅ ∅ ∅ ∅.

(** A unique-key violation raised by the database. *)
Inductive ledger_exn := IntegrityError.

(** ** Outcomes *)

Inductive claim_status := CLAIMED | ALREADY_HELD | LOST | NO_INTENT.

#[global] Instance claim_status_eq_dec : EqDecision claim_status.
Proof. solve_decision. Defined.

Record ClaimOutcome := mkClaim {
  status : claim_status;
  c_attempt_id : option string;
  c_run_id : option string;
  c_pipeline_name : option string;
  c_ordinal : option Z;
  c_generation : option Z;
  c_slot_id : string;
  c_fence_token : option string;
}.

Inductive checkpoint_status := COMMITTED | STALE.

#[global] Instance checkpoint_status_eq_dec : EqDecision checkpoint_status.
Proof. solve_decision. Defined.

Record CheckpointOutcome := mkCheckpointOutcome {
  co_status : checkpoint_status;
  co_checkpoint_id : option string;
  co_existing : option checkpoint;
}.

(** ** Identity minting *)

Definition mint_attempt_id (run_id : string) (ordinal : Z) : string :=
  (run_id ++ "-a" ++ py_str ordinal)%string.

(** ** Claim *)

(** The arguments of [claim_run], with the minted fence token and the time. *)
Record claim_args := mkClaimArgs {
  ca_guard_key : string;
  ca_guard_kind : guard_kind;
  ca_pipeline_name : string;
  ca_run_id : string;
  ca_generation : Z;
  ca_ordinal : Z;
  ca_slot_id : string;
  ca_yaml_snapshot : option string;
  ca_now : string;
  ca_fence_token : string;
}.

Definition ca_attempt_id (a : claim_args) : string := mint_attempt_id (ca_run_id a) (ca_ordinal a).

Definition claim_outcome (s : claim_status) (a : claim_args) : ClaimOutcome :=
  mkClaim s (Some (ca_attempt_id a)) (Some (ca_run_id a)) (Some (ca_pipeline_name a))
    (Some (ca_ordinal a)) (Some (ca_generation a)) (ca_slot_id a)
    (if decide (s = CLAIMED) then Some (ca_fence_token a) else None).

(** [UPDATE execution_guards ... WHERE guard_key = k AND attempt_id IS NULL]. *)
Definition guard_free (k : string) (key : string) (g : guard) : bool :=
  (bool_decide (key = k) && bool_decide (g_attempt_id g = None))%bool.

Definition acquire (a : claim_args) (g : guard) : guard :=
  mkGuard (g_kind g) (Some (ca_run_id a)) (Some (ca_attempt_id a)) (Some (ca_generation a))
    (Some (ca_now a)).

Definition unresolved (run_id : string) (key : string) (i : intent) : bool :=
  (bool_decide (key = run_id) && bool_decide (in_final_outcome i = None))%bool.

(** [COALESCE(:yaml_snapshot, yaml_snapshot)]. *)
Definition coalesce {A} (new old : option A) : option A :=
  match new with Some _ => new | None => old end.

Definition claim_intent (yaml : option string) (i : intent) : intent :=
  mkIntent (in_pipeline i) (in_origin i) (in_flush i) (in_requested_at i) (in_expires_at i)
    (in_requested_generation i) (coalesce yaml (in_yaml_snapshot i)) (in_schedule_type i)
    (in_final_outcome i) (in_final_attempt_id i) (in_resolved_at i).

Definition claimed_attempt (a : claim_args) : attempt :=
  mkAttempt (ca_run_id a) (ca_pipeline_name a) (ca_ordinal a) (ca_generation a) (ca_slot_id a)
    None (ca_fence_token a) SClaimed None None None None None.

(** [INSERT INTO execution_attempts]: [attempt_id] is the primary key and
    [(run_id, ordinal)] is unique. *)
Definition insert_attempt (aid : string) (r : attempt) (l : ledger) : res ledger_exn ledger :=
  if decide (map_Exists (fun k x => k = aid \/ (at_run_id x = at_run_id r /\ at_ordinal x = at_ordinal r))
               (attempts l))
  then raise IntegrityError
  else Ok (set_attempts (<[aid := r]>) l).

(** The body of the claim transaction: its outcome and the tables it would
    commit. *)
Definition claim_body (a : claim_args) (l : ledger) : res ledger_exn (ClaimOutcome * ledger) :=
  let aid := ca_attempt_id a in
  let l0 := set_guards (fun m => match m !! ca_guard_key a with
                                 | Some _ => m
                                 | None => <[ca_guard_key a := mkGuard (ca_guard_kind a) None None None None]> m
                                 end) l in
  let free := guard_free (ca_guard_key a) in
  if negb (tbl_count free (guards l0) =? 1)%nat then
    match guards l0 !! ca_guard_key a with
    | Some g =>
        if decide (g_attempt_id g = Some aid /\ g_run_id g = Some (ca_run_id a))
        then Ok (claim_outcome ALREADY_HELD a, l0)
        else Ok (claim_outcome LOST a, l0)
    | None => Ok (claim_outcome LOST a, l0)
    end
  else
    let l1 := set_guards (tbl_update free (acquire a)) l0 in
    let open := unresolved (ca_run_id a) in
    if negb (tbl_count open (intents l1) =? 1)%nat then Ok (claim_outcome NO_INTENT a, l1)
    else
      let l2 := set_intents (tbl_update open (claim_intent (ca_yaml_snapshot a))) l1 in
      let? l3 := insert_attempt aid (claimed_attempt a) l2 in
      Ok (claim_outcome CLAIMED a, l3).

(** [_in_claim_txn]: commit only when the outcome is CLAIMED; any other
    outcome and any exception roll back. *)
Definition _in_claim_txn (fn : ledger -> res ledger_exn (ClaimOutcome * ledger)) (l : ledger)
  : res ledger_exn ClaimOutcome * ledger :=
  match fn l with
  | Raise x => (Raise x, l)
  | Ok (o, l') => (Ok o, if decide (status o = CLAIMED) then l' else l)
  end.

Definition claim_run (a : claim_args) (l : ledger) : res ledger_exn ClaimOutcome * ledger :=
  _in_claim_txn (claim_body a) l.

(** ** Guard release, transitions, resolution *)

Definition held_by (k aid rid : string) (key : string) (g : guard) : bool :=
  (bool_decide (key = k) && bool_decide (g_attempt_id g = Some aid /\ g_run_id g = Some rid))%bool.

Definition free_guard (g : guard) : guard := mkGuard (g_kind g) None None None None.

Definition release_guard (k aid rid : string) (l : ledger) : nat * ledger :=
  (tbl_count (held_by k aid rid) (guards l), set_guards (tbl_update (held_by k aid rid) free_guard) l).

Definition set_state (s : attempt_state) (x : attempt) : attempt :=
  mkAttempt (at_run_id x) (at_pipeline x) (at_ordinal x) (at_generation x) (at_slot_id x)
    (at_worker_id x) (at_fence_token x) s (at_dispatch_sent_at x) (at_accepted_at x)
    (at_finished_at x) (at_uncertainty_reason x) (at_cancel_reason x).

(** The identity fence of an attempt row, with the states it may be in. *)
Definition fenced (aid rid : string) (gen : Z) (from : list attempt_state) (key : string) (x : attempt) : bool :=
  (bool_decide (key = aid)
   && bool_decide (at_run_id x = rid /\ at_generation x = gen /\ at_state x ∈ from))%bool.

Definition transition_attempt (aid rid : string) (from to : attempt_state) (gen : Z) (l : ledger)
  : nat * ledger :=
  let p := fenced aid rid gen [from] in
  (tbl_count p (attempts l), set_attempts (tbl_update p (set_state to)) l).

Definition resolve (o : final_outcome) (aid : option string) (now : string) (i : intent) : intent :=
  mkIntent (in_pipeline i) (in_origin i) (in_flush i) (in_requested_at i) (in_expires_at i)
    (in_requested_generation i) (in_yaml_snapshot i) (in_schedule_type i)
    (Some o) (coalesce aid (in_final_attempt_id i)) (Some now).

Definition resolve_intent (rid : string) (o : final_outcome) (aid now : string) (l : ledger) : nat * ledger :=
  (tbl_count (unresolved rid) (intents l),
   set_intents (tbl_update (unresolved rid) (resolve o (Some aid) now)) l).

(** ** Checkpoint upsert *)

Record checkpoint_args := mkCheckpointArgs {
  cka_pipeline_name : string;
  cka_source_unit : string;
  cka_row : checkpoint;
}.

(** [ON CONFLICT ... DO UPDATE]: every column but the identity and the run. *)
Definition advance_checkpoint (new old : checkpoint) : checkpoint :=
  mkCheckpoint (ck_id old) (ck_generation new) (ck_attempt_id new) (ck_run_id old)
    (ck_frontier_json new) (ck_frontier_seq new) (ck_sink_receipts new)
    (ck_state_revision new) (ck_committed_at new).

(** The upsert and its rowcount; a new row whose [checkpoint_id] is already
    taken violates the primary key. *)
Definition upsert_checkpoint (a : checkpoint_args) (l : ledger) : res ledger_exn (nat * ledger) :=
  let key := (cka_pipeline_name a, cka_source_unit a) in
  match checkpoints l !! key with
  | Some old =>
      if ck_frontier_seq old <? ck_frontier_seq (cka_row a)
      then Ok (1%nat, set_checkpoints (<[key := advance_checkpoint (cka_row a) old]>) l)
      else Ok (0%nat, l)
  | None =>
      if decide (map_Exists (fun _ c => ck_id c = ck_id (cka_row a)) (checkpoints l))
      then raise IntegrityError
      else Ok (1%nat, set_checkpoints (<[key := cka_row a]>) l)
  end.

Definition commit_checkpoint (a : checkpoint_args) (l : ledger) : res ledger_exn CheckpointOutcome * ledger :=
  match upsert_checkpoint a l with
  | Raise x => (Raise x, l)
  | Ok (n, l') =>
      let stored := checkpoints l' !! (cka_pipeline_name a, cka_source_unit a) in
      let stored_id := match stored with Some c => ck_id c | None => ck_id (cka_row a) end in
      (Ok (if (n =? 1)%nat then mkCheckpointOutcome COMMITTED (Some stored_id) None
           else mkCheckpointOutcome STALE (Some stored_id) stored), l')
  end.

Definition get_attempt (l : ledger) (aid : string) : option attempt := attempts l !! aid.

End Ledger.
