(* ===== verification/LedgerLane.v ===== *)
(** * The controller's ledger lane

    The statements pipeline/controller.py runs on the manager database: the
    intent reservation, the claim for dispatch, the attempt's life
    (dispatching, running, unknown, terminal), queued runs
    (persistence/db.py), generations and the audit retention. *)

From Stdlib Require Import ZArith Lia Ascii String.
From stdpp Require Import base tactics list strings gmap option sorting.
From S2P Require Import Prelude PyStr IsoTime Ledger.

#[local] Open Scope Z_scope.
#[local] Open Scope list_scope.

Module LedgerLane.
Import IsoTime Ledger.

(** ** The manager database *)

Inductive queue_status := QQueued | QDispatching | QDispatched | QExpired | QCancelled.

#[global] Instance queue_status_eq_dec : EqDecision queue_status.
Proof. solve_decision. Defined.

(** A row of [queued_runs]. *)
Record queued_run := mkQueued {
  q_pipeline : string;
  q_yaml_snapshot : string;
  q_status : queue_status;
  q_requested_at : string;
  q_expires_at : string;
  q_dispatched_at : option string;
  q_terminal_reason : option string;
}.

(** A row of [pipeline_desired_state]. *)
Record desired_state := mkDesired {
  ds_running : bool;        (* desired_status = 'running' *)
  ds_generation : Z;
  ds_deleted : bool;
  ds_updated_at : string;
}.

Record mdb := mkMdb {
  led : ledger;
  queue : gmap string queued_run;
  desired : gmap string desired_state;
}.

Definition set_led f (d : mdb) : mdb := mkMdb (f (led d)) (queue d) (desired d).
Definition set_queue f (d : mdb) : mdb := mkMdb (led d) (f (queue d)) (desired d).
Definition set_desired f (d : mdb) : mdb := mkMdb (led d) (queue d) (f (desired d)).

Definition empty_mdb : mdb := mkMdb empty_ledger ∅ ∅.

(** ** Generations *)

Definition _pipeline_generation (name : string) (d : mdb) : Z :=
  match desired d !! name with Some r => ds_generation r | None => 1 end.

Definition _ensure_desired_state (name : string) (running : bool) (now : string) (d : mdb) : mdb :=
  set_desired (fun m => match m !! name with
                        | Some _ => m
                        | None => <[name := mkDesired running 1 false now]> m
                        end) d.

Definition _set_desired_status (name : string) (running : bool) (now : string) (d : mdb) : mdb :=
  set_desired (alter (fun r => mkDesired running (ds_generation r) (ds_deleted r) now) name) d.

Definition _bump_pipeline_generation (name : string) (deleted : bool) (now : string) (d : mdb) : Z * mdb :=
  let gen := _pipeline_generation name d + 1 in
  (gen, set_desired (fun m =>
     <[name := match m !! name with
               | Some r => mkDesired (ds_running r) gen deleted now
               | None => mkDesired true gen deleted now
               end]> m) d).

(** ** Intents and attempts *)

Record intent_args := mkIntentArgs {
  ia_run_id : string;
  ia_pipeline : string;
  ia_origin : string;
  ia_flush : bool;
  ia_requested_at : string;
  ia_generation : Z;
  ia_yaml_snapshot : option string;
  ia_schedule_type : string;
  ia_expires_at : option string;
}.

Definition refresh_generation (gen : Z) (i : intent) : intent :=
  mkIntent (in_pipeline i) (in_origin i) (in_flush i) (in_requested_at i) (in_expires_at i)
    gen (in_yaml_snapshot i) (in_schedule_type i)
    (in_final_outcome i) (in_final_attempt_id i) (in_resolved_at i).

(** [INSERT ... ON CONFLICT (run_id) DO UPDATE SET requested_generation WHERE
    final_outcome IS NULL]. *)
Definition _ensure_run_intent (a : intent_args) (l : ledger) : ledger :=
  set_intents (fun m =>
    match m !! ia_run_id a with
    | Some i => if decide (in_final_outcome i = None)
                then <[ia_run_id a := refresh_generation (ia_generation a) i]> m else m
    | None => <[ia_run_id a := mkIntent (ia_pipeline a) (ia_origin a) (ia_flush a) (ia_requested_at a)
                  (ia_expires_at a) (ia_generation a) (ia_yaml_snapshot a)
                  (Some (ia_schedule_type a)) None None None]> m
    end) l.

(** [SELECT ... WHERE run_id = rid]. *)
Definition attempts_of (rid : string) (l : ledger) : list (string * attempt) :=
  map_to_list (filter (fun kv => at_run_id kv.2 = rid) (attempts l)).

(** [COALESCE(MAX(ordinal), 0) + 1]. *)
Definition _next_attempt_ordinal (rid : string) (l : ledger) : Z :=
  match at_ordinal <$> (attempts_of rid l).*2 with
  | [] => 0
  | x :: xs => foldr Z.max x xs
  end + 1.

(** [ORDER BY ordinal DESC LIMIT 1] among the non-terminal rows. *)
Definition newest (a b : string * attempt) : string * attempt :=
  if at_ordinal a.2 <? at_ordinal b.2 then b else a.

Definition _active_attempt_for_run (rid : string) (l : ledger) : option (string * attempt) :=
  match filter (fun kv => at_state kv.2 <> STerminal) (attempts_of rid l) with
  | [] => None
  | x :: xs => Some (foldr newest x xs)
  end.

Definition _mark_attempt_dispatching (aid rid : string) (gen : Z) (now : string) (l : ledger) : ledger :=
  set_attempts (tbl_update (fenced aid rid gen [SClaimed]) (fun x =>
    mkAttempt (at_run_id x) (at_pipeline x) (at_ordinal x) (at_generation x) (at_slot_id x)
      (at_worker_id x) (at_fence_token x) SDispatching (Some now) (at_accepted_at x)
      (at_finished_at x) (at_uncertainty_reason x) (at_cancel_reason x))) l.

Definition _mark_attempt_running (aid rid : string) (gen : Z) (now : string) (l : ledger) : ledger :=
  set_attempts (tbl_update (fenced aid rid gen [SDispatching]) (fun x =>
    mkAttempt (at_run_id x) (at_pipeline x) (at_ordinal x) (at_generation x) (at_slot_id x)
      (at_worker_id x) (at_fence_token x) SRunning (at_dispatch_sent_at x) (Some now)
      (at_finished_at x) (at_uncertainty_reason x) (at_cancel_reason x))) l.

Definition _mark_attempt_unknown (aid rid : string) (gen : Z) (why : string) (l : ledger) : ledger :=
  set_attempts (tbl_update (fenced aid rid gen [SDispatching; SRunning]) (fun x =>
    mkAttempt (at_run_id x) (at_pipeline x) (at_ordinal x) (at_generation x) (at_slot_id x)
      (at_worker_id x) (at_fence_token x) SUnknown (at_dispatch_sent_at x) (at_accepted_at x)
      (at_finished_at x) (Some why) (at_cancel_reason x))) l.

Definition _record_attempt_worker (aid rid : string) (gen : Z) (worker : string) (l : ledger) : ledger :=
  set_attempts (tbl_update
    (fun k x => (bool_decide (k = aid)
                 && bool_decide (at_run_id x = rid /\ at_generation x = gen))%bool)
    (fun x => mkAttempt (at_run_id x) (at_pipeline x) (at_ordinal x) (at_generation x) (at_slot_id x)
      (Some worker) (at_fence_token x) (at_state x) (at_dispatch_sent_at x) (at_accepted_at x)
      (at_finished_at x) (at_uncertainty_reason x) (at_cancel_reason x))) l.

Definition terminal_attempt (now : string) (why : option string) (x : attempt) : attempt :=
  mkAttempt (at_run_id x) (at_pipeline x) (at_ordinal x) (at_generation x) (at_slot_id x)
    (at_worker_id x) (at_fence_token x) STerminal (at_dispatch_sent_at x) (at_accepted_at x)
    (Some now) (at_uncertainty_reason x) (coalesce why (at_cancel_reason x)).

(** One transaction: attempt to terminal (fenced), intent resolved when an
    outcome is given, guard released by identity. *)
Definition _terminalize_attempt (aid rid pipeline : string) (gen : Z) (o : option final_outcome)
  (why : option string) (now : string) (l : ledger) : ledger :=
  let l1 := set_attempts (tbl_update (fenced aid rid gen [SClaimed; SDispatching; SRunning])
              (terminal_attempt now why)) l in
  let l2 := match o with
            | Some out => (resolve_intent rid out aid now l1).2
            | None => l1
            end in
  (release_guard pipeline aid rid l2).2.

(** ** Claim for dispatch *)

Record dispatch_claim := mkDispatch {
  dc_attempt_id : string;
  dc_run_id : string;
  dc_pipeline : string;
  dc_generation : Z;
}.

Record dispatch_args := mkDispatchArgs {
  da_pipeline : string;
  da_run_id : string;
  da_origin : string;
  da_flush : bool;
  da_yaml_text : string;
  da_schedule_type : string;
  da_ordinal : Z;
  da_now : string;
  da_fence_token : string;
}.

Definition claim_args_of (a : dispatch_args) (gen : Z) : claim_args :=
  mkClaimArgs (da_pipeline a) Batch (da_pipeline a) (da_run_id a) gen (da_ordinal a) ""
    (Some (da_yaml_text a)) (da_now a) (da_fence_token a).

Definition _claim_for_dispatch (a : dispatch_args) (d : mdb) : res ledger_exn (option dispatch_claim) * mdb :=
  let gen := _pipeline_generation (da_pipeline a) d in
  let l1 := _ensure_run_intent
    (mkIntentArgs (da_run_id a) (da_pipeline a) (da_origin a) (da_flush a) (da_now a) gen
       (Some (da_yaml_text a)) (da_schedule_type a) None) (led d) in
  match claim_run (claim_args_of a gen) l1 with
  | (Raise x, l2) => (Raise x, set_led (fun _ => l2) d)
  | (Ok c, l2) =>
      if decide (status c = LOST \/ status c = NO_INTENT) then (Ok None, set_led (fun _ => l2) d)
      else
        let aid := mint_attempt_id (da_run_id a) (da_ordinal a) in
        (Ok (Some (mkDispatch aid (da_run_id a) (da_pipeline a) gen)),
         set_led (fun _ => _mark_attempt_dispatching aid (da_run_id a) gen (da_now a) l2) d)
  end.

(** ** Queued runs (persistence/db.py) *)

Definition set_q_status (s : queue_status) (r : queued_run) : queued_run :=
  mkQueued (q_pipeline r) (q_yaml_snapshot r) s (q_requested_at r) (q_expires_at r)
    (q_dispatched_at r) (q_terminal_reason r).

(** [UPDATE queued_runs SET status = to WHERE run_id = rid AND status = from]. *)
Definition q_is (rid : string) (from : queue_status) (k : string) (r : queued_run) : bool :=
  (bool_decide (k = rid) && bool_decide (q_status r = from))%bool.

Definition q_move (rid : string) (from to : queue_status) (d : mdb) : nat * mdb :=
  (tbl_count (q_is rid from) (queue d), set_queue (tbl_update (q_is rid from) (set_q_status to)) d).

Definition save_queued_run (rid pipeline yaml requested expires : string) (d : mdb) : mdb :=
  set_queue (fun m => <[rid := mkQueued pipeline yaml QQueued requested expires None
                          (m !! rid ≫= q_terminal_reason)]> m) d.

Definition claim_queued_run_row (rid : string) (d : mdb) := q_move rid QQueued QDispatching d.
Definition revert_queued_run_row (rid : string) (d : mdb) := q_move rid QDispatching QQueued d.
Definition expire_queued_run_row (rid : string) (d : mdb) := q_move rid QQueued QExpired d.

Definition mark_queued_run_dispatched (rid now : string) (d : mdb) : nat * mdb :=
  (tbl_count (q_is rid QDispatching) (queue d),
   set_queue (tbl_update (q_is rid QDispatching) (fun r =>
     mkQueued (q_pipeline r) (q_yaml_snapshot r) QDispatched (q_requested_at r) (q_expires_at r)
       (Some now) (q_terminal_reason r))) d).

Definition q_open (r : queued_run) : bool :=
  match q_status r with QQueued | QDispatching => true | _ => false end.

Definition cancel_row (why : string) (r : queued_run) : queued_run :=
  mkQueued (q_pipeline r) (q_yaml_snapshot r) QCancelled (q_requested_at r) (q_expires_at r)
    (q_dispatched_at r) (Some why).

Definition _terminal_cancel_queued_run (rid why : string) (d : mdb) : mdb :=
  set_queue (tbl_update (fun k r => (bool_decide (k = rid) && q_open r)%bool) (cancel_row why)) d.

(** A non-terminal attempt of the run exists. *)
Definition has_live_attempt (l : ledger) (rid : string) : bool :=
  bool_decide (map_Exists (fun _ x => at_run_id x = rid /\ at_state x <> STerminal) (attempts l)).

Definition _terminal_cancel_pipeline_queued (name why now : string) (d : mdb) : nat * mdb :=
  let p (_ : string) (r : queued_run) := (bool_decide (q_pipeline r = name) && q_open r)%bool in
  let orphan rid i := (bool_decide (in_pipeline i = name /\ in_final_outcome i = None)
                       && negb (has_live_attempt (led d) rid))%bool in
  (tbl_count p (queue d),
   set_led (set_intents (tbl_update orphan (resolve OAborted None now)))
     (set_queue (tbl_update p (cancel_row why)) d)).

Definition _prune_orphaned_run_intents (name now : string) (l : ledger) : nat * ledger :=
  let p (_ : string) (i : intent) := bool_decide (in_pipeline i = name /\ in_final_outcome i = None) in
  (tbl_count p (intents l), set_intents (tbl_update p (resolve OAborted None now)) l).

Definition refresh_queued_run_yaml (name yaml : string) (d : mdb) : nat * mdb :=
  let p (_ : string) (r : queued_run) := bool_decide (q_pipeline r = name /\ q_status r = QQueued) in
  (tbl_count p (queue d),
   set_queue (tbl_update p (fun r => mkQueued (q_pipeline r) yaml (q_status r) (q_requested_at r)
     (q_expires_at r) (q_dispatched_at r) (q_terminal_reason r))) d).

Definition delete_queued_runs (name : string) (d : mdb) : nat * mdb :=
  let p (_ : string) (r : queued_run) := (bool_decide (q_pipeline r = name) && q_open r)%bool in
  (tbl_count p (queue d), set_queue (tbl_delete p) d).

Definition _reset_orphan_dispatching_queued_runs (d : mdb) : mdb :=
  set_queue (tbl_update (fun rid r =>
    (bool_decide (q_status r = QDispatching) && negb (has_live_attempt (led d) rid))%bool)
    (set_q_status QQueued)) d.

(** ** Audit retention *)

Definition older (cutoff : string) (t : option string) : bool :=
  match t with Some x => negb (text_leb cutoff x) | None => false end.

Definition _prune_ledger_audit (cutoff : string) (l : ledger) : ledger :=
  let old_attempt (_ : string) x :=
    (bool_decide (at_state x = STerminal) && older cutoff (at_finished_at x))%bool in
  let old_intent (_ : string) i :=
    (bool_decide (in_final_outcome i <> None) && older cutoff (in_resolved_at i))%bool in
  set_intents (tbl_delete old_intent) (set_attempts (tbl_delete old_attempt) l).

End LedgerLane.
