(* ===== verification/LedgerSafety.v ===== *)
(** * Safety of the manager ledger

    The controller's database operations as the steps of a trace, and what
    holds over every trace: at most one live attempt per pipeline, claims that
    never overtake a live attempt, terminal attempts and resolved intents that
    never change, late callbacks that never touch a newer guard, monotone
    checkpoints. *)

From Stdlib Require Import ZArith Lia Ascii String.
From stdpp Require Import base tactics list strings gmap option.
From S2P Require Import Prelude PyStr IsoTime Ledger LedgerLane.

#[local] Open Scope Z_scope.
#[local] Open Scope list_scope.

Module LedgerSafety.
Import Ledger LedgerLane.

(** ** Identities *)

Lemma append_assoc s1 s2 s3 : (s1 ++ (s2 ++ s3) = (s1 ++ s2) ++ s3)%string.
Proof.
  induction s1 as [|a s1 IH]; [done|]. change (String a (s1 ++ (s2 ++ s3)) = String a ((s1 ++ s2) ++ s3))%string.
  by rewrite IH.
Qed.

Lemma mint_rsplit rid n :
  rsplit1 "a"%char (mint_attempt_id rid n) = Some ((rid ++ "-")%string, py_str n).
Proof.
  unfold mint_attempt_id.
  assert ((rid ++ "-a" ++ py_str n)%string = ((rid ++ "-") ++ String "a" (py_str n))%string) as ->.
  { by rewrite <- append_assoc. }
  apply rsplit1_app. by apply py_str_no_char.
Qed.

(** Distinct (run, ordinal) pairs have distinct attempt ids, for arbitrary
    run ids. *)
Lemma mint_inj r1 n1 r2 n2 :
  mint_attempt_id r1 n1 = mint_attempt_id r2 n2 -> r1 = r2 /\ n1 = n2.
Proof.
  intros H. pose proof (mint_rsplit r1 n1) as H1. rewrite H, mint_rsplit in H1.
  injection H1 as Hr Hn. split; [|by apply py_str_inj].
  pose proof (rsplit1_app "-"%char r1 "" eq_refl) as E. change (String "-" "") with "-"%string in E.
  rewrite <- Hr, (rsplit1_app "-"%char r2 "" eq_refl) in E. by injection E.
Qed.

(** ** The claim, case by case *)

(** The guard row is absent or free. *)
Definition available (k : string) (l : ledger) : Prop :=
  forall g, guards l !! k = Some g -> g_attempt_id g = None.

Definition claimable (rid : string) (l : ledger) : Prop :=
  exists i, intents l !! rid = Some i /\ in_final_outcome i = None.

#[global] Instance available_dec k l : Decision (available k l).
Proof.
  unfold available. destruct (guards l !! k) as [g|]; [|left; done].
  destruct (decide (g_attempt_id g = None)) as [H|H]; [left; intros g' ?; by inv_eq|right].
  intros H'. by apply H, H'.
Defined.

Definition ensured (a : claim_args) (m : gmap string guard) : gmap string guard :=
  match m !! ca_guard_key a with
  | Some _ => m
  | None => <[ca_guard_key a := mkGuard (ca_guard_kind a) None None None None]> m
  end.

Lemma ensured_lookup a m :
  ensured a m !! ca_guard_key a
  = Some (default (mkGuard (ca_guard_kind a) None None None None) (m !! ca_guard_key a)).
Proof.
  unfold ensured. destruct (m !! ca_guard_key a) eqn:E; simpl; [done|]. apply lookup_insert_eq.
Qed.

Lemma guard_count a l :
  tbl_count (guard_free (ca_guard_key a)) (ensured a (guards l))
  = (if decide (available (ca_guard_key a) l) then 1 else 0)%nat.
Proof.
  unfold guard_free. rewrite tbl_count_key, ensured_lookup.
  destruct (decide (available _ _)) as [H|H]; unfold available in H;
    destruct (guards l !! ca_guard_key a) as [g|] eqn:E; simpl.
  - by rewrite (H g eq_refl).
  - done.
  - rewrite bool_decide_false; [done|]. intros Hg. apply H. intros g' ?. by inv_eq.
  - by destruct H.
Qed.

Lemma intent_count rid l :
  tbl_count (unresolved rid) (intents l)
  = match intents l !! rid with
    | Some i => if bool_decide (in_final_outcome i = None) then 1 else 0
    | None => 0 end%nat.
Proof. unfold unresolved. by rewrite tbl_count_key. Qed.

Lemma intent_count_open rid l :
  tbl_count (unresolved rid) (intents l) = 1%nat <-> claimable rid l.
Proof.
  rewrite intent_count. unfold claimable. destruct (intents l !! rid) as [i|].
  - case_bool_decide; split; try done; naive_solver.
  - split; [done|]. intros (i & ? & _). done.
Qed.

(** A held guard: the claim is lost, or idempotent for its holder, and the
    ledger is untouched. *)
Lemma claim_held a l g :
  guards l !! ca_guard_key a = Some g -> g_attempt_id g <> None ->
  claim_run a l
  = (Ok (claim_outcome (if decide (g_attempt_id g = Some (ca_attempt_id a) /\ g_run_id g = Some (ca_run_id a))
                        then ALREADY_HELD else LOST) a), l).
Proof.
  intros Hg Ha. unfold claim_run, _in_claim_txn, claim_body. cbn [guards set_guards].
  fold (ensured a (guards l)). rewrite guard_count, decide_False by (intros H; by apply Ha, H).
  cbn [Nat.eqb negb]. rewrite ensured_lookup, Hg. cbn [default].
  by destruct (decide _).
Qed.

Lemma claim_no_intent a l :
  available (ca_guard_key a) l -> ~ claimable (ca_run_id a) l ->
  claim_run a l = (Ok (claim_outcome NO_INTENT a), l).
Proof.
  intros Hg Hi. unfold claim_run, _in_claim_txn, claim_body. cbn [guards set_guards].
  fold (ensured a (guards l)). rewrite guard_count, decide_True by done. cbn [Nat.eqb negb].
  cbn [intents set_guards]. rewrite <- intent_count_open in Hi.
  destruct (tbl_count _ _ =? 1)%nat eqn:E; [by apply Nat.eqb_eq in E|done].
Qed.

(** The ledger a successful claim commits. *)
Definition claimed_ledger (a : claim_args) (l : ledger) : ledger :=
  set_attempts (<[ca_attempt_id a := claimed_attempt a]>)
    (set_intents (tbl_update (unresolved (ca_run_id a)) (claim_intent (ca_yaml_snapshot a)))
      (set_guards (fun m => tbl_update (guard_free (ca_guard_key a)) (acquire a) (ensured a m)) l)).

Definition taken (a : claim_args) (l : ledger) : Prop :=
  map_Exists (fun k x => k = ca_attempt_id a \/ (at_run_id x = ca_run_id a /\ at_ordinal x = ca_ordinal a))
    (attempts l).

Lemma claim_open a l :
  available (ca_guard_key a) l -> claimable (ca_run_id a) l ->
  claim_run a l = if decide (taken a l) then (Raise IntegrityError, l)
                  else (Ok (claim_outcome CLAIMED a), claimed_ledger a l).
Proof.
  intros Hg Hi. unfold claim_run, _in_claim_txn, claim_body. cbn [guards set_guards].
  fold (ensured a (guards l)). rewrite guard_count, decide_True by done. cbn [Nat.eqb negb].
  cbn [intents set_guards]. rewrite (proj2 (intent_count_open _ _) Hi). cbn [Nat.eqb negb].
  unfold insert_attempt, taken. cbn [attempts set_intents set_guards].
  by destruct (decide (map_Exists _ _)).
Qed.

Lemma claimed_guard a l k :
  guards (claimed_ledger a l) !! k
  = if decide (k = ca_guard_key a)
    then Some (let g := default (mkGuard (ca_guard_kind a) None None None None) (guards l !! k) in
               if bool_decide (g_attempt_id g = None) then acquire a g else g)
    else guards l !! k.
Proof.
  cbn [guards claimed_ledger set_attempts set_intents set_guards]. rewrite lookup_tbl_update.
  destruct (decide (k = ca_guard_key a)) as [->|Hne].
  - rewrite ensured_lookup. simpl. unfold guard_free. by rewrite bool_decide_true.
  - unfold ensured. destruct (guards l !! ca_guard_key a).
    + destruct (guards l !! k) as [g'|]; [|done]. simpl. unfold guard_free. by rewrite bool_decide_false.
    + rewrite lookup_insert_ne by done. destruct (guards l !! k) as [g'|]; [|done]. simpl.
      unfold guard_free. by rewrite bool_decide_false.
Qed.

(** ** Operations as steps *)

(** [_terminalize_attempt] the way every caller uses it: with the run,
    pipeline and generation of the attempt's own row. *)
Definition terminalize_own (aid : string) (o : option final_outcome) (why : option string) (now : string)
  (l : ledger) : ledger :=
  match attempts l !! aid with
  | Some x => _terminalize_attempt aid (at_run_id x) (at_pipeline x) (at_generation x) o why now l
  | None => l
  end.

Inductive lop :=
| LReserve (a : intent_args)
| LClaim (a : dispatch_args)
| LRunning (aid rid : string) (gen : Z) (now : string)
| LUnknown (aid rid : string) (gen : Z) (why : string)
| LWorker (aid rid : string) (gen : Z) (worker : string)
| LTerminal (aid : string) (o : option final_outcome) (why : option string) (now : string)
| LResolve (rid : string) (o : final_outcome) (aid now : string)
| LCancelPipeline (name why now : string)
| LPruneIntents (name now : string)
| LAudit (cutoff : string)
| LCheckpoint (a : checkpoint_args)
| LEnqueue (rid pipeline yaml requested expires : string)
| LQClaim (rid : string)
| LQRevert (rid : string)
| LQExpire (rid : string)
| LQDispatched (rid now : string)
| LQCancel (rid why : string)
| LQRefresh (name yaml : string)
| LQReset
| LEnsureDesired (name : string) (running : bool) (now : string)
| LSetDesired (name : string) (running : bool) (now : string)
| LBump (name : string) (deleted : bool) (now : string).

Definition lstep (o : lop) (d : mdb) : mdb :=
  match o with
  | LReserve a => set_led (_ensure_run_intent a) d
  | LClaim a => (_claim_for_dispatch a d).2
  | LRunning aid rid gen now => set_led (_mark_attempt_running aid rid gen now) d
  | LUnknown aid rid gen why => set_led (_mark_attempt_unknown aid rid gen why) d
  | LWorker aid rid gen w => set_led (_record_attempt_worker aid rid gen w) d
  | LTerminal aid o why now => set_led (terminalize_own aid o why now) d
  | LResolve rid o aid now => set_led (fun l => (resolve_intent rid o aid now l).2) d
  | LCancelPipeline name why now => (_terminal_cancel_pipeline_queued name why now d).2
  | LPruneIntents name now => set_led (fun l => (_prune_orphaned_run_intents name now l).2) d
  | LAudit cutoff => set_led (_prune_ledger_audit cutoff) d
  | LCheckpoint a => set_led (fun l => (commit_checkpoint a l).2) d
  | LEnqueue rid p y r e => save_queued_run rid p y r e d
  | LQClaim rid => (claim_queued_run_row rid d).2
  | LQRevert rid => (revert_queued_run_row rid d).2
  | LQExpire rid => (expire_queued_run_row rid d).2
  | LQDispatched rid now => (mark_queued_run_dispatched rid now d).2
  | LQCancel rid why => _terminal_cancel_queued_run rid why d
  | LQRefresh name y => (refresh_queued_run_yaml name y d).2
  | LQReset => _reset_orphan_dispatching_queued_runs d
  | LEnsureDesired name r now => _ensure_desired_state name r now d
  | LSetDesired name r now => _set_desired_status name r now d
  | LBump name del now => (_bump_pipeline_generation name del now d).2
  end.

Definition lrun (ops : list lop) (d : mdb) : mdb := fold_left (fun d o => lstep o d) ops d.

(** ** The invariant *)

Definition live (x : attempt) : Prop := at_state x ∈ [SClaimed; SDispatching; SRunning].

Record linv (l : ledger) : Prop := mkLinv {
  li_id : forall aid x, attempts l !! aid = Some x -> aid = mint_attempt_id (at_run_id x) (at_ordinal x);
  li_live : forall aid x, attempts l !! aid = Some x -> live x ->
    exists g, guards l !! at_pipeline x = Some g /\ g_attempt_id g = Some aid /\
      g_run_id g = Some (at_run_id x);
  li_guard : forall k g aid, guards l !! k = Some g -> g_attempt_id g = Some aid ->
    exists x, attempts l !! aid = Some x /\ at_pipeline x = k /\ g_run_id g = Some (at_run_id x) /\
      at_state x <> STerminal;
}.

Lemma linv_empty : linv empty_ledger.
Proof. by split. Qed.

(** The invariant reads attempts and guards only. *)
Lemma linv_same l l' : attempts l' = attempts l -> guards l' = guards l -> linv l -> linv l'.
Proof. intros Ha Hg [? ? ?]. split; rewrite ?Ha, ?Hg; auto. Qed.

(** A row update that keeps the identity, revives nothing and ends nothing. *)
Lemma linv_update p f l :
  (forall aid x, p aid x = true ->
     at_run_id (f x) = at_run_id x /\ at_pipeline (f x) = at_pipeline x /\ at_ordinal (f x) = at_ordinal x /\
     (live (f x) -> live x) /\ (at_state x <> STerminal -> at_state (f x) <> STerminal)) ->
  linv l -> linv (set_attempts (tbl_update p f) l).
Proof.
  intros Hf [Hid Hlive Hguard]. split; simpl.
  - intros aid x Hx. rewrite lookup_tbl_update in Hx. destruct (attempts l !! aid) as [y|] eqn:E; [|done].
    simpl in Hx. inv_eq. destruct (p aid y) eqn:Ep; [|auto]. destruct (Hf _ _ Ep) as (-> & _ & -> & _). auto.
  - intros aid x Hx Hl. rewrite lookup_tbl_update in Hx. destruct (attempts l !! aid) as [y|] eqn:E; [|done].
    simpl in Hx. inv_eq. destruct (p aid y) eqn:Ep; [|eauto].
    destruct (Hf _ _ Ep) as (-> & -> & _ & Hl' & _). eauto.
  - intros k g aid Hg Ha. destruct (Hguard k g aid Hg Ha) as (x & Hx & Hp & Hr & Ht).
    rewrite lookup_tbl_update, Hx. simpl. eexists; split; [done|].
    destruct (p aid x) eqn:Ep; [|done]. by destruct (Hf _ _ Ep) as (-> & -> & _ & _ & Ht'); auto.
Qed.

Lemma held_by_true k aid rid key g :
  held_by k aid rid key g = true <-> key = k /\ g_attempt_id g = Some aid /\ g_run_id g = Some rid.
Proof. unfold held_by. rewrite andb_true_iff, !bool_decide_eq_true. done. Qed.

Lemma fenced_true aid rid gen from key x :
  fenced aid rid gen from key x = true <->
  key = aid /\ at_run_id x = rid /\ at_generation x = gen /\ at_state x ∈ from.
Proof. unfold fenced. rewrite andb_true_iff, !bool_decide_eq_true. done. Qed.

Lemma linv_fenced aid rid gen from f l :
  (forall x, at_state x ∈ from ->
     at_run_id (f x) = at_run_id x /\ at_pipeline (f x) = at_pipeline x /\ at_ordinal (f x) = at_ordinal x /\
     (live (f x) -> live x) /\ (at_state x <> STerminal -> at_state (f x) <> STerminal)) ->
  linv l -> linv (set_attempts (tbl_update (fenced aid rid gen from) f) l).
Proof.
  intros Hf. apply linv_update. intros k x Hp. apply fenced_true in Hp as (_ & _ & _ & Hs). auto.
Qed.

Lemma linv_claimed a l :
  linv l -> available (ca_guard_key a) l -> ~ taken a l -> ca_pipeline_name a = ca_guard_key a ->
  linv (claimed_ledger a l).
Proof.
  intros [Hid Hlive Hguard] Hav Hnt Hk.
  assert (attempts l !! ca_attempt_id a = None) as Hfresh.
  { destruct (attempts l !! ca_attempt_id a) as [x|] eqn:E; [|done]. destruct Hnt.
    exists (ca_attempt_id a), x. auto. }
  split.
  - intros aid x Hx. simpl in Hx. apply lookup_insert_Some in Hx as [[<- <-]|[_ Hx]]; [done|auto].
  - intros aid x Hx Hl. rewrite claimed_guard. simpl in Hx.
    apply lookup_insert_Some in Hx as [[<- <-]|[Hne Hx]].
    + simpl. rewrite decide_True by done. eexists; split; [done|].
      rewrite Hk. destruct (guards l !! ca_guard_key a) as [g|] eqn:E; simpl; [|done].
      by rewrite (Hav g E).
    + destruct (Hlive aid x Hx Hl) as (g & Hg & Hga & Hgr).
      destruct (decide (at_pipeline x = ca_guard_key a)) as [Heq|_]; [|eauto].
      exfalso. rewrite Heq in Hg. specialize (Hav g Hg). congruence.
  - intros k g aid Hg Ha. rewrite claimed_guard in Hg. simpl.
    destruct (decide (k = ca_guard_key a)) as [->|Hne].
    + assert (exists g0, g = acquire a g0) as [g0 ->].
      { destruct (guards l !! ca_guard_key a) as [g0|] eqn:E; simpl in Hg; inv_eq; [|eauto].
        rewrite (Hav g0 E). simpl. eauto. }
      simpl in Ha. inv_eq. exists (claimed_attempt a). by rewrite lookup_insert_eq.
    + destruct (Hguard k g aid Hg Ha) as (x & Hx & ? & ? & ?). exists x.
      rewrite lookup_insert_ne; [done|]. intros Heq. congruence.
Qed.

(** Terminalizing an attempt with its own identity. *)
Lemma terminalize_attempts aid rid pl gen o why now l :
  attempts (_terminalize_attempt aid rid pl gen o why now l)
  = tbl_update (fenced aid rid gen [SClaimed; SDispatching; SRunning]) (terminal_attempt now why) (attempts l).
Proof. by destruct o. Qed.

Lemma terminalize_guards aid rid pl gen o why now l :
  guards (_terminalize_attempt aid rid pl gen o why now l)
  = tbl_update (held_by pl aid rid) free_guard (guards l).
Proof. by destruct o. Qed.

Lemma linv_terminalize_own aid o why now l : linv l -> linv (terminalize_own aid o why now l).
Proof.
  intros Hinv. unfold terminalize_own. destruct (attempts l !! aid) as [x|] eqn:Ex; [|done].
  pose proof Hinv as [Hid Hlive Hguard]. split.
  - intros k y Hy. rewrite terminalize_attempts, lookup_tbl_update in Hy.
    destruct (attempts l !! k) as [z|] eqn:E; [|done]. simpl in Hy. inv_eq.
    destruct (fenced _ _ _ _ k z); simpl; auto.
  - intros k y Hy Hl. rewrite terminalize_attempts, lookup_tbl_update in Hy.
    destruct (attempts l !! k) as [z|] eqn:E; [|done]. simpl in Hy. inv_eq.
    destruct (fenced aid _ _ _ k z) eqn:Ef.
    { unfold live in Hl. simpl in Hl. set_solver. }
    destruct (Hlive k z E Hl) as (g & Hg & Hga & Hgr). exists g. split; [|done].
    rewrite terminalize_guards, lookup_tbl_update, Hg. simpl. f_equal.
    destruct (held_by _ _ _ _ g) eqn:Eh; [exfalso|done]. apply held_by_true in Eh as (_ & Ha' & _).
    rewrite Hga in Ha'. inv_eq. rewrite <- not_true_iff_false, fenced_true in Ef. by apply Ef.
  - intros k g a Hg Ha. rewrite terminalize_guards, lookup_tbl_update in Hg.
    destruct (guards l !! k) as [g0|] eqn:Eg; [|done]. simpl in Hg. inv_eq.
    destruct (held_by _ _ _ k g0) eqn:Eh; [done|].
    destruct (Hguard k g0 a Eg Ha) as (y & Hy & Hp & Hr & Ht).
    rewrite terminalize_attempts, lookup_tbl_update, Hy. simpl. eexists; split; [done|].
    destruct (fenced aid _ _ _ a y) eqn:Ef; [exfalso|done]. apply fenced_true in Ef as (-> & _).
    rewrite Ex in Hy. inv_eq. rewrite <- not_true_iff_false, held_by_true in Eh. by apply Eh.
Qed.

Lemma linv_audit cutoff l : linv l -> linv (_prune_ledger_audit cutoff l).
Proof.
  intros [Hid Hlive Hguard]. unfold _prune_ledger_audit. split; simpl.
  - intros aid x Hx. apply lookup_tbl_delete_Some in Hx as [Hx _]. auto.
  - intros aid x Hx Hl. apply lookup_tbl_delete_Some in Hx as [Hx _]. eauto.
  - intros k g aid Hg Ha. destruct (Hguard k g aid Hg Ha) as (x & Hx & ? & ? & Ht). exists x.
    split; [|done]. apply lookup_tbl_delete_Some. split; [done|]. by rewrite bool_decide_false.
Qed.

Lemma not_available k l :
  ~ available k l -> exists g, guards l !! k = Some g /\ g_attempt_id g <> None.
Proof.
  unfold available. intros H. destruct (guards l !! k) as [g|] eqn:E; [|by destruct H].
  exists g. split; [done|]. intros Hg. apply H. intros g' ?. by inv_eq.
Qed.

Lemma claimable_dec rid l : claimable rid l \/ ~ claimable rid l.
Proof.
  unfold claimable. destruct (intents l !! rid) as [i|]; [|right; by intros (? & ? & _)].
  destruct (in_final_outcome i) eqn:E; [right|left; eauto]. intros (i' & ? & ?). by inv_eq.
Qed.

(** The ledger after a claim: unchanged unless it succeeded. *)
Lemma claim_run_cases a l :
  (claim_run a l).2 = l \/
  ((claim_run a l).2 = claimed_ledger a l /\ available (ca_guard_key a) l /\ ~ taken a l).
Proof.
  destruct (decide (available (ca_guard_key a) l)) as [Hav|Hav].
  - destruct (claimable_dec (ca_run_id a) l) as [Hc|Hc].
    + rewrite claim_open by done. destruct (decide (taken a l)); simpl; auto.
    + rewrite claim_no_intent by done. by left.
  - destruct (not_available _ _ Hav) as (g & Hg & Ha). rewrite (claim_held _ _ g) by done. by left.
Qed.

Lemma dispatching_keeps aid rid gen now l : linv l -> linv (_mark_attempt_dispatching aid rid gen now l).
Proof.
  apply linv_fenced. intros x Hx. simpl. split_and!; try done.
  intros _. unfold live. apply list_elem_of_singleton in Hx as ->. set_solver.
Qed.

Lemma claim_for_dispatch_led a d :
  exists l, (l = led d \/ l = (claim_run (claim_args_of a (_pipeline_generation (da_pipeline a) d))
     (_ensure_run_intent (mkIntentArgs (da_run_id a) (da_pipeline a) (da_origin a) (da_flush a) (da_now a)
        (_pipeline_generation (da_pipeline a) d) (Some (da_yaml_text a)) (da_schedule_type a) None) (led d))).2) /\
  (led (_claim_for_dispatch a d).2 = l \/
   led (_claim_for_dispatch a d).2
   = _mark_attempt_dispatching (mint_attempt_id (da_run_id a) (da_ordinal a)) (da_run_id a)
       (_pipeline_generation (da_pipeline a) d) (da_now a) l).
Proof.
  unfold _claim_for_dispatch. destruct (claim_run _ _) as [[c|x] l2]; simpl.
  - destruct (decide _); exists l2; simpl; auto.
  - exists l2; simpl; auto.
Qed.

Lemma lstep_linv o d : linv (led d) -> linv (led (lstep o d)).
Proof.
  intros Hinv. destruct o; cbn [lstep]; try exact Hinv.
  - by apply (linv_same (led d)).
  - destruct (claim_for_dispatch_led a d) as (l & Hl & Heq).
    assert (linv l) as Hli.
    { destruct Hl as [->| ->]; [done|].
      match goal with |- context [claim_run ?ca ?l1] =>
        destruct (claim_run_cases ca l1) as [->|(-> & Hav & Hnt)] end.
      - by apply (linv_same (led d)).
      - apply linv_claimed; try done. by apply (linv_same (led d)). }
    destruct Heq as [->| ->]; [done|by apply dispatching_keeps].
  - apply linv_fenced; [|done]. intros x Hx. simpl. split_and!; try done.
    intros _. unfold live. apply list_elem_of_singleton in Hx as ->. set_solver.
  - apply linv_fenced; [|done]. intros x Hx. simpl. split_and!; try done.
    unfold live; simpl. set_solver.
  - apply (linv_update _ _ (led d)); [|done]. intros k x _. by simpl.
  - by apply linv_terminalize_own.
  - by apply (linv_same (led d)).
  - by apply (linv_same (led d)).
  - by apply (linv_same (led d)).
  - by apply linv_audit.
  - apply (linv_same (led d)); [..|done]; simpl; unfold commit_checkpoint, upsert_checkpoint;
      by repeat (split_match; simpl); inv_eq.
Qed.

Lemma lrun_linv ops d : linv (led d) -> linv (led (lrun ops d)).
Proof.
  revert d; induction ops as [|o ops IH]; intros d Hd; simpl; [done|]. apply IH. by apply lstep_linv.
Qed.

Lemma lrun_empty_linv ops : linv (led (lrun ops empty_mdb)).
Proof. apply lrun_linv, linv_empty. Qed.

(** ** Properties *)

(** One live attempt per pipeline.  Over any history of the controller's
    database operations (claims, dispatches, completions, losses, boot
    resolutions, cancellations, audits), two attempts of the same pipeline
    that are both claimed, dispatching or running are the same attempt. *)
Theorem single_live_attempt ops aid1 x1 aid2 x2 :
  let l := led (lrun ops empty_mdb) in
  attempts l !! aid1 = Some x1 -> live x1 -> attempts l !! aid2 = Some x2 -> live x2 ->
  at_pipeline x1 = at_pipeline x2 -> aid1 = aid2.
Proof.
  intros l H1 L1 H2 L2 Hp. destruct (lrun_empty_linv ops) as [_ Hlive _]. fold l in Hlive.
  destruct (Hlive _ _ H1 L1) as (g1 & Hg1 & Ha1 & _). destruct (Hlive _ _ H2 L2) as (g2 & Hg2 & Ha2 & _).
  rewrite Hp, Hg2 in Hg1. congruence.
Qed.

(** A live attempt is never overtaken.  While an attempt of a pipeline is
    claimed, dispatching, running, or unknown with its guard retained, any
    other dispatch claim for that pipeline is refused, and leaves every
    attempt, guard and queued row as it was. *)
Theorem claim_refused_while_held ops aid g a :
  let d := lrun ops empty_mdb in
  guards (led d) !! da_pipeline a = Some g -> g_attempt_id g = Some aid ->
  mint_attempt_id (da_run_id a) (da_ordinal a) <> aid ->
  (_claim_for_dispatch a d).1 = Ok None /\
  attempts (led (_claim_for_dispatch a d).2) = attempts (led d) /\
  guards (led (_claim_for_dispatch a d).2) = guards (led d) /\
  queue (_claim_for_dispatch a d).2 = queue d.
Proof.
  intros d Hg Ha Hne. unfold _claim_for_dispatch.
  set (l1 := _ensure_run_intent _ _). set (ca := claim_args_of a _).
  rewrite (claim_held ca l1 g); [|done|congruence]. simpl.
  rewrite (decide_False (P := _ /\ _)); [done|].
  rewrite Ha. intros [H _]. inversion H. by apply Hne.
Qed.

(** ** Outcomes are final *)

(** Everything but the worker id, which a late dispatch commit may still fill
    in. *)
Definition same_outcome (x y : attempt) : Prop :=
  at_run_id y = at_run_id x /\ at_pipeline y = at_pipeline x /\ at_ordinal y = at_ordinal x /\
  at_generation y = at_generation x /\ at_fence_token y = at_fence_token x /\
  at_state y = at_state x /\ at_finished_at y = at_finished_at x /\ at_cancel_reason y = at_cancel_reason x.

#[export] Instance same_outcome_preorder : PreOrder same_outcome.
Proof. split; [by intros x|]. unfold same_outcome. intros x y z. intuition congruence. Qed.

Definition is_audit (o : lop) : bool := match o with LAudit _ => true | _ => false end.

Section final.
Context (aid : string) (x : attempt).
Hypothesis terminal : at_state x = STerminal.

Definition ended (l : ledger) : Prop := exists y, attempts l !! aid = Some y /\ same_outcome x y.

Lemma ended_same l l' : attempts l' = attempts l -> ended l -> ended l'.
Proof. unfold ended. by intros ->. Qed.

(** A fenced update that never selects a terminal row. *)
Lemma ended_fenced a rid gen from f l :
  STerminal ∉ from -> ended l -> ended (set_attempts (tbl_update (fenced a rid gen from) f) l).
Proof.
  intros Hfrom (y & Hy & Hs). exists y. split; [|done]. simpl. rewrite lookup_tbl_update, Hy. simpl.
  destruct (fenced _ _ _ _ aid y) eqn:E; [|done]. apply fenced_true in E as (_ & _ & _ & Hst).
  destruct Hs as (_ & _ & _ & _ & _ & Hst' & _). rewrite Hst', terminal in Hst. done.
Qed.

Lemma ended_claim ca l : ended l -> ended (claim_run ca l).2.
Proof.
  intros Hl. destruct (claim_run_cases ca l) as [->|(-> & _ & Hnt)]; [done|].
  destruct Hl as (y & Hy & Hs). exists y. split; [|done]. simpl.
  rewrite lookup_insert_ne; [done|]. intros Heq. apply Hnt. exists aid, y. auto.
Qed.

Lemma lstep_ended o d : is_audit o = false -> ended (led d) -> ended (led (lstep o d)).
Proof.
  intros Ho Hd. destruct o; cbn [lstep] in *; try exact Hd; try done.
  - destruct (claim_for_dispatch_led a d) as (l & Hl & Heq).
    assert (ended l) as Hli.
    { destruct Hl as [->| ->]; [done|]. apply ended_claim. by apply (ended_same (led d)). }
    destruct Heq as [->| ->]; [done|]. by apply ended_fenced; [set_solver|].
  - by apply ended_fenced; [set_solver|].
  - by apply ended_fenced; [set_solver|].
  - destruct Hd as (y & Hy & Hs). simpl. unfold ended. simpl. rewrite lookup_tbl_update, Hy. simpl.
    eexists; split; [done|]. by destruct (_ && _)%bool.
  - simpl. unfold terminalize_own. destruct (attempts (led d) !! aid0) as [z|]; [|done].
    apply (ended_same (set_attempts (tbl_update (fenced aid0 (at_run_id z) (at_generation z)
      [SClaimed; SDispatching; SRunning]) (terminal_attempt now why)) (led d)));
      [apply terminalize_attempts|]. by apply ended_fenced; [set_solver|].
  - apply (ended_same (led d)); [|done]. simpl. unfold commit_checkpoint, upsert_checkpoint.
    by repeat (split_match; simpl); inv_eq.
Qed.
End final.

Definition settled (rid : string) (i : intent) (l : ledger) : Prop := intents l !! rid = Some i.

Lemma settled_update rid i p f l :
  (forall k j, p k j = true -> in_final_outcome j = None) ->
  in_final_outcome i <> None -> settled rid i l -> settled rid i (set_intents (tbl_update p f) l).
Proof.
  intros Hp Hi H. unfold settled in *. simpl. rewrite lookup_tbl_update, H. simpl. f_equal.
  destruct (p rid i) eqn:E; [|done]. by apply Hp in E.
Qed.

Lemma unresolved_open rid k i : unresolved rid k i = true -> in_final_outcome i = None.
Proof. unfold unresolved. intros H. by bool_to_prop. Qed.

Lemma settled_ensure rid i a l :
  in_final_outcome i <> None -> settled rid i l -> settled rid i (_ensure_run_intent a l).
Proof.
  unfold settled. intros Hi H. unfold _ensure_run_intent. simpl.
  destruct (decide (ia_run_id a = rid)) as [<-|Hne].
  - rewrite H. by rewrite decide_False.
  - destruct (intents l !! ia_run_id a); [destruct (decide _)|]; rewrite ?lookup_insert_ne by done; done.
Qed.

Lemma settled_claim rid i a l :
  in_final_outcome i <> None -> settled rid i l -> settled rid i (claim_run a l).2.
Proof.
  intros Hi H. destruct (claim_run_cases a l) as [->|(-> & _ & _)]; [done|].
  apply (settled_update _ _ (unresolved (ca_run_id a)) _ (set_guards _ l)); [|done|done].
  intros k j. apply unresolved_open.
Qed.

Lemma lstep_settled rid i o d :
  in_final_outcome i <> None -> is_audit o = false ->
  settled rid i (led d) -> settled rid i (led (lstep o d)).
Proof.
  intros Hi Ho Hd. destruct o; cbn [lstep] in *; try exact Hd; try done.
  - by apply settled_ensure.
  - destruct (claim_for_dispatch_led a d) as (l & Hl & Heq).
    assert (settled rid i l) as Hli.
    { destruct Hl as [->| ->]; [done|]. apply settled_claim; [done|]. by apply settled_ensure. }
    by destruct Heq as [->| ->].
  - simpl. unfold terminalize_own. destruct (attempts (led d) !! aid) as [z|]; [|done].
    unfold _terminalize_attempt. destruct o as [out|]; [|done].
    apply (settled_update _ _ (unresolved (at_run_id z)) _ (set_attempts _ (led d))); [|done|done].
    intros k j. apply unresolved_open.
  - apply settled_update; [|done|done]. intros k j. apply unresolved_open.
  - apply settled_update; [|done|done]. intros k j Hk. by bool_to_prop; naive_solver.
  - apply settled_update; [|done|done]. intros k j Hk. by bool_to_prop; naive_solver.
  - unfold settled in *. simpl. unfold commit_checkpoint, upsert_checkpoint.
    by repeat (split_match; simpl); inv_eq.
Qed.

(** Outcomes are final.  Once an attempt is terminal its state, finish
    time, cancel reason, generation and fence token never change, and once a
    run's intent is resolved its row never changes, through any history of
    later claims, late or duplicate callbacks and cancellations (until the
    audit retention deletes the rows). *)
Theorem outcomes_are_final ops d aid x rid i :
  forallb (fun o => negb (is_audit o)) ops = true ->
  attempts (led d) !! aid = Some x -> at_state x = STerminal ->
  intents (led d) !! rid = Some i -> in_final_outcome i <> None ->
  (exists y, attempts (led (lrun ops d)) !! aid = Some y /\ same_outcome x y) /\
  intents (led (lrun ops d)) !! rid = Some i.
Proof.
  intros Ha Hx Ht Hr Hi.
  assert (ended aid x (led d)) as He by (exists x; split; [done|reflexivity]).
  change (ended aid x (led (lrun ops d)) /\ settled rid i (led (lrun ops d))).
  assert (settled rid i (led d)) as Hs by done. clear Hx Hr. revert d He Hs.
  induction ops as [|o ops IH]; intros d He Hs; [done|]. simpl in Ha.
  apply andb_true_iff in Ha as [Ho Ha]. apply negb_true_iff in Ho. simpl.
  apply IH; [done|by apply lstep_ended|by apply lstep_settled].
Qed.

(** ** Completion frees the pipeline, and only that *)

Lemma foldr_max_ge (y : Z) (ys : list Z) : forall z, z ∈ y :: ys -> z <= foldr Z.max y ys.
Proof.
  induction ys as [|w ys IH]; intros z Hz; simpl.
  - apply list_elem_of_singleton in Hz. lia.
  - rewrite !elem_of_cons in Hz. assert (z = w \/ z ∈ y :: ys) as [->|Hz'] by (rewrite elem_of_cons; tauto).
    + lia.
    + specialize (IH z Hz'). lia.
Qed.

(** The next ordinal is above every recorded one. *)
Lemma next_ordinal_fresh rid l aid x :
  attempts l !! aid = Some x -> at_run_id x = rid -> at_ordinal x < _next_attempt_ordinal rid l.
Proof.
  intros Hx Hr. unfold _next_attempt_ordinal, attempts_of.
  assert (at_ordinal x ∈ (at_ordinal <$> (map_to_list (filter (fun kv : string * attempt => at_run_id kv.2 = rid)
    (attempts l))).*2)) as Hin.
  { apply list_elem_of_fmap. exists x. split; [done|]. apply list_elem_of_fmap. exists (aid, x).
    split; [done|]. apply elem_of_map_to_list, map_lookup_filter_Some. done. }
  destruct (at_ordinal <$> _) as [|y ys] eqn:E; [by apply elem_of_nil in Hin|].
  pose proof (foldr_max_ge y ys _ Hin). lia.
Qed.

Lemma next_ordinal_not_taken a gen l :
  linv l -> da_ordinal a = _next_attempt_ordinal (da_run_id a) l -> ~ taken (claim_args_of a gen) l.
Proof.
  intros Hinv Ho (k & x & Hx & Hk). simpl in Hk.
  assert (at_run_id x = da_run_id a /\ at_ordinal x = da_ordinal a) as [Hr Hn].
  { destruct Hk as [->|?]; [|done]. pose proof (li_id _ Hinv _ _ Hx) as Hid. symmetry in Hid.
    unfold ca_attempt_id in Hid. by apply mint_inj in Hid. }
  pose proof (next_ordinal_fresh _ _ _ _ Hx Hr). lia.
Qed.

(** A claim with a fresh ordinal on a free pipeline. *)
Lemma claim_for_dispatch_free a d :
  linv (led d) -> available (da_pipeline a) (led d) ->
  da_ordinal a = _next_attempt_ordinal (da_run_id a) (led d) ->
  (forall i, intents (led d) !! da_run_id a = Some i -> in_final_outcome i = None) ->
  let aid := mint_attempt_id (da_run_id a) (da_ordinal a) in
  let gen := _pipeline_generation (da_pipeline a) d in
  (_claim_for_dispatch a d).1 = Ok (Some (mkDispatch aid (da_run_id a) (da_pipeline a) gen)) /\
  exists x, attempts (led (_claim_for_dispatch a d).2) !! aid = Some x /\
    at_state x = SDispatching /\ at_generation x = gen /\ at_fence_token x = da_fence_token a /\
    at_run_id x = da_run_id a.
Proof.
  intros Hinv Hav Ho Hi aid gen. unfold _claim_for_dispatch. fold gen. set (l1 := _ensure_run_intent _ _).
  assert (claimable (da_run_id a) l1) as Hc.
  { unfold claimable, l1, _ensure_run_intent. simpl. destruct (intents (led d) !! da_run_id a) as [i|] eqn:E.
    - rewrite decide_True by auto. rewrite lookup_insert_eq. eexists; split; [done|]. simpl. auto.
    - rewrite lookup_insert_eq. by eexists. }
  rewrite (claim_open (claim_args_of a gen) l1) by done.
  rewrite decide_False by (by apply (next_ordinal_not_taken a gen (led d))).
  cbn [status claim_outcome]. rewrite decide_False by naive_solver. simpl. split; [done|].
  unfold ca_attempt_id. simpl. rewrite lookup_tbl_update, lookup_insert_eq. simpl.
  eexists; split; [done|].
  rewrite (proj2 (fenced_true _ _ _ _ _ _)); [done|]. simpl. split_and!; try done. by left.
Qed.

(** A completion ends its own attempt and frees its pipeline.  In every
    reachable ledger, terminalizing a live attempt makes it terminal, resolves
    its run with the outcome unless the run was already resolved, and frees the
    pipeline, so that the next dispatch claim (any unresolved run, with its
    next ordinal) is granted. *)
Theorem completion_frees_pipeline ops aid x out why now a :
  let d := lrun ops empty_mdb in
  attempts (led d) !! aid = Some x -> live x ->
  let d' := lstep (LTerminal aid (Some out) why now) d in
  (exists y, attempts (led d') !! aid = Some y /\ at_state y = STerminal /\ at_finished_at y = Some now) /\
  (forall i, intents (led d) !! at_run_id x = Some i -> in_final_outcome i = None ->
     intents (led d') !! at_run_id x = Some (resolve out (Some aid) now i)) /\
  (da_pipeline a = at_pipeline x -> da_ordinal a = _next_attempt_ordinal (da_run_id a) (led d') ->
   (forall i, intents (led d') !! da_run_id a = Some i -> in_final_outcome i = None) ->
   exists c, (_claim_for_dispatch a d').1 = Ok (Some c)).
Proof.
  intros d Hx Hl d'. assert (linv (led d)) as Hinv by apply lrun_empty_linv.
  assert (led d' = _terminalize_attempt aid (at_run_id x) (at_pipeline x) (at_generation x) (Some out) why now (led d))
    as Hd'.
  { unfold d'. simpl. unfold terminalize_own. by rewrite Hx. }
  split_and!.
  - rewrite Hd', terminalize_attempts, lookup_tbl_update, Hx. simpl. eexists; split; [done|].
    by rewrite (proj2 (fenced_true _ _ _ _ _ _)).
  - intros i Hi Ho. rewrite Hd'. simpl. rewrite lookup_tbl_update, Hi. simpl. f_equal.
    unfold unresolved. by rewrite !bool_decide_true.
  - intros Hp Hord Hio. edestruct (claim_for_dispatch_free a d') as [-> _]; [| |done|done|by eexists].
    + by apply lstep_linv.
    + intros g Hg. rewrite Hp, Hd', terminalize_guards, lookup_tbl_update in Hg.
      destruct (li_live _ Hinv aid x Hx Hl) as (g0 & Hg0 & Ha0 & Hr0). rewrite Hg0 in Hg. simpl in Hg.
      rewrite (proj2 (held_by_true _ _ _ _ _)) in Hg by done. by inv_eq.
Qed.

(** Late and duplicate callbacks are harmless.  Ending an attempt, whatever
    its state, changes no other attempt, no other run's intent, and no guard
    held by another attempt: a late completion of a retired attempt can
    neither free nor fail the run that replaced it. *)
Theorem late_callback_touches_only_its_attempt l aid out why now aid' x' k g rid' i x :
  let l' := terminalize_own aid out why now l in
  attempts l !! aid = Some x ->
  (aid' <> aid -> attempts l !! aid' = Some x' -> attempts l' !! aid' = Some x') /\
  (g_attempt_id g <> Some aid -> guards l !! k = Some g -> guards l' !! k = Some g) /\
  (rid' <> at_run_id x -> intents l !! rid' = Some i -> intents l' !! rid' = Some i).
Proof.
  intros l' Hx. unfold l', terminalize_own. rewrite Hx. split_and!.
  - intros Hne Hx'. rewrite terminalize_attempts, lookup_tbl_update, Hx'. simpl. f_equal.
    destruct (fenced _ _ _ _ aid' x') eqn:E; [|done]. by apply fenced_true in E as [? _].
  - intros Hne Hg. rewrite terminalize_guards, lookup_tbl_update, Hg. simpl. f_equal.
    destruct (held_by _ _ _ k g) eqn:E; [|done]. by apply held_by_true in E as (_ & ? & _).
  - intros Hne Hi. unfold _terminalize_attempt. destruct out as [out|]; simpl; [|done].
    rewrite lookup_tbl_update, Hi. simpl. f_equal. unfold unresolved. by rewrite bool_decide_false.
Qed.

(** A late callback for an [unknown] attempt frees the pipeline but never
    ends the attempt.  The terminal fence accepts claimed, dispatching and
    running only, so after boot adoption marked an attempt unknown, the
    completion that resolves its run and releases its guard leaves the attempt
    in state [unknown]. *)
Theorem late_callback_leaves_unknown ops aid x out why now :
  let d := lrun ops empty_mdb in
  attempts (led d) !! aid = Some x -> at_state x = SUnknown ->
  let l' := terminalize_own aid (Some out) why now (led d) in
  attempts l' !! aid = Some x /\
  (forall g, guards (led d) !! at_pipeline x = Some g -> g_attempt_id g = Some aid ->
     guards l' !! at_pipeline x = Some (free_guard g)).
Proof.
  intros d Hx Hs l'. assert (linv (led d)) as Hinv by apply lrun_empty_linv.
  unfold l', terminalize_own. rewrite Hx. split.
  - rewrite terminalize_attempts, lookup_tbl_update, Hx. simpl. f_equal.
    destruct (fenced _ _ _ _ aid x) eqn:E; [|done]. apply fenced_true in E as (_ & _ & _ & E).
    rewrite Hs in E. set_solver.
  - intros g Hg Ha. rewrite terminalize_guards, lookup_tbl_update, Hg. simpl. f_equal.
    destruct (li_guard _ Hinv _ _ _ Hg Ha) as (y & Hy & _ & Hr & _). rewrite Hx in Hy. inv_eq.
    by rewrite (proj2 (held_by_true _ _ _ _ _)).
Qed.

(** ** Checkpoints *)

(** A later version of a checkpoint row: same identity, frontier not behind. *)
Definition advanced (c c' : checkpoint) : Prop :=
  ck_id c' = ck_id c /\ ck_run_id c' = ck_run_id c /\ ck_frontier_seq c <= ck_frontier_seq c'.

#[export] Instance advanced_preorder : PreOrder advanced.
Proof. split; [by intros c|]. unfold advanced. intros a b c. intuition (congruence || lia). Qed.

Lemma commit_advances key c a l :
  checkpoints l !! key = Some c ->
  exists c', checkpoints (commit_checkpoint a l).2 !! key = Some c' /\ advanced c c'.
Proof.
  intros Hc. unfold commit_checkpoint, upsert_checkpoint. set (k := (_, _)).
  destruct (checkpoints l !! k) as [old|] eqn:E.
  - destruct (_ <? _) eqn:El; simpl; [|exists c; split; [done|reflexivity]].
    destruct (decide (key = k)) as [->|Hne]; [|rewrite lookup_insert_ne by done; exists c; split; [done|reflexivity]].
    rewrite lookup_insert_eq. rewrite Hc in E. inv_eq. eexists; split; [done|].
    bool_to_prop. unfold advanced; simpl. split_and!; [done|done|lia].
  - destruct (decide _); simpl; [exists c; split; [done|reflexivity]|].
    rewrite lookup_insert_ne by congruence. exists c. split; [done|reflexivity].
Qed.

(** The delivery frontier is monotone.  Over any history of the
    controller's operations a committed unit's checkpoint keeps its identity
    and its run, and its frontier never moves back; a commit that does not
    move it forward reports STALE with the stored row and changes nothing,
    one that does reports COMMITTED under the original identity. *)
Theorem checkpoint_frontier_monotone ops d key c a :
  checkpoints (led d) !! key = Some c ->
  (exists c', checkpoints (led (lrun ops d)) !! key = Some c' /\ advanced c c') /\
  (key = (cka_pipeline_name a, cka_source_unit a) ->
   commit_checkpoint a (led d) =
     if ck_frontier_seq c <? ck_frontier_seq (cka_row a)
     then (Ok (mkCheckpointOutcome COMMITTED (Some (ck_id c)) None),
           set_checkpoints (<[key := advance_checkpoint (cka_row a) c]>) (led d))
     else (Ok (mkCheckpointOutcome STALE (Some (ck_id c)) (Some c)), led d)).
Proof.
  intros Hc. split.
  - clear a. revert d c Hc. induction ops as [|o ops IH]; intros d c Hc; [exists c; split; [done|reflexivity]|].
    assert (exists c1, checkpoints (led (lstep o d)) !! key = Some c1 /\ advanced c c1) as (c1 & Hc1 & Ha1).
    { destruct o; cbn [lstep]; try (exists c; split; [exact Hc|reflexivity]).
      - destruct (claim_for_dispatch_led a d) as (l & Hl & Heq). exists c. split; [|reflexivity].
        assert (checkpoints l = checkpoints (led d)) as Hk.
        { destruct Hl as [->| ->]; [done|].
          match goal with |- context [claim_run ?ca ?l1] =>
            by destruct (claim_run_cases ca l1) as [->|(-> & _)] end. }
        destruct Heq as [->| ->]; simpl; by rewrite Hk.
      - exists c. split; [|reflexivity]. simpl. unfold terminalize_own.
        destruct (attempts (led d) !! aid); [|done]. by destruct o.
      - by apply commit_advances. }
    destruct (IH (lstep o d) c1 Hc1) as (c2 & Hc2 & Ha2). exists c2. split; [done|by etransitivity].
  - intros ->. unfold commit_checkpoint, upsert_checkpoint. rewrite Hc.
    destruct (_ <? _); simpl; [by rewrite lookup_insert_eq|by rewrite Hc].
Qed.

(** ** Concrete histories *)

Definition demo_claim (rid : string) (n : Z) : dispatch_args :=
  mkDispatchArgs "p" rid "manual" false "yaml" "manual" n "2026-01-01T00:00:00+00:00" "fence".
Definition demo_attempt : attempt :=
  mkAttempt "r1" "p" 1 1 "" None "fence" SDispatching (Some "2026-01-01T00:00:00+00:00"%string)
    None None None None.
Definition demo_guard : guard :=
  mkGuard Batch (Some "r1"%string) (Some "r1-a1"%string) (Some 1) (Some "2026-01-01T00:00:00+00:00"%string).
Definition demo_end : lop := LTerminal "r1-a1" (Some OSuccess) None "2026-01-01T00:01:00+00:00".

Lemma single_live_attempt_witness : "r1-a1"%string = "r1-a1"%string.
Proof.
  apply (single_live_attempt [LClaim (demo_claim "r1" 1)] "r1-a1" demo_attempt "r1-a1" demo_attempt).
  - vm_compute. reflexivity.
  - right; left.
  - vm_compute. reflexivity.
  - right; left.
  - reflexivity.
Defined.

Lemma claim_refused_while_held_witness :
  (_claim_for_dispatch (demo_claim "r2" 1) (lrun [LClaim (demo_claim "r1" 1)] empty_mdb)).1 = Ok None.
Proof.
  apply (claim_refused_while_held [LClaim (demo_claim "r1" 1)] "r1-a1" demo_guard (demo_claim "r2" 1)).
  - vm_compute. reflexivity.
  - reflexivity.
  - discriminate.
Defined.

Definition demo_ended : mdb := lrun [LClaim (demo_claim "r1" 1); demo_end] empty_mdb.

Lemma outcomes_are_final_witness :
  exists y, attempts (led (lrun [LClaim (demo_claim "r2" 1); demo_end] demo_ended)) !! "r1-a1"%string = Some y /\
    at_state y = STerminal.
Proof.
  edestruct (outcomes_are_final [LClaim (demo_claim "r2" 1); demo_end] demo_ended "r1-a1"
    (terminal_attempt "2026-01-01T00:01:00+00:00" None demo_attempt) "r1") as [(y & Hy & Hs) _].
  - reflexivity.
  - vm_compute. reflexivity.
  - reflexivity.
  - vm_compute. reflexivity.
  - discriminate.
  - exists y. split; [exact Hy|]. apply Hs.
Defined.

Lemma completion_frees_pipeline_witness :
  exists c, (_claim_for_dispatch (demo_claim "r2" 1) demo_ended).1 = Ok (Some c).
Proof.
  edestruct (completion_frees_pipeline [LClaim (demo_claim "r1" 1)] "r1-a1" demo_attempt OSuccess None
    "2026-01-01T00:01:00+00:00" (demo_claim "r2" 1)) as (_ & _ & H).
  - vm_compute. reflexivity.
  - right; left.
  - apply H.
    + reflexivity.
    + vm_compute. reflexivity.
    + intros i Hi. vm_compute in Hi. discriminate.
Defined.

Lemma late_callback_touches_only_its_attempt_witness :
  let l := led (lrun [LClaim (demo_claim "r2" 1)] demo_ended) in
  let g := mkGuard Batch (Some "r2"%string) (Some "r2-a1"%string) (Some 1)
             (Some "2026-01-01T00:00:00+00:00"%string) in
  guards (terminalize_own "r1-a1" (Some OFailed) None "late" l) !! "p"%string = Some g.
Proof.
  intros l g.
  edestruct (late_callback_touches_only_its_attempt l "r1-a1" (Some OFailed) None "late" "r2-a1" demo_attempt
    "p" g "r2" (mkIntent "p" "manual" false "" None 1 None None None None None)) as (_ & H & _).
  - vm_compute. reflexivity.
  - apply H.
    + discriminate.
    + vm_compute. reflexivity.
Defined.

Lemma late_callback_leaves_unknown_witness :
  let d := lrun [LClaim (demo_claim "r1" 1); LUnknown "r1-a1" "r1" 1 "no evidence"] empty_mdb in
  exists x, attempts (terminalize_own "r1-a1" (Some OSuccess) None "late" (led d)) !! "r1-a1"%string = Some x /\
    at_state x = SUnknown.
Proof.
  intros d. eexists. split.
  - apply (late_callback_leaves_unknown [LClaim (demo_claim "r1" 1); LUnknown "r1-a1" "r1" 1 "no evidence"]).
    + vm_compute. reflexivity.
    + reflexivity.
  - reflexivity.
Defined.

Definition demo_checkpoint (seq : Z) : checkpoint := mkCheckpoint "c1" 1 "r1-a1" "r1" "{}" seq "[]" 1 "t".

Lemma checkpoint_frontier_monotone_witness :
  exists c', checkpoints (led (lrun [LCheckpoint (mkCheckpointArgs "p" "u" (demo_checkpoint 3))]
    (lrun [LCheckpoint (mkCheckpointArgs "p" "u" (demo_checkpoint 5))] empty_mdb))) !! ("p", "u")%string = Some c' /\
    advanced (demo_checkpoint 5) c'.
Proof.
  apply (checkpoint_frontier_monotone [LCheckpoint (mkCheckpointArgs "p" "u" (demo_checkpoint 3))]
    (lrun [LCheckpoint (mkCheckpointArgs "p" "u" (demo_checkpoint 5))] empty_mdb) ("p", "u")%string
    (demo_checkpoint 5) (mkCheckpointArgs "p" "u" (demo_checkpoint 5))).
  vm_compute. reflexivity.
Defined.

End LedgerSafety.
