(* ===== verification/PyVal.v ===== *)
(** * Python values and dicts

    The values that flow through TRAM's transforms: what a JSON, CSV or XML
    decoder produces.  A dict is its list of items in insertion order with
    distinct string keys; floats are IEEE-754 binary64 values.  Equality and
    ordering are Python's: [True == 1 == 1.0], [str < str], [list < list]
    lexicographic, anything else a [TypeError].  Two NaNs are never equal (the
    identity shortcut of [in] and of dict keys for one shared NaN object is
    outside the model). *)

From Stdlib Require Import ZArith Lia Ascii String SpecFloat.
From stdpp Require Import base tactics list strings gmap option.
From S2P Require Import Prelude PyStr.
Import stdpp.list.

#[local] Open Scope Z_scope.
#[local] Open Scope list_scope.

Module PyVal.

(** ** Values *)

Inductive pyval :=
| VNone
| VBool (b : bool)
| VInt (z : Z)
| VFloat (f : spec_float)
| VStr (s : string)
| VList (l : list pyval)
| VDict (d : list (string * pyval)).

Notation dict := (list (string * pyval)).

Inductive py_exn := TransformError | TypeErrorExn | ValueErrorExn | OverflowErrorExn | AttributeErrorExn
| RecursionErrorExn.

#[global] Instance py_exn_eq_dec : EqDecision py_exn.
Proof. solve_decision. Defined.

(** Induction that reaches the members of lists and dicts. *)
Section pyval_ind.
Variable P : pyval -> Prop.
Hypothesis HNone : P VNone.
Hypothesis HBool : forall b, P (VBool b).
Hypothesis HInt : forall z, P (VInt z).
Hypothesis HFloat : forall f, P (VFloat f).
Hypothesis HStr : forall s, P (VStr s).
Hypothesis HList : forall l, Forall P l -> P (VList l).
Hypothesis HDict : forall d, Forall (fun kv => P kv.2) d -> P (VDict d).

Fixpoint pyval_nested_ind (v : pyval) : P v :=
  match v with
  | VNone => HNone
  | VBool b => HBool b
  | VInt z => HInt z
  | VFloat f => HFloat f
  | VStr s => HStr s
  | VList l => HList l
      ((fix go l := match l return Forall P l with
                    | [] => List.Forall_nil P
                    | x :: l' => List.Forall_cons P x l' (pyval_nested_ind x) (go l')
                    end) l)
  | VDict d => HDict d
      ((fix go d := match d return Forall (fun kv => P kv.2) d with
                    | [] => List.Forall_nil _
                    | kv :: d' => List.Forall_cons _ kv d' (pyval_nested_ind kv.2) (go d')
                    end) d)
  end.
End pyval_ind.

(** ** Numbers *)

Definition prec : Z := 53.
Definition emax : Z := 1024.

(** The binary64 nearest to an integer, ties to even. *)
Definition float_of_int (z : Z) : spec_float := binary_normalize prec emax z 0 false.

(** Exact comparison of an integer with a float; [None] for nan. *)
Definition compare_int_float (z : Z) (f : spec_float) : option comparison :=
  match f with
  | S754_nan => None
  | S754_infinity s => Some (if s then Gt else Lt)
  | S754_zero _ => Some (z ?= 0)
  | S754_finite s m e =>
      let n := if s then Z.neg m else Z.pos m in
      Some (if 0 <=? e then z ?= n * 2 ^ e else z * 2 ^ (- e) ?= n)
  end.

(** The numeric tower: [bool] is a subclass of [int]. *)
Definition as_int (v : pyval) : option Z :=
  match v with VBool b => Some (if b then 1 else 0) | VInt z => Some z | _ => None end.

Definition num_compare (a b : pyval) : option (option comparison) :=
  match as_int a, as_int b, a, b with
  | Some x, Some y, _, _ => Some (Some (x ?= y))
  | Some x, None, _, VFloat f => Some (compare_int_float x f)
  | None, Some y, VFloat f, _ => Some (CompOpp <$> compare_int_float y f)
  | None, None, VFloat f, VFloat g => Some (SFcompare f g)
  | _, _, _, _ => None
  end.

(** ** Equality *)

Fixpoint dget (k : string) (d : dict) : option pyval :=
  match d with
  | [] => None
  | (k', v) :: d' => if String.eqb k' k then Some v else dget k d'
  end.

Fixpoint py_eq (a b : pyval) {struct a} : bool :=
  match a, b with
  | VNone, VNone => true
  | VStr s, VStr t => String.eqb s t
  | VList l, VList m =>
      (fix go l m := match l, m with
                     | [], [] => true
                     | x :: l', y :: m' => (py_eq x y && go l' m')%bool
                     | _, _ => false
                     end) l m
  | VDict d, VDict e =>
      ((length d =? length e)%nat
       && (fix go d := match d with
                       | [] => true
                       | (k, x) :: d' => match dget k e with
                                         | Some y => (py_eq x y && go d')%bool
                                         | None => false
                                         end
                       end) d)%bool
  | _, _ => match num_compare a b with Some (Some Eq) => true | _ => false end
  end.

(** [v in l]. *)
Definition py_in (v : pyval) (l : list pyval) : bool := existsb (py_eq v) l.

(** ** Ordering *)

(** [a < b], or [TypeError]. *)
Fixpoint py_lt (a b : pyval) {struct a} : res py_exn bool :=
  match a, b with
  | VStr s, VStr t => Ok (match String.compare s t with Lt => true | _ => false end)
  | VList l, VList m =>
      (fix go l m := match l, m with
                     | _, [] => Ok false
                     | [], _ :: _ => Ok true
                     | x :: l', y :: m' => if py_eq x y then go l' m' else py_lt x y
                     end) l m
  | _, _ => match num_compare a b with
            | Some c => Ok (match c with Some Lt => true | _ => false end)
            | None => raise TypeErrorExn
            end
  end.

(** ** Dicts *)

Definition keys (d : dict) : list string := d.*1.

Definition wf_dict (d : dict) : Prop := NoDup (keys d).

(** [k in d]. *)
Definition dhas (k : string) (d : dict) : bool := match dget k d with Some _ => true | None => false end.

(** [d.get(k)]. *)
Definition dget_or_none (k : string) (d : dict) : pyval := default VNone (dget k d).

(** [d[k] = v]: in place when the key exists, appended otherwise. *)
Fixpoint dset (k : string) (v : pyval) (d : dict) : dict :=
  match d with
  | [] => [(k, v)]
  | (k', v') :: d' => if String.eqb k' k then (k', v) :: d' else (k', v') :: dset k v d'
  end.

(** [del d[k]] / [d.pop(k, None)]. *)
Definition ddel (k : string) (d : dict) : dict := List.filter (fun kv => negb (String.eqb kv.1 k)) d.

(** [d.update(e)]. *)
Definition dupdate (d e : dict) : dict := fold_left (fun acc kv => dset kv.1 kv.2 acc) e d.

(** [isinstance(v, dict)] and the like. *)
Definition is_dict (v : pyval) : option dict := match v with VDict d => Some d | _ => None end.
Definition is_list (v : pyval) : option (list pyval) := match v with VList l => Some l | _ => None end.

(** ** Laws of dicts *)

Lemma dget_dset_eq k v d : dget k (dset k v d) = Some v.
Proof.
  induction d as [|[k' v'] d IH]; simpl; [by rewrite String.eqb_refl|].
  destruct (String.eqb k' k) eqn:E; simpl; by rewrite E.
Qed.

Lemma dget_dset_ne k k' v d : k' <> k -> dget k (dset k' v d) = dget k d.
Proof.
  intros Hne. assert (String.eqb k' k = false) as Hf by by apply String.eqb_neq.
  induction d as [|[k0 v0] d IH]; simpl; [by rewrite Hf|].
  destruct (String.eqb k0 k') eqn:E; simpl.
  - apply String.eqb_eq in E. subst. by rewrite Hf.
  - by rewrite IH.
Qed.

Lemma dget_ddel_eq k d : dget k (ddel k d) = None.
Proof.
  induction d as [|[k' v'] d IH]; simpl; [done|].
  destruct (String.eqb k' k) eqn:E; simpl; [done|]. by rewrite E.
Qed.

Lemma dget_ddel_ne k k' d : k' <> k -> dget k (ddel k' d) = dget k d.
Proof.
  intros Hne. induction d as [|[k0 v0] d IH]; simpl; [done|].
  destruct (String.eqb k0 k') eqn:E; simpl; [|by rewrite IH].
  apply String.eqb_eq in E. subst. rewrite (proj2 (String.eqb_neq _ _)) by done. done.
Qed.

Lemma dget_None k d : dget k d = None <-> k ∉ keys d.
Proof.
  induction d as [|[k' v'] d IH]; simpl; [split; [intros _; apply not_elem_of_nil|done]|].
  rewrite not_elem_of_cons. destruct (String.eqb k' k) eqn:E.
  - apply String.eqb_eq in E. subst. split; [done|]. by intros [].
  - apply String.eqb_neq in E. rewrite IH. naive_solver.
Qed.

Lemma dget_Some_elem k v d : dget k d = Some v -> (k, v) ∈ d.
Proof.
  induction d as [|[k' v'] d IH]; simpl; [done|].
  destruct (String.eqb k' k) eqn:E; [|right; auto].
  apply String.eqb_eq in E. intros ?; inv_eq. by left.
Qed.

Lemma elem_dget k v d : wf_dict d -> (k, v) ∈ d -> dget k d = Some v.
Proof.
  unfold wf_dict, keys. induction d as [|[k' v'] d IH]; simpl; intros Hw Hin; [by apply elem_of_nil in Hin|].
  apply NoDup_cons in Hw as [Hn Hw]. apply elem_of_cons in Hin as [?|Hin]; [inv_eq; by rewrite String.eqb_refl|].
  destruct (String.eqb k' k) eqn:E; [|auto]. apply String.eqb_eq in E. subst k'. exfalso. apply Hn.
  apply list_elem_of_fmap. by exists (k, v).
Qed.

Lemma dhas_true k d : dhas k d = true <-> is_Some (dget k d).
Proof. unfold dhas. destruct (dget k d); naive_solver. Qed.

Lemma keys_dset k v d : keys (dset k v d) = if dhas k d then keys d else keys d ++ [k].
Proof.
  induction d as [|[k' v'] d IH]; simpl; [done|]. unfold dhas in *. simpl.
  destruct (String.eqb k' k) eqn:E; simpl; [done|]. rewrite IH. by destruct (dget k d).
Qed.

Lemma wf_dset k v d : wf_dict d -> wf_dict (dset k v d).
Proof.
  unfold wf_dict. rewrite keys_dset. unfold dhas. destruct (dget k d) eqn:E; [done|].
  intros Hd. apply NoDup_app. split_and!; [done| |apply NoDup_singleton].
  intros x Hx Hk. apply list_elem_of_singleton in Hk. subst. by apply dget_None in E.
Qed.

Lemma ddel_keys k d : keys (ddel k d) = List.filter (fun k' => negb (String.eqb k' k)) (keys d).
Proof. induction d as [|[k' v'] d IH]; simpl; [done|]. destruct (String.eqb k' k); simpl; by rewrite IH. Qed.

Lemma wf_ddel k d : wf_dict d -> wf_dict (ddel k d).
Proof.
  unfold wf_dict. rewrite ddel_keys. intros H. apply NoDup_ListNoDup, List.NoDup_filter. by apply NoDup_ListNoDup.
Qed.

Lemma wf_dupdate d e : wf_dict d -> wf_dict (dupdate d e).
Proof. revert d; induction e as [|kv e IH]; intros d Hd; simpl; [done|]. apply IH. by apply wf_dset. Qed.

Lemma dget_dupdate_notin k d e : k ∉ keys e -> dget k (dupdate d e) = dget k d.
Proof.
  revert d; induction e as [|[k' v'] e IH]; intros d Hk; simpl; [done|]. simpl in Hk.
  apply not_elem_of_cons in Hk as [? ?]. rewrite IH by done. by apply dget_dset_ne.
Qed.

Lemma dget_dupdate d e k : wf_dict e -> dget k (dupdate d e) = match dget k e with Some v => Some v | None => dget k d end.
Proof.
  revert d; induction e as [|[k' v'] e IH]; intros d Hw; simpl; [done|].
  unfold wf_dict in Hw. simpl in Hw. apply NoDup_cons in Hw as [Hn Hw].
  rewrite IH by done. destruct (String.eqb k' k) eqn:E.
  - apply String.eqb_eq in E. subst. rewrite (proj2 (dget_None _ _)) by done. by rewrite dget_dset_eq.
  - apply String.eqb_neq in E. destruct (dget k e); [done|]. by apply dget_dset_ne.
Qed.

#[export] Hint Resolve wf_dset wf_ddel wf_dupdate : tram.

End PyVal.
