(* ===== verification/Paths.v ===== *)
(** * Dotted paths into records

    transforms/path_utils.py and transforms/path_patterns.py.  The mutating
    helpers return the updated record; a path that raises leaves the record as
    it was, since [set_path] meets a non-dict only before it created anything. *)

From Stdlib Require Import ZArith Lia Ascii String SpecFloat.
From stdpp Require Import base tactics list strings gmap option.
From S2P Require Import Prelude PyStr PyVal.
Import stdpp.list.

#[local] Open Scope Z_scope.
#[local] Open Scope list_scope.

Module Paths.
Import PyVal.

Definition dot : ascii := "."%char.

(** ** Definitions *)

Fixpoint get_tokens (ts : list string) (cur : pyval) : bool * pyval :=
  match ts with
  | [] => (true, cur)
  | t :: ts' =>
      match cur with
      | VDict d => match dget t d with
                   | Some v => get_tokens ts' v
                   | None => (false, VNone)
                   end
      | _ => (false, VNone)
      end
  end.

Definition get_path (record : dict) (path : string) : bool * pyval :=
  if negb (has_char dot path) then (dhas path record, dget_or_none path record)
  else get_tokens (split_on dot path) (VDict record).

(** The loop of [set_path] over [tokens[:-1]] and its final store. *)
Fixpoint set_tokens (create_missing : bool) (ts : list string) (v : pyval) (cur : dict) : res py_exn dict :=
  match ts with
  | [] => Ok cur
  | [t] => Ok (dset t v cur)
  | t :: ts' =>
      match dget t cur with
      | None =>
          if create_missing then
            let? d' := set_tokens create_missing ts' v [] in Ok (dset t (VDict d') cur)
          else raise TransformError
      | Some (VDict d) => let? d' := set_tokens create_missing ts' v d in Ok (dset t (VDict d') cur)
      | Some _ => raise TransformError
      end
  end.

Definition set_path (record : dict) (path : string) (v : pyval) (create_missing : bool) : res py_exn dict :=
  if negb (has_char dot path) then Ok (dset path v record)
  else set_tokens create_missing (split_on dot path) v record.

Fixpoint delete_tokens (ts : list string) (cur : dict) : bool * dict :=
  match ts with
  | [] => (false, cur)
  | [t] => if dhas t cur then (true, ddel t cur) else (false, cur)
  | t :: ts' =>
      match dget t cur with
      | Some (VDict d) =>
          let '(b, d') := delete_tokens ts' d in
          if b then (true, dset t (VDict d') cur) else (false, cur)
      | _ => (false, cur)
      end
  end.

Definition delete_path (record : dict) (path : string) : bool * dict :=
  if negb (has_char dot path) then
    if dhas path record then (true, ddel path record) else (false, record)
  else delete_tokens (split_on dot path) record.

Definition rename_path (record : dict) (old_path new_path : string) : res py_exn (bool * dict) :=
  let '(found, v) := get_path record old_path in
  if negb found then Ok (false, record)
  else if String.eqb old_path new_path then Ok (true, record)
  else
    let? r1 := set_path record new_path v true in
    Ok (true, (delete_path r1 old_path).2).

Definition has_path_pattern (path : string) : bool := existsb (String.eqb "*") (split_on dot path).

Definition path_matches_pattern (path pattern : string) : bool :=
  let ps := split_on dot path in
  let qs := split_on dot pattern in
  if negb (length ps =? length qs)%nat then false
  else forallb (fun pq => (String.eqb pq.2 "*" || String.eqb pq.2 pq.1)%bool) (combine ps qs).

(** ** The shortcut for paths without a dot *)

Lemma split_no_dot p : has_char dot p = false -> split_on dot p = [p].
Proof. apply split_on_none. Qed.

Lemma get_path_tokens r p : get_path r p = get_tokens (split_on dot p) (VDict r).
Proof.
  unfold get_path. destruct (has_char dot p) eqn:E; [done|]. rewrite split_no_dot by done. simpl.
  unfold dhas, dget_or_none. by destruct (dget p r).
Qed.

Lemma set_path_tokens r p v c : set_path r p v c = set_tokens c (split_on dot p) v r.
Proof.
  unfold set_path. destruct (has_char dot p) eqn:E; [done|]. by rewrite split_no_dot by done.
Qed.

Lemma delete_path_tokens r p : delete_path r p = delete_tokens (split_on dot p) r.
Proof.
  unfold delete_path. destruct (has_char dot p) eqn:E; [done|]. by rewrite split_no_dot by done.
Qed.

(** ** Laws on token lists *)

(** Neither path leads through the other. *)
Definition unrelated (ts us : list string) : Prop := ~ ts `prefix_of` us /\ ~ us `prefix_of` ts.

Lemma unrelated_nil_l us : ~ unrelated [] us.
Proof. intros [H _]. apply H, prefix_nil. Qed.

Lemma unrelated_nil_r ts : ~ unrelated ts [].
Proof. intros [_ H]. apply H, prefix_nil. Qed.

Lemma unrelated_cons t ts us : unrelated (t :: ts) (t :: us) <-> unrelated ts us.
Proof.
  unfold unrelated. split; intros [H1 H2]; split; intros H.
  - apply H1. by apply prefix_cons.
  - apply H2. by apply prefix_cons.
  - apply H1. by apply prefix_cons_inv_2 in H.
  - apply H2. by apply prefix_cons_inv_2 in H.
Qed.

Lemma unrelated_sym ts us : unrelated ts us -> unrelated us ts.
Proof. by intros []. Qed.

Lemma delete_tokens_eq t ts d :
  ts <> [] -> delete_tokens (t :: ts) d
  = match dget t d with
    | Some (VDict d0) =>
        let '(b, d') := delete_tokens ts d0 in if b then (true, dset t (VDict d') d) else (false, d)
    | _ => (false, d)
    end.
Proof. by destruct ts. Qed.

Lemma get_tokens_eq t ts d :
  get_tokens (t :: ts) (VDict d) = match dget t d with Some w => get_tokens ts w | None => (false, VNone) end.
Proof. done. Qed.

(** The cases of [set_tokens] on two tokens or more. *)
Lemma set_tokens_cons c t ts v d d' :
  ts <> [] -> set_tokens c (t :: ts) v d = Ok d' ->
  exists d0 d1, set_tokens c ts v d0 = Ok d1 /\ d' = dset t (VDict d1) d /\
    (dget t d = Some (VDict d0) \/ (dget t d = None /\ d0 = [])).
Proof.
  intros Hne H. destruct ts as [|t2 ts]; [done|]. cbn [set_tokens] in H.
  destruct (dget t d) as [w|] eqn:E.
  - destruct w; try discriminate H. apply res_bind_ok in H as (d1 & H1 & H).
    injection H as <-. exists d0, d1. auto.
  - destruct c; [|discriminate H]. apply res_bind_ok in H as (d1 & H1 & H). injection H as <-.
    exists [], d1. auto.
Qed.

Lemma get_set_same c ts v d d' :
  ts <> [] -> set_tokens c ts v d = Ok d' -> get_tokens ts (VDict d') = (true, v).
Proof.
  revert d d'; induction ts as [|t ts IH]; intros d d' Hne H; [done|].
  destruct ts as [|t2 ts].
  - injection H as <-. simpl. by rewrite dget_dset_eq.
  - apply set_tokens_cons in H as (d0 & d1 & H1 & -> & _); [|done].
    rewrite get_tokens_eq, dget_dset_eq. by apply (IH d0).
Qed.

Lemma get_set_other c ts us v d d' :
  unrelated ts us -> set_tokens c ts v d = Ok d' -> get_tokens us (VDict d') = get_tokens us (VDict d).
Proof.
  revert us d d'; induction ts as [|t ts IH]; intros us d d' Hu H; [by apply unrelated_nil_l in Hu|].
  destruct us as [|u us]; [by apply unrelated_nil_r in Hu|]. simpl (get_tokens (u :: us) _).
  destruct (decide (t = u)) as [->|Hne].
  - apply (proj1 (unrelated_cons u ts us)) in Hu.
    destruct ts as [|t2 ts]; [by apply unrelated_nil_l in Hu|].
    apply set_tokens_cons in H as (d0 & d1 & H1 & -> & Hd); [|done].
    rewrite dget_dset_eq, (IH us d0 d1 Hu H1).
    destruct Hd as [->|[-> ->]]; [done|]. by destruct us; [apply unrelated_nil_r in Hu|].
  - assert (exists w, d' = dset t w d) as [w ->].
    { destruct ts as [|t2 ts]; [injection H as <-; eauto|].
      apply set_tokens_cons in H as (d0 & d1 & _ & -> & _); eauto. }
    by rewrite dget_dset_ne.
Qed.

(** [delete_tokens] answers what [get_tokens] answers, and changes nothing
    when the path is absent. *)
Lemma delete_tokens_found ts d :
  ts <> [] -> (delete_tokens ts d).1 = (get_tokens ts (VDict d)).1 /\
  ((delete_tokens ts d).1 = false -> (delete_tokens ts d).2 = d).
Proof.
  revert d; induction ts as [|t ts IH]; intros d Hne; [done|]. destruct ts as [|t2 ts].
  - simpl. unfold dhas. by destruct (dget t d).
  - rewrite delete_tokens_eq, get_tokens_eq by done.
    destruct (dget t d) as [w|]; [|done]. destruct w; try done.
    destruct (IH d0 ltac:(done)) as [H1 H2]. destruct (delete_tokens (t2 :: ts) d0) as [b d1].
    cbn [fst snd] in H1, H2. rewrite <- H1. by destruct b.
Qed.

Lemma delete_tokens_cons t ts d d' :
  ts <> [] -> delete_tokens (t :: ts) d = (true, d') ->
  exists d0 d1, dget t d = Some (VDict d0) /\ delete_tokens ts d0 = (true, d1) /\ d' = dset t (VDict d1) d.
Proof.
  intros Hne H. rewrite delete_tokens_eq in H by done.
  destruct (dget t d) as [w|] eqn:E; [|done]. destruct w; try done.
  destruct (delete_tokens ts d0) as [[] d1] eqn:Ed; [|done]. injection H as <-. eauto.
Qed.

Lemma delete_tokens_gone ts d d' :
  ts <> [] -> delete_tokens ts d = (true, d') -> get_tokens ts (VDict d') = (false, VNone).
Proof.
  revert d d'; induction ts as [|t ts IH]; intros d d' Hne H; [done|]. destruct ts as [|t2 ts].
  - simpl in H. destruct (dhas t d); [|done]. injection H as <-. simpl. by rewrite dget_ddel_eq.
  - apply delete_tokens_cons in H as (d0 & d1 & _ & H1 & ->); [|done].
    rewrite get_tokens_eq, dget_dset_eq. by apply (IH d0).
Qed.

Lemma delete_tokens_other ts us d :
  unrelated ts us -> get_tokens us (VDict (delete_tokens ts d).2) = get_tokens us (VDict d).
Proof.
  revert us d; induction ts as [|t ts IH]; intros us d Hu; [done|].
  destruct us as [|u us]; [by apply unrelated_nil_r in Hu|].
  destruct (delete_tokens (t :: ts) d) as [b d'] eqn:E. simpl.
  destruct b.
  2:{ destruct (delete_tokens_found (t :: ts) d ltac:(done)) as [_ H]. rewrite E in H. simpl in H.
      by rewrite H. }
  destruct ts as [|t2 ts].
  - simpl in E. destruct (dhas t d); [|done]. injection E as <-.
    destruct (decide (t = u)) as [->|Hne]; [|by rewrite dget_ddel_ne].
    apply (proj1 (unrelated_cons u [] us)) in Hu. by apply unrelated_nil_l in Hu.
  - apply delete_tokens_cons in E as (d0 & d1 & Hd & H1 & ->); [|done].
    destruct (decide (t = u)) as [->|Hne]; [|by rewrite dget_dset_ne].
    apply (proj1 (unrelated_cons u (t2 :: ts) us)) in Hu. rewrite dget_dset_eq, Hd.
    pose proof (IH us d0 Hu) as H. by rewrite H1 in H.
Qed.

(** ** Laws on paths *)

(** Two dotted paths that do not lead through each other. *)
Definition apart (p q : string) : Prop := unrelated (split_on dot p) (split_on dot q).

(** A stored path reads back, and only it changed.  Whenever [set_path]
    succeeds, [get_path] finds exactly the stored value there, and every path
    that neither leads to it nor starts from it reads as before. *)
Theorem set_path_get r p v create r' q :
  set_path r p v create = Ok r' ->
  get_path r' p = (true, v) /\ (apart p q -> get_path r' q = get_path r q).
Proof.
  rewrite set_path_tokens, !get_path_tokens. intros H. split.
  - by eapply get_set_same; [apply split_on_ne|].
  - intros Ha. by eapply get_set_other.
Qed.

(** A deleted path is gone, and only it.  [delete_path] answers true
    exactly when the path was found; then it is no longer found and every
    path apart from it reads as before, and when it answers false the record
    is unchanged. *)
Theorem delete_path_get r p q :
  let '(b, r') := delete_path r p in
  b = (get_path r p).1 /\ (b = false -> r' = r) /\ (b = true -> get_path r' p = (false, VNone)) /\
  (apart p q -> get_path r' q = get_path r q).
Proof.
  destruct (delete_path r p) as [b r'] eqn:E. rewrite delete_path_tokens in E. rewrite !get_path_tokens.
  destruct (delete_tokens_found (split_on dot p) r (split_on_ne dot p)) as [H1 H2].
  pose proof (delete_tokens_other (split_on dot p) (split_on dot q) r) as H3.
  rewrite E in H1, H2, H3. simpl in *. split_and!; [done|done| |done].
  intros ->. eapply delete_tokens_gone; [apply split_on_ne|done].
Qed.

(** Renaming moves the value.  When the source is found and the two paths
    do not lead through each other, a successful [rename_path] makes the new
    path read the old value, the old path absent, and leaves every path apart
    from both as it was. *)
Theorem rename_path_moves r old new r' q :
  rename_path r old new = Ok (true, r') -> apart old new ->
  get_path r' new = (true, (get_path r old).2) /\ get_path r' old = (false, VNone) /\
  (apart old q -> apart new q -> get_path r' q = get_path r q).
Proof.
  unfold rename_path. intros H Ha. destruct (get_path r old) as [[] v] eqn:Eg; [|done]. simpl in H.
  assert (String.eqb old new = false) as E.
  { apply String.eqb_neq. intros ->. destruct Ha as [Hp _]. by apply Hp. }
  rewrite E in H. apply res_bind_ok in H as (r1 & H1 & H). injection H as <-.
  rewrite set_path_tokens in H1. rewrite delete_path_tokens, !get_path_tokens in *.
  assert (get_tokens (split_on dot old) (VDict r1) = (true, v)) as Ho.
  { rewrite <- Eg. eapply get_set_other; [by apply unrelated_sym|done]. }
  destruct (delete_tokens_found (split_on dot old) r1 (split_on_ne dot old)) as [Hf _].
  rewrite Ho in Hf. simpl in Hf. split_and!.
  - rewrite delete_tokens_other by done. eapply get_set_same; [apply split_on_ne|done].
  - destruct (delete_tokens (split_on dot old) r1) as [b d1] eqn:Ed. simpl in Hf. subst b.
    eapply delete_tokens_gone; [apply split_on_ne|done].
  - intros Hoq Hnq. rewrite delete_tokens_other by done. by eapply get_set_other.
Qed.

(** Renaming a nested field onto its own parent loses data.  For
    [{p: {c: D}}], renaming [p.c] to [p] first stores [D] at [p] and then
    deletes [p.c], which by then is a field of [D] itself: a member [c] of the
    moved dict is lost. *)
Theorem rename_onto_parent_drops_member p c D rest :
  has_char dot p = false -> has_char dot c = false ->
  rename_path ((p, VDict [(c, VDict D)]) :: rest) (p ++ String dot c) p
  = Ok (true, (p, VDict (if dhas c D then ddel c D else D)) :: rest).
Proof.
  intros Hp Hc. assert (split_on dot (p ++ String dot c) = [p; c]) as Hs.
  { rewrite split_on_app, (split_on_none dot c) by done. done. }
  assert (String.eqb (p ++ String dot c) p = false) as Hne.
  { apply String.eqb_neq. intros H. rewrite H, split_no_dot in Hs by done. done. }
  unfold rename_path. rewrite get_path_tokens, Hs. simpl. rewrite String.eqb_refl. simpl.
  rewrite String.eqb_refl. simpl. rewrite Hne, set_path_tokens, split_no_dot by done. simpl.
  rewrite String.eqb_refl. cbn [res_bind]. rewrite delete_path_tokens, Hs. cbn [delete_tokens dget].
  rewrite String.eqb_refl. destruct (dhas c D) eqn:E; simpl; by rewrite ?String.eqb_refl.
Qed.

(** ** Concrete records *)

Definition demo_record : dict :=
  [("host", VStr "r1"); ("ports", VDict [("eth0", VInt 7); ("eth1", VNone)])]%string.

Lemma set_path_get_witness :
  exists r', set_path demo_record "ports.eth1" (VInt 9) true = Ok r' /\
    get_path r' "ports.eth1" = (true, VInt 9) /\ get_path r' "ports.eth0" = get_path demo_record "ports.eth0".
Proof.
  eexists. split; [vm_compute; reflexivity|].
  edestruct (set_path_get demo_record "ports.eth1" (VInt 9) true) as [H1 H2].
  - vm_compute. reflexivity.
  - split; [exact H1|]. apply H2. unfold apart, unrelated. split; apply (bool_decide_unpack _); vm_compute; exact I.
Defined.

Lemma delete_path_get_witness :
  let '(b, r') := delete_path demo_record "ports.eth0" in
  b = true /\ get_path r' "host" = get_path demo_record "host".
Proof.
  pose proof (delete_path_get demo_record "ports.eth0" "host") as H.
  destruct (delete_path demo_record "ports.eth0") as [b r'] eqn:E. destruct H as (H1 & _ & _ & H4).
  split; [exact H1|]. apply H4. unfold apart, unrelated.
  split; apply (bool_decide_unpack _); vm_compute; exact I.
Defined.

Lemma rename_path_moves_witness :
  exists r', rename_path demo_record "ports.eth0" "port" = Ok (true, r') /\
    get_path r' "port" = (true, VInt 7) /\ get_path r' "ports.eth0" = (false, VNone).
Proof.
  eexists. split; [vm_compute; reflexivity|].
  edestruct (fun r' => rename_path_moves demo_record "ports.eth0" "port" r' "host") as (H1 & H2 & _).
  - vm_compute. reflexivity.
  - unfold apart, unrelated. split; apply (bool_decide_unpack _); vm_compute; exact I.
  - split; [exact H1|exact H2].
Defined.

Lemma rename_onto_parent_drops_member_witness :
  rename_path [("a", VDict [("b", VDict [("b", VInt 1); ("c", VInt 2)])])]%string "a.b" "a"
  = Ok (true, [("a", VDict [("c", VInt 2)])]%string).
Proof.
  apply (rename_onto_parent_drops_member "a" "b" [("b", VInt 1); ("c", VInt 2)]%string []).
  - reflexivity.
  - reflexivity.
Defined.

End Paths.
