(* ===== verification/Transforms.v ===== *)
(** * Record transforms

    The batch transforms of tram/transforms/ that reshape records: each Module
    holds the transform's configuration after [__init__] (with the checks
    [__init__] makes) and its [apply].  Records are values: the copies the
    code takes before it mutates make [apply] a function of its input.

    [str(v)] of a float or a container is Python's [repr]; it is the parameter
    [PyText]. *)

From Stdlib Require Import ZArith Lia Ascii String SpecFloat.
From stdpp Require Import base tactics list strings gmap option.
From S2P Require Import Prelude PyStr Sha256 PyVal Paths.
Import stdpp.list.

#[local] Open Scope Z_scope.
#[local] Open Scope list_scope.

Module Transforms.
Import PyVal Paths.

(** [str(v)]; floats and containers print as Python prints them. *)
Class PyText := { repr_text : pyval -> string }.

Definition py_text `{!PyText} (v : pyval) : string :=
  match v with
  | VNone => "None"
  | VBool b => if b then "True" else "False"
  | VInt z => py_str z
  | VStr s => s
  | VFloat _ | VList _ | VDict _ => repr_text v
  end.

(** Apply to each record, stopping at the first that raises. *)
Definition each (f : dict -> res py_exn dict) (records : list dict) : res py_exn (list dict) :=
  res_mapM f records.

(** One record to many rows. *)
Definition each_rows (f : dict -> res py_exn (list dict)) (records : list dict) : res py_exn (list dict) :=
  let? rows := res_mapM f records in Ok (mjoin rows).

(** ** rename *)
Module Rename.

Definition overlaps (a b : string) : bool :=
  (starts_with (b ++ ".") a || starts_with (a ++ ".") b)%bool.

Fixpoint any_overlap (sources : list string) : bool :=
  match sources with
  | [] => false
  | s :: rest => (existsb (overlaps s) rest || any_overlap rest)%bool
  end.

(** [fields], in order, when [__init__] accepts them. *)
Definition init_rename (fields : list (string * string)) : res py_exn (list (string * string)) :=
  if any_overlap fields.*1 then raise TransformError else Ok fields.

Definition apply_rename (fields : list (string * string)) : list dict -> res py_exn (list dict) :=
  each (fun r => res_foldM (fun r (on : string * string) =>
    let? br := rename_path r on.1 on.2 in Ok br.2) fields r).

End Rename.

(** ** drop *)
Module Drop.

(** A list of fields, or a mapping of fields to the values to drop. *)
Record config_drop := mkConfig { fields : list string; conditional_fields : list (string * list pyval) }.

Definition apply_drop (c : config_drop) (records : list dict) : list dict :=
  map (fun r =>
    let r1 := fold_left (fun r f => (delete_path r f).2) (fields c) r in
    fold_left (fun r (fv : string * list pyval) =>
      let '(found, v) := get_path r fv.1 in
      if (found && py_in v fv.2)%bool then (delete_path r fv.1).2 else r)
      (conditional_fields c) r1) records.

End Drop.

(** ** value_map *)
Module ValueMap.
Section value_map.
Context `{!PyText}.

(** [mapping] has its keys already as [str(k)]; [default] is absent or given. *)
Record config_value_map := mkConfig { field : string; mapping : dict; dflt : option pyval }.

Definition apply_value_map (c : config_value_map) : list dict -> res py_exn (list dict) :=
  each (fun r =>
    let '(found, v) := get_path r (field c) in
    if negb found then Ok r
    else match dget (py_text v) (mapping c) with
         | Some w => set_path r (field c) w true
         | None => match dflt c with
                   | Some w => set_path r (field c) w true
                   | None => Ok r
                   end
         end).
End value_map.
End ValueMap.

(** ** limit *)
Module Limit.

(** [int(count)] for the values a config holds. *)
Definition int_of (v : pyval) : option Z :=
  match v with
  | VInt z => Some z
  | VBool b => Some (if b then 1 else 0)
  | VStr s => py_int s
  | VFloat (S754_zero _) => Some 0
  | VFloat (S754_finite s m e) =>
      let n := if 0 <=? e then Z.pos m * 2 ^ e else Z.pos m / 2 ^ (- e) in
      Some (if s then - n else n)
  | _ => None
  end.

(** [None] is a missing [count]; the [OverflowError] of an infinite float is
    not turned into a [TransformError]. *)
Definition init_limit (count : option pyval) : res py_exn Z :=
  match count with
  | None | Some VNone => raise TransformError
  | Some (VFloat (S754_infinity _)) => raise OverflowErrorExn
  | Some v => match int_of v with
              | Some n => if n <=? 0 then raise TransformError else Ok n
              | None => raise TransformError
              end
  end.

Definition apply_limit (count : Z) (records : list dict) : list dict := take (Z.to_nat count) records.

End Limit.

(** ** deduplicate *)
Module Deduplicate.

Inductive keep := First | Last.

#[global] Instance keep_eq_dec : EqDecision keep.
Proof. solve_decision. Defined.

(** A tuple key is hashable when its members are. *)
Definition hashable (v : pyval) : bool := match v with VList _ | VDict _ => false | _ => true end.

Definition key (fields : list string) (r : dict) : list pyval := (fun f => dget_or_none f r) <$> fields.

Definition key_eq (k1 k2 : list pyval) : bool := py_eq (VList k1) (VList k2).

(** The dict [seen]: key to index, one entry per key. *)
Fixpoint seen_set (k : list pyval) (i : nat) (seen : list (list pyval * nat)) : list (list pyval * nat) :=
  match seen with
  | [] => [(k, i)]
  | (k', i') :: rest => if key_eq k' k then (k', i) :: rest else (k', i') :: seen_set k i rest
  end.

Definition seen_has (k : list pyval) (seen : list (list pyval * nat)) : bool :=
  existsb (fun e => key_eq e.1 k) seen.

Fixpoint scan (fields : list string) (kp : keep) (i : nat) (records : list dict)
  (seen : list (list pyval * nat)) : res py_exn (list (list pyval * nat)) :=
  match records with
  | [] => Ok seen
  | r :: rs =>
      let k := key fields r in
      if negb (forallb hashable k) then raise TypeErrorExn
      else
        let seen' := match kp with
                     | First => if seen_has k seen then seen else seen_set k i seen
                     | Last => seen_set k i seen
                     end in
        scan fields kp (S i) rs seen'
  end.

Definition apply_deduplicate (fields : list string) (kp : keep) (records : list dict) : res py_exn (list dict) :=
  let? seen := scan fields kp 0 records [] in
  let kept := seen.*2 in
  Ok (snd <$> List.filter (fun ir => bool_decide (ir.1 ∈ kept)) (imap pair records)).

End Deduplicate.

(** ** coalesce_fields *)
Module Coalesce.

Record rule_coalesce := mkRule { default_value : pyval; empty_values : list pyval; sources : list string }.

(** Without an [empty_values] entry the rule uses [[None, ""]]. *)
Definition default_empty : list pyval := [VNone; VStr ""].

Fixpoint choose (r : dict) (empty : list pyval) (srcs : list string) (dflt : pyval) : pyval :=
  match srcs with
  | [] => dflt
  | s :: rest =>
      let '(found, v) := get_path r s in
      if (found && negb (py_in v empty))%bool then v else choose r empty rest dflt
  end.

Definition apply_coalesce (fields : list (string * rule_coalesce)) (records : list dict) : list dict :=
  map (fun r => fold_left (fun r (fr : string * rule_coalesce) =>
    dset fr.1 (choose r (empty_values fr.2) (sources fr.2) (default_value fr.2)) r) fields r) records.

End Coalesce.

(** ** project *)
Module Project.

Inductive rule_project :=
| Path (source : string)
| Rule (source : option string) (source_any : list string) (dflt : option pyval) (required : bool).

Definition init_project (fields : list (string * rule_project)) : res py_exn (list (string * rule_project)) :=
  match fields with [] => raise TransformError | _ => Ok fields end.

Fixpoint first_found (r : dict) (sources : list string) : option pyval :=
  match sources with
  | [] => None
  | s :: rest => let '(found, v) := get_path r s in if found then Some v else first_found r rest
  end.

Definition _resolve_rule (r : dict) (ru : rule_project) : res py_exn pyval :=
  match ru with
  | Path s => let '(found, v) := get_path r s in Ok (if found then v else VNone)
  | Rule src any dflt required =>
      match first_found r (match src with Some s => [s] | None => any end) with
      | Some v => Ok v
      | None => match dflt with
                | Some w => Ok w
                | None => if required then raise TransformError else Ok VNone
                end
      end
  end.

Definition apply_project (fields : list (string * rule_project)) : list dict -> res py_exn (list dict) :=
  each (fun r => res_foldM (fun out (fr : string * rule_project) =>
    let? v := _resolve_rule r fr.2 in Ok (dset fr.1 v out)) fields []).

End Project.

(** ** select_from_list *)
Module SelectFromList.

Record selection := mkSelection {
  first_item : bool;
  match_fields : dict;
  output : list (string * string);
}.

Record config_select_from_list := mkConfig { field : string; select : list selection; raise_no_match : bool }.

Definition _matches (item : pyval) (expected : dict) : bool :=
  match item with
  | VDict d => forallb (fun kv => py_eq (dget_or_none kv.1 d) kv.2) expected
  | _ => false
  end.

(** [None] both for "no item" and for an item that is [None] itself. *)
Definition _pick_item (items : list pyval) (sel : selection) : pyval :=
  if first_item sel then default VNone (head items)
  else default VNone (List.find (fun it => _matches it (match_fields sel)) items).

Definition _project (item : pyval) (source_path : string) : pyval :=
  match item with
  | VDict d => let '(found, v) := get_path d source_path in if found then v else VNone
  | _ => VNone
  end.

Definition select_one (c : config_select_from_list) (items : option (list pyval)) (r : dict) (sel : selection) : res py_exn dict :=
  match (match items with Some l => _pick_item l sel | None => VNone end) with
  | VNone =>
      if raise_no_match c then raise TransformError
      else Ok (fold_left (fun r so => dset so.2 VNone r) (output sel) r)
  | item => Ok (fold_left (fun r so => dset so.2 (_project item so.1) r) (output sel) r)
  end.

Definition apply_select_from_list (c : config_select_from_list) : list dict -> res py_exn (list dict) :=
  each (fun r =>
    let items := match get_path r (field c) with (true, VList l) => Some l | _ => None end in
    res_foldM (select_one c items) (select c) r).

End SelectFromList.

(** ** flatten *)
Module Flatten.

(** [f"{prefix}{separator}{key}" if prefix else key]. *)
Definition join_key (sep prefix key : string) : string :=
  if String.eqb prefix "" then key else (prefix ++ sep ++ key)%string.

Section flatten.
Context (sep : string) (max_depth : Z).

(** The value to merge at [new_key], as the items of the dict it adds. *)
Fixpoint _flatten_value (v : pyval) (new_key : string) (depth : Z) {struct v} : dict :=
  match v with
  | VDict ((_ :: _) as d) =>
      if ((max_depth =? 0) || (depth <? max_depth))%bool then
        (fix go (d : list (string * pyval)) (acc : dict) : dict :=
           match d with
           | [] => acc
           | (k, w) :: d' => go d' (dupdate acc (_flatten_value w (join_key sep new_key k) (depth + 1)))
           end) d []
      else [(new_key, v)]
  | _ => [(new_key, v)]
  end.

Definition _flatten_dict (record : dict) (prefix : string) (depth : Z) : dict :=
  fold_left (fun acc kv => dupdate acc (_flatten_value kv.2 (join_key sep prefix kv.1) depth)) record [].
End flatten.

Record config_flatten := mkConfig { separator : string; max_depth : Z; prefix : string }.

Definition apply_flatten (c : config_flatten) (records : list dict) : list dict :=
  map (fun r => _flatten_dict (separator c) (max_depth c) r (prefix c) 0) records.

End Flatten.

(** ** explode *)
Module Explode.

Record config_explode := mkConfig {
  field : string;
  include_index : bool;
  index_field : string;
  drop_source : bool;
}.

Definition explode_one (c : config_explode) (r : dict) (i : nat) (element : pyval) : res py_exn dict :=
  let r1 := if drop_source c then (delete_path r (field c)).2 else r in
  let? r2 := match element with
             | VDict e => Ok (dupdate r1 e)
             | _ => set_path r1 (field c) element true
             end in
  Ok (if include_index c then dset (index_field c) (VInt (Z.of_nat i)) r2 else r2).

Definition apply_explode (c : config_explode) : list dict -> res py_exn (list dict) :=
  each_rows (fun r =>
    match get_path r (field c) with
    | (true, VList elements) => res_mapM (fun ie => explode_one c r ie.1 ie.2) (imap pair elements)
    | _ => Ok [r]
    end).

End Explode.

(** ** unnest *)
Module Unnest.

Inductive on_non_dict := Keep | DropRecord | RaiseError.

Record config_unnest := mkConfig {
  field : string;
  prefix : string;
  drop_source : bool;
  non_dict : on_non_dict;
}.

Definition apply_unnest (c : config_unnest) : list dict -> res py_exn (list dict) :=
  each_rows (fun r =>
    match get_path r (field c) with
    | (false, _) => Ok [r]
    | (true, VDict val) =>
        let r1 := if drop_source c then (delete_path r (field c)).2 else r in
        Ok [fold_left (fun r kv => dset (prefix c ++ kv.1) kv.2 r) val r1]
    | (true, _) =>
        match non_dict c with
        | Keep => Ok [r]
        | DropRecord => Ok []
        | RaiseError => raise TransformError
        end
    end).

End Unnest.

(** ** melt *)
Module Melt.

Record config_melt := mkConfig {
  value_field : string;
  label_fields : list string;
  metric_name_col : string;
  metric_value_col : string;
  drop_source : bool;
  include_only : list string;
  exclude : list string;
}.

(** The base record: the parent without the melted field, with the label
    dicts hoisted. *)
Definition base (c : config_melt) (r : dict) : dict :=
  let b0 := if drop_source c then ddel (value_field c) r else r in
  fold_left (fun b lf =>
    let label := if drop_source c then dget lf b else dget lf r in
    let b1 := if drop_source c then ddel lf b else b in
    match label with Some (VDict d) => dupdate b1 d | _ => b1 end) (label_fields c) b0.

Definition selected (c : config_melt) (k : string) : bool :=
  ((match include_only c with [] => true | l => existsb (String.eqb k) l end)
   && negb (existsb (String.eqb k) (exclude c)))%bool.

Definition melt_record (c : config_melt) (r : dict) : list dict :=
  match dget (value_field c) r with
  | Some (VDict vs) =>
      let b := base c r in
      map (fun kv => dset (metric_value_col c) kv.2 (dset (metric_name_col c) (VStr kv.1) b))
        (List.filter (fun kv => selected c kv.1) vs)
  | _ => [r]
  end.

Definition apply_melt (c : config_melt) (records : list dict) : list dict := mjoin (map (melt_record c) records).

End Melt.

(** ** inject_meta *)
Module InjectMeta.

Record config_inject_meta := mkConfig {
  fields : list (string * string);
  include_all : bool;
  prefix : string;
  null_missing : bool;   (* on_missing = "null" *)
}.

Definition apply_inject_meta (c : config_inject_meta) (meta : dict) (records : list dict) : list dict :=
  map (fun r =>
    let r1 := if include_all c then fold_left (fun r kv => dset (prefix c ++ kv.1) kv.2 r) meta r else r in
    fold_left (fun r (mo : string * string) =>
      let target := (prefix c ++ mo.2)%string in
      match dget mo.1 meta with
      | Some v => dset target v r
      | None => if null_missing c then dset target VNone r else r
      end) (fields c) r1) records.

End InjectMeta.

(** ** mask *)
Module Mask.

Inductive mode := Redact | Hash | Partial.

Record config_mask := mkConfig {
  fields : list string;
  mask_mode : mode;
  placeholder : string;
  visible_start : Z;
  visible_end : Z;
}.

(** The characters of a string, each as its UTF-8 bytes: a continuation byte
    [10xxxxxx] belongs to the character before it. *)
Definition is_continuation (a : ascii) : bool := (128 <=? N_of_ascii a)%N && (N_of_ascii a <? 192)%N.

Fixpoint chars (s : string) : list string :=
  match s with
  | EmptyString => []
  | String a s' =>
      match s' with
      | String b _ =>
          if is_continuation b then
            match chars s' with
            | c :: cs => String a c :: cs
            | [] => [String a ""]
            end
          else String a "" :: chars s'
      | EmptyString => [String a ""]
      end
  end.

(** [s[:n]] and [s[n:]] for an index [n] that may be negative or too large. *)
Definition clamp (l : list string) (n : Z) : nat :=
  let len := Z.of_nat (length l) in
  Z.to_nat (Z.min len (if n <? 0 then Z.max 0 (len + n) else n)).
Definition slice_to (l : list string) (n : Z) : string := String.concat "" (take (clamp l n) l).
Definition slice_from (l : list string) (n : Z) : string := String.concat "" (drop (clamp l n) l).

Definition _mask_value (c : config_mask) (val : string) : string :=
  match mask_mode c with
  | Redact => placeholder c
  | Hash => Sha256.sha256_hex val
  | Partial =>
      let l := chars val in
      let s := Z.of_nat (length l) in
      if s <=? visible_start c + visible_end c then placeholder c
      else (slice_to l (visible_start c) ++ placeholder c ++ slice_from l (s - visible_end c))%string
  end.

Definition apply_mask `{!PyText} (c : config_mask) (records : list dict) : list dict :=
  map (fun r => fold_left (fun r f =>
    match dget f r with
    | Some v => dset f (VStr (_mask_value c (py_text v))) r
    | None => r
    end) (fields c) r) records.

End Mask.

End Transforms.
