(* ===== verification/TransformLaws.v ===== *)
(** * What the reshaping transforms do

    Deduplication against its reference definition, flattening as the list of
    leaves, melting as a reversible pivot, explosion row by row, and masking as
    non-interference. *)

From Stdlib Require Import ZArith Lia Ascii String SpecFloat Sorting.
From stdpp Require Import base tactics list strings gmap option.
From S2P Require Import Prelude PyStr Sha256 PyVal Paths Transforms.
Import stdpp.list.

#[local] Open Scope Z_scope.
#[local] Open Scope list_scope.

Module TransformLaws.
Import PyVal Paths Transforms.

(** ** deduplicate *)

(** Keys without floats: what identifiers and labels are. *)
Definition simple (v : pyval) : bool :=
  match v with VNone | VBool _ | VInt _ | VStr _ => true | _ => false end.

(** [True == 1]: the integer a bool stands for. *)
Definition canon (v : pyval) : pyval := match v with VBool b => VInt (if b then 1 else 0) | _ => v end.

Lemma py_eq_simple a b : simple a = true -> simple b = true -> (py_eq a b = true <-> canon a = canon b).
Proof.
  intros Ha Hb. destruct a as [|x|x|x|x|x|x], b as [|y|y|y|y|y|y]; try done; simpl.
  all: rewrite ?String.eqb_eq; try (split; intros H; congruence || done).
  all: match goal with |- context [?p ?= ?q] => destruct (Z.compare_spec p q) end; split; intros H';
    first [done | congruence | inversion H'; lia].
Qed.

Lemma key_eq_simple k1 k2 :
  forallb simple k1 = true -> forallb simple k2 = true ->
  (Deduplicate.key_eq k1 k2 = true <-> canon <$> k1 = canon <$> k2).
Proof.
  unfold Deduplicate.key_eq. revert k2; induction k1 as [|a k1 IH]; intros [|b k2] H1 H2; try done.
  cbn [forallb] in H1, H2. apply andb_true_iff in H1 as [Ha H1]. apply andb_true_iff in H2 as [Hb H2].
  change (py_eq (VList (a :: k1)) (VList (b :: k2))) with (py_eq a b && py_eq (VList k1) (VList k2))%bool.
  rewrite andb_true_iff, py_eq_simple, (IH k2 H1 H2), !fmap_cons by done.
  split; [intros [H3 H4]; by rewrite H3, H4|]. intros H. by injection H.
Qed.

Section dedup.
Context (fields : list string).

(** The identity of a record for deduplication. *)
Definition ident (r : dict) : list pyval := canon <$> Deduplicate.key fields r.

Definition simple_record (r : dict) : bool := forallb simple (Deduplicate.key fields r).

Lemma simple_hashable k : forallb simple k = true -> forallb Deduplicate.hashable k = true.
Proof.
  induction k as [|v k IH]; simpl; [done|]. intros H. apply andb_true_iff in H as [Hv Hk].
  rewrite IH by done. by destruct v.
Qed.

Definition extremal (kp : Deduplicate.keep) (i j : nat) : Prop :=
  match kp with Deduplicate.First => (i <= j)%nat | Deduplicate.Last => (j <= i)%nat end.

(** Reference: the records whose identity no record at a smaller index
    (first), or at a larger one (last), has. *)
Definition kept_index (kp : Deduplicate.keep) (records : list dict) (i : nat) : Prop :=
  exists r, records !! i = Some r /\
  forall j r', records !! j = Some r' -> ident r' = ident r ->
    extremal kp i j.

(** The identity an entry of [seen] stands for. *)
Definition cid (e : list pyval * nat) : list pyval := canon <$> e.1.

Lemma cid_fst e e' : e'.1 = e.1 -> cid e' = cid e.
Proof. unfold cid. by intros ->. Qed.

(** [seen] holds, for every identity met so far, one entry with its kept
    index. *)
Record seen_ok (kp : Deduplicate.keep) (records : list dict) (seen : list (list pyval * nat)) : Prop :=
  mkSeenOk {
    so_simple : Forall (fun e => forallb simple e.1 = true) seen;
    so_nodup : NoDup (cid <$> seen);
    so_entry : forall e, e ∈ seen -> exists r, records !! e.2 = Some r /\ ident r = cid e /\
      forall j r', records !! j = Some r' -> ident r' = ident r -> extremal kp e.2 j;
    so_cover : forall j r, records !! j = Some r -> exists e, e ∈ seen /\ cid e = ident r;
  }.

Lemma seen_has_spec k seen :
  forallb simple k = true -> Forall (fun e => forallb simple e.1 = true) seen ->
  (Deduplicate.seen_has k seen = true <-> exists e, e ∈ seen /\ cid e = canon <$> k).
Proof.
  intros Hk Hs. unfold Deduplicate.seen_has. rewrite existsb_exists. split.
  - intros (e & He & Heq). apply list_elem_of_In in He. exists e. split; [done|].
    rewrite Forall_forall in Hs. by apply key_eq_simple in Heq; [|apply Hs|].
  - intros (e & He & Heq). exists e. split; [by apply list_elem_of_In|].
    rewrite Forall_forall in Hs. apply key_eq_simple; [by apply Hs|done|done].
Qed.

(** [seen_set] appends a new identity or moves an old one to index [i]. *)
Lemma seen_set_spec k i seen :
  forallb simple k = true -> Forall (fun e => forallb simple e.1 = true) seen ->
  NoDup (cid <$> seen) ->
  Forall (fun e => forallb simple e.1 = true) (Deduplicate.seen_set k i seen) /\
  NoDup (cid <$> Deduplicate.seen_set k i seen) /\
  (forall e, e ∈ Deduplicate.seen_set k i seen <->
     (e ∈ seen /\ cid e <> canon <$> k) \/
     (e.2 = i /\ ((e.1 = k /\ ~ exists e', e' ∈ seen /\ cid e' = canon <$> k) \/
                  exists e', e' ∈ seen /\ e'.1 = e.1 /\ cid e = canon <$> k))).
Proof.
  intros Hk. induction seen as [|[k0 i0] seen IH]; intros Hs Hnd; simpl.
  - split; [by constructor|]. split; [apply NoDup_singleton|]. intros e.
    rewrite list_elem_of_singleton. split.
    + intros ->. right. simpl. split; [done|]. left. split; [done|].
      intros (e' & He' & _). by apply elem_of_nil in He'.
    + intros [[H _]|[Hi [[Hk' _]|(e' & H & _)]]]; [by apply elem_of_nil in H| |by apply elem_of_nil in H].
      destruct e; simpl in *; by subst.
  - inversion Hs as [|? ? Hs0 Hs']; subst. simpl in Hs0. simpl in Hnd. apply NoDup_cons in Hnd as [Hn Hnd].
    change (canon <$> k0 ∉ cid <$> seen) in Hn.
    destruct (Deduplicate.key_eq k0 k) eqn:E.
    + apply key_eq_simple in E; [|done|done]. split; [by constructor|].
      split; [simpl; by apply NoDup_cons|]. intros e. rewrite !elem_of_cons. split.
      * intros [->|He].
        { right. simpl. split; [done|]. right. exists (k0, i0). rewrite elem_of_cons. auto. }
        left. split; [by right|]. intros Heq. apply Hn. rewrite E, <- Heq. by apply list_elem_of_fmap_2.
      * intros [[[->|He] Hne]|[Hi [[He Hno]|(e' & He' & Hee & Hek)]]].
        { by destruct Hne. }
        { by right. }
        { exfalso. apply Hno. exists (k0, i0). rewrite elem_of_cons. auto. }
        { left. apply elem_of_cons in He' as [->|He'].
          - simpl in Hee. destruct e; simpl in *; by subst.
          - exfalso. apply Hn. rewrite E, <- Hek, <- (cid_fst _ _ Hee). by apply list_elem_of_fmap_2. }
    + assert (canon <$> k0 <> canon <$> k) as Hne.
      { intros Heq. apply not_true_iff_false in E. apply E. by apply key_eq_simple. }
      destruct (IH Hs' Hnd) as (IH1 & IH2 & IH3). split; [by constructor|]. split.
      * simpl. apply NoDup_cons. split; [|done]. intros Hin. apply list_elem_of_fmap in Hin as (e & Heq & He).
        change (canon <$> k0 = cid e) in Heq.
        apply IH3 in He as [[He _]|[_ [[He _]|(e' & He' & Hee & _)]]].
        { apply Hn. rewrite Heq. by apply list_elem_of_fmap_2. }
        { unfold cid in Heq. simpl in Heq. rewrite He in Heq. done. }
        { apply Hn. rewrite Heq, <- (cid_fst _ _ Hee). by apply list_elem_of_fmap_2. }
      * intros e. rewrite !elem_of_cons, IH3. split.
        { intros [->|[[He Hx]|[Hi [[He Hno]|(e' & He' & Hee & Hek)]]]].
          - left. split; [by left|done].
          - left. split; [by right|done].
          - right. split; [done|]. left. split; [done|]. intros (e' & He' & Heq).
            apply elem_of_cons in He' as [->|He']; [done|]. apply Hno. by exists e'.
          - right. split; [done|]. right. exists e'. rewrite elem_of_cons. auto. }
        { intros [[[->|He] Hx]|[Hi [[He Hno]|(e' & He' & Hee & Hek)]]].
          - by left.
          - right. left. done.
          - right. right. split; [done|]. left. split; [done|]. intros (e' & He' & Heq). apply Hno.
            exists e'. rewrite elem_of_cons. auto.
          - apply elem_of_cons in He' as [->|He'].
            + exfalso. apply Hne. rewrite <- Hek. by rewrite <- (cid_fst _ _ Hee).
            + right. right. split; [done|]. right. by exists e'. }
Qed.

Lemma lookup_snoc (l : list dict) (r x : dict) (j : nat) :
  (l ++ [r]) !! j = Some x <-> l !! j = Some x \/ (j = length l /\ x = r).
Proof.
  rewrite lookup_app_Some. split.
  - intros [?|[Hj Hx]]; [by left|right]. apply list_lookup_singleton_Some in Hx as [? ->]. split; [lia|done].
  - intros [?|[-> ->]]; [by left|right]. split; [lia|]. by replace (length l - length l)%nat with 0%nat by lia.
Qed.

(** Setting the identity of the next record to its index. *)
Lemma seen_set_ok kp l r seen :
  simple_record r = true -> seen_ok kp l seen ->
  (kp = Deduplicate.First -> Deduplicate.seen_has (Deduplicate.key fields r) seen = false) ->
  seen_ok kp (l ++ [r]) (Deduplicate.seen_set (Deduplicate.key fields r) (length l) seen).
Proof.
  intros Hr [Hs Hnd He Hc] Hkp. set (k := Deduplicate.key fields r) in *.
  destruct (seen_set_spec k (length l) seen Hr Hs Hnd) as (Hs' & Hnd' & Helem). split; [done|done| |].
  - intros e Hin. apply Helem in Hin as [[Hin Hne]|[Hi Hk]].
    + destruct (He e Hin) as (r0 & Hr0 & Hid & Hx). exists r0. rewrite lookup_snoc. split; [by left|].
      split; [done|]. intros j r' Hj Hrr. apply lookup_snoc in Hj as [Hj|[-> ->]]; [by eapply Hx|].
      exfalso. apply Hne. rewrite <- Hid, <- Hrr. done.
    + exists r. rewrite lookup_snoc. split; [right; done|].
      assert (cid e = ident r) as Hce.
      { destruct Hk as [[Hk _]|(e' & _ & _ & Hk)]; [|done]. unfold cid. by rewrite Hk. }
      split; [done|]. intros j r' Hj Hrr. apply lookup_snoc in Hj as [Hj|[-> ->]];
        [|rewrite Hi; by destruct kp; unfold extremal; lia].
      rewrite Hi. apply lookup_lt_Some in Hj as Hlt. destruct kp; unfold extremal; [exfalso|lia].
      destruct (Hc j r' Hj) as (e' & He' & Hid').
      specialize (Hkp eq_refl). apply not_true_iff_false in Hkp. apply Hkp. apply seen_has_spec; [done|done|].
      exists e'. split; [done|]. by rewrite Hid', Hrr.
  - intros j r' Hj. apply lookup_snoc in Hj as [Hj|[-> ->]].
    + destruct (Hc j r' Hj) as (e & Hin & Hid).
      assert (cid e = canon <$> k \/ cid e <> canon <$> k) as [Heq|Hne].
      { assert (forallb simple e.1 = true) as Hse by (rewrite Forall_forall in Hs; auto).
        destruct (Deduplicate.key_eq e.1 k) eqn:E; [left; by apply key_eq_simple in E|right].
        intros Heq. apply not_true_iff_false in E. apply E. by apply key_eq_simple. }
      * exists (e.1, length l). split; [|done]. apply Helem. right. split; [done|]. right. by exists e.
      * exists e. split; [|done]. apply Helem. by left.
    + destruct (Deduplicate.seen_has k seen) eqn:Eh.
      * apply seen_has_spec in Eh as (e & Hin & Hid); [|done|done]. exists (e.1, length l).
        split; [|done]. apply Helem. right. split; [done|]. right. by exists e.
      * exists (k, length l). split; [|done]. apply Helem. right. split; [done|]. left. split; [done|].
        apply not_true_iff_false in Eh. intros Hx. apply Eh. by apply seen_has_spec.
Qed.

Lemma scan_ok kp records l seen :
  forallb simple_record records = true -> seen_ok kp l seen ->
  exists seen', Deduplicate.scan fields kp (length l) records seen = Ok seen' /\
    seen_ok kp (l ++ records) seen'.
Proof.
  revert l seen; induction records as [|r rs IH]; intros l seen Hall Hok; simpl.
  { exists seen. by rewrite app_nil_r. }
  simpl in Hall. apply andb_true_iff in Hall as [Hr Hall].
  rewrite simple_hashable by done. simpl.
  assert (forall seen1, seen_ok kp (l ++ [r]) seen1 -> exists seen',
    Deduplicate.scan fields kp (S (length l)) rs seen1 = Ok seen' /\ seen_ok kp (l ++ r :: rs) seen') as Hnext.
  { intros seen1 H1. destruct (IH (l ++ [r]) seen1 Hall H1) as (seen' & E & H'). exists seen'.
    rewrite <- app_assoc in H'. split; [|done]. rewrite <- E. f_equal. rewrite length_app. simpl. lia. }
  destruct kp; [|apply Hnext; by apply seen_set_ok].
  destruct (Deduplicate.seen_has (Deduplicate.key fields r) seen) eqn:Eh; [|apply Hnext; by apply seen_set_ok].
  apply Hnext. destruct Hok as [Hs Hnd He Hc]. apply seen_has_spec in Eh as (e & Hin & Hid); [|done|done].
  split; [done|done| |].
  - intros e' Hin'. destruct (He e' Hin') as (r0 & Hr0 & Hid0 & Hx). exists r0. rewrite lookup_snoc.
    split; [by left|]. split; [done|]. intros j r' Hj Hrr. apply lookup_snoc in Hj as [Hj|[-> ->]]; [by eapply Hx|].
    apply lookup_lt_Some in Hr0. unfold extremal. lia.
  - intros j r' Hj. apply lookup_snoc in Hj as [Hj|[-> ->]]; [by eapply Hc|]. by exists e.
Qed.

Lemma seen_indices kp records seen i :
  seen_ok kp records seen -> i ∈ seen.*2 <-> kept_index kp records i.
Proof.
  intros [_ _ He Hc]. rewrite list_elem_of_fmap. split.
  - intros (e & -> & Hin). destruct (He e Hin) as (r & Hr & _ & Hx). exists r. by split.
  - intros (r & Hr & Hx). destruct (Hc i r Hr) as (e & Hin & Hid).
    destruct (He e Hin) as (r0 & Hr0 & Hid0 & Hx0). exists e. split; [|done].
    specialize (Hx e.2 r0 Hr0 ltac:(congruence)). specialize (Hx0 i r Hr ltac:(congruence)).
    destruct kp; unfold extremal in *; lia.
Qed.
End dedup.

Lemma elem_imap_pair {A} (l : list A) i x : (i, x) ∈ imap pair l <-> l !! i = Some x.
Proof.
  split.
  - intros H. apply elem_of_lookup_imap in H as (j & y & Heq & Hj). by inv_eq.
  - intros H. apply elem_of_lookup_imap. by exists i, x.
Qed.

Lemma imap_pair_sorted {A} (l : list A) (P : nat * A -> bool) n :
  StronglySorted lt (fst <$> List.filter P (imap (fun i x => ((n + i)%nat, x)) l)) /\
  Forall (fun i => (n <= i)%nat) (fst <$> List.filter P (imap (fun i x => ((n + i)%nat, x)) l)).
Proof.
  revert n P; induction l as [|x l IH]; intros n P; simpl; [by repeat constructor|].
  assert (imap ((fun i y => ((n + i)%nat, y)) ∘ S) l = imap (fun i y => ((S n + i)%nat, y)) l) as ->.
  { apply imap_ext. intros i y _. simpl. f_equal. lia. }
  destruct (IH (S n) P) as [H1 H2].
  assert (Forall (fun i => (n <= i)%nat) (fst <$> List.filter P (imap (fun i y => ((S n + i)%nat, y)) l))) as H3.
  { eapply Forall_impl; [exact H2|]. intros i Hi. simpl in *. lia. }
  rewrite Nat.add_0_r. destruct (P (n, x)); simpl; [|done].
  split; constructor; done.
Qed.

(** Deduplication keeps exactly the right records.  For keys of strings,
    integers, booleans and nulls, [deduplicate] succeeds and returns, in their
    input order, exactly the records whose key no earlier record (keep first),
    or no later record (keep last), has. *)
Theorem deduplicate_keeps_extremal fields kp records :
  forallb (simple_record fields) records = true ->
  exists out idx, Deduplicate.apply_deduplicate fields kp records = Ok out /\
    StronglySorted lt idx /\ Forall2 (fun i r => records !! i = Some r) idx out /\
    (forall i, i ∈ idx <-> kept_index fields kp records i).
Proof.
  intros Hall. destruct (scan_ok fields kp records [] [] Hall) as (seen & E & Hok).
  { split; [constructor|constructor| |]; intros ? ?; try done. by apply elem_of_nil in H. }
  simpl in E, Hok. unfold Deduplicate.apply_deduplicate. rewrite E. cbn [res_bind].
  set (P := fun ir : nat * dict => bool_decide (ir.1 ∈ seen.*2)).
  eexists _, (fst <$> List.filter P (imap pair records)). split; [done|]. split_and!.
  - apply (imap_pair_sorted records P 0).
  - rewrite Forall2_fmap. apply Forall_Forall2_diag, Forall_forall. intros [i r] Hin.
    apply list_elem_of_In, List.filter_In in Hin as [Hin _]. simpl. by apply elem_imap_pair, list_elem_of_In.
  - intros i. rewrite <- (seen_indices fields kp records seen i Hok), list_elem_of_fmap. split.
    + intros ([i' r] & -> & Hin). apply list_elem_of_In, List.filter_In in Hin as [_ HP].
      unfold P in HP. by bool_to_prop.
    + intros Hi. pose proof Hi as Hk. apply (seen_indices fields kp records seen i Hok) in Hk as (r & Hr & _).
      exists (i, r). split; [done|]. apply list_elem_of_In, List.filter_In. split.
      * by apply list_elem_of_In, elem_imap_pair.
      * unfold P. by apply bool_decide_eq_true.
Qed.

(** ** flatten *)

Section flatten.
Context (sep : string) (max_depth : Z).

(** The leaves of a value under a key, in order: nested non-empty dicts are
    descended to the depth bound. *)
Fixpoint leaves (v : pyval) (key : string) (depth : Z) {struct v} : list (string * pyval) :=
  match v with
  | VDict ((_ :: _) as d) =>
      if ((max_depth =? 0) || (depth <? max_depth))%bool then
        (fix go (d : list (string * pyval)) :=
           match d with
           | [] => []
           | (k, w) :: d' => leaves w (Flatten.join_key sep key k) (depth + 1) ++ go d'
           end) d
      else [(key, v)]
  | _ => [(key, v)]
  end.

Definition record_leaves (r : dict) (prefix : string) : list (string * pyval) :=
  mjoin (map (fun kv => leaves kv.2 (Flatten.join_key sep prefix kv.1) 0) r).

Lemma dupdate_fresh (acc e : dict) :
  NoDup (keys e) -> (forall k, k ∈ keys e -> k ∉ keys acc) -> dupdate acc e = acc ++ e.
Proof.
  revert acc; induction e as [|[k v] e IH]; intros acc Hnd Hdis; simpl; [by rewrite app_nil_r|].
  simpl in Hnd. apply NoDup_cons in Hnd as [Hn Hnd].
  assert (dset k v acc = acc ++ [(k, v)]) as ->.
  { assert (k ∉ keys acc) as Hk by (apply Hdis; by left). clear -Hk.
    induction acc as [|[k' v'] acc IHa]; [done|]. simpl in *. apply not_elem_of_cons in Hk as [Hne Hk].
    rewrite (proj2 (String.eqb_neq _ _)) by congruence. by rewrite IHa. }
  rewrite IH; [by rewrite <- app_assoc|done|].
  intros k' Hk' Hin. unfold keys in Hin. rewrite fmap_app in Hin. apply elem_of_app in Hin as [Hin|Hin].
  - apply (Hdis k'); [by right|done].
  - simpl in Hin. apply list_elem_of_singleton in Hin. by subst.
Qed.

Lemma keys_app (a b : dict) : keys (a ++ b) = keys a ++ keys b.
Proof. apply fmap_app. Qed.

Lemma nodup_app_dict (a b : dict) :
  NoDup (keys (a ++ b)) -> NoDup (keys a) /\ NoDup (keys b) /\ (forall k, k ∈ keys b -> k ∉ keys a).
Proof. rewrite keys_app. intros H. apply NoDup_app in H as (H1 & H2 & H3). split_and!; [done|done|].
  intros k Hb Ha. by apply (H2 k). Qed.

Lemma flatten_value_leaves v key depth :
  NoDup (keys (leaves v key depth)) -> Flatten._flatten_value sep max_depth v key depth = leaves v key depth.
Proof.
  revert key depth. induction v as [| | | | | |d IH] using pyval_nested_ind; intros key depth Hnd; try done.
  destruct d as [|kv0 d0]; [done|]. simpl in *.
  destruct ((max_depth =? 0) || (depth <? max_depth))%bool; [|done].
  set (go := fix go (d : list (string * pyval)) := _) in Hnd |- * at 2.
  set (fgo := fix go (d : list (string * pyval)) (acc : dict) := _) at 1.
  assert (forall d acc, Forall (fun kv : string * pyval => forall key depth,
      NoDup (keys (leaves kv.2 key depth)) ->
      Flatten._flatten_value sep max_depth kv.2 key depth = leaves kv.2 key depth) d ->
    NoDup (keys (acc ++ go d)) -> fgo d acc = acc ++ go d) as Hgo.
  { clear. induction d as [|[k w] d IHd]; intros acc HF Hnd; simpl; [by rewrite app_nil_r|].
    inversion HF as [|? ? Hw HF']; subst. simpl in Hw, Hnd.
    destruct (nodup_app_dict _ _ Hnd) as (Ha & Hb & Hd). destruct (nodup_app_dict _ _ Hb) as (Hl & Hg & _).
    rewrite Hw by done. rewrite dupdate_fresh; [|done|].
    - rewrite IHd; [by rewrite <- app_assoc|done|by rewrite <- app_assoc].
    - intros k' Hk'. apply Hd. rewrite keys_app, elem_of_app. by left. }
  destruct kv0 as [k0 w0]. apply (Hgo ((k0, w0) :: d0) []); done.
Qed.

Lemma flatten_dict_leaves r prefix :
  NoDup (keys (record_leaves r prefix)) ->
  Flatten._flatten_dict sep max_depth r prefix 0 = record_leaves r prefix.
Proof.
  unfold Flatten._flatten_dict, record_leaves. change r with ([] ++ r) at 1.
  assert (forall acc, NoDup (keys (acc ++ mjoin (map (fun kv : string * pyval =>
      leaves kv.2 (Flatten.join_key sep prefix kv.1) 0) r))) ->
    fold_left (fun acc kv => dupdate acc (Flatten._flatten_value sep max_depth kv.2
      (Flatten.join_key sep prefix kv.1) 0)) r acc
    = acc ++ mjoin (map (fun kv : string * pyval => leaves kv.2 (Flatten.join_key sep prefix kv.1) 0) r)) as H.
  { induction r as [|[k w] r IHr]; intros acc Hnd; simpl; [by rewrite app_nil_r|]. simpl in Hnd.
    destruct (nodup_app_dict _ _ Hnd) as (Ha & Hb & Hd). destruct (nodup_app_dict _ _ Hb) as (Hl & Hg & _).
    rewrite flatten_value_leaves by done. rewrite dupdate_fresh; [|done|].
    - rewrite IHr; [by rewrite <- app_assoc|by rewrite <- app_assoc].
    - intros k' Hk'. apply Hd. rewrite keys_app, elem_of_app. by left. }
  intros Hnd. by rewrite H.
Qed.
End flatten.

(** Flattening loses nothing.  When the joined keys of the leaves are
    distinct, the flattened record is exactly the list of the record's leaves,
    each under its joined key, in order; so a collision of joined keys is the
    only way [flatten] can drop a value. *)
Theorem flatten_is_leaves c r :
  NoDup (keys (record_leaves (Flatten.separator c) (Flatten.max_depth c) r (Flatten.prefix c))) ->
  Flatten.apply_flatten c [r] = [record_leaves (Flatten.separator c) (Flatten.max_depth c) r (Flatten.prefix c)].
Proof. intros H. unfold Flatten.apply_flatten. simpl. by rewrite flatten_dict_leaves. Qed.

(** ** melt *)

(** Melting is a reversible pivot.  A record whose melted field is a dict
    becomes one row per selected key, in the dict's order: reading the name and
    value columns of the rows back gives exactly the selected items, and every
    other column of each row is the parent's (without the melted field, with
    the labels hoisted). *)
Theorem melt_pivot_roundtrip c r vs :
  Melt.metric_name_col c <> Melt.metric_value_col c ->
  dget (Melt.value_field c) r = Some (VDict vs) ->
  let rows := Melt.apply_melt c [r] in
  let items := List.filter (fun kv => Melt.selected c kv.1) vs in
  map (fun row => (dget (Melt.metric_name_col c) row, dget (Melt.metric_value_col c) row)) rows
    = map (fun kv => (Some (VStr kv.1), Some kv.2)) items /\
  (forall row k, row ∈ rows -> k <> Melt.metric_name_col c -> k <> Melt.metric_value_col c ->
     dget k row = dget k (Melt.base c r)).
Proof.
  intros Hne Hv rows items. unfold rows, Melt.apply_melt. simpl. rewrite app_nil_r. unfold Melt.melt_record.
  rewrite Hv. fold items. split.
  - rewrite map_map. apply map_ext. intros [k v]. simpl.
    by rewrite dget_dset_ne, dget_dset_eq, dget_dset_eq by congruence.
  - intros row k Hin Hn Hw. apply list_elem_of_In, in_map_iff in Hin as (kv & <- & _).
    by rewrite !dget_dset_ne by congruence.
Qed.

(** ** explode *)

Lemma get_path_dset_other r k v q :
  has_char dot k = true \/ apart k q -> get_path (dset k v r) q = get_path r q.
Proof.
  rewrite !get_path_tokens. intros H.
  destruct (split_on dot q) as [|t ts] eqn:E; [by apply split_on_ne in E|]. rewrite !get_tokens_eq.
  rewrite dget_dset_ne; [done|]. intros ->. destruct H as [H|H].
  - assert (has_char dot t = false) as Hf; [|congruence].
    apply (split_on_parts dot q). rewrite E. by left.
  - unfold apart in H. destruct (has_char dot t) eqn:Ht.
    + assert (has_char dot t = false) as Hf; [|congruence].
      apply (split_on_parts dot q). rewrite E. by left.
    + rewrite (split_on_none dot t Ht), E in H. destruct H as [H _]. apply H.
      by apply prefix_cons, prefix_nil.
Qed.

(** Exploding a list gives one row per element.  For a record whose field
    is a list of plain (non-dict) elements, a successful [explode] returns as
    many rows as elements; the [i]-th row reads the [i]-th element at the
    field, reads its index at the index field when asked, and agrees with the
    record on every path apart from both. *)
Theorem explode_one_row_per_element c r es rows :
  get_path r (Explode.field c) = (true, VList es) ->
  forallb (fun e => match e with VDict _ => false | _ => true end) es = true ->
  apart (Explode.index_field c) (Explode.field c) ->
  Explode.apply_explode c [r] = Ok rows ->
  length rows = length es /\
  forall i e, es !! i = Some e -> exists row, rows !! i = Some row /\
    get_path row (Explode.field c) = (true, e) /\
    (Explode.include_index c = true -> dget (Explode.index_field c) row = Some (VInt (Z.of_nat i))) /\
    (forall q, apart (Explode.field c) q -> apart (Explode.index_field c) q -> get_path row q = get_path r q).
Proof.
  intros Hg Hall Hap H. unfold Explode.apply_explode, each_rows in H. apply res_bind_ok in H as (rws & H & Heq).
  simpl in H. rewrite Hg in H. apply res_bind_ok in H as (b & Hb & H). injection H as <-.
  injection Heq as <-. rewrite app_nil_r. split.
  { apply res_mapM_length in Hb. by rewrite length_imap in Hb. }
  intros i e Hi. apply res_mapM_Forall2 in Hb.
  assert (imap pair es !! i = Some (i, e)) as Hie by (rewrite list_lookup_imap, Hi; done).
  destruct (Forall2_lookup_l _ _ _ _ _ Hb Hie) as (row & Hrow & Hx). exists row. split; [done|].
  unfold Explode.explode_one in Hx. simpl in Hx. set (r1 := if Explode.drop_source c then _ else _) in Hx.
  assert (forall q, apart (Explode.field c) q -> get_path r1 q = get_path r q) as Hr1.
  { intros q Hq. unfold r1. destruct (Explode.drop_source c); [|done].
    rewrite delete_path_tokens, !get_path_tokens. by apply delete_tokens_other. }
  assert (exists r2, set_path r1 (Explode.field c) e true = Ok r2 /\
    row = if Explode.include_index c then dset (Explode.index_field c) (VInt (Z.of_nat i)) r2 else r2)
    as (r2 & Hs & ->).
  { rewrite forallb_forall in Hall. apply list_elem_of_lookup_2, list_elem_of_In, Hall in Hi.
    destruct e; try discriminate Hi; apply res_bind_ok in Hx as (r2 & Hs & Hx); injection Hx as <-; eauto. }
  rewrite set_path_tokens in Hs.
  assert (forall q, apart (Explode.index_field c) q ->
    get_path (if Explode.include_index c then dset (Explode.index_field c) (VInt (Z.of_nat i)) r2 else r2) q
    = get_path r2 q) as Hidx.
  { intros q Hq. destruct (Explode.include_index c); [|done]. apply get_path_dset_other. by right. }
  split_and!.
  - rewrite Hidx by done. rewrite get_path_tokens. eapply get_set_same; [apply split_on_ne|done].
  - intros ->. apply dget_dset_eq.
  - intros q Hq Hqi. rewrite Hidx by done. rewrite <- Hr1 by done. rewrite !get_path_tokens.
    eapply get_set_other; [exact Hq|exact Hs].
Qed.

(** ** mask *)

(** Records that differ at most in the values of the fields [fs]. *)
Definition same_but (fs : list string) (r1 r2 : dict) : Prop :=
  Forall2 (fun a b => a.1 = b.1 /\ (a.1 ∈ fs \/ a.2 = b.2)) r1 r2.

Lemma same_but_keys fs r1 r2 : same_but fs r1 r2 -> keys r1 = keys r2.
Proof. induction 1 as [|a b r1 r2 [H _] _ IH]; [done|]. unfold keys in *. by rewrite !fmap_cons, H, IH. Qed.

Lemma same_but_dset f fs v r1 r2 :
  wf_dict r1 -> dhas f r1 = true -> same_but (f :: fs) r1 r2 -> same_but fs (dset f v r1) (dset f v r2).
Proof.
  intros Hw Hh H. induction H as [|[k1 v1] [k2 v2] r1 r2 [Hk Hv] H IH]; [done|]. simpl in Hk, Hv. subst k2.
  unfold wf_dict in Hw. simpl in Hw. apply NoDup_cons in Hw as [Hn Hw]. simpl.
  destruct (String.eqb k1 f) eqn:E.
  - apply String.eqb_eq in E. subst k1. constructor; [simpl; auto|]. clear -Hn H.
    induction H as [|a b r1 r2 [Hk Hv] H IH]; [constructor|]. simpl in Hn. apply not_elem_of_cons in Hn as [Hna Hn].
    constructor; [|by apply IH]. split; [done|]. destruct Hv as [Hv|Hv]; [|by right].
    apply elem_of_cons in Hv as [Hv|Hv]; [|by left]. congruence.
  - apply String.eqb_neq in E. constructor.
    + simpl. split; [done|]. destruct Hv as [Hv|Hv]; [|by right]. apply elem_of_cons in Hv as [Hv|Hv]; [done|by left].
    + apply IH; [done|]. unfold dhas in *. simpl in Hh. by rewrite (proj2 (String.eqb_neq _ _)) in Hh by done.
Qed.

Lemma same_but_absent f fs r1 r2 :
  dhas f r1 = false -> same_but (f :: fs) r1 r2 -> same_but fs r1 r2.
Proof.
  intros Hh H. assert (f ∉ keys r1) as Hn.
  { unfold dhas in Hh. destruct (dget f r1) eqn:E; [done|]. by apply dget_None. }
  clear Hh. induction H as [|a b r1 r2 [Hk Hv] H IH]; [constructor|]. unfold keys in Hn. rewrite fmap_cons in Hn.
  apply not_elem_of_cons in Hn as [Hna Hn]. constructor; [|by apply IH]. split; [done|].
  destruct Hv as [Hv|Hv]; [|by right]. apply elem_of_cons in Hv as [Hv|Hv]; [congruence|by left].
Qed.

Lemma same_but_nil r1 r2 : same_but [] r1 r2 -> r1 = r2.
Proof.
  induction 1 as [|[k1 v1] [k2 v2] r1 r2 [Hk Hv] _ IH]; [done|]. simpl in *. subst.
  destruct Hv as [Hv|Hv]; [by apply elem_of_nil in Hv|]. by subst.
Qed.

(** Redaction is non-interference.  Two records that differ only in the
    values of masked fields (whatever their types) are indistinguishable after
    [mask] in redact mode. *)
Theorem mask_redact_noninterference `{!PyText} c r1 r2 :
  Mask.mask_mode c = Mask.Redact -> wf_dict r1 ->
  same_but (Mask.fields c) r1 r2 -> Mask.apply_mask c [r1] = Mask.apply_mask c [r2].
Proof.
  intros Hm Hw Hs. unfold Mask.apply_mask. simpl. f_equal. apply same_but_nil.
  revert r1 r2 Hw Hs. induction (Mask.fields c) as [|f fs IH]; intros r1 r2 Hw Hs; [done|]. simpl.
  assert (dhas f r2 = dhas f r1) as Hh.
  { pose proof (same_but_keys _ _ _ Hs) as Hk. unfold dhas.
    destruct (dget f r1) eqn:E1, (dget f r2) eqn:E2; try done.
    - apply dget_None in E2. rewrite <- Hk in E2. apply dget_None in E2. congruence.
    - apply dget_None in E1. rewrite Hk in E1. apply dget_None in E1. congruence. }
  assert (forall v, Mask._mask_value c v = Mask.placeholder c) as Hph
    by (intros v; unfold Mask._mask_value; by rewrite Hm).
  destruct (dhas f r1) eqn:E1.
  - apply dhas_true in E1 as E1'. apply dhas_true in Hh as Hh'.
    destruct E1' as [v1 ->], Hh' as [v2 ->]. rewrite !Hph. apply IH; [by apply wf_dset|]. by apply same_but_dset.
  - unfold dhas in E1, Hh. destruct (dget f r1) eqn:G1; [done|]. destruct (dget f r2) eqn:G2; [done|].
    apply IH; [done|]. eapply same_but_absent; [|done]. unfold dhas. by rewrite G1.
Qed.

(** ** Concrete batches *)

Definition demo_batch : list dict :=
  [[("id", VInt 1); ("x", VStr "a")]; [("id", VBool true); ("x", VStr "b")]; [("id", VNone)]]%string.

Lemma deduplicate_keeps_extremal_witness :
  exists out idx, Deduplicate.apply_deduplicate ["id"%string] Deduplicate.Last demo_batch = Ok out /\
    StronglySorted lt idx /\ Forall2 (fun i r => demo_batch !! i = Some r) idx out /\
    (forall i, i ∈ idx <-> kept_index ["id"%string] Deduplicate.Last demo_batch i).
Proof. apply (deduplicate_keeps_extremal ["id"%string] Deduplicate.Last demo_batch). reflexivity. Defined.

Lemma flatten_is_leaves_witness :
  Flatten.apply_flatten (Flatten.mkConfig "_" 0 "") [demo_record]
  = [[("host", VStr "r1"); ("ports_eth0", VInt 7); ("ports_eth1", VNone)]%string].
Proof.
  apply (flatten_is_leaves (Flatten.mkConfig "_" 0 "") demo_record).
  apply (bool_decide_unpack _). vm_compute. exact I.
Defined.

Definition demo_melt : Melt.config_melt := Melt.mkConfig "ports" [] "metric_name" "metric_value" true [] [].

Lemma melt_pivot_roundtrip_witness :
  map (fun row => (dget "metric_name" row, dget "metric_value" row)) (Melt.apply_melt demo_melt [demo_record])
  = [(Some (VStr "eth0"), Some (VInt 7)); (Some (VStr "eth1"), Some VNone)].
Proof.
  edestruct (melt_pivot_roundtrip demo_melt demo_record) as [H _].
  - discriminate.
  - reflexivity.
  - exact H.
Defined.

Definition demo_explode : Explode.config_explode := Explode.mkConfig "vals" true "index" true.

Lemma explode_one_row_per_element_witness :
  exists row, get_path row "vals" = (true, VInt 5) /\ dget "index" row = Some (VInt 1).
Proof.
  edestruct (explode_one_row_per_element demo_explode
    [("id", VStr "n"); ("vals", VList [VInt 4; VInt 5])]%string [VInt 4; VInt 5]) as [_ H].
  - reflexivity.
  - reflexivity.
  - unfold apart, unrelated. split; apply (bool_decide_unpack _); vm_compute; exact I.
  - vm_compute. reflexivity.
  - destruct (H 1%nat (VInt 5) eq_refl) as (row & _ & H1 & H2 & _). exists row.
    split; [exact H1|]. apply H2. reflexivity.
Defined.

Lemma mask_redact_noninterference_witness :
  let T := {| repr_text := fun _ => ""%string |} in
  Mask.apply_mask (Mask.mkConfig ["pin"%string] Mask.Redact "***" 2 2) [[("u", VStr "x"); ("pin", VInt 1234)]%string]
  = Mask.apply_mask (Mask.mkConfig ["pin"%string] Mask.Redact "***" 2 2) [[("u", VStr "x"); ("pin", VStr "zz")]%string].
Proof.
  intros T. apply (mask_redact_noninterference (Mask.mkConfig ["pin"%string] Mask.Redact "***" 2 2)
    [("u", VStr "x"); ("pin", VInt 1234)]%string [("u", VStr "x"); ("pin", VStr "zz")]%string).
  - reflexivity.
  - apply (bool_decide_unpack _). vm_compute. exact I.
  - constructor; [split; [reflexivity|right; reflexivity]|].
    constructor; [split; [reflexivity|left; left]|constructor].
Defined.

End TransformLaws.
