(* ===== verification/CounterDelta.v ===== *)
(** * counter_delta: per-series counter deltas with wrap and reset handling

    tram/transforms/counter_delta.py.  The transform keeps, per counter series
    (source host, key field values, field path), the last sample it saw, and
    turns cumulative readings into deltas and rates.  Its state survives an
    exception raised in the middle of a batch, so [apply] returns the state
    beside the result.

    A reading's epoch time, [_parse_timestamp(val).timestamp()], is the
    parameter [epoch_of] of the interface [Clock]: every theorem holds for any
    parser. *)

From Stdlib Require Import ZArith Lia Ascii String SpecFloat.
From stdpp Require Import base tactics list strings gmap option.
From S2P Require Import Prelude PyStr Sha256 PyVal Paths Transforms.
Import stdpp.list.

#[local] Open Scope Z_scope.
#[local] Open Scope list_scope.

Module CounterDelta.
Import PyVal Paths Transforms.

(** ** Configuration *)

Inductive output_mode := OutDelta | OutRate | OutBoth.
Inductive error_mode := OnRaise | OnNull | OnKeep.

Record config := mkConfig {
  fields : list string;
  key_fields : list string;
  timestamp_fields : list string;
  width : option Z;                       (* None is auto *)
  output : output_mode;
  keep_raw : bool;
  drop_first : bool;                      (* first_sample == drop *)
  reset_threshold : spec_float;
  max_gap_seconds : option spec_float;
  on_error : error_mode;
}.

Definition float_zero : spec_float := S754_zero false.

(** The checks of [__init__] on values of the declared types. *)
Definition init (c : config) : res py_exn config :=
  if bool_decide (fields c = []) then raise TransformError
  else if bool_decide (timestamp_fields c = []) then raise TransformError
  else if match width c with Some w => negb ((w =? 32) || (w =? 64)) | None => false end
  then raise TransformError
  else if negb (SFltb float_zero (reset_threshold c) && SFltb (reset_threshold c) (float_of_int 1))
  then raise TransformError
  else if match max_gap_seconds c with Some g => SFleb g float_zero | None => false end
  then raise TransformError
  else Ok c.

(** ** State *)

Record sample := mkSample { v : Z; t : spec_float }.

(** [_meta], [_state], and the two Prometheus counters as the lists of field
    labels they were incremented with. *)
Record st := mkSt {
  _meta : dict;
  _state : gmap string sample;
  resets : list string;
  wraps : list string;
}.

Definition set_runtime_meta (meta : dict) (s : st) : st := mkSt meta (_state s) (resets s) (wraps s).
Definition get_state (s : st) : gmap string sample := _state s.
Definition set_state (blob : gmap string sample) (s : st) : st := mkSt (_meta s) blob (resets s) (wraps s).

Definition put_sample (identity : string) (x : sample) (s : st) : st :=
  mkSt (_meta s) (<[identity := x]> (_state s)) (resets s) (wraps s).
Definition inc_resets (f : string) (s : st) : st := mkSt (_meta s) (_state s) (resets s ++ [f]) (wraps s).
Definition inc_wraps (f : string) (s : st) : st := mkSt (_meta s) (_state s) (resets s) (wraps s ++ [f]).

(** ** Pure helpers *)

Definition _W32 : Z := Z.shiftl 1 32.
Definition _W64 : Z := Z.shiftl 1 64.
Definition _ID_SEP : string := String (ascii_of_nat 31) EmptyString.

Definition modulus (w : Z) : Z := if w =? 64 then _W64 else _W32.

(** [(delta, is_reset)]. *)
Definition _delta_for (thr : spec_float) (prev_v now_v w : Z) : Z * bool :=
  if prev_v <=? now_v then (now_v - prev_v, false)
  else
    let corrected := now_v + modulus w - prev_v in
    match compare_int_float corrected (SFmul prec emax thr (float_of_int (modulus w))) with
    | Some Gt => (now_v, true)
    | _ => (corrected, false)
    end.

(** [bool(v)]. *)
Definition truthy (x : pyval) : bool :=
  match x with
  | VNone => false
  | VBool b => b
  | VInt z => negb (z =? 0)
  | VFloat (S754_zero _) => false
  | VFloat _ => true
  | VStr s => negb (String.eqb s "")
  | VList l => negb (bool_decide (length l = 0%nat))
  | VDict d => negb (bool_decide (length d = 0%nat))
  end.

Definition _resolve_width (c : config) (record : dict) (field : string) (prev_v now_v : Z) : res py_exn Z :=
  let? snmp_widths :=
    match dget "_snmp_widths" record with
    | None => Ok []
    | Some w => if truthy w then match w with VDict d => Ok d | _ => raise AttributeErrorExn end else Ok []
    end in
  let base := match rsplit1 dot field with Some (_, b) => b | None => field end in
  let snmp_width := dget_or_none base snmp_widths in
  Ok (if py_eq snmp_width (VInt 32) then 32
      else if py_eq snmp_width (VInt 64) then 64
      else match width c with
           | Some w => w
           | None => if ((_W32 <=? prev_v) || (_W32 <=? now_v))%bool then 64 else 32
           end).

(** [int(raw_v)]; the handler catches [TypeError] and [ValueError] only. *)
Definition py_int_of (x : pyval) : res py_exn Z :=
  match x with
  | VFloat S754_nan => raise ValueErrorExn
  | VFloat (S754_infinity _) => raise OverflowErrorExn
  | VNone | VList _ | VDict _ => raise TypeErrorExn
  | _ => of_option ValueErrorExn (Limit.int_of x)
  end.

(** [delta / elapsed if elapsed > 0 else None]: the integer is converted to a
    float first, which raises when it is too large. *)
Definition rate_of (delta : Z) (elapsed : spec_float) : res py_exn pyval :=
  if SFltb float_zero elapsed then
    match float_of_int delta with
    | S754_infinity _ => raise OverflowErrorExn
    | f => Ok (VFloat (SFdiv prec emax f elapsed))
    end
  else Ok VNone.

Definition field_delta (f : string) : string := (f ++ "_delta")%string.
Definition field_rate (f : string) : string := (f ++ "_rate")%string.

Definition _set_outputs (c : config) (r : dict) (f : string) (delta rate : pyval) : res py_exn dict :=
  let? r1 := match output c with
             | OutDelta | OutBoth => set_path r (field_delta f) delta true
             | OutRate => Ok r
             end in
  match output c with
  | OutRate | OutBoth => set_path r1 (field_rate f) rate true
  | OutDelta => Ok r1
  end.

(** [rest] is [fields[from_field_index:]]. *)
Definition _handle_bad_record (c : config) (r : dict) (rest : list string) (snapshot : dict) : res py_exn dict :=
  match on_error c with
  | OnRaise => raise TransformError
  | OnNull => res_foldM (fun r f => _set_outputs c r f VNone VNone) rest r
  | OnKeep => Ok snapshot
  end.

(** ** Applying the transform *)

Class Clock := { epoch_of : pyval -> res py_exn spec_float }.

Section apply.
Context `{!PyText, !Clock}.

Fixpoint first_timestamp (fs : list string) (r : dict) : res py_exn spec_float :=
  match fs with
  | [] => raise TransformError
  | f :: fs' =>
      let '(found, x) := get_path r f in
      if (found && negb (py_eq x VNone) && negb (py_eq x (VStr "")))%bool then epoch_of x
      else first_timestamp fs' r
  end.

Definition _resolve_timestamp (c : config) (r : dict) : res py_exn spec_float :=
  first_timestamp (timestamp_fields c) r.

Fixpoint identity_parts (kfs : list string) (r : dict) : option (list string) :=
  match kfs with
  | [] => Some []
  | k :: kfs' =>
      let '(found, x) := get_path r k in
      if (negb found || py_eq x VNone)%bool then None
      else ps ← identity_parts kfs' r; Some ((k ++ "=" ++ py_text x)%string :: ps)
  end.

Definition _identity (c : config) (meta r : dict) (f : string) : option string :=
  let host := py_text (match dget "source_host" meta with Some x => x | None => VStr "" end) in
  ps ← identity_parts (key_fields c) r;
  Some (py_join _ID_SEP (host :: ps ++ [f])).

(** What the loop over the fields of one record ends with. *)
Inductive outcome :=
| Finished (r : dict) (first_sight : bool)
| BadRecord (r : dict)
| Raised (e : py_exn).

Definition bad (m : res py_exn dict) : outcome :=
  match m with Ok r => BadRecord r | Raise e => Raised e end.

(** One field whose reading, identity and previous sample are known: the
    metrics it increments and the record it leaves. *)
Definition emit_delta (c : config) (r : dict) (f : string) (now_v : Z) (t_now : spec_float)
    (prev : sample) (s : st) : st * res py_exn dict :=
  let elapsed := SFsub prec emax t_now (t prev) in
  match _resolve_width c r f (v prev) now_v with
  | Raise e => (s, raise e)
  | Ok w =>
      let gap := match max_gap_seconds c with Some g => SFltb g elapsed | None => false end in
      let '(delta, is_reset) := if gap then (now_v, true) else _delta_for (reset_threshold c) (v prev) now_v w in
      let r1 := if is_reset then dset "_counter_reset" (VBool true) r else r in
      let s1 := if is_reset then inc_resets f s
                else if now_v <? v prev then inc_wraps f s else s in
      (s1, let? rate := rate_of delta elapsed in
           let? r2 := _set_outputs c r1 f (VInt delta) rate in
           Ok (if keep_raw c then r2 else (delete_path r2 f).2))
  end.

(** The loop over [fields]; [fs] is what is left of them. *)
Fixpoint fields_loop (c : config) (record : dict) (t_now : spec_float) (fs : list string)
    (r : dict) (first_sight : bool) (s : st) : st * outcome :=
  match fs with
  | [] => (s, Finished r first_sight)
  | f :: fs' =>
      let bad_record := bad (_handle_bad_record c r fs record) in
      let '(found, raw_v) := get_path r f in
      if (negb found || match raw_v with VNone | VBool _ => true | _ => false end)%bool
      then (s, bad_record)
      else match py_int_of raw_v with
      | Raise TypeErrorExn | Raise ValueErrorExn => (s, bad_record)
      | Raise e => (s, Raised e)
      | Ok now_v =>
          match _identity c (_meta s) r f with
          | None => (s, bad_record)
          | Some identity =>
              match _state s !! identity with
              | None =>
                  let s1 := put_sample identity (mkSample now_v t_now) s in
                  match _set_outputs c r f VNone VNone with
                  | Raise e => (s1, Raised e)
                  | Ok r1 => fields_loop c record t_now fs' r1 true s1
                  end
              | Some prev =>
                  match emit_delta c r f now_v t_now prev s with
                  | (s1, Raise e) => (s1, Raised e)
                  | (s1, Ok r1) =>
                      fields_loop c record t_now fs' r1 first_sight
                        (put_sample identity (mkSample now_v t_now) s1)
                  end
              end
          end
      end
  end.

(** One record: the rows it contributes. *)
Definition apply_record (c : config) (record : dict) (s : st) : st * res py_exn (list dict) :=
  match _resolve_timestamp c record with
  | Raise TransformError =>
      (s, let? r := _handle_bad_record c record (fields c) record in Ok [r])
  | Raise e => (s, raise e)
  | Ok t_now =>
      match fields_loop c record t_now (fields c) record false s with
      | (s', Raised e) => (s', raise e)
      | (s', BadRecord r) => (s', Ok [r])
      | (s', Finished r first_sight) =>
          (s', Ok (if (drop_first c && first_sight)%bool then [] else [r]))
      end
  end.

Fixpoint apply (c : config) (records : list dict) (s : st) : st * res py_exn (list dict) :=
  match records with
  | [] => (s, Ok [])
  | record :: rest =>
      match apply_record c record s with
      | (s1, Raise e) => (s1, raise e)
      | (s1, Ok rows) =>
          match apply c rest s1 with
          | (s2, Raise e) => (s2, raise e)
          | (s2, Ok out) => (s2, Ok (rows ++ out))
          end
      end
  end.
End apply.

End CounterDelta.
