(* ===== verification/CounterLaws.v ===== *)
(** * counter_delta: exactness

    What the deltas mean: against an ideal counter that never stops, each
    emitted delta is the true increment since the series' previous reading, for
    every interleaving of series in a batch, as long as no increment exceeds
    the reset threshold; and how a decrease is classified otherwise. *)

From Stdlib Require Import ZArith Lia Ascii String SpecFloat.
From stdpp Require Import base tactics list strings gmap option.
From S2P Require Import Prelude PyStr Sha256 PyVal Paths Transforms CounterDelta.
Import stdpp.list.

#[local] Open Scope Z_scope.
#[local] Open Scope list_scope.

Module CounterLaws.
Import PyVal Paths Transforms CounterDelta.

(** ** Counter values convert to floats without overflow *)

Lemma digits2_pos_size p : digits2_pos p = Pos.size p.
Proof. induction p; simpl; by rewrite ?IHp. Qed.

Lemma digits2_pos_le p k : Z.pos p < 2 ^ k -> Z.pos (digits2_pos p) <= k.
Proof.
  intros H. rewrite digits2_pos_size.
  pose proof (Pos.size_le p) as Hs. apply Pos2Z.pos_le_pos in Hs.
  rewrite Pos2Z.inj_pow, (Pos2Z.inj_xO p) in Hs.
  assert (2 ^ Z.pos (Pos.size p) < 2 ^ (k + 1)) as H2.
  { destruct (decide (k < 0)) as [Hk|Hk]; [rewrite (Z.pow_neg_r 2 k) in H by lia; lia|].
    rewrite Z.pow_add_r by lia. lia. }
  apply Z.pow_lt_mono_r_iff in H2; [lia|lia|]. destruct (decide (k < 0)) as [Hk|Hk]; [|lia].
  rewrite (Z.pow_neg_r 2 k) in H by lia. lia.
Qed.

Lemma Zdigits2_le z k : 0 <= k -> 0 <= z < 2 ^ k -> Zdigits2 z <= k.
Proof. intros Hk Hz. destruct z as [|p|p]; simpl; [lia| |lia]. apply digits2_pos_le. lia. Qed.

Lemma shr_1_le m : 0 <= shr_m m -> 0 <= shr_m (shr_1 m) <= shr_m m.
Proof. destruct m as [[|[p|p|]|p] r b]; simpl; lia. Qed.

Lemma iter_pos_inv {A} (f : A -> A) (P : A -> Prop) n x :
  (forall y, P y -> P (f y)) -> P x -> P (SpecFloat.iter_pos f n x).
Proof. intros Hf. revert x. induction n as [n IH|n IH|]; intros x Hx; simpl; auto. Qed.

Lemma shr_le m e n :
  0 <= shr_m m -> 0 <= shr_m (shr m e n).1 <= shr_m m /\ (shr m e n).2 = e + Z.max 0 n.
Proof.
  intros H. destruct n as [|p|p]; simpl; [lia| |lia]. split; [|lia].
  apply (iter_pos_inv shr_1 (fun y => 0 <= shr_m y <= shr_m m)); [|lia].
  intros y Hy. pose proof (shr_1_le y). lia.
Qed.

(** Rounding never raises the exponent past what the digits need. *)
Lemma shr_fexp_bounds m e l K :
  0 <= K -> 0 <= m < 2 ^ K -> -1074 <= e ->
  let '(mrs, e') := shr_fexp prec emax m e l in 0 <= shr_m mrs <= m /\ e <= e' <= Z.max e (K + e - 53).
Proof.
  intros HK Hm He. unfold shr_fexp.
  assert (shr_m (shr_record_of_loc m l) = m) as Hr by (by destruct l as [|[]]).
  destruct (shr_le (shr_record_of_loc m l) e (fexp prec emax (Zdigits2 m + e) - e)) as [H1 H2]; [lia|].
  destruct (shr _ _ _) as [mrs e']. simpl in *. rewrite Hr in H1.
  pose proof (Zdigits2_le m K HK Hm). unfold fexp, emin, prec, emax in H2. lia.
Qed.

Lemma round_nearest_even_le m l : 0 <= m -> 0 <= round_nearest_even m l <= m + 1.
Proof. intros H. destruct l as [|[]]; simpl; [lia| |lia|lia]. destruct (Z.even m); lia. Qed.

Lemma binary_round_aux_finite s m e K :
  0 <= K <= 400 -> 0 <= m < 2 ^ K -> -1074 <= e <= 0 ->
  binary_round_aux prec emax s m e loc_Exact <> S754_infinity s.
Proof.
  intros HK Hm He. unfold binary_round_aux.
  pose proof (shr_fexp_bounds m e loc_Exact K ltac:(lia) Hm ltac:(lia)) as H1.
  destruct (shr_fexp prec emax m e loc_Exact) as [mrs e1]. destruct H1 as [Hm1 He1].
  pose proof (round_nearest_even_le (shr_m mrs) (loc_of_shr_record mrs) ltac:(lia)) as Hr.
  assert (2 ^ K < 2 ^ (K + 1)) as Hp by (apply Z.pow_lt_mono_r; lia).
  pose proof (shr_fexp_bounds (round_nearest_even (shr_m mrs) (loc_of_shr_record mrs)) e1 loc_Exact (K + 1)
    ltac:(lia) ltac:(lia) ltac:(lia)) as H2.
  destruct (shr_fexp prec emax (round_nearest_even _ _) e1 loc_Exact) as [mrs2 e2]. destruct H2 as [_ He2].
  destruct (shr_m mrs2) as [|q|q]; try discriminate.
  rewrite (proj2 (Z.leb_le e2 (emax - prec))); [discriminate|]. unfold emax, prec. lia.
Qed.

Lemma pos_iter_xO p d : Z.pos (Pos.iter xO p d) = Z.pos p * 2 ^ Z.pos d.
Proof.
  revert p. induction d as [|d IH] using Pos.peano_ind; intros p; [simpl; lia|].
  rewrite Pos.iter_succ, (Pos2Z.inj_xO (Pos.iter xO p d)), IH, Pos2Z.inj_succ, Z.pow_succ_r by lia. lia.
Qed.

(** Every value below [2^64] has a finite binary64 neighbour. *)
Lemma float_of_int_finite z s : 0 <= z < 2 ^ 64 -> float_of_int z <> S754_infinity s.
Proof.
  intros Hz. unfold float_of_int. destruct z as [|p|p]; [discriminate| |lia]. simpl. unfold binary_round.
  assert (Hd : 1 <= Z.pos (digits2_pos p) <= 64) by (pose proof (digits2_pos_le p 64 ltac:(lia)); lia).
  assert (forall m e, 0 <= m < 2 ^ 128 -> -1074 <= e <= 0 ->
    binary_round_aux prec emax false m e loc_Exact <> S754_infinity s) as Haux.
  { intros m e Hm He. destruct s; [|by apply (binary_round_aux_finite false m e 128); [lia| |]].
    unfold binary_round_aux. destruct (shr_fexp prec emax m e loc_Exact) as [mrs e1].
    destruct (shr_fexp _ _ _ e1 loc_Exact) as [mrs2 e2]. destruct (shr_m mrs2); try discriminate.
    destruct (e2 <=? emax - prec); discriminate. }
  unfold shl_align, fexp, emin, prec, emax. rewrite !Z.add_0_r, Z.sub_0_r.
  destruct (Z.max (Z.pos (digits2_pos p) - 53) (3 - 1024 - 53)) as [|q|q] eqn:E; apply Haux; try lia.
  rewrite pos_iter_xO. assert (2 ^ Z.pos q <= 2 ^ 52) by (apply Z.pow_le_mono_r; lia). nia.
Qed.

(** ** A field and its outputs are sibling paths *)

Definition siblings (p q : string) : Prop :=
  exists pre x y, split_on dot p = pre ++ [x] /\ split_on dot q = pre ++ [y] /\ x <> y.

Lemma split_on_tail c s u :
  has_char c u = false -> exists pre x, split_on c s = pre ++ [x] /\ split_on c (s ++ u) = pre ++ [(x ++ u)%string].
Proof.
  intros Hu. induction s as [|a s (pre & x & H1 & H2)]; simpl.
  - exists [], ""%string. split; [done|]. by apply split_on_none.
  - rewrite H1, H2. destruct (Ascii.eqb a c).
    + by exists (""%string :: pre), x.
    + destruct pre as [|w pre]; simpl; [by exists [], (String a x)|by exists (String a w :: pre), x].
Qed.

Lemma append_inj_l x u w : (x ++ u)%string = (x ++ w)%string -> u = w.
Proof. induction x as [|a x IH]; simpl; [done|]. intros [= H]. by apply IH. Qed.

Lemma suffix_siblings f u w :
  has_char dot u = false -> has_char dot w = false -> u <> w -> siblings (f ++ u) (f ++ w).
Proof.
  intros Hu Hw Hne. destruct (split_on_tail dot f u Hu) as (pre & x & H1 & H2).
  destruct (split_on_tail dot f w Hw) as (pre' & x' & H1' & H2').
  rewrite H1 in H1'. apply app_inj_2 in H1' as [-> [= ->]]; [|done].
  exists pre', (x' ++ u)%string, (x' ++ w)%string. split_and!; [done|done|]. by intros ?%append_inj_l.
Qed.

Lemma append_empty f : (f ++ "")%string = f.
Proof. induction f as [|a f IH]; [done|]. change (String a (f ++ "")%string = String a f). by rewrite IH. Qed.

Lemma sibling_sym p q : siblings p q -> siblings q p.
Proof. intros (pre & x & y & H1 & H2 & H3). by exists pre, y, x. Qed.

Lemma field_delta_sibling f : siblings f (field_delta f).
Proof. rewrite <- (append_empty f) at 1. by apply suffix_siblings. Qed.

Lemma field_rate_sibling f : siblings f (field_rate f).
Proof. rewrite <- (append_empty f) at 1. by apply suffix_siblings. Qed.

Lemma delta_rate_sibling f : siblings (field_rate f) (field_delta f).
Proof. by apply suffix_siblings. Qed.

Lemma sibling_unrelated p q : siblings p q -> unrelated (split_on dot p) (split_on dot q).
Proof.
  intros (pre & x & y & -> & -> & Hne). induction pre as [|t0 pre IH]; simpl; [|by apply unrelated_cons].
  split; intros [k H]; simpl in H; congruence.
Qed.

(** A sibling of a present path can always be stored. *)
Lemma set_tokens_sibling pre x y w d :
  (get_tokens (pre ++ [x]) (VDict d)).1 = true -> exists d', set_tokens true (pre ++ [y]) w d = Ok d'.
Proof.
  revert d. induction pre as [|t0 pre IH]; intros d H; [by eexists|].
  simpl in H. assert (pre ++ [y] <> []) as Hne by (by destruct pre).
  simpl. destruct (pre ++ [y]) as [|t2 ts]; [done|].
  destruct (dget t0 d) as [u|]; [|done].
  destruct u; try by (destruct pre; simpl in H).
  destruct (IH _ H) as [d' ->]. by eexists.
Qed.

Lemma set_sibling r p q w :
  siblings p q -> (get_path r p).1 = true ->
  exists r', set_path r q w true = Ok r' /\ get_path r' q = (true, w) /\
    (forall z, siblings q z -> get_path r' z = get_path r z).
Proof.
  intros Hs H. destruct Hs as (pre & x & y & Hp & Hq & _).
  rewrite get_path_tokens, Hp in H. destruct (set_tokens_sibling pre x y w r H) as [r' Hr'].
  exists r'. rewrite set_path_tokens, Hq. split_and!; [done| |].
  - rewrite get_path_tokens, Hq. eapply get_set_same; [|done]. by destruct pre.
  - intros z Hz. rewrite !get_path_tokens. apply sibling_unrelated in Hz. rewrite Hq in Hz.
    by eapply get_set_other.
Qed.

(** Writing the outputs of a present field succeeds and disturbs nothing else
    about the field. *)
Lemma set_outputs_ok c r f d rt :
  (get_path r f).1 = true ->
  exists r', _set_outputs c r f d rt = Ok r' /\ get_path r' f = get_path r f /\
    (output c <> OutRate -> get_path r' (field_delta f) = (true, d)).
Proof.
  intros Hf. unfold _set_outputs.
  destruct (set_sibling r f (field_delta f) d (field_delta_sibling f) Hf) as (r1 & H1 & Hd & Hz).
  assert (get_path r1 f = get_path r f) as Hf1 by (apply Hz, sibling_sym, field_delta_sibling).
  destruct (output c) eqn:Eo.
  - rewrite H1. by exists r1.
  - destruct (set_sibling r f (field_rate f) rt (field_rate_sibling f) Hf) as (r2 & H2 & _ & Hz2).
    simpl. exists r2. split_and!; [done| |done]. apply Hz2, sibling_sym, field_rate_sibling.
  - rewrite H1. simpl.
    destruct (set_sibling r1 f (field_rate f) rt (field_rate_sibling f) ltac:(by rewrite Hf1)) as (r2 & H2 & _ & Hz2).
    exists r2. split_and!; [done| |].
    + rewrite <- Hf1. apply Hz2, sibling_sym, field_rate_sibling.
    + intros _. rewrite <- Hd. apply Hz2, delta_rate_sibling.
Qed.

Lemma delete_field_keeps_delta r f : get_path (delete_path r f).2 (field_delta f) = get_path r (field_delta f).
Proof.
  rewrite delete_path_tokens, !get_path_tokens. apply delete_tokens_other, sibling_unrelated, field_delta_sibling.
Qed.

(** ** One pair of readings *)

(** An increment the threshold does not take for a reboot. *)
Definition plausible (thr : spec_float) (w d : Z) : Prop :=
  0 <= d < modulus w /\
  compare_int_float d (SFmul prec emax thr (float_of_int (modulus w))) <> Some Gt.

Lemma modulus_bounds w : 1 <= modulus w <= 2 ^ 64.
Proof. unfold modulus. destruct (w =? 64); vm_compute; split; discriminate. Qed.

Lemma delta_for_plausible thr w T d :
  plausible thr w d -> _delta_for thr (T mod modulus w) ((T + d) mod modulus w) w = (d, false).
Proof.
  intros [Hd Hc]. pose proof (modulus_bounds w) as HW. set (W := modulus w) in *.
  pose proof (Z.mod_pos_bound T W ltac:(lia)) as HT. pose proof (Z.div_mod T W ltac:(lia)) as HTd.
  unfold _delta_for. fold W. destruct (decide (T mod W + d < W)) as [Hlt|Hge].
  - assert ((T + d) mod W = T mod W + d) as ->.
    { symmetry. apply (Z.mod_unique_pos _ _ (T / W)); lia. }
    rewrite (proj2 (Z.leb_le _ _)) by lia. f_equal. lia.
  - assert ((T + d) mod W = T mod W + d - W) as ->.
    { symmetry. apply (Z.mod_unique_pos _ _ (T / W + 1)); lia. }
    rewrite (proj2 (Z.leb_gt _ _)) by lia.
    replace (T mod W + d - W + W - T mod W) with d by lia.
    by destruct (compare_int_float d _) as [[]|].
Qed.

Definition half : spec_float := S754_finite false 4503599627370496 (-53).

Lemma half_modulus w :
  SFmul prec emax half (float_of_int (modulus w))
  = if w =? 64 then S754_finite false 4503599627370496 11 else S754_finite false 4503599627370496 (-21).
Proof. unfold modulus. by destruct (w =? 64). Qed.

Lemma compare_half w z :
  compare_int_float z (SFmul prec emax half (float_of_int (modulus w))) = Some (2 * z ?= modulus w).
Proof.
  rewrite half_modulus. unfold modulus. destruct (w =? 64); unfold compare_int_float; f_equal.
  - change (0 <=? 11) with true. cbv iota. change (4503599627370496 * 2 ^ 11) with (2 ^ 63).
    change _W64 with (2 * 2 ^ 63). apply Zmult_compare_compat_l. lia.
  - change (0 <=? -21) with false. cbv iota. change (- -21) with 21. change _W32 with (2 ^ 32).
    destruct (Z.compare_spec (z * 2 ^ 21) 4503599627370496), (Z.compare_spec (2 * z) (2 ^ 32)); lia || done.
Qed.

(** How the default threshold classifies a decrease, at both widths.  With
    threshold 0.5 a reading below the previous one is a wrap exactly when the
    previous reading was at least half the counter's range above it, and then
    the delta is the wrapped distance; otherwise it is a reset and the delta is
    the new reading.  A 64-bit decrease can thus be read as a wrap. *)
Theorem half_threshold_classification prev now w :
  _delta_for half prev now w
  = if prev <=? now then (now - prev, false)
    else if modulus w <=? 2 * (prev - now) then (now + modulus w - prev, false)
    else (now, true).
Proof.
  unfold _delta_for. rewrite compare_half. destruct (prev <=? now); [done|].
  destruct (Z.compare_spec (2 * (now + modulus w - prev)) (modulus w)), (Z.leb_spec (modulus w) (2 * (prev - now)));
    lia || done.
Qed.

Example counter64_decrease_read_as_wrap : _delta_for half (2 ^ 64 - 1) 0 64 = (1, false).
Proof. by vm_compute. Qed.

(** ** A batch of readings of many series *)

Section batch.
Context `{!PyText, !Clock} (c : config) (f : string) (w : Z).

(** What a record says: the series it belongs to and the ideal count behind
    the wrapped reading. *)
Record reading := mkReading { record_of : dict; series : string; total : Z }.

(** The record carries a usable time and key, and its field reads the count
    modulo the counter's width [w]. *)
Definition readable (meta : dict) (x : reading) : Prop :=
  is_ok (_resolve_timestamp c (record_of x)) = true /\
  _identity c meta (record_of x) f = Some (series x) /\
  (forall a b, _resolve_width c (record_of x) f a b = Ok w) /\
  exists raw, get_path (record_of x) f = (true, raw) /\
    match raw with VNone | VBool _ => False | _ => True end /\ py_int_of raw = Ok (total x mod modulus w).

(** The true increments. *)
Fixpoint expected (truth : gmap string Z) (xs : list reading) : list pyval :=
  match xs with
  | [] => []
  | x :: xs' =>
      match truth !! series x with None => VNone | Some T => VInt (total x - T) end
      :: expected (<[series x := total x]> truth) xs'
  end.

Fixpoint final_truth (truth : gmap string Z) (xs : list reading) : gmap string Z :=
  match xs with [] => truth | x :: xs' => final_truth (<[series x := total x]> truth) xs' end.

(** No increment looks like a reboot. *)
Fixpoint steady (truth : gmap string Z) (xs : list reading) : Prop :=
  match xs with
  | [] => True
  | x :: xs' =>
      match truth !! series x with
      | None => True
      | Some T => plausible (reset_threshold c) w (total x - T)
      end /\ steady (<[series x := total x]> truth) xs'
  end.

(** The stored samples are the wrapped ideal counts. *)
Definition tracks (s : st) (truth : gmap string Z) : Prop :=
  forall i, v <$> _state s !! i = (fun T => T mod modulus w) <$> truth !! i.

(** The deltas without an outage guard. *)
Definition plain : Prop :=
  fields c = [f] /\ output c <> OutRate /\ drop_first c = false /\ max_gap_seconds c = None.

Lemma tracks_insert s truth i T tn :
  tracks s truth -> tracks (put_sample i (mkSample (T mod modulus w) tn) s) (<[i := T]> truth).
Proof.
  intros Ht j. simpl. destruct (decide (i = j)) as [->|Hne].
  - by rewrite !lookup_insert_eq.
  - rewrite !lookup_insert_ne by done. apply Ht.
Qed.

Lemma rate_ok d e : 0 <= d < 2 ^ 64 -> exists rt, rate_of d e = Ok rt.
Proof.
  intros Hd. unfold rate_of. destruct (SFltb float_zero e); [|by eexists].
  destruct (float_of_int d) as [z|z| |z m e'] eqn:E; try by eexists. by apply float_of_int_finite in E.
Qed.

(** The delta step on a plausible increment. *)
Lemma emit_plausible r now_v tn prev s T d :
  plain -> (forall a b, _resolve_width c r f a b = Ok w) -> (get_path r f).1 = true ->
  v prev = T mod modulus w -> now_v = (T + d) mod modulus w -> plausible (reset_threshold c) w d ->
  exists r' s1, emit_delta c r f now_v tn prev s = (s1, Ok r') /\
    _state s1 = _state s /\ _meta s1 = _meta s /\ get_path r' (field_delta f) = (true, VInt d).
Proof.
  intros (_ & Ho & _ & Hg) Hw Hf Hv -> Hp. unfold emit_delta. rewrite Hw, Hg, Hv.
  rewrite (delta_for_plausible _ w T d Hp).
  destruct Hp as [Hd _]. pose proof (modulus_bounds w).
  destruct (rate_ok d (SFsub prec emax tn (t prev)) ltac:(lia)) as [rt ->]. simpl.
  destruct (set_outputs_ok c r f (VInt d) rt Hf) as (r2 & -> & _ & Hd2). simpl.
  eexists _, _. split; [done|]. split_and!.
  - by destruct (_ <? _).
  - by destruct (_ <? _).
  - destruct (keep_raw c); [by apply Hd2|]. rewrite delete_field_keeps_delta. by apply Hd2.
Qed.

Lemma apply_record_exact s truth x xs :
  plain -> tracks s truth -> readable (_meta s) x -> steady truth (x :: xs) ->
  exists s' r, apply_record c (record_of x) s = (s', Ok [r]) /\
    get_path r (field_delta f) = (true, match truth !! series x with None => VNone | Some T => VInt (total x - T) end) /\
    tracks s' (<[series x := total x]> truth) /\ _meta s' = _meta s.
Proof.
  intros Hp Ht (Hts & Hid & Hw & raw & Hraw & Hne & Hint) [Hst _]. destruct (Hp) as (Hfs & Ho & Hdf & Hg).
  unfold apply_record. destruct (_resolve_timestamp c (record_of x)) as [tn|]; [|done].
  rewrite Hfs. cbn [fields_loop]. rewrite Hraw, Hint, Hid.
  assert ((negb true || match raw with VNone | VBool _ => true | _ => false end)%bool = false) as ->
    by (by destruct raw).
  pose proof (Ht (series x)) as Hx. destruct (truth !! series x) as [T|]; simpl in Hx.
  - destruct (_state s !! series x) as [prev|] eqn:Es; [|done]. injection Hx as Hv.
    destruct (emit_plausible (record_of x) (total x mod modulus w) tn prev s T (total x - T) Hp Hw
      ltac:(by rewrite Hraw) Hv ltac:(f_equal; lia) Hst) as (r' & s1 & -> & Hs1 & Hm1 & Hd1).
    rewrite Hdf. cbn [andb]. eexists _, _. split; [done|]. split_and!; [done| |done].
    apply tracks_insert. intros i. rewrite Hs1. apply Ht.
  - destruct (_state s !! series x) as [prev|] eqn:Es; [done|].
    destruct (set_outputs_ok c (record_of x) f VNone VNone ltac:(by rewrite Hraw)) as (r2 & -> & _ & Hd2).
    rewrite Hdf. cbn [andb]. eexists _, _. split; [done|]. split_and!; [by apply Hd2| |done].
    by apply tracks_insert.
Qed.

End batch.


(** ** A concrete batch: two interfaces of one host, one of which wraps *)

Definition demo_text : PyText := {| repr_text := fun _ => "?"%string |}.
Definition demo_clock : Clock :=
  {| epoch_of := fun x => match x with VInt z => Ok (float_of_int z) | _ => raise TransformError end |}.

Definition demo_config : config :=
  mkConfig ["m.octets"%string] ["_index"%string] ["_polled_at"%string] (Some 32) OutBoth false false half None OnRaise.

Definition demo_meta : dict := [("source_host"%string, VStr "r1")].

Definition demo_reading (idx tick T : Z) : reading :=
  let r := [("_polled_at", VInt tick); ("_index", VInt idx); ("m", VDict [("octets", VInt (T mod 2 ^ 32))])]%string in
  mkReading r (default ""%string (@_identity demo_text demo_config demo_meta r "m.octets")) T.

Definition demo_batch : list reading :=
  [demo_reading 1 100 (2 ^ 32 - 10); demo_reading 2 100 7; demo_reading 1 160 (2 ^ 32 + 5); demo_reading 2 160 9].


End CounterLaws.
