(* ===== verification/WindowAggregate.v ===== *)
(** * window_aggregate: tumbling windows with a watermark

    tram/transforms/window_aggregate.py.  Records are folded into running
    accumulators per (group, window); a window is emitted once the watermark
    (the largest event time minus the allowed lateness) has passed its end.
    The open windows are nested insertion-ordered dicts, and a min-heap of
    (end, group) pairs finds the due ones.  [heapq] is used as a priority
    queue ([heap[0]], [heappop], [heappush], [heapify]): the queue is its
    elements in the order it pops them.

    As in [CounterDelta], the state survives an exception, and event times come
    from [Clock]. *)

From Stdlib Require Import ZArith Lia Ascii String SpecFloat.
From stdpp Require Import base tactics list strings gmap option sorting.
From S2P Require Import Prelude PyStr Sha256 IsoTime PyVal Paths Transforms CounterDelta.
Import stdpp.list.

#[local] Open Scope Z_scope.
#[local] Open Scope list_scope.

Module WindowAggregate.
Import PyVal Paths Transforms.

(** ** Operations and accumulators *)

Inductive op := Sum | Avg | Min | Max | Count | First | Last.

#[global] Instance op_eq_dec : EqDecision op.
Proof. solve_decision. Defined.

Inductive accumulator :=
| AAvg (sum : pyval) (count : Z)
| ACount (value : Z)
| ASeen (value : pyval) (seen : bool)      (* sum, min, max, first *)
| ALast (value : pyval).

Definition float_zero : spec_float := S754_zero false.

Definition _new_accumulator (o : op) : accumulator :=
  match o with
  | Avg => AAvg (VFloat float_zero) 0
  | Count => ACount 0
  | First | Sum | Min | Max => ASeen VNone false
  | Last => ALast VNone
  end.

Definition _is_numeric (x : pyval) : bool := match x with VInt _ | VFloat _ => true | _ => false end.

(** [float(z)] as arithmetic does it: too large an integer raises. *)
Definition to_float (x : pyval) : res py_exn spec_float :=
  match x with
  | VFloat f => Ok f
  | VInt z => match float_of_int z with
              | S754_infinity _ => raise OverflowErrorExn
              | f => Ok f
              end
  | VBool b => Ok (float_of_int (if b then 1 else 0))
  | _ => raise TypeErrorExn
  end.

(** [a + b] of two numbers. *)
Definition py_add (a b : pyval) : res py_exn pyval :=
  match a, b with
  | VInt x, VInt y => Ok (VInt (x + y))
  | _, _ => let? f := to_float a in let? g := to_float b in Ok (VFloat (SFadd prec emax f g))
  end.

(** [min(a, b)] and [max(a, b)] of two numbers: the first one on a tie. *)
Definition py_min (a b : pyval) : res py_exn pyval := let? lt := py_lt b a in Ok (if lt then b else a).
Definition py_max (a b : pyval) : res py_exn pyval := let? gt := py_lt a b in Ok (if gt then b else a).

Definition is_none (x : pyval) : bool := match x with VNone => true | _ => false end.

(** Each operation updates the accumulator shape it was created with. *)
Definition _update_accumulator (o : op) (acc : accumulator) (x : pyval) : res py_exn accumulator :=
  match o, acc with
  | Sum, ASeen v _ =>
      if _is_numeric x then
        let? s := py_add (if CounterDelta.truthy v then v else VFloat float_zero) x in Ok (ASeen s true)
      else Ok acc
  | Avg, AAvg s n =>
      if _is_numeric x then let? s' := py_add s x in Ok (AAvg s' (n + 1)) else Ok acc
  | Min, ASeen v seen =>
      if _is_numeric x then let? m := (if seen then py_min v x else Ok x) in Ok (ASeen m true) else Ok acc
  | Max, ASeen v seen =>
      if _is_numeric x then let? m := (if seen then py_max v x else Ok x) in Ok (ASeen m true) else Ok acc
  | Count, ACount n => Ok (ACount (if is_none x then n else n + 1))
  | First, ASeen v seen => Ok (if (negb seen && negb (is_none x))%bool then ASeen x true else acc)
  | Last, ALast v => Ok (ALast (if is_none x then v else x))
  | _, _ => Ok acc
  end.

Definition _emit_value (o : op) (acc : accumulator) : res py_exn pyval :=
  match o, acc with
  | Sum, ASeen v seen => Ok (if seen then v else VNone)
  | Avg, AAvg s n =>
      if n =? 0 then Ok VNone
      else let? f := to_float s in let? g := to_float (VInt n) in Ok (VFloat (SFdiv prec emax f g))
  | (Min | Max | First), ASeen v _ => Ok v
  | Last, ALast v => Ok v
  | Count, ACount n => Ok (VInt n)
  | _, _ => Ok VNone
  end.

(** ** Configuration and state *)

Record config := mkConfig {
  window_seconds : Z;
  allowed_lateness_seconds : spec_float;
  timestamp_fields : list string;
  group_by : list string;
  operations : list (string * (op * string));
}.

Definition init (c : config) : res py_exn config :=
  if window_seconds c <=? 0 then raise TransformError
  else if SFltb (allowed_lateness_seconds c) float_zero then raise TransformError
  else if bool_decide (timestamp_fields c = []) then raise TransformError
  else match operations c with [] => raise TransformError | _ => Ok c end.

Record entry := mkEntry {
  e_start : Z;
  e_end : Z;
  e_group_values : list pyval;
  e_sample_count : Z;
  e_acc : list accumulator;            (* one per operation, in their order *)
}.

Notation window_map := (list (string * list (Z * entry))).

(** The heap order: Python compares the pairs. *)
Definition due_le (a b : Z * string) : Prop := a.1 < b.1 \/ (a.1 = b.1 /\ String.le a.2 b.2).

#[global] Instance due_le_dec a b : Decision (due_le a b).
Proof. unfold due_le. apply _. Defined.

Definition heapify (l : list (Z * string)) : list (Z * string) := merge_sort due_le l.
Definition heappush (h : list (Z * string)) (x : Z * string) : list (Z * string) := list_merge due_le [x] h.

Record st := mkSt {
  _max_ts : option spec_float;
  _windows : window_map;
  _due_heap : list (Z * string);
  late_dropped : Z;
  emitted_complete : Z;
  emitted_partial : Z;
}.

Definition open_pairs {A} (ws : list (string * list (Z * A))) : list (Z * string) :=
  gw ← ws; (fun ew => (ew.1, gw.1)) <$> gw.2.

Definition _rebuild_due_heap (s : st) : st :=
  mkSt (_max_ts s) (_windows s) (heapify (open_pairs (_windows s)))
    (late_dropped s) (emitted_complete s) (emitted_partial s).

(** The blob after a trip through JSON: the integer keys are strings. *)
Record blob := mkBlob { b_max_ts : option spec_float; b_windows : list (string * list (string * entry)) }.

Definition get_state (s : st) : blob :=
  mkBlob (_max_ts s) (map (fun gw => (gw.1, map (fun ew => (py_str ew.1, ew.2)) gw.2)) (_windows s)).

Definition set_state (b : blob) (s : st) : res py_exn st :=
  let? ws := res_mapM (fun gw =>
    let? inner := res_mapM (fun ew => let? e := of_option ValueErrorExn (py_int ew.1) in Ok (e, ew.2)) gw.2 in
    Ok (gw.1, inner)) (b_windows b) in
  Ok (_rebuild_due_heap (mkSt (b_max_ts b) ws [] (late_dropped s) (emitted_complete s) (emitted_partial s))).

(** ** Emission *)

(** [datetime.fromtimestamp(n, tz=UTC).strftime]; a year outside 1..9999
    raises, and the year is not padded. *)
Definition _iso_utc (n : Z) : res py_exn string :=
  if ((n <? -62135596800) || (253402300799 <? n))%bool then raise ValueErrorExn
  else
    let '(y, m, d) := IsoTime.ymd_of_days (n / 86400) in
    let r := n mod 86400 in
    Ok (py_str y ++ "-" ++ IsoTime.zpad 2 m ++ "-" ++ IsoTime.zpad 2 d ++ "T" ++
        IsoTime.zpad 2 (r / 3600) ++ ":" ++ IsoTime.zpad 2 ((r / 60) mod 60) ++ ":" ++
        IsoTime.zpad 2 (r mod 60) ++ "Z")%string.

Definition _emit_window (c : config) (e : entry) (complete : bool) : res py_exn dict :=
  let out := fold_left (fun out fv => dset fv.1 fv.2 out) (zip (group_by c) (e_group_values e)) [] in
  let? ws := _iso_utc (e_start e) in
  let? we := _iso_utc (e_end e) in
  let? out := res_foldM (fun out (oa : (string * (op * string)) * accumulator) =>
                let? x := _emit_value oa.1.2.1 oa.2 in Ok (dset oa.1.1 x out))
                (zip (operations c) (e_acc e))
                (dset "window_end" (VStr we) (dset "window_start" (VStr ws) out)) in
  Ok (dset "window_complete" (VBool complete) (dset "sample_count" (VInt (e_sample_count e)) out)).

(** [n <= f] of an integer and a float. *)
Definition int_le_float (n : Z) (f : spec_float) : bool :=
  match compare_int_float n f with Some Gt | None => false | _ => true end.

Definition watermark (c : config) (s : st) : option spec_float :=
  (fun m => SFsub prec emax m (allowed_lateness_seconds c)) <$> _max_ts s.

(** The loop over the heap. *)
Fixpoint finalize_loop (c : config) (wm : spec_float) (h : list (Z * string)) (ws : window_map) (n : Z)
  : list (Z * string) * window_map * Z * res py_exn (list dict) :=
  match h with
  | [] => (h, ws, n, Ok [])
  | (e, g) :: h' =>
      if negb (int_le_float e wm) then (h, ws, n, Ok [])
      else match aget g ws with
      | None => finalize_loop c wm h' ws n
      | Some inner =>
          match aget e inner with
          | None => finalize_loop c wm h' ws n
          | Some en =>
              let inner' := adel e inner in
              match _emit_window c en true with
              | Raise x => (h', aset g inner' ws, n, raise x)
              | Ok r =>
                  let ws' := match inner' with [] => adel g ws | _ => aset g inner' ws end in
                  let '(h1, ws1, n1, out) := finalize_loop c wm h' ws' (n + 1) in
                  (h1, ws1, n1, let? rest := out in Ok (r :: rest))
              end
          end
      end
  end.

Definition _finalize_due_windows (c : config) (s : st) : st * res py_exn (list dict) :=
  match watermark c s with
  | None => (s, Ok [])
  | Some wm =>
      let '(h, ws, n, out) := finalize_loop c wm (_due_heap s) (_windows s) (emitted_complete s) in
      (mkSt (_max_ts s) ws h (late_dropped s) n (emitted_partial s), out)
  end.

(** [sorted(windows)] on the integer keys. *)
Definition sorted_ends (inner : list (Z * entry)) : list Z := merge_sort Z.le inner.*1.

(** The partial windows of every group, groups in insertion order. *)
Definition flush_entries (ws : window_map) : list entry :=
  gw ← ws; omap (fun e => aget e gw.2) (sorted_ends gw.2).

Fixpoint flush_loop (c : config) (es : list entry) (n : Z) : Z * res py_exn (list dict) :=
  match es with
  | [] => (n, Ok [])
  | e :: es' =>
      match _emit_window c e false with
      | Raise x => (n, raise x)
      | Ok r => let '(n', out) := flush_loop c es' (n + 1) in (n', let? rest := out in Ok (r :: rest))
      end
  end.

Definition close (c : config) (flush : bool) (s : st) : st * res py_exn (list dict) :=
  match flush, _windows s with
  | false, _ | _, [] => (s, Ok [])
  | true, ws =>
      match flush_loop c (flush_entries ws) (emitted_partial s) with
      | (n, Raise x) => (mkSt (_max_ts s) ws (_due_heap s) (late_dropped s) (emitted_complete s) n, raise x)
      | (n, Ok out) => (mkSt (_max_ts s) [] [] (late_dropped s) (emitted_complete s) n, Ok out)
      end
  end.

(** ** Applying the transform *)

(** [math.floor] of a float. *)
Definition float_floor (f : spec_float) : res py_exn Z :=
  match f with
  | S754_nan => raise ValueErrorExn
  | S754_infinity _ => raise OverflowErrorExn
  | S754_zero _ => Ok 0
  | S754_finite s m e =>
      let n := if s then Z.neg m else Z.pos m in
      Ok (if 0 <=? e then n * 2 ^ e else n / 2 ^ (- e))
  end.

Definition window_start (c : config) (ts : spec_float) : res py_exn Z :=
  let? w := to_float (VInt (window_seconds c)) in
  let? q := float_floor (SFdiv prec emax ts w) in
  Ok (q * window_seconds c).

Definition field_value (r : dict) (f : string) : pyval :=
  let '(found, x) := get_path r f in if found then x else VNone.

(** The update of every accumulator; what was updated before a failing one
    stays. *)
Fixpoint update_all (ops : list (string * (op * string))) (accs : list accumulator) (r : dict)
  : list accumulator * option py_exn :=
  match ops, accs with
  | (_, (o, src)) :: ops', a :: accs' =>
      match _update_accumulator o a (field_value r src) with
      | Raise x => (a :: accs', Some x)
      | Ok a' => let '(rest, x) := update_all ops' accs' r in (a' :: rest, x)
      end
  | _, _ => (accs, None)
  end.

Definition set_windows (ws : window_map) (h : list (Z * string)) (s : st) : st :=
  mkSt (_max_ts s) ws h (late_dropped s) (emitted_complete s) (emitted_partial s).

Section apply.
Context `{!PyText, !CounterDelta.Clock}.

Definition _group_key (c : config) (r : dict) : string * list pyval :=
  let values := field_value r <$> group_by c in
  (py_join CounterDelta._ID_SEP ((fun v => match v with VNone => ""%string | _ => py_text v end) <$> values), values).

(** Fold a record into its window, opening it when it is new. *)
Definition fold_record (c : config) (r : dict) (start wend : Z) (s : st) : st * res py_exn unit :=
  let '(g, values) := _group_key c r in
  let inner := default [] (aget g (_windows s)) in
  let '(e, h) := match aget wend inner with
                 | Some e => (e, _due_heap s)
                 | None => (mkEntry start wend values 0 ((fun o => _new_accumulator o.2.1) <$> operations c),
                            heappush (_due_heap s) (wend, g))
                 end in
  let '(accs, x) := update_all (operations c) (e_acc e) r in
  let e' := mkEntry (e_start e) (e_end e) (e_group_values e) (e_sample_count e + 1) accs in
  (set_windows (aset g (aset wend e' inner) (_windows s)) h s,
   match x with Some x => raise x | None => Ok tt end).

Definition apply_record (c : config) (r : dict) (s : st) : st * res py_exn (list dict) :=
  match CounterDelta.first_timestamp (timestamp_fields c) r with
  | Raise x => (s, raise x)
  | Ok ts =>
      match window_start c ts with
      | Raise x => (s, raise x)
      | Ok start =>
          let wend := start + window_seconds c in
          if match watermark c s with Some wm => int_le_float wend wm | None => false end
          then (mkSt (_max_ts s) (_windows s) (_due_heap s) (late_dropped s + 1)
                  (emitted_complete s) (emitted_partial s), Ok [])
          else
            let newer := match _max_ts s with Some m => SFltb m ts | None => true end in
            let s1 := mkSt (if newer then Some ts else _max_ts s) (_windows s) (_due_heap s)
                        (late_dropped s) (emitted_complete s) (emitted_partial s) in
            match _finalize_due_windows c s1 with
            | (s2, Raise x) => (s2, raise x)
            | (s2, Ok out) =>
                let '(s3, x) := fold_record c r start wend s2 in
                (s3, let? _ := x in Ok out)
            end
      end
  end.

Fixpoint apply (c : config) (records : list dict) (s : st) : st * res py_exn (list dict) :=
  match records with
  | [] => (s, Ok [])
  | r :: rest =>
      match apply_record c r s with
      | (s1, Raise x) => (s1, raise x)
      | (s1, Ok rows) =>
          let '(s2, out) := apply c rest s1 in
          (s2, let? more := out in Ok (rows ++ more))
      end
  end.
End apply.

End WindowAggregate.
