(* ===== verification/WindowLaws.v ===== *)
(** * window_aggregate: refinement

    The transform keeps accumulators and a heap; its specification keeps the
    records of every open window and scans for the due ones.  The theorems show
    that the two emit the same rows, errors included, that no accepted record
    is lost or counted twice, that the state survives persistence, and what the
    accumulators compute. *)

From Stdlib Require Import ZArith Lia Ascii String SpecFloat.
From stdpp Require Import base tactics list strings gmap option sorting.
From S2P Require Import Prelude PyStr Sha256 IsoTime PyVal Paths Transforms CounterDelta WindowAggregate.
Import stdpp.list.

#[local] Open Scope Z_scope.
#[local] Open Scope list_scope.

Module WindowLaws.
Import PyVal Paths Transforms WindowAggregate.

(** ** The heap order *)

#[global] Instance due_le_preorder : PreOrder due_le.
Proof.
  split; unfold due_le; [intros a; right; by split|].
  intros a b c [H1|[H1 L1]] [H2|[H2 L2]]; [left; lia|left; lia|left; lia|right].
  split; [lia|]. by etransitivity.
Qed.

#[global] Instance due_le_antisymm : AntiSymm (=) due_le.
Proof.
  intros [e g] [e' g']; unfold due_le; simpl. intros [H1|[H1 L1]] [H2|[H2 L2]]; try lia.
  f_equal; [done|]. by apply (anti_symm String.le).
Qed.

#[global] Instance due_le_total : Total due_le.
Proof.
  intros [e g] [e' g']; unfold due_le; simpl. destruct (Z.lt_trichotomy e e') as [H|[->|H]]; [auto| |auto].
  destruct (total String.le g g'); auto.
Qed.

Lemma heapify_unique h l : Sorted due_le h -> h ≡ₚ l -> h = heapify l.
Proof.
  intros Hs Hp. apply (Sorted_unique due_le); [done|apply Sorted_merge_sort, _|].
  unfold heapify. by rewrite Hp, merge_sort_Permutation.
Qed.

Lemma heapify_perm l : heapify l ≡ₚ l.
Proof. apply merge_sort_Permutation. Qed.

Lemma heapify_sorted l : Sorted due_le (heapify l).
Proof. apply Sorted_merge_sort, _. Qed.

Lemma heappush_heapify l x : heappush (heapify l) x = heapify (x :: l).
Proof.
  apply heapify_unique.
  - apply Sorted_list_merge; [apply _|by repeat constructor|apply heapify_sorted].
  - unfold heappush. by rewrite merge_Permutation, heapify_perm.
Qed.

(** Being due is closed downwards. *)
Lemma int_le_float_mono a b f : a <= b -> int_le_float b f = true -> int_le_float a f = true.
Proof.
  unfold int_le_float, compare_int_float. intros H. destruct f as [s|s| |s m e]; [|done|done|].
  - destruct (Z.compare_spec b 0), (Z.compare_spec a 0); lia || done.
  - destruct (0 <=? e).
    + destruct (Z.compare_spec b ((if s then Z.neg m else Z.pos m) * 2 ^ e)),
        (Z.compare_spec a ((if s then Z.neg m else Z.pos m) * 2 ^ e)); lia || done.
    + assert (0 <= 2 ^ (- e)) by (apply Z.pow_nonneg; lia).
      destruct (Z.compare_spec (b * 2 ^ (- e)) (if s then Z.neg m else Z.pos m)),
        (Z.compare_spec (a * 2 ^ (- e)) (if s then Z.neg m else Z.pos m)); nia || done.
Qed.

(** ** Nested window maps *)

Section nested.
Context {A : Type}.
Implicit Types (ws : list (string * list (Z * A))) (P : Z * string -> bool).

Record wf (ws : list (string * list (Z * A))) : Prop := mkWf {
  wf_groups : NoDup ws.*1;
  wf_ends : Forall (fun gw => NoDup gw.2.*1) ws;
  wf_full : Forall (fun gw => gw.2 <> []) ws;
}.

Definition look (p : Z * string) ws : option A := inner ← aget p.2 ws; aget p.1 inner.

Definition keep_inner P (g : string) (inner : list (Z * A)) : list (Z * A) :=
  List.filter (fun ew => P (ew.1, g)) inner.

(** The windows that satisfy [P], groups left without one dropped. *)
Fixpoint keep P ws : list (string * list (Z * A)) :=
  match ws with
  | [] => []
  | (g, inner) :: ws' =>
      match keep_inner P g inner with
      | [] => keep P ws'
      | i => (g, i) :: keep P ws'
      end
  end.

Definition remove1 (e : Z) (g : string) (inner : list (Z * A)) ws :=
  match adel e inner with [] => adel g ws | _ => aset g (adel e inner) ws end.

Lemma wf_cons g inner ws :
  wf ((g, inner) :: ws) <-> g ∉ ws.*1 /\ NoDup inner.*1 /\ inner <> [] /\ wf ws.
Proof.
  split.
  - intros [H1 H2 H3]. csimpl in *. apply NoDup_cons in H1 as [? ?].
    apply Forall_cons in H2 as [? ?]. apply Forall_cons in H3 as [? ?]. by repeat split.
  - intros (H1 & H2 & H3 & [H4 H5 H6]). split; csimpl; [by apply NoDup_cons|by constructor|by constructor].
Qed.

Lemma open_pairs_cons g inner ws :
  open_pairs ((g, inner) :: ws) = ((fun ew => (ew.1, g)) <$> inner) ++ open_pairs ws.
Proof. done. Qed.

Lemma elem_inner_pairs (e : Z) (g g' : string) (inner : list (Z * A)) :
  (e, g) ∈ ((fun ew => (ew.1, g')) <$> inner) <-> g = g' /\ e ∈ inner.*1.
Proof.
  rewrite !list_elem_of_fmap. split.
  - intros ([e' a] & [= -> ->] & H). split; [done|]. by exists (e', a).
  - intros (-> & ([e' a] & -> & H)). by exists (e', a).
Qed.

Lemma elem_open_pairs e g ws : wf ws -> (e, g) ∈ open_pairs ws <-> is_Some (look (e, g) ws).
Proof.
  induction ws as [|[g' inner] ws IH]; intros Hw.
  - split; [intros H; by apply elem_of_nil in H|by intros [? ?]].
  - apply wf_cons in Hw as (Hg & Hn & _ & Hw). rewrite open_pairs_cons, elem_of_app, elem_inner_pairs, (IH Hw).
    unfold look. simpl. destruct (decide (g' = g)) as [->|Hne]; simpl.
    + rewrite (proj2 (aget_None g ws)) by done. split; [intros [[_ H]|[? ?]]; [|done]|intros [a Ha]].
      * destruct (aget e inner) eqn:E; [done|]. by apply aget_None in E.
      * left. split; [done|]. destruct (decide (e ∈ inner.*1)) as [|Hni]; [done|].
        apply aget_None in Hni. congruence.
    + naive_solver.
Qed.

Lemma open_pairs_groups ws p : p ∈ open_pairs ws -> p.2 ∈ ws.*1.
Proof.
  destruct p as [e g]. induction ws as [|[g' inner] ws IH]; [intros H; by apply elem_of_nil in H|].
  rewrite open_pairs_cons, elem_of_app, elem_inner_pairs. csimpl. rewrite elem_of_cons. naive_solver.
Qed.

Lemma keep_groups P ws g : g ∈ (keep P ws).*1 -> g ∈ ws.*1.
Proof.
  induction ws as [|[g' inner] ws IH]; csimpl; [done|]. rewrite elem_of_cons.
  destruct (keep_inner P g' inner) eqn:E; csimpl; [auto|]. rewrite elem_of_cons. naive_solver.
Qed.

Lemma keep_inner_sub P g inner x : x ∈ keep_inner P g inner -> x ∈ inner.
Proof. unfold keep_inner. rewrite !list_elem_of_In, filter_In. naive_solver. Qed.

Lemma nodup_keep_inner P g (inner : list (Z * A)) : NoDup inner.*1 -> NoDup (keep_inner P g inner).*1.
Proof.
  induction inner as [|[e a] inner IH]; csimpl; [done|]. intros [Hn Hd]%NoDup_cons.
  destruct (P (e, g)); csimpl; [|by apply IH]. apply NoDup_cons. split; [|by apply IH].
  intros ([e' a'] & -> & Hin)%list_elem_of_fmap. apply Hn, list_elem_of_fmap. exists (e', a').
  split; [done|]. by eapply keep_inner_sub.
Qed.

Lemma keep_wf P ws : wf ws -> wf (keep P ws).
Proof.
  induction ws as [|[g inner] ws IH]; intros Hw; [done|]. apply wf_cons in Hw as (Hg & Hn & Hf & Hw). simpl.
  destruct (keep_inner P g inner) as [|x i] eqn:E; [by apply IH|]. apply wf_cons. rewrite <- E.
  split_and!; [by intros ?%keep_groups|by apply nodup_keep_inner|by rewrite E|by apply IH].
Qed.

Lemma keep_pairs P ws : open_pairs (keep P ws) = List.filter P (open_pairs ws).
Proof.
  induction ws as [|[g inner] ws IH]; [done|]. rewrite open_pairs_cons, List.filter_app. simpl.
  assert (((fun ew => (ew.1, g)) <$> keep_inner P g inner)
          = List.filter P ((fun ew : Z * A => (ew.1, g)) <$> inner)) as Hi.
  { clear. induction inner as [|[e a] inner IH]; [done|]. csimpl. destruct (P (e, g)); csimpl; by rewrite IH. }
  destruct (keep_inner P g inner) as [|x i] eqn:E.
  - rewrite <- Hi. simpl. apply IH.
  - rewrite open_pairs_cons, Hi, IH. done.
Qed.

Lemma keep_all P ws : wf ws -> (forall p, p ∈ open_pairs ws -> P p = true) -> keep P ws = ws.
Proof.
  induction ws as [|[g inner] ws IH]; intros Hw HP; [done|]. apply wf_cons in Hw as (_ & _ & Hf & Hw). simpl.
  assert (keep_inner P g inner = inner) as ->.
  { assert (forall e, e ∈ inner.*1 -> P (e, g) = true) as HP'.
    { intros e He. apply HP. rewrite open_pairs_cons, elem_of_app, elem_inner_pairs. auto. }
    clear -HP'. induction inner as [|[e a] inner IH]; [done|]. csimpl in *. rewrite (HP' e) by constructor.
    f_equal. apply IH. intros e' He'. apply HP'. by constructor. }
  rewrite IH; [by destruct inner|done|]. intros p Hp. apply HP. rewrite open_pairs_cons. apply elem_of_app. auto.
Qed.

Lemma keep_keep P Q ws : keep P (keep Q ws) = keep (fun p => (P p && Q p)%bool) ws.
Proof.
  induction ws as [|[g inner] ws IH]; [done|]. simpl.
  assert (keep_inner P g (keep_inner Q g inner) = keep_inner (fun p => (P p && Q p)%bool) g inner) as Hi.
  { clear. induction inner as [|[e a] inner IH]; [done|]. simpl. destruct (Q (e, g)) eqn:E; simpl; rewrite ?E.
    - rewrite andb_true_r. destruct (P (e, g)); by rewrite IH.
    - rewrite andb_false_r. apply IH. }
  destruct (keep_inner Q g inner) as [|x i] eqn:E.
  - rewrite <- Hi. simpl. apply IH.
  - change (match keep_inner P g (x :: i) with [] => keep P (keep Q ws) | y => (g, y) :: keep P (keep Q ws) end
      = match keep_inner (fun p => (P p && Q p)%bool) g inner with
        | [] => keep (fun p => (P p && Q p)%bool) ws
        | y => (g, y) :: keep (fun p => (P p && Q p)%bool) ws end).
    rewrite Hi, IH. done.
Qed.

Lemma keep_ext P Q ws : (forall p, P p = Q p) -> keep P ws = keep Q ws.
Proof.
  intros HP. induction ws as [|[g inner] ws IH]; [done|]. simpl. rewrite IH.
  assert (keep_inner P g inner = keep_inner Q g inner) as ->; [|done].
  unfold keep_inner. induction inner as [|ew inner IHi]; [done|]. simpl. by rewrite HP, IHi.
Qed.

Lemma look_keep P p ws : wf ws -> P p = true -> look p (keep P ws) = look p ws.
Proof.
  destruct p as [e g]. intros Hw HP. unfold look. simpl.
  induction ws as [|[g' inner] ws IH]; [done|]. apply wf_cons in Hw as (Hg & _ & _ & Hw). simpl.
  assert (aget e (keep_inner P g inner) = aget e inner) as Hi.
  { clear -HP. induction inner as [|[e' a] inner IH]; [done|]. simpl. destruct (decide (e' = e)) as [->|Hne].
    - rewrite HP. simpl. by rewrite decide_True.
    - destruct (P (e', g)); simpl; rewrite ?decide_False by done; apply IH. }
  destruct (decide (g' = g)) as [->|Hne].
  - simpl. destruct (keep_inner P g inner) as [|x i] eqn:E.
    + rewrite <- Hi. rewrite (proj2 (aget_None g (keep P ws))); [done|]. by intros ?%keep_groups.
    + simpl. by rewrite decide_True.
  - destruct (keep_inner P g' inner) as [|x i] eqn:E; simpl; rewrite ?decide_False by done; by apply IH.
Qed.

Lemma adel_keep_inner e g (inner : list (Z * A)) :
  adel e inner = keep_inner (fun p => negb (bool_decide (p = (e, g)))) g inner.
Proof.
  unfold adel, keep_inner. induction inner as [|[e' a] inner IH]; [done|].
  rewrite filter_cons. simpl. case_bool_decide as H.
  - injection H as ->. rewrite decide_False by naive_solver. apply IH.
  - rewrite decide_True by naive_solver. simpl. f_equal. apply IH.
Qed.

Lemma adel_absent {V} g (ws : list (string * V)) : g ∉ ws.*1 -> adel g ws = ws.
Proof.
  unfold adel. induction ws as [|[g' x] ws IH]; [done|]. csimpl. rewrite not_elem_of_cons. intros [Hne Hg].
  rewrite filter_cons_True by (simpl; congruence). by rewrite IH.
Qed.

Lemma keep_other g e ws : wf ws -> g ∉ ws.*1 -> keep (fun p => negb (bool_decide (p = (e, g)))) ws = ws.
Proof.
  intros Hw Hg. apply keep_all; [done|]. intros p Hp. apply open_pairs_groups in Hp.
  rewrite bool_decide_false; [done|]. by intros ->.
Qed.

(** Popping one window is keeping all the others. *)
Lemma remove1_keep e g inner ws :
  wf ws -> aget g ws = Some inner -> remove1 e g inner ws = keep (fun p => negb (bool_decide (p = (e, g)))) ws.
Proof.
  unfold remove1. intros Hw Hi.
  assert (forall i, i <> [] -> adel e inner = i ->
    aset g i ws = keep (fun p => negb (bool_decide (p = (e, g)))) ws) as Hset.
  { intros i Hne He. revert Hw Hi. induction ws as [|[g' x] ws IH]; intros Hw Hi; [done|].
    apply wf_cons in Hw as (Hg & Hn & Hf & Hw). simpl in Hi. simpl.
    destruct (decide (g' = g)) as [->|Hgg].
    - injection Hi as ->. rewrite <- (adel_keep_inner e g inner), He, keep_other by done. by destruct i.
    - assert (keep_inner (fun p => negb (bool_decide (p = (e, g)))) g' x = x) as ->.
      { unfold keep_inner. clear -Hgg. induction x as [|[e' a] x IH]; [done|]. simpl.
        rewrite bool_decide_false by naive_solver. simpl. by rewrite IH. }
      rewrite IH by done. by destruct x. }
  destruct (adel e inner) as [|y i] eqn:He; [|by apply Hset]. clear Hset.
  revert Hw Hi. induction ws as [|[g' x] ws IH]; intros Hw Hi; [done|].
  apply wf_cons in Hw as (Hg & Hn & Hf & Hw). simpl in Hi. simpl.
  unfold adel. rewrite filter_cons. destruct (decide (g' = g)) as [->|Hgg].
  - injection Hi as ->. rewrite decide_False by (simpl; naive_solver).
    rewrite <- (adel_keep_inner e g inner), He, keep_other by done. by apply adel_absent.
  - rewrite decide_True by done.
    assert (keep_inner (fun p => negb (bool_decide (p = (e, g)))) g' x = x) as ->.
    { unfold keep_inner. clear -Hgg. induction x as [|[e' a] x IH]; [done|]. simpl.
      rewrite bool_decide_false by naive_solver. simpl. by rewrite IH. }
    rewrite <- IH by done. by destruct x.
Qed.

(** Storing a window. *)
Definition store (e : Z) (g : string) (a : A) ws :=
  aset g (aset e a (default [] (aget g ws))) ws.

Lemma aset_keys_nodup {K V} `{EqDecision K} k (v : V) (d : list (K * V)) : NoDup d.*1 -> NoDup (aset k v d).*1.
Proof.
  intros Hn. destruct (decide (k ∈ d.*1)) as [Hin|Hni]; [by rewrite keys_aset_in|].
  rewrite aset_fresh, fmap_app by done. apply NoDup_app. split_and!; [done| |apply NoDup_singleton].
  intros x Hx. csimpl. rewrite list_elem_of_singleton. by intros ->.
Qed.

Lemma aset_nonempty {K V} `{EqDecision K} k (v : V) (d : list (K * V)) : aset k v d <> [].
Proof. destruct d as [|[k' w] d]; simpl; [done|]. by destruct (decide (k' = k)). Qed.

Lemma Forall_aset {K V} `{EqDecision K} (Q : K * V -> Prop) k v (d : list (K * V)) :
  Forall Q d -> Q (k, v) -> Forall Q (aset k v d).
Proof.
  induction d as [|[k' w] d IH]; simpl; intros Hd Hv; [by constructor|].
  apply Forall_cons in Hd as [? ?]. destruct (decide (k' = k)) as [->|Hne]; constructor; auto.
Qed.

Lemma store_wf e g a ws : wf ws -> wf (store e g a ws).
Proof.
  unfold store. intros Hw. assert (NoDup (default [] (aget g ws)).*1) as Hd.
  { destruct (aget g ws) as [inner|] eqn:E; [|constructor]. apply aget_Some_elem in E.
    destruct Hw as [_ He _]. by apply (proj1 (Forall_forall _ _) He) in E. }
  destruct Hw as [Hg He Hf]. split; [by apply aset_keys_nodup| |].
  - apply Forall_aset; [done|]. by apply aset_keys_nodup.
  - apply Forall_aset; [done|]. apply aset_nonempty.
Qed.

Lemma aset_pairs_old g inner i ws :
  NoDup ws.*1 -> aget g ws = Some inner -> i.*1 = inner.*1 -> open_pairs (aset g i ws) = open_pairs ws.
Proof.
  induction ws as [|[g' x] ws IH]; [done|]. csimpl. intros [Hg Hn]%NoDup_cons Hi Hk.
  destruct (decide (g' = g)) as [->|Hne].
  - injection Hi as ->. rewrite !open_pairs_cons. f_equal.
    assert (forall l : list (Z * A), (fun ew : Z * A => (ew.1, g)) <$> l = (fun e => (e, g)) <$> l.*1) as Hl.
    { intros l. induction l as [|y l IHl]; [done|]. csimpl. by rewrite IHl. }
    by rewrite !Hl, Hk.
  - rewrite !open_pairs_cons. by rewrite IH.
Qed.

Lemma store_pairs_old e g a b ws :
  wf ws -> look (e, g) ws = Some b -> open_pairs (store e g a ws) = open_pairs ws.
Proof.
  unfold look, store. simpl. intros Hw H. destruct (aget g ws) as [inner|] eqn:E; [|done]. simpl in *.
  apply (aset_pairs_old g inner); [apply Hw|done|]. apply keys_aset_in.
  destruct (decide (e ∈ inner.*1)) as [|Hn]; [done|]. apply aget_None in Hn. congruence.
Qed.

Lemma store_pairs_new e g a ws :
  wf ws -> look (e, g) ws = None -> open_pairs (store e g a ws) ≡ₚ (e, g) :: open_pairs ws.
Proof.
  unfold look, store. simpl. intros [Hn _ _] H. destruct (aget g ws) as [inner|] eqn:E; simpl in *.
  - apply aget_None in H. rewrite (aset_fresh e a inner) by done. revert Hn E.
    induction ws as [|[g' x] ws IH]; [done|]. csimpl. intros [Hg Hn]%NoDup_cons E.
    destruct (decide (g' = g)) as [->|Hne].
    + injection E as ->. rewrite !open_pairs_cons, fmap_app. csimpl. solve_Permutation.
    + rewrite !open_pairs_cons, IH by done. solve_Permutation.
  - apply aget_None in E. rewrite aset_fresh by done. unfold open_pairs. rewrite bind_app. csimpl.
    solve_Permutation.
Qed.

End nested.

(** ** The specification: windows of records, scanned *)

Record swindow := mkSWindow { w_start : Z; w_values : list pyval; w_records : list dict }.

Notation samples := (list (string * list (Z * swindow))).

(** One operation over the values of a window. *)
Definition aggregate (o : op) (vs : list pyval) : res py_exn accumulator :=
  res_foldM (_update_accumulator o) vs (_new_accumulator o).

Definition summary (c : config) (rs : list dict) : res py_exn (list accumulator) :=
  res_mapM (fun o => aggregate o.2.1 ((fun r => field_value r o.2.2) <$> rs)) (operations c).

Definition spec_row (c : config) (e : Z) (w : swindow) (complete : bool) : res py_exn dict :=
  let? accs := summary c (w_records w) in
  _emit_window c (mkEntry (w_start w) e (w_values w) (Z.of_nat (length (w_records w))) accs) complete.

Definition spec_emit (c : config) (sw : samples) (p : Z * string) : res py_exn dict :=
  match look p sw with Some w => spec_row c p.1 w true | None => raise TypeErrorExn end.

Definition due (wm : spec_float) (p : Z * string) : bool := int_le_float p.1 wm.

(** The open windows whose end the watermark has passed, by end and group. *)
Definition due_windows (wm : spec_float) (sw : samples) : list (Z * string) :=
  heapify (List.filter (due wm) (open_pairs sw)).

Definition spec_finalize (c : config) (wm : option spec_float) (sw : samples) : res py_exn (samples * list dict) :=
  match wm with
  | None => Ok (sw, [])
  | Some wm =>
      let? out := res_mapM (spec_emit c sw) (due_windows wm sw) in
      Ok (keep (fun p => negb (due wm p)) sw, out)
  end.

Record sp := mkSp { sp_max : option spec_float; sp_windows : samples; sp_late : Z }.

Section spec.
Context `{!PyText, !CounterDelta.Clock}.

Definition spec_add (c : config) (r : dict) (start wend : Z) (sw : samples) : res py_exn samples :=
  let '(g, values) := _group_key c r in
  let w := default (mkSWindow start values []) (look (wend, g) sw) in
  let w' := mkSWindow (w_start w) (w_values w) (w_records w ++ [r]) in
  let? _ := summary c (w_records w') in
  Ok (store wend g w' sw).

Definition spec_watermark (c : config) (m : option spec_float) : option spec_float :=
  (fun m => SFsub prec emax m (allowed_lateness_seconds c)) <$> m.

Definition spec_record (c : config) (r : dict) (s : sp) : res py_exn (sp * list dict) :=
  let? ts := CounterDelta.first_timestamp (timestamp_fields c) r in
  let? start := window_start c ts in
  let wend := start + window_seconds c in
  if match spec_watermark c (sp_max s) with Some wm => int_le_float wend wm | None => false end
  then Ok (mkSp (sp_max s) (sp_windows s) (sp_late s + 1), [])
  else
    let m := if match sp_max s with Some m => SFltb m ts | None => true end then Some ts else sp_max s in
    let? wo := spec_finalize c (spec_watermark c m) (sp_windows s) in
    let? sw := spec_add c r start wend wo.1 in
    Ok (mkSp m sw (sp_late s), wo.2).

Fixpoint spec_apply (c : config) (rs : list dict) (s : sp) : res py_exn (sp * list dict) :=
  match rs with
  | [] => Ok (s, [])
  | r :: rs' =>
      let? so := spec_record c r s in
      let? so' := spec_apply c rs' so.1 in
      Ok (so'.1, so.2 ++ so'.2)
  end.
End spec.

(** ** Representation *)

Section rep.
Context (c : config).

Definition rep_entry (ew : Z * entry) (sw : Z * swindow) : Prop :=
  ew.1 = sw.1 /\
  exists accs, summary c (w_records sw.2) = Ok accs /\
    ew.2 = mkEntry (w_start sw.2) sw.1 (w_values sw.2) (Z.of_nat (length (w_records sw.2))) accs.

Definition rep_group (gw : string * list (Z * entry)) (gs : string * list (Z * swindow)) : Prop :=
  gw.1 = gs.1 /\ Forall2 rep_entry gw.2 gs.2.

Definition rep_windows : window_map -> samples -> Prop := Forall2 rep_group.

Lemma rep_pairs ws sw : rep_windows ws sw -> open_pairs ws = open_pairs sw.
Proof.
  induction 1 as [|[g i] [g' i'] ws sw [Hg Hi] Hr IH]; [done|]. simpl in Hg. subst g'.
  rewrite !open_pairs_cons, IH. f_equal. simpl in Hi. clear -Hi.
  induction Hi as [|[e a] [e' a'] i i' [He _] Hr IH]; [done|]. simpl in He. subst e'. csimpl. by rewrite IH.
Qed.

Lemma rep_wf ws sw : rep_windows ws sw -> wf sw -> wf ws.
Proof.
  induction 1 as [|[g i] [g' i'] ws sw [Hg Hi] Hr IH]; [by intros _; repeat constructor|].
  simpl in Hg. subst g'. intros (H1 & H2 & H3 & H4)%wf_cons. apply wf_cons. simpl in Hi.
  assert (i.*1 = i'.*1) as He.
  { clear -Hi. induction Hi as [|[e a] [e' a'] i i' [He _] Hr IH]; [done|]. simpl in He. subst e'. csimpl. by rewrite IH. }
  assert (ws.*1 = sw.*1) as Hgs.
  { clear -Hr. induction Hr as [|[g a] [g' a'] i i' [Hg _] Hr IH]; [done|]. simpl in Hg. subst g'. csimpl. by rewrite IH. }
  rewrite Hgs, He. split_and!; [done|done| |by apply IH]. intros ->. by inversion Hi.
Qed.

Lemma rep_aget {A B} (R : A -> B -> Prop) {K} `{EqDecision K} (k : K) d d' :
  Forall2 (fun x y => x.1 = y.1 /\ R x.2 y.2) d d' ->
  match aget k d, aget k d' with Some a, Some b => R a b | None, None => True | _, _ => False end.
Proof.
  induction 1 as [|[k1 a] [k2 b] d d' [Hk Hr] Hf IH]; [done|]. simpl in *. subst k2.
  by destruct (decide (k1 = k)).
Qed.

Lemma rep_look p ws sw :
  rep_windows ws sw ->
  match look p ws, look p sw with
  | Some e, Some w => rep_entry (p.1, e) (p.1, w)
  | None, None => True
  | _, _ => False
  end.
Proof.
  intros Hr. unfold look. pose proof (rep_aget (Forall2 rep_entry) p.2 ws sw Hr) as H.
  destruct (aget p.2 ws) as [i|], (aget p.2 sw) as [i'|]; try done. simpl. clear Hr.
  induction H as [|[e a] [e' a'] i i' [He Ha] Hf IH]; [done|]. simpl in *. subst e'.
  destruct (decide (e = p.1)) as [->|]; [by split|done].
Qed.

Lemma rep_keep P ws sw : rep_windows ws sw -> rep_windows (keep P ws) (keep P sw).
Proof.
  induction 1 as [|[g i] [g' i'] ws sw [Hg Hi] Hr IH]; [constructor|]. simpl in Hg, Hi. subst g'. simpl.
  assert (Forall2 rep_entry (keep_inner P g i) (keep_inner P g i')) as Hk.
  { clear -Hi. induction Hi as [|[e a] [e' a'] i i' [He Ha] Hf IH]; [constructor|]. simpl in *. subst e'.
    destruct (P (e, g)); [|done]. constructor; [|done]. by split. }
  destruct Hk as [|x y kx ky Hxy Hk]; [done|]. constructor; [|done]. split; [done|]. by constructor.
Qed.

Lemma rep_aset {A B} (R : A -> B -> Prop) {K} `{EqDecision K} (k : K) a b d d' :
  R a b -> Forall2 (fun x y => x.1 = y.1 /\ R x.2 y.2) d d' ->
  Forall2 (fun x y => x.1 = y.1 /\ R x.2 y.2) (aset k a d) (aset k b d').
Proof.
  intros Hab. induction 1 as [|[k1 x] [k2 y] d d' [Hk Hr] Hf IH]; simpl; [by repeat constructor|].
  simpl in Hk, Hr. subst k2. destruct (decide (k1 = k)) as [->|]; constructor; auto.
Qed.

(** Folding one more record is one step of the accumulators. *)
Lemma res_foldM_snoc {E A S} (f : S -> A -> res E S) l x s :
  res_foldM f (l ++ [x]) s = let? s' := res_foldM f l s in f s' x.
Proof.
  revert s. induction l as [|y l IH]; intros s; simpl.
  - by destruct (f s x).
  - destruct (f s y); simpl; [apply IH|done].
Qed.

Lemma summary_step ops rs r accs :
  res_mapM (fun o => aggregate o.2.1 ((fun r => field_value r o.2.2) <$> rs)) ops = Ok accs ->
  match res_mapM (fun o => aggregate o.2.1 ((fun r => field_value r o.2.2) <$> (rs ++ [r]))) ops with
  | Ok accs' => update_all ops accs r = (accs', None)
  | Raise x => exists accs', update_all ops accs r = (accs', Some x)
  end.
Proof.
  revert accs. induction ops as [|[f [o src]] ops IH]; intros accs H; simpl in H.
  - injection H as <-. done.
  - apply res_bind_ok in H as (a & Ha & H). apply res_bind_ok in H as (as' & Hs & H). injection H as <-.
    specialize (IH as' Hs). simpl. rewrite fmap_app. csimpl. unfold aggregate in *. rewrite res_foldM_snoc, Ha.
    cbn [res_bind]. destruct (_update_accumulator o a (field_value r src)) as [a'|x]; simpl; [|eauto].
    destruct (res_mapM _ ops) as [bs|x]; simpl.
    + by rewrite IH.
    + destruct IH as [accs' ->]. eauto.
Qed.

End rep.

(** ** Finalization: the heap finds what the scan finds *)

Lemma open_pairs_nodup {A} (ws : list (string * list (Z * A))) : wf ws -> NoDup (open_pairs ws).
Proof.
  induction ws as [|[g i] ws IH]; intros Hw; [constructor|]. apply wf_cons in Hw as (Hg & Hn & _ & Hw).
  rewrite open_pairs_cons. apply NoDup_app. split_and!; [|intros [e g'] Hin Hin'|by apply IH].
  - clear -Hn. induction i as [|[e a] i IH]; [constructor|]. csimpl in *. apply NoDup_cons in Hn as [He Hn].
    apply NoDup_cons. split; [|by apply IH]. rewrite elem_inner_pairs. naive_solver.
  - apply elem_inner_pairs in Hin as [-> _]. by apply open_pairs_groups in Hin'.
Qed.

Lemma filter_none {A} (P : A -> bool) l : (forall x, x ∈ l -> P x = false) -> List.filter P l = [].
Proof.
  intros H. induction l as [|x l IH]; [done|]. simpl. rewrite H by constructor. apply IH.
  intros y Hy. apply H. by constructor.
Qed.

Lemma filter_every {A} (P : A -> bool) l : (forall x, x ∈ l -> P x = true) -> List.filter P l = l.
Proof.
  intros H. induction l as [|x l IH]; [done|]. simpl. rewrite H by constructor. f_equal. apply IH.
  intros y Hy. apply H. by constructor.
Qed.

Lemma filter_perm {A} (P : A -> bool) l l' : l ≡ₚ l' -> List.filter P l ≡ₚ List.filter P l'.
Proof.
  induction 1 as [|x l l' _ IH|x y l|l1 l2 l3 _ IH1 _ IH2]; simpl; [done| | |by etransitivity].
  - destruct (P x); [by constructor|done].
  - destruct (P x), (P y); try done. constructor.
Qed.

Lemma res_mapM_ext {E A B} (f f' : A -> res E B) l :
  (forall x, x ∈ l -> f x = f' x) -> res_mapM f l = res_mapM f' l.
Proof.
  intros H. induction l as [|x l IH]; [done|]. simpl. rewrite H by constructor.
  rewrite IH; [done|]. intros y Hy. apply H. by constructor.
Qed.

Lemma sorted_not_due wm p h :
  Sorted due_le (p :: h) -> due wm p = false -> forall q, q ∈ p :: h -> due wm q = false.
Proof.
  intros Hs Hp q Hq. apply (Sorted_StronglySorted due_le) in Hs. apply StronglySorted_inv in Hs as [_ Hf].
  apply elem_of_cons in Hq as [->|Hq]; [done|]. apply (proj1 (Forall_forall _ _) Hf) in Hq.
  destruct (due wm q) eqn:E; [|done]. unfold due in *. erewrite int_le_float_mono in Hp; [done| |done].
  destruct Hq; lia.
Qed.

Section finalize.
Context (c : config) (wm : spec_float).

Lemma finalize_loop_spec h ws sw n :
  Sorted due_le h -> h ≡ₚ open_pairs sw -> wf sw -> rep_windows c ws sw ->
  match res_mapM (spec_emit c sw) (List.filter (due wm) h) with
  | Ok out => exists ws' n', finalize_loop c wm h ws n = (List.filter (fun p => negb (due wm p)) h, ws', n', Ok out) /\
      rep_windows c ws' (keep (fun p => negb (due wm p)) sw)
  | Raise x => (finalize_loop c wm h ws n).2 = raise x
  end.
Proof.
  revert ws sw n. induction h as [|p h IH]; intros ws sw n Hs Hp Hw Hr.
  { simpl. exists ws, n. split; [done|]. rewrite keep_all; [done|done|]. intros q Hq. rewrite <- Hp in Hq.
    by apply elem_of_nil in Hq. }
  destruct (due wm p) eqn:Ed.
  2:{ pose proof (sorted_not_due wm p h Hs Ed) as Hn. rewrite filter_none by done. simpl (res_mapM _ _).
      exists ws, n. rewrite filter_every by (intros q Hq; by rewrite Hn). destruct p as [e g]. cbn [finalize_loop].
      unfold due in Ed. simpl in Ed. rewrite Ed. split; [done|].
      rewrite keep_all; [done|done|]. intros q Hq. rewrite <- Hp in Hq. cbn beta. by rewrite (Hn q Hq). }
  assert (NoDup (p :: h)) as Hnd by (rewrite Hp; by apply open_pairs_nodup).
  apply NoDup_cons in Hnd as [Hph Hnd].
  assert (is_Some (look p sw)) as [w Hlook].
  { destruct p. apply elem_open_pairs; [done|]. rewrite <- Hp. constructor. }
  set (others := fun q : Z * string => negb (bool_decide (q = p))).
  assert (h ≡ₚ open_pairs (keep others sw)) as Hp'.
  { rewrite keep_pairs, <- (filter_perm others _ _ Hp). unfold others at 1. simpl.
    rewrite bool_decide_true by done. simpl. rewrite filter_every; [done|]. intros q Hq.
    rewrite bool_decide_false; [done|]. by intros ->. }
  assert (keep (fun q => negb (due wm q)) (keep others sw) = keep (fun q => negb (due wm q)) sw) as Hkk.
  { rewrite keep_keep. apply keep_ext. intros q. unfold others. case_bool_decide as Hq; [|by rewrite andb_true_r].
    subst q. by rewrite Ed. }
  assert (forall q, q ∈ List.filter (due wm) h -> spec_emit c sw q = spec_emit c (keep others sw) q) as Hext.
  { intros q Hq. unfold spec_emit. rewrite look_keep; [done|done|]. unfold others.
    rewrite bool_decide_false; [done|]. intros ->. apply Hph. apply list_elem_of_In, filter_In in Hq as [Hq _].
    by apply list_elem_of_In. }
  pose proof (rep_look c p ws sw Hr) as He. rewrite Hlook in He. simpl List.filter. rewrite Ed. simpl.
  destruct p as [e g]. destruct (look (e, g) ws) as [en|] eqn:Hle; [|done].
  destruct He as [_ (accs & Hacc & Hen)]. simpl in Hacc, Hen.
  unfold look in Hle. simpl in Hle. destruct (aget g ws) as [inner|] eqn:Hg; [|done]. simpl in Hle.
  unfold due in Ed. simpl in Ed. rewrite Ed, Hle. simpl.
  assert (spec_emit c sw (e, g) = _emit_window c en true) as ->.
  { unfold spec_emit, spec_row. rewrite Hlook. simpl. rewrite Hacc. simpl. by rewrite Hen. }
  destruct (_emit_window c en true) as [r|x]; [|done]. simpl.
  change (match adel e inner with [] => adel g ws | _ => aset g (adel e inner) ws end) with (remove1 e g inner ws).
  assert (remove1 e g inner ws = keep others ws) as -> by (by apply remove1_keep; [eapply rep_wf|]).
  apply Sorted_inv in Hs as [Hs _].
  specialize (IH (keep others ws) (keep others sw) (n + 1) Hs Hp' (keep_wf _ _ Hw) (rep_keep c _ _ _ Hr)).
  rewrite (res_mapM_ext _ _ _ Hext). destruct (res_mapM _ _) as [out|x]; simpl.
  - destruct IH as (ws' & n' & -> & Hr'). exists ws', n'. split; [done|]. by rewrite <- Hkk.
  - destruct (finalize_loop c wm h (keep others ws) (n + 1)) as [[[h1 ws1] n1] o]. simpl in IH. by rewrite IH.
Qed.

Lemma heapify_filter (P : Z * string -> bool) l : List.filter P (heapify l) = heapify (List.filter P l).
Proof.
  apply heapify_unique.
  - assert (forall h, StronglySorted due_le h -> StronglySorted due_le (List.filter P h)) as Hf.
    { induction 1 as [|x h Hh IH Hx]; simpl; [constructor|]. destruct (P x); [|done]. constructor; [done|].
      apply Forall_forall. intros y Hy. apply (proj1 (Forall_forall _ _) Hx).
      apply list_elem_of_In, filter_In in Hy as [Hy _]. by apply list_elem_of_In. }
    apply StronglySorted_Sorted, Hf, Sorted_StronglySorted; [apply _|apply heapify_sorted].
  - apply filter_perm, heapify_perm.
Qed.

End finalize.

(** ** The whole transform *)

Record represents (c : config) (s : st) (a : sp) : Prop := mkRep {
  rp_max : _max_ts s = sp_max a;
  rp_late : late_dropped s = sp_late a;
  rp_windows : rep_windows c (_windows s) (sp_windows a);
  rp_wf : wf (sp_windows a);
  rp_heap : _due_heap s = heapify (open_pairs (sp_windows a));
}.

Lemma finalize_refines c s a :
  represents c s a ->
  match spec_finalize c (spec_watermark c (sp_max a)) (sp_windows a) with
  | Ok (sw, out) => exists s', _finalize_due_windows c s = (s', Ok out) /\
      represents c s' (mkSp (sp_max a) sw (sp_late a))
  | Raise x => (_finalize_due_windows c s).2 = raise x
  end.
Proof.
  intros [Hm Hl Hr Hw Hh]. unfold _finalize_due_windows, watermark. rewrite Hm. unfold spec_watermark.
  destruct (sp_max a) as [m|]; simpl; [|by exists s].
  set (wm := SFsub prec emax m (allowed_lateness_seconds c)).
  pose proof (finalize_loop_spec c wm (_due_heap s) (_windows s) (sp_windows a) (emitted_complete s)) as H.
  rewrite Hh in H. specialize (H (heapify_sorted _) (heapify_perm _) Hw Hr).
  rewrite !heapify_filter in H. rewrite Hh. unfold due_windows.
  destruct (res_mapM _ _) as [out|x]; simpl.
  - destruct H as (ws' & n' & -> & Hr'). eexists. split; [done|]. split; simpl; [done|done|done|by apply keep_wf|].
    by rewrite keep_pairs.
  - by destruct (finalize_loop _ _ _ _ _) as [[[h1 ws1] n1] o].
Qed.

Section refine.
Context `{!PyText, !CounterDelta.Clock} (c : config).

(** The representation after a store of one related window. *)
Lemma rep_store e g en w ws sw :
  rep_windows c ws sw -> rep_entry c (e, en) (e, w) -> rep_windows c (store e g en ws) (store e g w sw).
Proof.
  intros Hr He. unfold store.
  pose proof (rep_aget (Forall2 (rep_entry c)) g ws sw Hr) as Hg.
  apply (rep_aset (Forall2 (rep_entry c))); [|done].
  assert (Forall2 (rep_entry c) (default [] (aget g ws)) (default [] (aget g sw))) as Hd.
  { destruct (aget g ws), (aget g sw); done || constructor. }
  clear -Hd He. induction Hd as [|[e1 a] [e2 b] i i' [Hk Ha] Hf IH]; simpl; [constructor; [done|constructor]|].
  simpl in Hk, Ha. subst e2. destruct (decide (e1 = e)) as [->|]; constructor; done || by split.
Qed.

Lemma fresh_accumulators : summary c [] = Ok ((fun o => _new_accumulator o.2.1) <$> operations c).
Proof.
  unfold summary. induction (operations c) as [|o ops IH]; [done|]. cbn [res_mapM]. rewrite IH. done.
Qed.

Lemma fold_record_refines r start wend s a :
  represents c s a ->
  match spec_add c r start wend (sp_windows a) with
  | Ok sw => exists s', fold_record c r start wend s = (s', Ok tt) /\
      represents c s' (mkSp (sp_max a) sw (sp_late a)) 
  | Raise x => (fold_record c r start wend s).2 = raise x
  end.
Proof.
  intros [Hm Hl Hr Hw Hh]. unfold spec_add, fold_record. destruct (_group_key c r) as [g values].
  pose proof (rep_look c (wend, g) _ _ Hr) as Hlk.
  set (w := default (mkSWindow start values []) (look (wend, g) (sp_windows a))).
  assert (exists e h, match aget wend (default [] (aget g (_windows s))) with
      | Some e => (e, _due_heap s)
      | None => (mkEntry start wend values 0 ((fun o => _new_accumulator o.2.1) <$> operations c),
                 heappush (_due_heap s) (wend, g))
      end = (e, h) /\ rep_entry c (wend, e) (wend, w) /\
      forall w', h = heapify (open_pairs (store wend g w' (sp_windows a)))) as (e & h & -> & He & Hhp).
  { assert (aget wend (default [] (aget g (_windows s))) = look (wend, g) (_windows s)) as ->
      by (unfold look; simpl; by destruct (aget g (_windows s))).
    unfold w. destruct (look (wend, g) (_windows s)) as [e|], (look (wend, g) (sp_windows a)) as [w0|] eqn:Ew;
      try done; simpl.
    - exists e, (_due_heap s). split_and!; [done|done|]. intros w'. by rewrite (store_pairs_old _ _ _ w0).
    - eexists _, _. split_and!; [done| |].
      + split; [done|]. eexists. split; [apply fresh_accumulators|done].
      + intros w'. rewrite Hh, heappush_heapify. apply heapify_unique; [apply heapify_sorted|].
        by rewrite heapify_perm, store_pairs_new. }
  destruct He as [_ (accs & Hacc & Hen)]. simpl in Hacc, Hen. subst e. simpl.
  pose proof (summary_step (operations c) (w_records w) r accs Hacc) as Hst.
  unfold summary at 1. destruct (res_mapM _ _) as [accs'|x] eqn:Es; simpl.
  - rewrite Hst. eexists. split; [done|]. split; simpl; [done|done| |by apply store_wf|apply Hhp].
    apply (rep_store wend g _ (mkSWindow (w_start w) (w_values w) (w_records w ++ [r]))); [done|].
    split; [done|]. exists accs'. split; [done|]. simpl. rewrite length_app. simpl. f_equal. lia.
  - destruct Hst as [accs' ->]. done.
Qed.

Lemma apply_record_refines r s a :
  represents c s a ->
  match spec_record c r a with
  | Ok (a', out) => exists s', apply_record c r s = (s', Ok out) /\ represents c s' a'
  | Raise x => (apply_record c r s).2 = raise x
  end.
Proof.
  intros Hrep. unfold spec_record, apply_record.
  destruct (CounterDelta.first_timestamp (timestamp_fields c) r) as [ts|x]; [|done]. simpl.
  destruct (window_start c ts) as [start|x]; [|done]. simpl.
  assert (watermark c s = spec_watermark c (sp_max a)) as -> by (unfold watermark; by rewrite (rp_max c s a Hrep)).
  rewrite (rp_max c s a Hrep).
  destruct (match spec_watermark c (sp_max a) with Some wm => int_le_float _ wm | None => false end).
  { eexists. split; [done|]. destruct Hrep. split; simpl; congruence || done. }
  set (m := if match sp_max a with Some m => SFltb m ts | None => true end then Some ts else sp_max a).
  pose proof (finalize_refines c (mkSt m (_windows s) (_due_heap s) (late_dropped s) (emitted_complete s)
    (emitted_partial s)) (mkSp m (sp_windows a) (sp_late a))) as Hf. simpl in Hf.
  specialize (Hf ltac:(destruct Hrep; by split)).
  destruct (spec_finalize c (spec_watermark c m) (sp_windows a)) as [[sw out]|x]; simpl.
  - destruct Hf as (s1 & -> & Hr1). pose proof (fold_record_refines r start (start + window_seconds c) s1 _ Hr1) as Hr2.
    simpl in Hr2. destruct (spec_add c r start (start + window_seconds c) sw) as [sw'|x]; simpl.
    + destruct Hr2 as (s2 & -> & Hr2). by exists s2.
    + destruct (fold_record _ _ _ _ s1) as [s2 o]. simpl in Hr2. by rewrite Hr2.
  - by destruct (_finalize_due_windows c _) as [s1 [o|y]].
Qed.

End refine.

Lemma apply_refines `{!PyText, !CounterDelta.Clock} c rs s a :
  represents c s a ->
  match spec_apply c rs a with
  | Ok (a', out) => exists s', apply c rs s = (s', Ok out) /\ represents c s' a'
  | Raise x => (apply c rs s).2 = raise x
  end.
Proof.
  revert s a. induction rs as [|r rs IH]; intros s a Hrep; simpl; [by exists s|].
  pose proof (apply_record_refines c r s a Hrep) as Hr.
  destruct (spec_record c r a) as [[a1 o1]|x]; simpl.
  - destruct Hr as (s1 & -> & Hr1). specialize (IH s1 a1 Hr1).
    destruct (spec_apply c rs a1) as [[a2 o2]|x]; simpl.
    + destruct IH as (s2 & -> & Hr2). by exists s2.
    + destruct (apply c rs s1) as [s2 o]. simpl in IH. by rewrite IH.
  - by destruct (apply_record c r s) as [s1 [o|y]].
Qed.

(** C32: the accumulators and the heap implement the windows they stand for.
    The specification keeps the records of every open window, scans all open
    windows for the due ones, and aggregates a window's records when it emits
    it.  From any state the transform has reached, a batch gives exactly the
    specification's rows, in its order (window end, then group key), or raises
    exactly its exception, and leaves a state that represents the
    specification's. *)
Theorem windows_refine_samples `{!PyText, !CounterDelta.Clock} c rs s a :
  represents c s a ->
  match spec_apply c rs a with
  | Ok (a', out) => exists s', apply c rs s = (s', Ok out) /\ represents c s' a'
  | Raise x => (apply c rs s).2 = raise x
  end.
Proof. apply apply_refines. Qed.

(** ** Conservation of samples *)

Section weigh.
Context {A : Type} (f : A -> Z).

Definition asum {K V} (w : V -> Z) (d : list (K * V)) : Z := foldr (fun kv n => w kv.2 + n) 0 d.

Definition weigh (ws : list (string * list (Z * A))) : Z := asum (asum f) ws.

Lemma asum_aset {K V} `{EqDecision K} (w : V -> Z) (k : K) v d :
  asum w (aset k v d) = asum w d + w v - match aget k d with Some o => w o | None => 0 end.
Proof.
  induction d as [|[k' u] d IH]; simpl; [lia|]. destruct (decide (k' = k)); simpl; [lia|].
  unfold asum in *. lia.
Qed.

Lemma weigh_store e g a ws :
  weigh (store e g a ws) = weigh ws + f a - match look (e, g) ws with Some o => f o | None => 0 end.
Proof.
  unfold weigh, store, look. rewrite !asum_aset. cbn [fst snd]. destruct (aget g ws) as [inner|]; simpl; lia.
Qed.

Lemma weigh_keep P ws : weigh (keep P ws) + weigh (keep (fun p => negb (P p)) ws) = weigh ws.
Proof.
  induction ws as [|[g i] ws IH]; [done|].
  assert (asum f (keep_inner P g i) + asum f (keep_inner (fun p => negb (P p)) g i) = asum f i) as Hi.
  { clear. induction i as [|[e a] i IH]; [done|]. simpl. destruct (P (e, g)); simpl; unfold asum in *; lia. }
  unfold weigh in *. simpl.
  destruct (keep_inner P g i) as [|x k], (keep_inner (fun p => negb (P p)) g i) as [|y l]; simpl in *;
    unfold asum in *; simpl in *; lia.
Qed.

Definition psum (ws : list (string * list (Z * A))) (l : list (Z * string)) : Z :=
  foldr (fun p n => match look p ws with Some a => f a | None => 0 end + n) 0 l.

Lemma psum_perm ws l l' : l ≡ₚ l' -> psum ws l = psum ws l'.
Proof. induction 1; simpl; unfold psum in *; lia. Qed.

Lemma psum_ext ws ws' l : (forall p, p ∈ l -> look p ws = look p ws') -> psum ws l = psum ws' l.
Proof.
  intros H. induction l as [|p l IH]; [done|]. unfold psum in *. simpl. rewrite H by constructor. rewrite IH; [done|].
  intros q Hq. apply H. by constructor.
Qed.

Lemma psum_app ws l l' : psum ws (l ++ l') = psum ws l + psum ws l'.
Proof. unfold psum. induction l as [|p l IH]; simpl; [done|]. rewrite IH. lia. Qed.

Lemma psum_open ws : wf ws -> psum ws (open_pairs ws) = weigh ws.
Proof.
  induction ws as [|[g i] ws IH]; intros Hw; [done|]. pose proof Hw as (Hg & Hn & _ & Hw')%wf_cons.
  rewrite open_pairs_cons, psum_app. unfold weigh, asum at 1. simpl. fold (asum (asum f) ws).
  rewrite (psum_ext _ ws (open_pairs ws)), (IH Hw').
  2:{ intros [e g'] Hp. apply open_pairs_groups in Hp. simpl in Hp. unfold look. simpl.
      rewrite decide_False; [done|]. by intros ->. }
  f_equal. assert (forall i', NoDup i'.*1 -> (forall e a, (e, a) ∈ i' -> aget e i = Some a) ->
    psum ((g, i) :: ws) ((fun ew => (ew.1, g)) <$> i') = asum f i') as Hi.
  { induction i' as [|[e a] i' IHi]; [done|]. intros [_ Hn']%NoDup_cons He. unfold psum, asum in *. csimpl.
    unfold look at 1. simpl. rewrite decide_True by done. simpl. rewrite (He e a) by constructor.
    rewrite IHi; [done|done|]. intros e' a' Hin. apply He. by constructor. }
  apply Hi; [done|]. intros e a. by apply elem_aget.
Qed.
End weigh.

Definition size_of (w : swindow) : Z := Z.of_nat (length (w_records w)).

(** The samples an open state holds, and the samples the rows account for. *)
Definition held (s : st) : Z := weigh e_sample_count (_windows s).

Definition row_samples (r : dict) : Z := match dget "sample_count" r with Some (VInt n) => n | _ => 0 end.

Definition rows_samples (rs : list dict) : Z := foldr (fun r n => row_samples r + n) 0 rs.

Lemma rows_samples_app l l' : rows_samples (l ++ l') = rows_samples l + rows_samples l'.
Proof. unfold rows_samples. induction l as [|r l IH]; simpl; [done|]. rewrite IH. lia. Qed.

Lemma emit_samples c e b r : _emit_window c e b = Ok r -> row_samples r = e_sample_count e.
Proof.
  unfold _emit_window. intros H. apply res_bind_ok in H as (x & _ & H). apply res_bind_ok in H as (y & _ & H).
  apply res_bind_ok in H as (out & _ & H). injection H as <-. unfold row_samples.
  rewrite dget_dset_ne by done. by rewrite dget_dset_eq.
Qed.

Lemma spec_emit_samples c sw l out :
  res_mapM (spec_emit c sw) l = Ok out -> rows_samples out = psum size_of sw l.
Proof.
  revert out. induction l as [|p l IH]; intros out H; simpl in H; [by injection H as <-|].
  apply res_bind_ok in H as (r & Hr & H). apply res_bind_ok in H as (rs & Hrs & H). injection H as <-.
  unfold rows_samples, psum in *. simpl. rewrite (IH rs Hrs). f_equal.
  unfold spec_emit in Hr. destruct (look p sw) as [w|]; [|done]. unfold spec_row in Hr.
  apply res_bind_ok in Hr as (accs & _ & Hr). by apply emit_samples in Hr.
Qed.

Lemma held_rep c ws sw : rep_windows c ws sw -> weigh e_sample_count ws = weigh size_of sw.
Proof.
  unfold weigh. induction 1 as [|[g i] [g' i'] ws sw [_ Hi] Hr IH]; [done|]. unfold asum in *. simpl in *.
  rewrite IH. f_equal. clear -Hi. induction Hi as [|[e a] [e' a'] i i' [_ (accs & _ & Ha)] Hr IH]; [done|].
  simpl in *. rewrite IH, Ha. done.
Qed.

Section conserve.
Context {PT : PyText} {CK : CounterDelta.Clock} (c : config).

Lemma spec_finalize_samples wm sw sw' out :
  wf sw -> spec_finalize c wm sw = Ok (sw', out) -> weigh size_of sw = weigh size_of sw' + rows_samples out /\ wf sw'.
Proof.
  intros Hw H. unfold spec_finalize in H. destruct wm as [wm|]; [|injection H as <- <-; simpl; split; [lia|done]].
  apply res_bind_ok in H as (o & Ho & H). injection H as <- <-. split; [|by apply keep_wf].
  rewrite (spec_emit_samples c sw _ o Ho). unfold due_windows.
  rewrite (psum_perm _ _ _ _ (heapify_perm _)), <- keep_pairs.
  rewrite (psum_ext size_of sw (keep (due wm) sw)).
  - rewrite psum_open by (by apply keep_wf). rewrite <- (weigh_keep size_of (due wm) sw). lia.
  - intros p Hp. rewrite keep_pairs in Hp. apply list_elem_of_In, filter_In in Hp as [_ Hp]. by rewrite look_keep.
Qed.

Lemma spec_add_samples r start wend sw sw' :
  wf sw -> spec_add c r start wend sw = Ok sw' -> weigh size_of sw' = weigh size_of sw + 1 /\ wf sw'.
Proof.
  intros Hw H. unfold spec_add in H. destruct (_group_key c r) as [g values].
  apply res_bind_ok in H as (accs & _ & H). injection H as <-. split; [|by apply store_wf].
  rewrite weigh_store. unfold size_of at 2. simpl. rewrite length_app. simpl.
  destruct (look (wend, g) sw) as [w|]; simpl; unfold size_of; lia.
Qed.

Lemma spec_record_samples r a a' out :
  wf (sp_windows a) -> spec_record c r a = Ok (a', out) ->
  weigh size_of (sp_windows a) + 1 = weigh size_of (sp_windows a') + rows_samples out + (sp_late a' - sp_late a)
  /\ wf (sp_windows a').
Proof.
  intros Hw H. unfold spec_record in H. apply res_bind_ok in H as (ts & _ & H).
  apply res_bind_ok in H as (start & _ & H). 
  destruct (match spec_watermark c (sp_max a) with Some wm => _ | None => false end).
  { injection H as <- <-. simpl. split; [lia|done]. }
  apply res_bind_ok in H as ([sw1 o1] & H1 & H). apply res_bind_ok in H as (sw2 & H2 & H). injection H as <- <-.
  apply spec_finalize_samples in H1 as [H1 Hw1]; [|done]. apply spec_add_samples in H2 as [H2 Hw2]; [|done].
  simpl in *. split; [lia|done].
Qed.

Lemma spec_apply_samples rs a a' out :
  wf (sp_windows a) -> spec_apply c rs a = Ok (a', out) ->
  weigh size_of (sp_windows a) + Z.of_nat (length rs)
  = weigh size_of (sp_windows a') + rows_samples out + (sp_late a' - sp_late a).
Proof.
  revert a out. induction rs as [|r rs IH]; intros a out Hw H; simpl in H.
  { injection H as <- <-. simpl. lia. }
  apply res_bind_ok in H as ([a1 o1] & H1 & H). apply res_bind_ok in H as ([a2 o2] & H2 & H). injection H as <- <-.
  apply spec_record_samples in H1 as [H1 Hw1]; [|done]. apply IH in H2; [|done].
  simpl in *. rewrite rows_samples_app. lia.
Qed.
End conserve.

Lemma apply_samples {PT : PyText} {CK : CounterDelta.Clock} c rs s a s' out :
  represents c s a -> apply c rs s = (s', Ok out) ->
  held s + Z.of_nat (length rs) = held s' + rows_samples out + (late_dropped s' - late_dropped s) /\
  exists a', represents c s' a'.
Proof.
  intros Hrep Ha. pose proof (apply_refines c rs s a Hrep) as Hr. rewrite Ha in Hr.
  destruct (spec_apply c rs a) as [[a' o]|x] eqn:E; [|done].
  destruct Hr as (s1 & Heq & Hrep'). injection Heq as <- <-. split; [|by exists a'].
  apply spec_apply_samples in E; [|apply Hrep]. unfold held.
  destruct Hrep as [_ Hl Hw _ _], Hrep' as [_ Hl' Hw' _ _].
  rewrite (held_rep c _ _ Hw), (held_rep c _ _ Hw'), Hl, Hl'. done.
Qed.

(** ** Persistence *)

Lemma restore_windows (ws : window_map) :
  res_mapM (fun gw : string * list (string * entry) =>
    let? inner := res_mapM (fun ew => let? e := of_option ValueErrorExn (py_int ew.1) in Ok (e, ew.2)) gw.2 in
    Ok (gw.1, inner)) (map (fun gw => (gw.1, map (fun ew => (py_str ew.1, ew.2)) gw.2)) ws)
  = (Ok ws : res py_exn window_map).
Proof.
  induction ws as [|[g i] ws IH]; [done|]. cbn [map res_mapM fst snd].
  assert (res_mapM (fun ew : string * entry => let? e := of_option ValueErrorExn (py_int ew.1) in Ok (e, ew.2))
    (map (fun ew : Z * entry => (py_str ew.1, ew.2)) i) = Ok i) as ->.
  { clear. induction i as [|[e a] i IH]; [done|]. cbn [map res_mapM fst snd]. rewrite py_int_str. simpl. by rewrite IH. }
  cbn [res_bind]. by rewrite IH.
Qed.

(** The late counter does not influence the rows. *)
Definition shift (k : Z) (a : sp) : sp := mkSp (sp_max a) (sp_windows a) (sp_late a + k).

Lemma spec_record_shift {PT : PyText} {CK : CounterDelta.Clock} c r a k :
  spec_record c r (shift k a) = res_map (fun so => (shift k so.1, so.2)) (spec_record c r a).
Proof.
  unfold spec_record, shift. simpl.
  destruct (CounterDelta.first_timestamp (timestamp_fields c) r) as [ts|x]; [|done]. simpl.
  destruct (window_start c ts) as [start|x]; [|done]. simpl.
  destruct (match spec_watermark c (sp_max a) with Some wm => _ | None => false end).
  { simpl. unfold res_map, res_bind. do 3 f_equal. lia. }
  destruct (spec_finalize c _ (sp_windows a)) as [[sw o]|x]; [|done]. simpl.
  by destruct (spec_add c r start (start + window_seconds c) sw).
Qed.

Lemma spec_apply_shift {PT : PyText} {CK : CounterDelta.Clock} c rs a k :
  spec_apply c rs (shift k a) = res_map (fun so => (shift k so.1, so.2)) (spec_apply c rs a).
Proof.
  revert a. induction rs as [|r rs IH]; intros a; [done|]. simpl. rewrite spec_record_shift.
  destruct (spec_record c r a) as [[a1 o1]|x]; [|done]. simpl. rewrite IH.
  by destruct (spec_apply c rs a1) as [[a2 o2]|x].
Qed.

(** C37: the state survives persistence.  Saving a reached state and loading it
    into a fresh transform, with the window ends turned into JSON strings and
    back and the heap rebuilt, gives the very same windows, watermark and heap,
    so every later batch emits what it would have emitted without the restart. *)
Theorem state_roundtrip {PT : PyText} {CK : CounterDelta.Clock} c s a s0 rs :
  represents c s a ->
  exists s1, set_state (get_state s) s0 = Ok s1 /\
    _windows s1 = _windows s /\ _max_ts s1 = _max_ts s /\ _due_heap s1 = _due_heap s /\
    (apply c rs s1).2 = (apply c rs s).2.
Proof.
  intros Hrep. unfold set_state, get_state. cbn [b_windows b_max_ts]. rewrite restore_windows. cbn [res_bind].
  eexists. split; [done|]. pose proof (apply_refines c rs s a Hrep) as H1. destruct Hrep as [Hm Hl Hr Hw Hh].
  assert (heapify (open_pairs (_windows s)) = _due_heap s) as Hheap by (by rewrite Hh, (rep_pairs c _ _ Hr)).
  simpl. split_and!; [done|done|done|].
  pose proof (apply_refines c rs (_rebuild_due_heap (mkSt (_max_ts s) (_windows s) [] (late_dropped s0)
    (emitted_complete s0) (emitted_partial s0))) (shift (late_dropped s0 - sp_late a) a)) as H2.
  rewrite spec_apply_shift in H2. specialize (H2 ltac:(split; simpl; [done|lia|done|done|congruence])).
  destruct (spec_apply c rs a) as [[a' out]|x]; simpl in H2.
  - destruct H1 as (s1 & -> & _), H2 as (s2 & -> & _). done.
  - by rewrite H1, H2.
Qed.

Lemma restore_same c s a : represents c s a -> set_state (get_state s) s = Ok s.
Proof.
  intros [Hm Hl Hr Hw Hh]. unfold set_state, get_state. cbn [b_windows b_max_ts]. rewrite restore_windows.
  cbn [res_bind]. unfold _rebuild_due_heap. simpl. rewrite (rep_pairs c _ _ Hr), <- Hh. by destruct s.
Qed.

(** ** Flushing *)

Lemma flush_loop_samples c es n n' out :
  flush_loop c es n = (n', Ok out) -> rows_samples out = foldr (fun e k => e_sample_count e + k) 0 es.
Proof.
  revert n n' out. induction es as [|e es IH]; intros n n' out H; simpl in H; [by injection H as _ <-|].
  destruct (_emit_window c e false) as [r|x] eqn:Er; [|done].
  destruct (flush_loop c es (n + 1)) as [n1 [rest|x]] eqn:Ef; [|done]. injection H as _ <-.
  unfold rows_samples in *. simpl. rewrite (IH _ _ _ Ef). f_equal. by apply emit_samples in Er.
Qed.

Lemma sum_ends (inner : list (Z * entry)) l :
  (forall e, e ∈ l -> is_Some (aget e inner)) ->
  foldr (fun e k => e_sample_count e + k) 0 (omap (fun e => aget e inner) l)
  = foldr (fun e k => match aget e inner with Some x => e_sample_count x | None => 0 end + k) 0 l.
Proof.
  induction l as [|e l IH]; intros H; [done|]. csimpl. destruct (H e) as [x Hx]; [constructor|]. rewrite Hx.
  csimpl. rewrite IH; [done|]. intros e' He'. apply H. by constructor.
Qed.

Lemma sum_keys (inner : list (Z * entry)) :
  NoDup inner.*1 ->
  foldr (fun e k => match aget e inner with Some x => e_sample_count x | None => 0 end + k) 0 inner.*1
  = asum e_sample_count inner.
Proof.
  intros Hn. assert (forall i, (forall e a, (e, a) ∈ i -> aget e inner = Some a) ->
    foldr (fun e k => match aget e inner with Some x => e_sample_count x | None => 0 end + k) 0 i.*1
    = asum e_sample_count i) as Hi.
  { induction i as [|[e a] i IH]; [done|]. intros He. unfold asum in *. csimpl. rewrite (He e a) by constructor.
    rewrite IH; [done|]. intros e' a' Hin. apply He. by constructor. }
  apply Hi. intros e a. by apply elem_aget.
Qed.

Lemma sum_perm (inner : list (Z * entry)) l l' :
  l ≡ₚ l' ->
  foldr (fun e k => match aget e inner with Some x => e_sample_count x | None => 0 end + k) 0 l
  = foldr (fun e k => match aget e inner with Some x => e_sample_count x | None => 0 end + k) 0 l'.
Proof. induction 1; simpl; lia. Qed.

Lemma sum_app (l l' : list entry) :
  foldr (fun e k => e_sample_count e + k) 0 (l ++ l')
  = foldr (fun e k => e_sample_count e + k) 0 l + foldr (fun e k => e_sample_count e + k) 0 l'.
Proof. induction l as [|e l IH]; simpl; [done|]. rewrite IH. lia. Qed.

Lemma flush_entries_samples (ws : window_map) :
  Forall (fun gw => NoDup gw.2.*1) ws ->
  foldr (fun e k => e_sample_count e + k) 0 (flush_entries ws) = weigh e_sample_count ws.
Proof.
  induction ws as [|[g i] ws IH]; intros Hn; [done|]. apply Forall_cons in Hn as [Hi Hn].
  unfold flush_entries. csimpl. rewrite sum_app. fold (flush_entries ws).
  unfold weigh, asum at 1. simpl. fold (asum (asum e_sample_count) ws). fold (weigh e_sample_count ws).
  rewrite (IH Hn). f_equal. simpl in Hi. rewrite sum_ends.
  - rewrite (sum_perm i (sorted_ends i) i.*1) by apply merge_sort_Permutation. by apply sum_keys.
  - intros e He. unfold sorted_ends in He. rewrite merge_sort_Permutation in He.
    destruct (aget e i) eqn:E; [done|]. by apply aget_None in E.
Qed.

Lemma close_samples c s a s' out :
  represents c s a -> close c true s = (s', Ok out) ->
  held s = held s' + rows_samples out /\ late_dropped s' = late_dropped s /\ exists a', represents c s' a'.
Proof.
  intros Hrep H. unfold close in H. destruct (_windows s) as [|gw ws] eqn:Ew.
  { injection H as <- <-. simpl. split_and!; [lia|done|by exists a]. }
  destruct (flush_loop c _ _) as [n [o|x]] eqn:Ef; [|done]. injection H as <- <-.
  rewrite <- Ew in Ef. apply flush_loop_samples in Ef.
  destruct Hrep as [Hm Hl Hr Hw Hh]. rewrite flush_entries_samples in Ef by (by apply (rep_wf c _ _ Hr Hw)).
  unfold held. simpl. split_and!; [rewrite Ef; unfold weigh, asum; simpl; lia|done|].
  exists (mkSp (sp_max a) [] (sp_late a)). split; simpl; [done|done|constructor|by repeat constructor|done].
Qed.

(** ** Histories *)

Inductive wop := WApply (rs : list dict) | WFlush | WReload.

Section history.
Context {PT : PyText} {CK : CounterDelta.Clock} (c : config).

Definition wstep (o : wop) (s : st) : st * res py_exn (list dict) :=
  match o with
  | WApply rs => apply c rs s
  | WFlush => close c true s
  | WReload => match set_state (get_state s) s with Ok s' => (s', Ok []) | Raise x => (s, raise x) end
  end.

(** The state and the rows after a history none of whose operations raised. *)
Fixpoint wrun (ops : list wop) (s : st) : option (st * list dict) :=
  match ops with
  | [] => Some (s, [])
  | o :: ops' =>
      match wstep o s with
      | (s1, Ok rows) => sr ← wrun ops' s1; Some (sr.1, rows ++ sr.2)
      | _ => None
      end
  end.

Definition records_in (ops : list wop) : Z :=
  foldr (fun o n => match o with WApply rs => Z.of_nat (length rs) | _ => 0 end + n) 0 ops.

Definition fresh : st := mkSt None [] [] 0 0 0.

Lemma fresh_represents : represents c fresh (mkSp None [] 0).
Proof. split; simpl; [done|done|constructor|by repeat constructor|done]. Qed.

Lemma wrun_samples ops s a s' rows :
  represents c s a -> wrun ops s = Some (s', rows) ->
  held s + records_in ops = held s' + rows_samples rows + (late_dropped s' - late_dropped s).
Proof.
  revert s a rows. induction ops as [|o ops IH]; intros s a rows Hrep H.
  { injection H as <- <-. simpl. lia. }
  simpl in H. destruct (wstep o s) as [s1 [r1|x]] eqn:Eo; [|done].
  destruct (wrun ops s1) as [[s2 r2]|] eqn:Er; [|done]. injection H as <- <-. rewrite rows_samples_app.
  assert (held s + (match o with WApply rs => Z.of_nat (length rs) | _ => 0 end)
          = held s1 + rows_samples r1 + (late_dropped s1 - late_dropped s) /\ exists a', represents c s1 a') as [Hs [a' Ha']].
  { destruct o as [rs| |]; simpl in Eo.
    - by eapply apply_samples.
    - apply (close_samples c s a) in Eo as (H1 & H2 & H3); [|done]. split; [lia|done].
    - rewrite (restore_same c s a Hrep) in Eo. injection Eo as <- <-. simpl. split; [lia|by exists a]. }
  specialize (IH s1 a' r2 Ha' Er). unfold records_in in *. simpl. lia.
Qed.

End history.

(** No record is lost and none is counted twice.  Over any history of
    batches, flushes and state reloads of a fresh transform in which no
    operation raised, the records taken in are exactly the samples of the
    windows emitted, complete or partial, plus the samples still held by open
    windows, plus the records dropped as late. *)
Theorem samples_conserved {PT : PyText} {CK : CounterDelta.Clock} c ops s rows :
  wrun c ops fresh = Some (s, rows) ->
  records_in ops = rows_samples rows + held s + late_dropped s.
Proof.
  intros H. apply (wrun_samples c ops fresh _ s rows (fresh_represents c)) in H.
  unfold held, weigh, asum in *. simpl in *. lia.
Qed.

(** ** What the accumulators compute *)

Definition emitted (o : op) (vs : list pyval) : res py_exn pyval :=
  let? a := aggregate o vs in _emit_value o a.

Definition present (vs : list pyval) : list pyval := List.filter (fun x => negb (is_none x)) vs.

Lemma aggregate_snoc o vs x : aggregate o (vs ++ [x]) = let? a := aggregate o vs in _update_accumulator o a x.
Proof. apply res_foldM_snoc. Qed.

Lemma present_snoc vs x : present (vs ++ [x]) = present vs ++ (if is_none x then [] else [x]).
Proof. unfold present. rewrite List.filter_app. simpl. by destruct (is_none x). Qed.

Lemma aggregate_count vs : aggregate Count vs = Ok (ACount (Z.of_nat (length (present vs)))).
Proof.
  induction vs as [|x vs IH] using rev_ind; [done|]. rewrite aggregate_snoc, IH, present_snoc, length_app. simpl.
  destruct (is_none x); simpl; do 2 f_equal; lia.
Qed.

Lemma aggregate_first vs :
  aggregate First vs = Ok (match present vs with [] => ASeen VNone false | x :: _ => ASeen x true end).
Proof.
  induction vs as [|x vs IH] using rev_ind; [done|]. rewrite aggregate_snoc, IH, present_snoc. simpl.
  destruct (present vs); simpl; [by destruct (is_none x)|done].
Qed.

Lemma aggregate_last vs : aggregate Last vs = Ok (ALast (default VNone (last (present vs)))).
Proof.
  induction vs as [|x vs IH] using rev_ind; [done|]. rewrite aggregate_snoc, IH, present_snoc. simpl.
  destruct (is_none x); [by rewrite app_nil_r|]. by rewrite last_snoc.
Qed.

Lemma py_lt_int a b : py_lt (VInt a) (VInt b) = Ok (a <? b).
Proof. simpl. unfold num_compare, as_int. by destruct (Z.compare_spec a b), (Z.ltb_spec a b); try lia. Qed.

Lemma aggregate_min z zs :
  exists m, aggregate Min (VInt <$> z :: zs) = Ok (ASeen (VInt m) true) /\ m ∈ z :: zs /\ Forall (Z.le m) (z :: zs).
Proof.
  induction zs as [|x zs (m & IH & Hin & Hall)] using rev_ind.
  { exists z. split; [done|]. split; [constructor|]. repeat constructor. lia. }
  change (z :: zs ++ [x]) with ((z :: zs) ++ [x]). rewrite fmap_app. change (VInt <$> [x]) with [VInt x]. rewrite aggregate_snoc.
  rewrite IH. cbn [res_bind _update_accumulator _is_numeric]. unfold py_min. rewrite py_lt_int. cbn [res_bind].
  destruct (Z.ltb_spec x m).
  - exists x. split; [done|]. split; [apply elem_of_app; right; constructor|]. apply Forall_app.
    split; [|by repeat constructor]. eapply Forall_impl; [done|]. simpl. lia.
  - exists m. split; [done|]. split; [apply elem_of_app; auto|]. apply Forall_app. split; [done|].
    by repeat constructor.
Qed.

Lemma aggregate_max z zs :
  exists m, aggregate Max (VInt <$> z :: zs) = Ok (ASeen (VInt m) true) /\ m ∈ z :: zs /\ Forall (Z.ge m) (z :: zs).
Proof.
  induction zs as [|x zs (m & IH & Hin & Hall)] using rev_ind.
  { exists z. split; [done|]. split; [constructor|]. repeat constructor. lia. }
  change (z :: zs ++ [x]) with ((z :: zs) ++ [x]). rewrite fmap_app. change (VInt <$> [x]) with [VInt x]. rewrite aggregate_snoc.
  rewrite IH. cbn [res_bind _update_accumulator _is_numeric]. unfold py_max. rewrite py_lt_int. cbn [res_bind].
  destruct (Z.ltb_spec m x).
  - exists x. split; [done|]. split; [apply elem_of_app; right; constructor|]. apply Forall_app.
    split; [|repeat constructor; lia]. eapply Forall_impl; [done|]. simpl. lia.
  - exists m. split; [done|]. split; [apply elem_of_app; auto|]. apply Forall_app. split; [done|].
    repeat constructor; lia.
Qed.

(** What a window reports.  Over the values of a window in arrival order,
    count is the number of non-null values, first and last are the first and
    the last non-null value (null when there is none), and min and max over
    integers are a least and a greatest of them. *)
Theorem accumulators_closed_form vs z zs :
  emitted Count vs = Ok (VInt (Z.of_nat (length (present vs)))) /\
  emitted First vs = Ok (default VNone (head (present vs))) /\
  emitted Last vs = Ok (default VNone (last (present vs))) /\
  (exists m, emitted Min (VInt <$> z :: zs) = Ok (VInt m) /\ m ∈ z :: zs /\ Forall (Z.le m) (z :: zs)) /\
  (exists m, emitted Max (VInt <$> z :: zs) = Ok (VInt m) /\ m ∈ z :: zs /\ Forall (Z.ge m) (z :: zs)).
Proof.
  unfold emitted. rewrite aggregate_count, aggregate_first, aggregate_last. split_and!; [done| |done| |].
  - by destruct (present vs).
  - destruct (aggregate_min z zs) as (m & -> & H). by exists m.
  - destruct (aggregate_max z zs) as (m & -> & H). by exists m.
Qed.

(** ** A concrete history: two windows, one finalized, one late record *)

Definition demo_text : PyText := {| repr_text := fun _ => "?"%string |}.
Definition demo_clock : CounterDelta.Clock :=
  {| CounterDelta.epoch_of := fun x => match x with VInt z => Ok (float_of_int z) | _ => raise TransformError end |}.

Definition demo_config : config :=
  mkConfig 900 (float_of_int 60) ["t"%string] ["ne"%string]
    [("n", (Count, "v")); ("top", (Max, "v")); ("total", (Sum, "v"))]%string.

Definition demo_row (ne : string) (t v : Z) : dict := [("ne", VStr ne); ("t", VInt t); ("v", VInt v)]%string.

Definition demo_batch : list dict :=
  [demo_row "a" 100 5; demo_row "b" 200 7; demo_row "a" 800 6; demo_row "a" 1000 1; demo_row "b" 100 9].

Definition demo_state : st := (@apply demo_text demo_clock demo_config [demo_row "a" 100 5] fresh).1.

Definition demo_samples : sp :=
  mkSp (Some (float_of_int 100))
    [("a"%string, [(900, mkSWindow 0 [VStr "a"] [demo_row "a" 100 5])])] 0.

Lemma demo_represents : represents demo_config demo_state demo_samples.
Proof.
  pose proof (@apply_refines demo_text demo_clock demo_config [demo_row "a" 100 5] fresh (mkSp None [] 0)
    (fresh_represents demo_config)) as H. vm_compute in H. destruct H as (s' & Heq & H).
  assert (demo_state = s') as ->; [|exact H]. unfold demo_state. vm_compute. by injection Heq.
Qed.

Lemma windows_refine_samples_witness :
  exists s' out, @apply demo_text demo_clock demo_config demo_batch demo_state = (s', Ok out) /\
    rows_samples out = 4.
Proof.
  pose proof (@windows_refine_samples demo_text demo_clock demo_config demo_batch demo_state demo_samples
    demo_represents) as H.
  destruct (@spec_apply demo_text demo_clock demo_config demo_batch demo_samples) as [[a' out]|x] eqn:E;
    [|vm_compute in E; discriminate E].
  destruct H as (s' & H & _). exists s', out. split; [exact H|]. vm_compute in E. injection E as _ <-.
  vm_compute. reflexivity.
Defined.

Lemma samples_conserved_witness :
  exists s rows, @wrun demo_text demo_clock demo_config [WApply demo_batch; WReload; WFlush] fresh = Some (s, rows) /\
    5 = rows_samples rows + held s + late_dropped s.
Proof.
  destruct (@wrun demo_text demo_clock demo_config [WApply demo_batch; WReload; WFlush] fresh) as [[s rows]|] eqn:E;
    [|vm_compute in E; discriminate E].
  exists s, rows. split; [reflexivity|].
  exact (@samples_conserved demo_text demo_clock demo_config [WApply demo_batch; WReload; WFlush] s rows E).
Defined.

Lemma state_roundtrip_witness :
  exists s1, set_state (get_state demo_state) fresh = Ok s1 /\ _windows s1 = _windows demo_state.
Proof.
  destruct (@state_roundtrip demo_text demo_clock demo_config demo_state demo_samples fresh demo_batch demo_represents)
    as (s1 & H1 & H2 & _).
  exists s1. split; [exact H1|exact H2].
Defined.

End WindowLaws.
