(* ===== verification/JsonFlatten.v ===== *)
(** * json_flatten: row shaping over shared dicts

    tram/transforms/json_flatten.py.  Rows are Python dicts that later stages
    mutate in place, and the rows exploded from one record are shallow copies
    that share their nested dicts, so the model has a store: a dict is a cell,
    a value refers to it, [deepcopy] allocates new cells and [dict(row)] only
    one.  The final flattening only reads, and works on the value a row
    denotes. *)

From Stdlib Require Import ZArith Lia Ascii String SpecFloat.
From stdpp Require Import base tactics list strings gmap option.
From S2P Require Import Prelude PyStr Sha256 PyVal Paths Transforms.
Import stdpp.list.

#[local] Open Scope list_scope.

Module JsonFlatten.
Import PyVal Paths.

(** ** The store *)

Inductive hval :=
| HAtom (v : pyval)                  (* None, numbers, strings *)
| HList (l : list hval)
| HRef (a : nat).

Notation hdict := (list (string * hval)).

Record store := mkStore { cells : gmap nat hdict; next : nat }.

Definition empty_store : store := mkStore ∅ 0.

Definition alloc (d : hdict) (s : store) : nat * store :=
  (next s, mkStore (<[next s := d]> (cells s)) (S (next s))).

Definition cell (a : nat) (s : store) : hdict := default [] (cells s !! a).

Definition write (a : nat) (d : hdict) (s : store) : store := mkStore (<[a := d]> (cells s)) (next s).

(** A value as fresh cells. *)
Fixpoint load (v : pyval) (s : store) : hval * store :=
  match v with
  | VList l =>
      let '(l', s') := (fix go l s := match l with
                                      | [] => ([], s)
                                      | x :: l' => let '(y, s1) := load x s in
                                                   let '(ys, s2) := go l' s1 in (y :: ys, s2)
                                      end) l s in
      (HList l', s')
  | VDict d =>
      let '(d', s') := (fix go (d : list (string * pyval)) s :=
                          match d with
                          | [] => ([], s)
                          | (k, x) :: d' => let '(y, s1) := load x s in
                                            let '(ys, s2) := go d' s1 in ((k, y) :: ys, s2)
                          end) d s in
      let '(a, s'') := alloc d' s' in (HRef a, s'')
  | _ => (HAtom v, s)
  end.

(** The value a reference denotes.  Following more references than there are
    cells means a cycle, where Python exceeds its recursion limit. *)
Fixpoint read_at (fuel : nat) (s : store) {struct fuel} : hval -> res py_exn pyval :=
  fix rd (x : hval) : res py_exn pyval :=
    match x with
    | HAtom v => Ok v
    | HList l =>
        let? vs := (fix go (l : list hval) : res py_exn (list pyval) :=
                      match l with
                      | [] => Ok []
                      | y :: l' => let? v := rd y in let? vs := go l' in Ok (v :: vs)
                      end) l in
        Ok (VList vs)
    | HRef a =>
        match fuel with
        | O => raise RecursionErrorExn
        | S fuel' =>
            let? d := res_mapM (fun kx => let? v := read_at fuel' s kx.2 in Ok (kx.1, v)) (cell a s) in
            Ok (VDict d)
        end
    end.

Definition read (s : store) (x : hval) : res py_exn pyval := read_at (next s) s x.

(** Rows are trees, so a deep copy is the denoted value in fresh cells. *)
Definition deepcopy (x : hval) (s : store) : res py_exn (hval * store) :=
  let? v := read s x in Ok (load v s).

Definition deepcopy_row (a : nat) (s : store) : res py_exn (nat * store) :=
  let? vs := deepcopy (HRef a) s in
  match vs with (HRef b, s') => Ok (b, s') | _ => raise TypeErrorExn end.

(** [dict(row)]. *)
Definition shallow_row (a : nat) (s : store) : nat * store := alloc (cell a s) s.

(** ** Paths over the store *)

Fixpoint hget (s : store) (ts : list string) (x : hval) : option hval :=
  match ts with
  | [] => Some x
  | t :: ts' =>
      match x with
      | HRef a => y ← aget t (cell a s); hget s ts' y
      | _ => None
      end
  end.

Definition get_path_at (s : store) (a : nat) (p : string) : option hval := hget s (split_on dot p) (HRef a).

(** [set_path] with [create_missing]. *)
Fixpoint hset (ts : list string) (x : hval) (a : nat) (s : store) : res py_exn store :=
  match ts with
  | [] => Ok s
  | [t] => Ok (write a (aset t x (cell a s)) s)
  | t :: ts' =>
      match aget t (cell a s) with
      | None =>
          let '(b, s1) := alloc [] s in
          hset ts' x b (write a (aset t (HRef b) (cell a s1)) s1)
      | Some (HRef b) => hset ts' x b s
      | Some _ => raise TransformError
      end
  end.

Definition set_path_at (a : nat) (p : string) (x : hval) (s : store) : res py_exn store :=
  hset (split_on dot p) x a s.

Fixpoint hdelete (ts : list string) (a : nat) (s : store) : bool * store :=
  match ts with
  | [] => (false, s)
  | [t] => match aget t (cell a s) with
           | Some _ => (true, write a (adel t (cell a s)) s)
           | None => (false, s)
           end
  | t :: ts' => match aget t (cell a s) with
                | Some (HRef b) => hdelete ts' b s
                | _ => (false, s)
                end
  end.

(** The stack of [_prune_empty_parents]: the dicts on the way, or [None] when
    one of them is missing. *)
Fixpoint parents (s : store) (ts : list string) (a : nat) : option (list (nat * string)) :=
  match ts with
  | [] | [_] => Some []
  | t :: ts' => match aget t (cell a s) with
                | Some (HRef b) => st ← parents s ts' b; Some ((a, t) :: st)
                | _ => None
                end
  end.

Fixpoint prune_stack (st : list (nat * string)) (s : store) : store :=
  match st with
  | [] => s
  | (a, t) :: st' =>
      match aget t (cell a s) with
      | Some (HRef b) => match cell b s with
                         | [] => prune_stack st' (write a (adel t (cell a s)) s)
                         | _ => s
                         end
      | _ => s
      end
  end.

Definition _prune_empty_parents (a : nat) (p : string) (s : store) : store :=
  if negb (has_char dot p) then s
  else match parents s (split_on dot p) a with
       | None => s
       | Some st => prune_stack (reverse st) s
       end.

Definition _delete_path_pruned (a : nat) (p : string) (s : store) : store :=
  match hdelete (split_on dot p) a s with
  | (true, s') => _prune_empty_parents a p s'
  | (false, s') => s'
  end.

(** ** Configuration *)

Inductive choice_mode := ModeKeep | ModeValue | ModeBoth.

Record choice := mkChoice {
  mode : choice_mode;
  type_suffix : string;
  value_suffix : string;
  paths : list string;
}.

Record zip_group := mkZip { zip_fields : list (string * string); strict : bool }.

Record config := mkConfig {
  explode_paths : list string;
  separator : string;
  keep_empty_rows : bool;
  preserve_lists : bool;
  max_depth : Z;
  zip_groups : list zip_group;
  choice_unwrap : option choice;
  drop_paths : list string;
}.

Definition init (c : config) : res py_exn config :=
  if String.eqb (separator c) "" then raise TransformError
  else if (max_depth c <? 0)%Z then raise TransformError
  else Ok c.

(** ** Exploding *)

(** One row per element, each a copy of [base]. *)
Fixpoint explode_elements (p : string) (base : nat) (els : list hval) (s : store)
  : res py_exn (list nat * store) :=
  match els with
  | [] => Ok ([], s)
  | el :: els' =>
      let? rs := if has_char dot p then deepcopy_row base s else Ok (shallow_row base s) in
      let '(r, s1) := rs in
      let? s2 := match el with
                 | HRef b => Ok (write r (fold_left (fun d kx => aset kx.1 kx.2 d) (cell b s1) (cell r s1)) s1)
                 | _ => set_path_at r p el s1
                 end in
      let? more := explode_elements p base els' s2 in
      Ok (r :: more.1, more.2)
  end.

Definition explode_row (c : config) (p : string) (row : nat) (s : store) : res py_exn (list nat * store) :=
  match get_path_at s row p with
  | None | Some (HList []) => Ok (if keep_empty_rows c then [row] else [], s)
  | Some (HList els) =>
      let? bs := deepcopy_row row s in
      let '(base, s1) := bs in
      explode_elements p base els (_delete_path_pruned base p s1)
  | Some _ => raise TransformError
  end.

(** Every row in turn, threading the store. *)
Fixpoint each_row (f : nat -> store -> res py_exn (list nat * store)) (rows : list nat) (s : store)
  : res py_exn (list nat * store) :=
  match rows with
  | [] => Ok ([], s)
  | r :: rows' =>
      let? rs := f r s in
      let? more := each_row f rows' rs.2 in
      Ok (rs.1 ++ more.1, more.2)
  end.

Fixpoint _apply_explodes (c : config) (ps : list string) (rows : list nat) (s : store)
  : res py_exn (list nat * store) :=
  match ps with
  | [] => Ok (rows, s)
  | p :: ps' => let? rs := each_row (explode_row c p) rows s in _apply_explodes c ps' rs.1 rs.2
  end.

(** ** Zipping *)

(** [None] when a source is missing; a source that is no list raises. *)
Fixpoint found_lists (s : store) (row : nat) (srcs : list string) : res py_exn (option (list (list hval))) :=
  match srcs with
  | [] => Ok (Some [])
  | f :: srcs' =>
      match get_path_at s row f with
      | None => Ok None
      | Some (HList l) => let? rest := found_lists s row srcs' in Ok (ls ← rest; Some (l :: ls))
      | Some _ => raise TransformError
      end
  end.

Fixpoint zip_rows (outs : list string) (dotted : bool) (base : nat) (ls : list (list hval)) (idx : list nat)
  (s : store) : res py_exn (list nat * store) :=
  match idx with
  | [] => Ok ([], s)
  | i :: idx' =>
      let? rs := if dotted then deepcopy_row base s else Ok (shallow_row base s) in
      let '(r, s1) := rs in
      let? s2 := res_foldM (fun s ol => match ol.2 !! i with
                                        | Some x => set_path_at r ol.1 x s
                                        | None => Ok s
                                        end) (zip outs ls) s1 in
      let? more := zip_rows outs dotted base ls idx' s2 in
      Ok (r :: more.1, more.2)
  end.

Definition zip_row (g : zip_group) (row : nat) (s : store) : res py_exn (list nat * store) :=
  let? found := found_lists s row (zip_fields g).*1 in
  match found with
  | None => Ok ([row], s)
  | Some ls =>
      let n := length (default [] (head ls)) in
      if forallb (fun l => length l =? n)%nat ls then
        let? bs := deepcopy_row row s in
        let '(base, s1) := bs in
        let s2 := fold_left (fun s f => _delete_path_pruned base f s) (zip_fields g).*1 s1 in
        zip_rows (zip_fields g).*2 (existsb (has_char dot) (zip_fields g).*2) base ls (seq 0 n) s2
      else if strict g then raise TransformError else Ok ([row], s)
  end.

Fixpoint _apply_zip_groups (gs : list zip_group) (rows : list nat) (s : store) : res py_exn (list nat * store) :=
  match gs with
  | [] => Ok (rows, s)
  | g :: gs' =>
      match zip_fields g with
      | [] => raise TransformError
      | _ => let? rs := each_row (zip_row g) rows s in _apply_zip_groups gs' rs.1 rs.2
      end
  end.

(** ** Choices *)

(** The members of a dict with exactly the keys [type] and [value]. *)
Definition _is_choice_dict (s : store) (x : hval) : option (hval * hval) :=
  match x with
  | HRef a =>
      let d := cell a s in
      if (length d =? 2)%nat then
        ty ← aget "type"%string d; v ← aget "value"%string d; Some (ty, v)
      else None
  | _ => None
  end.

Definition unwrap_path (ch : choice) (row : nat) (p : string) (s : store) : res py_exn store :=
  match get_path_at s row p with
  | None => Ok s
  | Some x =>
      match _is_choice_dict s x with
      | None => Ok s
      | Some (ty, v) =>
          match mode ch with
          | ModeKeep => Ok s
          | ModeValue => let? vs := deepcopy v s in set_path_at row p vs.1 vs.2
          | ModeBoth =>
              let s1 := _delete_path_pruned row p s in
              let? ts := deepcopy ty s1 in
              let? s2 := set_path_at row (p ++ type_suffix ch)%string ts.1 ts.2 in
              let? vs := deepcopy v s2 in
              set_path_at row (if String.eqb (value_suffix ch) "" then p else (p ++ value_suffix ch)%string) vs.1 vs.2
          end
      end
  end.

Definition _apply_choice_unwrap (c : config) (rows : list nat) (s : store) : res py_exn store :=
  match choice_unwrap c with
  | None => Ok s
  | Some ch => res_foldM (fun s row => res_foldM (fun s p => unwrap_path ch row p s) (paths ch) s) rows s
  end.

(** ** Flattening *)

Section flatten.
Context (c : config).

Fixpoint flatten_value (v : pyval) (key : string) (depth : Z) {struct v} : res py_exn dict :=
  match v with
  | VDict ((_ :: _) as d) =>
      if ((max_depth c =? 0) || (depth <? max_depth c))%Z%bool then
        (fix go (d : list (string * pyval)) (acc : dict) : res py_exn dict :=
           match d with
           | [] => Ok acc
           | (k, w) :: d' =>
               let? fw := flatten_value w (Transforms.Flatten.join_key (separator c) key k) (depth + 1)%Z in
               go d' (dupdate acc fw)
           end) d []
      else Ok [(key, v)]
  | VList _ => if preserve_lists c then Ok [(key, v)] else raise TransformError
  | _ => Ok [(key, v)]
  end.

Definition _flatten_record (record : dict) : res py_exn dict :=
  res_foldM (fun acc kv => let? fw := flatten_value kv.2 kv.1 0 in Ok (dupdate acc fw)) record [].
End flatten.

Definition _drop_flattened_paths (c : config) (row : dict) : dict :=
  List.filter (fun kv =>
    negb (existsb (fun p => if has_path_pattern p then path_matches_pattern kv.1 p else String.eqb kv.1 p)
            (drop_paths c))) row.

(** ** The transform *)

Definition needs_private_rows (c : config) : bool :=
  negb (bool_decide (explode_paths c = []) && match zip_groups c with [] => true | _ => false end
        && match choice_unwrap c with None => true | _ => false end).

Definition read_row (s : store) (a : nat) : res py_exn dict :=
  let? v := read s (HRef a) in match v with VDict d => Ok d | _ => raise TypeErrorExn end.

(** The rows emitted for the records [records] of the store. *)
Definition apply_at (c : config) (records : list nat) (s : store) : res py_exn (list dict) :=
  let? rs := if needs_private_rows c
             then each_row (fun a s => let? b := deepcopy_row a s in Ok ([b.1], b.2)) records s
             else Ok (records, s) in
  let? rs := _apply_explodes c (explode_paths c) rs.1 rs.2 in
  let? rs := _apply_zip_groups (zip_groups c) rs.1 rs.2 in
  let? s' := _apply_choice_unwrap c rs.1 rs.2 in
  let? rows := res_mapM (read_row s') rs.1 in
  let? flat := res_mapM (_flatten_record c) rows in
  Ok (_drop_flattened_paths c <$> flat).

(** The records of a batch as unshared cells. *)
Definition load_records (records : list dict) (s : store) : list nat * store :=
  fold_left (fun ls r => match load (VDict r) ls.2 with
                         | (HRef a, s') => (ls.1 ++ [a], s')
                         | (_, s') => (ls.1, s')
                         end) records ([], s).

Definition apply (c : config) (records : list dict) : res py_exn (list dict) :=
  let '(rows, s) := load_records records empty_store in apply_at c rows s.

End JsonFlatten.
