(* ===== verification/JsonFlattenLaws.v ===== *)
(** * json_flatten: reading back, plain flattening, and shared parents

    Reading a freshly loaded value gives it back, so without exploding, zipping
    and unwrapping the transform is the pure flattening of each record.  With
    them, the rows of one record share the dicts they were not exploded from,
    and unwrapping a choice in the first row takes it away from the others. *)

From Stdlib Require Import ZArith Lia Ascii String SpecFloat.
From stdpp Require Import base tactics list strings gmap option.
From S2P Require Import Prelude PyStr Sha256 PyVal Paths Transforms JsonFlatten.
Import stdpp.list.

#[local] Open Scope list_scope.

Module JsonFlattenLaws.
Import PyVal Paths JsonFlatten.

(** ** Loading and reading *)

(** [s'] keeps the cells [s] has allocated. *)
Definition extends (s s' : store) : Prop :=
  next s <= next s' /\ forall a, a < next s -> cells s' !! a = cells s !! a.

Lemma extends_refl s : extends s s.
Proof. by split. Qed.

Lemma extends_trans s1 s2 s3 : extends s1 s2 -> extends s2 s3 -> extends s1 s3.
Proof. intros [H1 H2] [H3 H4]. split; [lia|]. intros a Ha. rewrite H4, H2; done || lia. Qed.

Lemma extends_alloc d s : extends s (alloc d s).2.
Proof. split; simpl; [lia|]. intros a Ha. apply lookup_insert_ne. lia. Qed.

(** Loading as folds over the members. *)
Fixpoint load_list (l : list pyval) (s : store) : list hval * store :=
  match l with
  | [] => ([], s)
  | x :: l' => let '(y, s1) := load x s in let '(ys, s2) := load_list l' s1 in (y :: ys, s2)
  end.

Fixpoint load_items (d : list (string * pyval)) (s : store) : list (string * hval) * store :=
  match d with
  | [] => ([], s)
  | (k, x) :: d' => let '(y, s1) := load x s in let '(ys, s2) := load_items d' s1 in ((k, y) :: ys, s2)
  end.

Lemma load_VList l s : load (VList l) s = let '(l', s') := load_list l s in (HList l', s').
Proof. done. Qed.

Lemma load_VDict d s : load (VDict d) s = let '(d', s') := load_items d s in let '(a, s'') := alloc d' s' in (HRef a, s'').
Proof. done. Qed.

Fixpoint read_list (k : nat) (s : store) (l : list hval) : res py_exn (list pyval) :=
  match l with
  | [] => Ok []
  | y :: l' => let? v := read_at k s y in let? vs := read_list k s l' in Ok (v :: vs)
  end.

Lemma read_HList k s l : read_at k s (HList l) = let? vs := read_list k s l in Ok (VList vs).
Proof.
  assert ((fix go (l : list hval) : res py_exn (list pyval) :=
             match l with
             | [] => Ok []
             | y :: l' => let? v := read_at k s y in let? vs := go l' in Ok (v :: vs)
             end) l = read_list k s l) as H by (induction l as [|y l IH]; simpl; [done|by rewrite IH]).
  rewrite <- H. by destruct k.
Qed.

Lemma read_HRef k s a :
  read_at (S k) s (HRef a)
  = let? d := res_mapM (fun kx => let? v := read_at k s kx.2 in Ok (kx.1, v)) (cell a s) in Ok (VDict d).
Proof. done. Qed.

(** What a load promises: it only allocates, and its result reads back with as
    much fuel as it allocated cells, in every later store that kept them. *)
Definition loads (v : pyval) : Prop :=
  forall s x s', load v s = (x, s') ->
    extends s s' /\ forall k s'', extends s' s'' -> next s' - next s <= k -> read_at k s'' x = Ok v.

Lemma load_list_ok l s xs s' :
  Forall loads l -> load_list l s = (xs, s') ->
  extends s s' /\ forall k s'', extends s' s'' -> next s' - next s <= k -> read_list k s'' xs = Ok l.
Proof.
  revert s xs. induction l as [|v l IH]; intros s xs Hl H; simpl in H.
  { injection H as <- <-. by split; [apply extends_refl|]. }
  apply Forall_cons in Hl as [Hv Hl]. destruct (load v s) as [y s1] eqn:E1.
  destruct (load_list l s1) as [ys s2] eqn:E2. injection H as <- <-.
  destruct (Hv s y s1 E1) as [He1 Hr1]. destruct (IH s1 ys Hl E2) as [He2 Hr2].
  split; [by eapply extends_trans|]. intros k s'' He Hk. simpl. destruct He1, He2.
  rewrite (Hr1 k s''); [|by eapply extends_trans|lia]. simpl. by rewrite (Hr2 k s'') by (done || lia).
Qed.

Lemma load_items_ok d s xs s' :
  Forall (fun kv => loads kv.2) d -> load_items d s = (xs, s') ->
  extends s s' /\ forall k s'', extends s' s'' -> next s' - next s <= k ->
    res_mapM (fun kx => let? v := read_at k s'' kx.2 in Ok (kx.1, v)) xs = Ok d.
Proof.
  revert s xs. induction d as [|[f v] d IH]; intros s xs Hl H; simpl in H.
  { injection H as <- <-. by split; [apply extends_refl|]. }
  apply Forall_cons in Hl as [Hv Hl]. destruct (load v s) as [y s1] eqn:E1.
  destruct (load_items d s1) as [ys s2] eqn:E2. injection H as <- <-.
  destruct (Hv s y s1 E1) as [He1 Hr1]. destruct (IH s1 ys Hl E2) as [He2 Hr2].
  split; [by eapply extends_trans|]. intros k s'' He Hk. simpl. destruct He1, He2.
  rewrite (Hr1 k s''); [|by eapply extends_trans|lia]. simpl. by rewrite (Hr2 k s'') by (done || lia).
Qed.

Lemma load_ok v : loads v.
Proof.
  induction v as [|b|z|f|t|l IH|d IH] using pyval_nested_ind; intros s x s' H.
  1-5: injection H as <- <-; split; [apply extends_refl|]; intros [|k] s'' _ _; done.
  - rewrite load_VList in H. destruct (load_list l s) as [xs s1] eqn:E. injection H as <- <-.
    destruct (load_list_ok l s xs s1 IH E) as [He Hr]. split; [done|]. intros k s'' Hs Hk.
    rewrite read_HList. by rewrite (Hr k s'' Hs Hk).
  - rewrite load_VDict in H. destruct (load_items d s) as [xs s1] eqn:E. injection H as <- <-.
    destruct (load_items_ok d s xs s1 IH E) as [He Hr].
    split; [eapply extends_trans; [done|apply (extends_alloc xs)]|]. intros k s'' [Hn Hc] Hk. simpl in Hk, Hn, Hc.
    destruct He as [Hn1 _]. destruct k as [|k]; [lia|].
    rewrite read_HRef. unfold cell. rewrite Hc, lookup_insert_eq by lia. simpl.
    rewrite (Hr k s''); [done| |lia]. split; [lia|]. intros a Ha. rewrite Hc by lia. apply lookup_insert_ne. lia.
Qed.

(** A dict record loads into one new row that reads back as itself, whatever
    is loaded after it. *)
Lemma load_row_ok r s :
  exists a s', load (VDict r) s = (HRef a, s') /\ extends s s' /\
    forall s'', extends s' s'' -> read_row s'' a = Ok r.
Proof.
  destruct (load_items r s) as [xs s1] eqn:E. exists (next s1), (alloc xs s1).2.
  assert (load (VDict r) s = (HRef (next s1), (alloc xs s1).2)) as Hl by (by rewrite load_VDict, E).
  destruct (load_ok (VDict r) s _ _ Hl) as [He Hr]. split; [done|]. split; [done|]. intros s'' Hs''.
  unfold read_row, read. rewrite (Hr (next s'') s'' Hs''); [done|]. destruct Hs''. lia.
Qed.

Lemma load_records_ok rs s rows0 rows s' :
  fold_left (fun ls r => match load (VDict r) ls.2 with
                         | (HRef a, s') => (ls.1 ++ [a], s')
                         | (_, s') => (ls.1, s')
                         end) rs (rows0, s) = (rows, s') ->
  extends s s' /\ exists rows1, rows = rows0 ++ rows1 /\
    forall s'', extends s' s'' -> res_mapM (read_row s'') rows1 = Ok rs.
Proof.
  revert s rows0. induction rs as [|r rs IH]; intros s rows0 H; cbn [fold_left] in H.
  { injection H as <- <-. split; [apply extends_refl|]. exists []. by rewrite app_nil_r. }
  destruct (load_row_ok r s) as (a & s1 & Hl & He & Hr). cbn [fst snd] in H. rewrite Hl in H.
  apply IH in H as [He1 (rows1 & -> & Hr1)]. split; [by eapply extends_trans|].
  exists (a :: rows1). split; [by rewrite <- app_assoc|]. intros s'' Hs. simpl.
  rewrite Hr by (by eapply extends_trans). simpl. by rewrite Hr1.
Qed.

(** Without row shaping, json_flatten is flattening.  When no explode path,
    zip group or choice is configured, the batch's rows are the records
    flattened one by one and stripped of the dropped paths, and it raises
    exactly when flattening a record raises. *)
Theorem plain_json_flatten c records :
  explode_paths c = [] -> zip_groups c = [] -> choice_unwrap c = None ->
  apply c records = let? flat := res_mapM (_flatten_record c) records in Ok (_drop_flattened_paths c <$> flat).
Proof.
  intros He Hz Hc. unfold apply. destruct (load_records records empty_store) as [rows s] eqn:E.
  apply load_records_ok in E as [_ (rows1 & -> & Hr)]. specialize (Hr s (extends_refl s)). simpl.
  unfold apply_at, needs_private_rows, _apply_choice_unwrap. rewrite He, Hz, Hc. simpl. by rewrite Hr.
Qed.

(** ** Shared parents *)

Definition shared_config : config :=
  mkConfig ["items"%string] "." true true 0 [] (Some (mkChoice ModeBoth "_type" "" ["hdr.c"%string])) [].

Definition shared_record (ty v x y : Z) : dict :=
  [("hdr", VDict [("c", VDict [("type", VInt ty); ("value", VInt v)])]); ("items", VList [VInt x; VInt y])]%string.

(** Unwrapping a choice in the first exploded row takes it from the next.
    A record with one choice under [hdr.c] and a list of two items explodes
    into two rows; the first gets the choice's type and value, and the second
    is left with an empty [hdr] and neither, because the rows share the dict
    the choice was deleted from. *)
Theorem later_rows_lose_the_choice ty v x y :
  apply shared_config [shared_record ty v x y]
  = Ok [[("items", VInt x); ("hdr.c_type", VInt ty); ("hdr.c", VInt v)];
        [("hdr", VDict []); ("items", VInt y)]]%string.
Proof. vm_compute. reflexivity. Qed.

(** ** Concrete records *)

Definition demo_config : config := mkConfig [] "." true true 0 [] None ["*.secret"%string].

Lemma plain_json_flatten_witness :
  apply demo_config [[("a", VDict [("secret", VInt 1); ("b", VInt 2)])]]%string = Ok [[("a.b", VInt 2)]]%string.
Proof.
  etransitivity; [apply plain_json_flatten; reflexivity|]. vm_compute. reflexivity.
Defined.

End JsonFlattenLaws.
