(* ===== verification/Accounting.v ===== *)
(** * Delivery accounting of a run

    The counters a pipeline run keeps: PipelineRunContext and RunResult of
    tram/core/context.py, PipelineStats of tram/agent/metrics.py, and
    [_UnitOutcome] and [_RunDeliveryAccounting] of tram/pipeline/executor.py.
    The lock around each mutation makes it one step; a method that mutates
    takes the object and returns it.  The laws at the end are what the executor
    relies on: what a unit's counters say about its disposition, and that the
    run-level counters are the sums of what was recorded. *)

From Stdlib Require Import ZArith Lia Ascii String.
From stdpp Require Import base tactics list strings gmap option.
From S2P Require Import Prelude PyStr IsoTime PyVal.
Import stdpp.list.

#[local] Open Scope Z_scope.
#[local] Open Scope list_scope.

Module Accounting.
Import PyVal.

(** [on_error] of a pipeline. *)
Inductive on_error_mode := OnContinue | OnAbort | OnRetry | OnDlq.

#[global] Instance on_error_mode_eq_dec : EqDecision on_error_mode.
Proof. solve_decision. Defined.

(** ** The run context *)

Inductive RunStatus := PENDING | RUNNING | SUCCESS | FAILED | ABORTED | PARTIAL.

#[global] Instance RunStatus_eq_dec : EqDecision RunStatus.
Proof. solve_decision. Defined.

(** [started_at] in microseconds since the epoch. *)
Record PipelineRunContext := mkCtx {
  cx_pipeline_name : string;
  cx_run_id : string;
  cx_started_at : Z;
  cx_records_in : Z;
  cx_records_out : Z;
  cx_records_skipped : Z;
  cx_bytes_in : Z;
  cx_bytes_out : Z;
  cx_dlq_count : Z;
  cx_errors : list string }.

Definition new_ctx (pipeline run_id : string) (started_at : Z) : PipelineRunContext :=
  mkCtx pipeline run_id started_at 0 0 0 0 0 0 [].

Definition inc_records_in (n : Z) (c : PipelineRunContext) : PipelineRunContext :=
  mkCtx (cx_pipeline_name c) (cx_run_id c) (cx_started_at c) (cx_records_in c + n) (cx_records_out c)
    (cx_records_skipped c) (cx_bytes_in c) (cx_bytes_out c) (cx_dlq_count c) (cx_errors c).

Definition inc_records_out (n : Z) (c : PipelineRunContext) : PipelineRunContext :=
  mkCtx (cx_pipeline_name c) (cx_run_id c) (cx_started_at c) (cx_records_in c) (cx_records_out c + n)
    (cx_records_skipped c) (cx_bytes_in c) (cx_bytes_out c) (cx_dlq_count c) (cx_errors c).

Definition inc_records_skipped (n : Z) (c : PipelineRunContext) : PipelineRunContext :=
  mkCtx (cx_pipeline_name c) (cx_run_id c) (cx_started_at c) (cx_records_in c) (cx_records_out c)
    (cx_records_skipped c + n) (cx_bytes_in c) (cx_bytes_out c) (cx_dlq_count c) (cx_errors c).

Definition inc_bytes_in (n : Z) (c : PipelineRunContext) : PipelineRunContext :=
  mkCtx (cx_pipeline_name c) (cx_run_id c) (cx_started_at c) (cx_records_in c) (cx_records_out c)
    (cx_records_skipped c) (cx_bytes_in c + n) (cx_bytes_out c) (cx_dlq_count c) (cx_errors c).

Definition inc_bytes_out (n : Z) (c : PipelineRunContext) : PipelineRunContext :=
  mkCtx (cx_pipeline_name c) (cx_run_id c) (cx_started_at c) (cx_records_in c) (cx_records_out c)
    (cx_records_skipped c) (cx_bytes_in c) (cx_bytes_out c + n) (cx_dlq_count c) (cx_errors c).

Definition note_skip (msg : string) (c : PipelineRunContext) : PipelineRunContext :=
  mkCtx (cx_pipeline_name c) (cx_run_id c) (cx_started_at c) (cx_records_in c) (cx_records_out c)
    (cx_records_skipped c) (cx_bytes_in c) (cx_bytes_out c) (cx_dlq_count c) (cx_errors c ++ [msg]).

Definition record_error (msg : string) (c : PipelineRunContext) : PipelineRunContext :=
  inc_records_skipped 1 (note_skip msg c).

Definition record_dlq (c : PipelineRunContext) : PipelineRunContext :=
  mkCtx (cx_pipeline_name c) (cx_run_id c) (cx_started_at c) (cx_records_in c) (cx_records_out c)
    (cx_records_skipped c) (cx_bytes_in c) (cx_bytes_out c) (cx_dlq_count c + 1) (cx_errors c).

(** [started_at.strftime("%Y%m%dT%H%M%S")]. *)
Definition run_timestamp (t : Z) : string :=
  let '(y, m, d) := IsoTime.ymd_of_days (t / IsoTime.us_per_day) in
  let r := t mod IsoTime.us_per_day in
  (IsoTime.zpad 4 y ++ IsoTime.zpad 2 m ++ IsoTime.zpad 2 d ++ "T" ++
   IsoTime.zpad 2 (r / 3600000000) ++ IsoTime.zpad 2 ((r / 60000000) mod 60) ++
   IsoTime.zpad 2 ((r / 1000000) mod 60))%string.

(** ** Live statistics *)

Definition _ERRORS_WINDOW_MAXLEN : nat := 100.

Record PipelineStats := mkStats {
  ps_records_in : Z;
  ps_records_out : Z;
  ps_records_skipped : Z;
  ps_dlq_count : Z;
  ps_error_count : Z;
  ps_bytes_in : Z;
  ps_bytes_out : Z;
  ps_errors_last_window : list string }.

Definition stats_zero : PipelineStats := mkStats 0 0 0 0 0 0 0 [].

(** The keyword arguments of [increment], with their defaults. *)
Record stats_delta := mkDelta {
  sd_records_in : Z; sd_records_out : Z; sd_skipped : Z; sd_dlq : Z;
  sd_bytes_in : Z; sd_bytes_out : Z; sd_errors : list string }.

(** The last [n] elements. *)
Definition last_n {A} (n : nat) (l : list A) : list A := drop (length l - n) l.

Definition increment (d : stats_delta) (s : PipelineStats) : PipelineStats :=
  mkStats (ps_records_in s + sd_records_in d) (ps_records_out s + sd_records_out d)
    (ps_records_skipped s + sd_skipped d) (ps_dlq_count s + sd_dlq d)
    (ps_error_count s + Z.of_nat (length (sd_errors d)))
    (ps_bytes_in s + sd_bytes_in d) (ps_bytes_out s + sd_bytes_out d)
    (last_n _ERRORS_WINDOW_MAXLEN (ps_errors_last_window s ++ last_n 10 (sd_errors d))).

(** [reset]: every counter back to zero and the error window cleared. *)
Definition stats_reset (s : PipelineStats) : PipelineStats := stats_zero.

(** [snapshot_and_reset_window]: the counters, and the object with an empty
    error window. *)
Definition snapshot_and_reset_window (s : PipelineStats) : PipelineStats * PipelineStats :=
  (s, mkStats (ps_records_in s) (ps_records_out s) (ps_records_skipped s) (ps_dlq_count s)
        (ps_error_count s) (ps_bytes_in s) (ps_bytes_out s) []).

(** ** Source units *)

Inductive AckDisposition := DELIVERED | FILTERED | DLQ | DROPPED.

#[global] Instance AckDisposition_eq_dec : EqDecision AckDisposition.
Proof. solve_decision. Defined.

Record _UnitOutcome := mkUnit {
  u_meta : dict;
  u_records_in : Z;
  u_delivered : Z;
  u_filtered : Z;
  u_records_failed : Z;
  u_dlq_succeeded : Z;
  u_dlq_failed : Z }.

Definition new_unit (meta : dict) : _UnitOutcome := mkUnit meta 0 0 0 0 0 0.

Definition finish (u : _UnitOutcome) : _UnitOutcome :=
  let accounted := u_delivered u + u_records_failed u + u_dlq_succeeded u + u_dlq_failed u in
  mkUnit (u_meta u) (u_records_in u) (u_delivered u) (Z.max 0 (u_records_in u - accounted))
    (u_records_failed u) (u_dlq_succeeded u) (u_dlq_failed u).

Definition disposition (on_error : on_error_mode) (u : _UnitOutcome) : option AckDisposition :=
  if 0 <? u_dlq_failed u then None
  else if 0 <? u_dlq_succeeded u then Some DLQ
  else if 0 <? u_records_failed u then
    if decide (on_error = OnContinue) then Some DROPPED else None
  else if 0 <? u_delivered u then Some DELIVERED
  else if 0 <? u_records_in u then Some FILTERED
  else None.

(** ** Run-level accounting *)

Notation unit_key := (string * string)%type.

(** Per-sink counts of [record_sink]. *)
Record sink_counts := mkSinkCounts { sc_delivered : Z; sc_failed : Z; sc_dlq : Z }.

(** [units] keeps the insertion order of the dict; [broker_gaps] is keyed by
    (namespace, topic, partition). *)
Record _RunDeliveryAccounting := mkAcct {
  d_units : list (unit_key * _UnitOutcome);
  d_records_failed : Z;
  d_dlq_succeeded : Z;
  d_dlq_failed : Z;
  d_checkpoint_pending : Z;
  d_broker_gaps : list ((string * pyval * pyval) * Z);
  d_state_revision : Z;
  d_sinks : list (string * sink_counts);
  d_spool_succeeded : Z;
  d_spool_failed : Z }.

Definition new_accounting : _RunDeliveryAccounting := mkAcct [] 0 0 0 0 [] 0 [] 0 0.

Definition set_units (f : list (unit_key * _UnitOutcome) -> list (unit_key * _UnitOutcome))
  (d : _RunDeliveryAccounting) : _RunDeliveryAccounting :=
  mkAcct (f (d_units d)) (d_records_failed d) (d_dlq_succeeded d) (d_dlq_failed d)
    (d_checkpoint_pending d) (d_broker_gaps d) (d_state_revision d) (d_sinks d)
    (d_spool_succeeded d) (d_spool_failed d).

Definition register_unit (key : unit_key) (meta : dict) (d : _RunDeliveryAccounting)
  : _UnitOutcome * _RunDeliveryAccounting :=
  match aget key (d_units d) with
  | Some u => (u, d)
  | None => (new_unit meta, set_units (aset key (new_unit meta)) d)
  end.

Definition take_unit (key : unit_key) (d : _RunDeliveryAccounting)
  : option _UnitOutcome * _RunDeliveryAccounting :=
  (finish <$> aget key (d_units d), set_units (adel key) d).

(** The mutation of the unit found under an optional key, if there is one. *)
Definition on_unit (key : option unit_key) (f : _UnitOutcome -> _UnitOutcome)
  (d : _RunDeliveryAccounting) : _RunDeliveryAccounting :=
  match key with
  | Some k =>
      match aget k (d_units d) with
      | Some u => set_units (aset k (f u)) d
      | None => d
      end
  | None => d
  end.

Definition record_chunk (key : option unit_key) (records_in delivered : Z)
  : _RunDeliveryAccounting -> _RunDeliveryAccounting :=
  on_unit key (fun u => mkUnit (u_meta u) (u_records_in u + records_in) (u_delivered u + delivered)
    (u_filtered u) (u_records_failed u) (u_dlq_succeeded u) (u_dlq_failed u)).

Definition add_loss (failed succ dfailed : Z) (u : _UnitOutcome) : _UnitOutcome :=
  mkUnit (u_meta u) (u_records_in u) (u_delivered u) (u_filtered u)
    (u_records_failed u + failed) (u_dlq_succeeded u + succ) (u_dlq_failed u + dfailed).

Definition record_loss (key : option unit_key) (records_failed dlq_succeeded dlq_failed : Z)
  (d : _RunDeliveryAccounting) : _RunDeliveryAccounting :=
  on_unit key (add_loss records_failed dlq_succeeded dlq_failed)
    (mkAcct (d_units d) (d_records_failed d + records_failed) (d_dlq_succeeded d + dlq_succeeded)
       (d_dlq_failed d + dlq_failed) (d_checkpoint_pending d) (d_broker_gaps d)
       (d_state_revision d) (d_sinks d) (d_spool_succeeded d) (d_spool_failed d)).

Definition record_sink (sink_key : string) (delivered failed dlq : Z)
  (d : _RunDeliveryAccounting) : _RunDeliveryAccounting :=
  if String.eqb sink_key "" then d
  else
    let e := default (mkSinkCounts 0 0 0) (aget sink_key (d_sinks d)) in
    let e' := mkSinkCounts (sc_delivered e + delivered) (sc_failed e + failed) (sc_dlq e + dlq) in
    mkAcct (d_units d) (d_records_failed d) (d_dlq_succeeded d) (d_dlq_failed d)
      (d_checkpoint_pending d) (d_broker_gaps d) (d_state_revision d)
      (aset sink_key e' (d_sinks d)) (d_spool_succeeded d) (d_spool_failed d).

Definition record_spool (spool_ok : bool) (d : _RunDeliveryAccounting) : _RunDeliveryAccounting :=
  mkAcct (d_units d) (d_records_failed d) (d_dlq_succeeded d) (d_dlq_failed d)
    (d_checkpoint_pending d) (d_broker_gaps d) (d_state_revision d) (d_sinks d)
    (d_spool_succeeded d + Z.b2z spool_ok) (d_spool_failed d + Z.b2z (negb spool_ok)).

(** The non-zero entries of one sink, in the dict's order. *)
Definition nonzero_counts (e : sink_counts) : list (string * Z) :=
  List.filter (fun kv => negb (kv.2 =? 0))
    [("delivered"%string, sc_delivered e); ("failed"%string, sc_failed e); ("dlq"%string, sc_dlq e)].

Definition sink_disposition_map (d : _RunDeliveryAccounting) : list (string * list (string * Z)) :=
  List.filter (fun kv => negb (bool_decide (kv.2 = [])))
    ((fun kv => (kv.1, nonzero_counts kv.2)) <$> d_sinks d).

Definition spool_counters (d : _RunDeliveryAccounting) : list (string * Z) :=
  List.filter (fun kv => negb (kv.2 =? 0))
    [("spooled"%string, d_spool_succeeded d); ("failed"%string, d_spool_failed d)].

Definition record_checkpoint_pending (d : _RunDeliveryAccounting) : _RunDeliveryAccounting :=
  mkAcct (d_units d) (d_records_failed d) (d_dlq_succeeded d) (d_dlq_failed d)
    (d_checkpoint_pending d + 1) (d_broker_gaps d) (d_state_revision d) (d_sinks d)
    (d_spool_succeeded d) (d_spool_failed d).

Definition set_state_revision (r : Z) (d : _RunDeliveryAccounting) : _RunDeliveryAccounting :=
  mkAcct (d_units d) (d_records_failed d) (d_dlq_succeeded d) (d_dlq_failed d)
    (d_checkpoint_pending d) (d_broker_gaps d) r (d_sinks d) (d_spool_succeeded d) (d_spool_failed d).

Definition set_broker_gaps (g : list ((string * pyval * pyval) * Z)) (d : _RunDeliveryAccounting)
  : _RunDeliveryAccounting :=
  mkAcct (d_units d) (d_records_failed d) (d_dlq_succeeded d) (d_dlq_failed d)
    (d_checkpoint_pending d) g (d_state_revision d) (d_sinks d) (d_spool_succeeded d) (d_spool_failed d).

Definition has_pending_checkpoints (d : _RunDeliveryAccounting) : bool := 0 <? d_checkpoint_pending d.

Definition has_loss (d : _RunDeliveryAccounting) : bool :=
  ((0 <? d_records_failed d) || (0 <? d_dlq_failed d))%bool.

Definition _batch_outcome (on_error : on_error_mode) (d : _RunDeliveryAccounting) (commit_failed : bool)
  : RunStatus :=
  if commit_failed then PARTIAL
  else if (bool_decide (on_error = OnContinue \/ on_error = OnRetry) && has_loss d)%bool then PARTIAL
  else if has_pending_checkpoints d then PARTIAL
  else SUCCESS.

(** ** The result of a run *)

Record RunResult := mkResult {
  rr_run_id : string;
  rr_pipeline_name : string;
  rr_status : RunStatus;
  rr_started_at : Z;
  rr_records_in : Z;
  rr_records_out : Z;
  rr_records_skipped : Z;
  rr_bytes_in : Z;
  rr_bytes_out : Z;
  rr_error : option string;
  rr_dlq_count : Z;
  rr_errors : list string;
  rr_records_failed : Z;
  rr_dlq_succeeded : Z;
  rr_dlq_failed : Z;
  rr_disposition : list (string * list (string * Z));
  rr_spool : list (string * Z) }.

Definition from_context (c : PipelineRunContext) (status : RunStatus) (error : option string) : RunResult :=
  mkResult (cx_run_id c) (cx_pipeline_name c) status (cx_started_at c) (cx_records_in c)
    (cx_records_out c) (cx_records_skipped c) (cx_bytes_in c) (cx_bytes_out c) error
    (cx_dlq_count c) (cx_errors c) 0 0 0 [] [].

(** The five assignments the executor makes on a result from its accounting. *)
Definition with_delivery (d : _RunDeliveryAccounting) (r : RunResult) : RunResult :=
  mkResult (rr_run_id r) (rr_pipeline_name r) (rr_status r) (rr_started_at r) (rr_records_in r)
    (rr_records_out r) (rr_records_skipped r) (rr_bytes_in r) (rr_bytes_out r) (rr_error r)
    (rr_dlq_count r) (rr_errors r) (d_records_failed d) (d_dlq_succeeded d) (d_dlq_failed d)
    (sink_disposition_map d) (spool_counters d).

End Accounting.
