(* ===== verification/ExecKeys.v ===== *)
(** * Unit identities, frontiers and file templates

    The pure helpers at the top of tram/pipeline/executor.py that say which
    source unit a chunk belongs to (file identity, broker coordinates, the
    connector's own identity), how far its checkpoint reaches, and how records
    are grouped by the fields of a filename template
    ([extract_field_paths] of tram/connectors/file_sink_common.py, with
    [string.Formatter.parse] written out).

    A meta is an insertion-ordered dict.  The stashed key, which the code
    keeps as a tuple under [_tram_unit_key], is a list of two strings. *)

From Stdlib Require Import ZArith Lia Ascii String SpecFloat.
From stdpp Require Import base tactics list strings gmap option.
From S2P Require Import Prelude PyStr Sha256 IsoTime PyVal Paths Transforms CounterDelta Accounting.
Import stdpp.list.

#[local] Open Scope Z_scope.
#[local] Open Scope list_scope.

(** ** Exceptions *)

(** What the executor distinguishes of an exception: whether it is a
    TramError, and within those the failed DLQ delivery. *)
Inductive exn_class := CTram | CDLQDelivery | COther.

#[global] Instance exn_class_eq_dec : EqDecision exn_class.
Proof. solve_decision. Defined.

Record exn := Exn { exn_cls : exn_class; exn_str : string }.

#[global] Instance exn_eq_dec : EqDecision exn.
Proof. solve_decision. Defined.

(** [isinstance(exc, TramError)]. *)
Definition is_tram (e : exn) : bool :=
  match exn_cls e with CTram | CDLQDelivery => true | COther => false end.

Module ExecKeys.
Import PyVal Paths Transforms CounterDelta Accounting.

(** ** Text *)

(** [s.removesuffix(suf)] when [s.endswith(suf)]. *)
Definition cut_suffix (suf s : string) : option string :=
  let n := (String.length s - String.length suf)%nat in
  if ((String.length suf <=? String.length s)%nat
      && String.eqb (String.substring n (String.length suf) s) suf)%bool
  then Some (String.substring 0 n s) else None.

Definition _UNIT_KEY_META : string := "_tram_unit_key".

Definition stash (key : unit_key) : pyval := VList [VStr key.1; VStr key.2].

(** [int(v)]. *)
Definition trunc_float (f : spec_float) : res exn Z :=
  match f with
  | S754_zero _ => Ok 0
  | S754_finite s m e => let a := Z.shiftl (Zpos m) e in Ok (if s then - a else a)
  | S754_infinity _ => Raise (Exn COther "cannot convert float infinity to integer")
  | S754_nan => Raise (Exn COther "cannot convert float NaN to integer")
  end.

Definition py_int_of (v : pyval) : res exn Z :=
  match v with
  | VInt z => Ok z
  | VBool b => Ok (Z.b2z b)
  | VFloat f => trunc_float f
  | VStr s => of_option (Exn COther "invalid literal for int() with base 10") (py_int s)
  | VNone | VList _ | VDict _ =>
      Raise (Exn COther "int() argument must be a string, a bytes-like object or a real number")
  end.

Section keys.
Context {PT : PyText}.

(** [str(meta.get(k, "") or "").strip()]. *)
Definition meta_text (k : string) (meta : dict) : string :=
  let v := default (VStr "") (dget k meta) in
  strip (py_text (if truthy v then v else VStr "")).

Definition _source_unit_key (meta : dict) : option unit_key :=
  match dget _UNIT_KEY_META meta with
  | Some (VList (a :: b :: _)) => Some (py_text a, py_text b)
  | _ =>
      let source_path := meta_text "source_path" meta in
      let source_filename := meta_text "source_filename" meta in
      if (String.eqb source_path "" && String.eqb source_filename "")%bool then None
      else Some (source_path, source_filename)
  end.

(** [meta.get(k)] with None for an absent key and for a null. *)
Definition meta_get (k : string) (meta : dict) : option pyval :=
  match dget k meta with
  | Some VNone | None => None
  | Some v => Some v
  end.

(** The record-coordinate family found at one key of the meta. *)
Definition coordinate_key (meta : dict) (key : string) : option unit_key :=
  match cut_suffix "_partition" key with
  | Some ns =>
      if String.eqb ns "" then None
      else
        match meta_get (ns ++ "_topic") meta, meta_get key meta, meta_get (ns ++ "_offset") meta with
        | Some topic, Some partition, Some offset =>
            let identity := (py_text topic ++ "/" ++ py_text partition ++ "/" ++ py_text offset)%string in
            Some (ns, match meta_get (ns ++ "_epoch") meta with
                      | Some epoch => (identity ++ "@" ++ py_text epoch)%string
                      | None => identity
                      end)
        | _, _, _ => None
        end
  | None => None
  end.

(** The delivery handle found at one key of the meta. *)
Definition delivery_tag_key (meta : dict) (key : string) : option unit_key :=
  match cut_suffix "_delivery_tag" key with
  | Some ns =>
      if String.eqb ns "" then None
      else
        match meta_get key meta with
        | Some tag =>
            Some (ns, match meta_get (ns ++ "_queue") meta with
                      | Some queue => (py_text queue ++ "/" ++ py_text tag)%string
                      | None => py_text tag
                      end)
        | None => None
        end
  | None => None
  end.

(** The first value a function finds along a list. *)
Fixpoint first_some {A B} (f : A -> option B) (l : list A) : option B :=
  match l with
  | [] => None
  | a :: l' => match f a with Some b => Some b | None => first_some f l' end
  end.

Definition _broker_meta_unit_key (meta : dict) : option unit_key :=
  match first_some (coordinate_key meta) (keys meta) with
  | Some k => Some k
  | None => first_some (delivery_tag_key meta) (keys meta)
  end.

(** The connector's [source_unit_id(meta)] is a parameter; an exception or a
    value that is not a non-empty string is no identity. *)
Definition _source_durable_unit_id (source_unit_id : dict -> res exn pyval) (meta : dict) : option string :=
  match source_unit_id meta with
  | Ok (VStr s) => if String.eqb s "" then None else Some s
  | _ => None
  end.

(** The key and the meta with the key stashed in it. *)
Definition _stream_source_unit_key (source_unit_id : dict -> res exn pyval) (meta : dict)
  : option unit_key * dict :=
  match _source_unit_key meta with
  | Some k => (Some k, meta)
  | None =>
      match _broker_meta_unit_key meta with
      | Some k => (Some k, dset _UNIT_KEY_META (stash k) meta)
      | None =>
          match _source_durable_unit_id source_unit_id meta with
          | Some u => (Some ("unit"%string, u), dset _UNIT_KEY_META (stash ("unit"%string, u)) meta)
          | None => (None, meta)
          end
      end
  end.

Definition _stream_batch_broker (meta : dict) : bool :=
  match _broker_meta_unit_key meta with Some _ => true | None => false end.

Definition _broker_partition_frontier (meta : dict)
  : res exn (option ((string * pyval * pyval) * Z)) :=
  match _broker_meta_unit_key meta with
  | None => Ok None
  | Some (ns, _) =>
      match meta_get (ns ++ "_offset") meta with
      | None => Ok None
      | Some offset =>
          let? n := py_int_of offset in
          Ok (Some ((ns, dget_or_none (ns ++ "_topic") meta, dget_or_none (ns ++ "_partition") meta), n))
      end
  end.

Definition _batch_source_unit_key (meta : dict) : option unit_key * dict :=
  match _source_unit_key meta with
  | Some k => (Some k, meta)
  | None =>
      match _broker_meta_unit_key meta with
      | Some k => (Some k, dset _UNIT_KEY_META (stash k) meta)
      | None => (None, meta)
      end
  end.

Definition frontier_at (meta : dict) (key : string) : option (dict * Z) :=
  match cut_suffix "_offset" key with
  | Some _ =>
      let v := dget_or_none key meta in
      match as_int v with
      | Some n => if 0 <=? n then Some ([("offset"%string, v)], n) else None
      | None => None
      end
  | None => None
  end.

Definition _checkpoint_frontier (meta : dict) : dict * Z :=
  default ([("position"%string, VInt 1)], 1) (first_some (frontier_at meta) (keys meta)).

Definition _augment_chunk_meta (meta : dict) (ctx : PipelineRunContext) : dict :=
  dset "run_timestamp" (VStr (run_timestamp (cx_started_at ctx)))
    (dset "run_id" (VStr (cx_run_id ctx))
       (dset "pipeline_name" (VStr (cx_pipeline_name ctx)) meta)).

(** ** Filename templates *)

(** [string.Formatter.parse], reduced to the field names it yields: the rest
    of a field after its name, with the braces of the format spec counted. *)
Fixpoint skip_spec (depth : nat) (s : string) : res exn string :=
  match s with
  | EmptyString => Raise (Exn COther "unmatched '{' in format spec")
  | String c s' =>
      if Ascii.eqb c "{" then skip_spec (S depth) s'
      else if Ascii.eqb c "}" then
        match depth with
        | O => Ok s'
        | S d => skip_spec d s'
        end
      else skip_spec depth s'
  end.

Definition skip_conversion (s : string) : res exn string :=
  match s with
  | EmptyString => Raise (Exn COther "end of string while looking for conversion specifier")
  | String _ EmptyString => Raise (Exn COther "unmatched '{' in format spec")
  | String _ (String c s') =>
      if Ascii.eqb c "}" then Ok s'
      else if Ascii.eqb c ":" then skip_spec 0 s'
      else Raise (Exn COther "expected ':' after conversion specifier")
  end.

(** The field name from [s] and the text after the field; [in_index]: between
    ['['] and [']'], where nothing ends the name. *)
Fixpoint field_name (in_index : bool) (s : string) : res exn (string * string) :=
  match s with
  | EmptyString => Raise (Exn COther "expected '}' before end of string")
  | String c s' =>
      if in_index then
        let? nr := field_name (negb (Ascii.eqb c "]")) s' in Ok (String c nr.1, nr.2)
      else if Ascii.eqb c "{" then Raise (Exn COther "unexpected '{' in field name")
      else if Ascii.eqb c "}" then Ok (EmptyString, s')
      else if Ascii.eqb c ":" then let? r := skip_spec 0 s' in Ok (EmptyString, r)
      else if Ascii.eqb c "!" then let? r := skip_conversion s' in Ok (EmptyString, r)
      else let? nr := field_name (Ascii.eqb c "[") s' in Ok (String c nr.1, nr.2)
  end.

(** The names of the replacement fields, in order; [fuel] is the length of
    the text, of which every step consumes at least one character. *)
Fixpoint formatter_fields (fuel : nat) (s : string) : res exn (list string) :=
  match fuel, s with
  | O, _ | _, EmptyString => Ok []
  | S n, String c s' =>
      if Ascii.eqb c "{" then
        match s' with
        | EmptyString => Raise (Exn COther "Single '{' encountered in format string")
        | String c' s'' =>
            if Ascii.eqb c' "{" then formatter_fields n s''
            else
              let? nr := field_name false s' in
              let? rest := formatter_fields n nr.2 in
              Ok (nr.1 :: rest)
        end
      else if Ascii.eqb c "}" then
        match s' with
        | String c' s'' =>
            if Ascii.eqb c' "}" then formatter_fields n s''
            else Raise (Exn COther "Single '}' encountered in format string")
        | EmptyString => Raise (Exn COther "Single '}' encountered in format string")
        end
      else formatter_fields n s'
  end.

Fixpoint cut_prefix (p s : string) : option string :=
  match p, s with
  | EmptyString, _ => Some s
  | String a p', String b s' => if Ascii.eqb a b then cut_prefix p' s' else None
  | String _ _, EmptyString => None
  end.

Definition extract_field_paths (template : string) : res exn (list string) :=
  let? names := formatter_fields (String.length template) template in
  Ok (fold_left (fun paths name =>
        match cut_prefix "field." name with
        | Some p => if decide (p ∈ paths) then paths else paths ++ [p]
        | None => paths
        end) names []).

Fixpoint lookup_segments (segs : list string) (cur : pyval) : option pyval :=
  match segs with
  | [] => Some cur
  | s :: segs' =>
      match cur with
      | VDict d => match dget s d with Some v => lookup_segments segs' v | None => None end
      | _ => None
      end
  end.

Definition _lookup_record_field (record : dict) (path : string) : string :=
  match lookup_segments (split_on dot path) (VDict record) with
  | None | Some VNone | Some (VStr "") => "unknown"
  | Some v => py_text v
  end.

(** Groups in the order of their first record. *)
Definition _partition_records_for_template (records : list dict) (template : option string)
  : res exn (list (list (string * string) * list dict)) :=
  match template with
  | None | Some ""%string => Ok [([], records)]
  | Some t =>
      let? field_paths := extract_field_paths t in
      match field_paths with
      | [] => Ok [([], records)]
      | _ => Ok (fold_left (fun grouped record =>
                   let key := (fun p => (p, _lookup_record_field record p)) <$> field_paths in
                   aset key (default [] (aget key grouped) ++ [record]) grouped) records [])
      end
  end.
End keys.

(** ** Laws *)

Lemma formatter_example :
  extract_field_paths "cdr_{field.msc}_{{x}}_{part:04d}_{field.msc}{field.a[b].c!r:>{w}}"%string
  = Ok ["msc"; "a[b].c"]%string.
Proof. reflexivity. Qed.

End ExecKeys.
