(* ===== verification/ExecMonad.v ===== *)
(** * The executor's state, its effects and the parts it calls

    PipelineExecutor (tram/pipeline/executor.py) mutates the run context, the
    live statistics, the delivery accounting, its circuit breakers and its
    token bucket, and calls connectors, serializers, transforms and the clock.
    A method is a function of that state that returns or raises, keeping the
    state also when it raises ([M]).  The called parts are the class [External]
    over a world [W] of its own, which every call may change; the calls the
    theorems speak of are recorded in a trace. *)

From Stdlib Require Import ZArith Lia Ascii String SpecFloat Strings.Byte.
From stdpp Require Import base tactics list strings gmap option.
From S2P Require Import Prelude PyStr Sha256 IsoTime PyVal Paths Transforms CounterDelta Accounting ExecKeys.
Import stdpp.list.

#[local] Open Scope Z_scope.
#[local] Open Scope list_scope.

Module ExecMonad.
Import PyVal Transforms Accounting ExecKeys.

Notation bytes := (list Byte.byte).

(** ** What is handed to the called parts *)

(** The DLQ envelope; [record] is the failed record, the failed batch, or
    nothing for a chunk that did not parse, whose bytes are in [raw]. *)
Record envelope := mkEnvelope {
  en_error : string;
  en_stage : string;
  en_pipeline : string;
  en_run_id : string;
  en_record : option (list dict);
  en_raw : option bytes }.

Inductive DeliveryTier := FSYNCED_LOCAL | REMOTE_DURABLE | REMOTE_ACCEPTED | TIER_NONE.

Record SinkCommitReceipt := mkReceipt {
  rc_sink_key : string; rc_tier : DeliveryTier; rc_confirmed : bool; rc_notes : string }.

(** The body of a checkpoint POST. *)
Record checkpoint_request := mkCkpt {
  ck_source_unit : string;
  ck_frontier : dict;
  ck_frontier_seq : Z;
  ck_receipts : list SinkCommitReceipt;
  ck_state : dict;
  ck_base_revision : Z }.

Record CheckpointResult := mkCkptResult {
  kr_committed : bool; kr_already_committed : bool; kr_state_revision : option Z }.

Record TransformState := mkTState {
  ts_state : dict; ts_config_sha256 : string; ts_revision : Z }.

(** The micro-batch buffer of a stream.  The outcome beside a completed meta is
    the unit as it was when its flush ended. *)
Record _StreamFlushBuffer := mkBuf {
  fb_records : list dict;
  fb_meta : option dict;
  fb_oldest_at : option spec_float;
  fb_contributors : list (dict * list dict);
  fb_completed : list (dict * _UnitOutcome) }.

Definition empty_buffer : _StreamFlushBuffer := mkBuf [] None None [] [].

(** The parts the executor calls.  Transforms and sinks are named by their
    position; a serializer is the global one ([None]) or a sink's own.
    [read n] is what iterating [source.read()] of the [n]-th attempt yields
    and the exception it ends with, if any. *)
Class External (W : Type) := {
  monotonic : W -> spec_float * W;
  sleep : spec_float -> W -> W;
  jitter : W -> spec_float * W;
  have_simpleeval : bool;
  parse_condition : string -> res exn unit;
  eval_condition : string -> dict -> W -> res exn bool * W;
  transform_apply : nat -> dict -> list dict -> W -> res exn (list dict) * W;
  ser_config : option nat -> dict;
  serialize : option nat -> list dict -> W -> res exn bytes * W;
  parse : bytes -> W -> res exn (list dict) * W;
  parse_chunks : bytes -> Z -> list (list dict) * option exn;
  message_class : W -> res exn unit * W;
  parse_message : bytes -> res exn unit;
  sink_write : nat -> bytes -> dict -> W -> res exn unit * W;
  sink_schedule : nat -> W -> list nat * W;
  sink_commit : nat -> W -> res exn SinkCommitReceipt * W;
  sink_latched : nat -> W -> res exn (option string) * W;
  sink_finalize_source : nat -> dict -> bool -> W -> res exn unit * W;
  dlq_write : envelope -> W -> res exn unit * W;
  spool_write : envelope -> string -> W -> res exn string * W;
  read : nat -> W -> list (bytes * dict) * option exn * W;
  source_unit_id : dict -> res exn pyval;
  source_ack : dict -> AckDisposition -> W -> res exn unit * W;
  source_finalize : dict -> bool -> W -> res exn unit * W;
  completion_error : W -> res exn (option string) * W;
  stop_requested : W -> bool * W;
  stop_reason : W -> string * W;
  checkpoint_client : bool;
  checkpoint : checkpoint_request -> W -> res exn CheckpointResult * W;
  have_store : bool;
  store_get : W -> res exn (option TransformState) * W;
  store_put : dict -> W -> res exn unit * W;
  get_state : nat -> W -> res exn pyval * W;
  set_state : nat -> pyval -> W -> res exn unit * W;
  close_transform : nat -> bool -> W -> res exn (option (list dict)) * W;
  build_components : W -> res exn unit * W;
  utcnow : W -> Z * W;
  new_uuid : W -> string * W }.

(** ** The trace *)

Inductive event :=
| EvWrite (sink : nat) (data : bytes) (ok : bool)
| EvBreakerSkip (sink : nat)
| EvDlq (env : envelope) (ok : bool)
| EvSpool (ok : bool)
| EvCommit (sink : nat) (confirmed : bool)
| EvLatched (sink : nat) (clean : bool)
| EvSinkFinalize (sink : nat) (success : bool)
| EvCheckpoint (req : checkpoint_request) (ok : bool)
| EvAck (meta : dict) (d : AckDisposition)
| EvFinalize (meta : dict) (success : bool)
| EvStorePut
| EvRead (attempt : nat)
| EvBuffer (records : list dict)
| EvDrain (records : list dict)
| EvGap (partition : string * pyval * pyval) (offset : Z).

Section monad.
Context {W : Type} {EX : External W} {PT : PyText}.

Record st := mkSt {
  s_ctx : PipelineRunContext;
  s_stats : PipelineStats;
  s_delivery : _RunDeliveryAccounting;
  s_cb : list (string * (Z * spec_float));
  s_tokens : spec_float;
  s_last_refill : spec_float;
  s_buf : _StreamFlushBuffer;
  s_world : W;
  s_trace : list event }.

Definition set_ctx (f : PipelineRunContext -> PipelineRunContext) (s : st) : st :=
  mkSt (f (s_ctx s)) (s_stats s) (s_delivery s) (s_cb s) (s_tokens s) (s_last_refill s) (s_buf s) (s_world s) (s_trace s).
Definition set_stats (f : PipelineStats -> PipelineStats) (s : st) : st :=
  mkSt (s_ctx s) (f (s_stats s)) (s_delivery s) (s_cb s) (s_tokens s) (s_last_refill s) (s_buf s) (s_world s) (s_trace s).
Definition set_delivery (f : _RunDeliveryAccounting -> _RunDeliveryAccounting) (s : st) : st :=
  mkSt (s_ctx s) (s_stats s) (f (s_delivery s)) (s_cb s) (s_tokens s) (s_last_refill s) (s_buf s) (s_world s) (s_trace s).
Definition set_cb (f : list (string * (Z * spec_float)) -> list (string * (Z * spec_float))) (s : st) : st :=
  mkSt (s_ctx s) (s_stats s) (s_delivery s) (f (s_cb s)) (s_tokens s) (s_last_refill s) (s_buf s) (s_world s) (s_trace s).
Definition set_bucket (tokens last_refill : spec_float) (s : st) : st :=
  mkSt (s_ctx s) (s_stats s) (s_delivery s) (s_cb s) tokens last_refill (s_buf s) (s_world s) (s_trace s).
Definition set_world (w : W) (s : st) : st :=
  mkSt (s_ctx s) (s_stats s) (s_delivery s) (s_cb s) (s_tokens s) (s_last_refill s) (s_buf s) w (s_trace s).
Definition set_buf (f : _StreamFlushBuffer -> _StreamFlushBuffer) (s : st) : st :=
  mkSt (s_ctx s) (s_stats s) (s_delivery s) (s_cb s) (s_tokens s) (s_last_refill s) (f (s_buf s)) (s_world s) (s_trace s).
Definition log (e : event) (s : st) : st :=
  mkSt (s_ctx s) (s_stats s) (s_delivery s) (s_cb s) (s_tokens s) (s_last_refill s) (s_buf s) (s_world s) (s_trace s ++ [e]).

Definition M (A : Type) : Type := st -> res exn A * st.

Definition ret {A} (a : A) : M A := fun s => (Ok a, s).
Definition throw {A} (e : exn) : M A := fun s => (Raise e, s).
Definition bind {A B} (m : M A) (k : A -> M B) : M B :=
  fun s => match m s with
           | (Ok a, s') => k a s'
           | (Raise e, s') => (Raise e, s')
           end.

(** [try: m  except Exception as exc: h exc]. *)
Definition catch {A} (m : M A) (h : exn -> M A) : M A :=
  fun s => match m s with
           | (Raise e, s') => h e s'
           | r => r
           end.

(** [try: a = m  except Exception as exc: h exc  else: k a]: what [k] raises
    is not caught. *)
Definition try_else {A B} (m : M A) (h : exn -> M B) (k : A -> M B) : M B :=
  fun s => match m s with
           | (Ok a, s') => k a s'
           | (Raise e, s') => h e s'
           end.

Definition get {A} (f : st -> A) : M A := fun s => (Ok (f s), s).
Definition modify (f : st -> st) : M unit := fun s => (Ok tt, f s).
Definition lift {A} (r : res exn A) : M A := fun s => (r, s).

(** A call of another part, and one whose outcome is logged. *)
Definition call {A} (f : W -> A * W) : M A :=
  fun s => let '(a, w) := f (s_world s) in (Ok a, set_world w s).
Definition call_res {A} (f : W -> res exn A * W) : M A :=
  fun s => let '(r, w) := f (s_world s) in (r, set_world w s).
Definition call_log {A} (ev : res exn A -> event) (f : W -> res exn A * W) : M A :=
  fun s => let '(r, w) := f (s_world s) in (r, log (ev r) (set_world w s)).

Fixpoint foldM {A B} (f : B -> A -> M B) (l : list A) (b : B) : M B :=
  match l with
  | [] => ret b
  | a :: l' => bind (f b a) (foldM f l')
  end.

Fixpoint mapM {A B} (f : A -> M B) (l : list A) : M (list B) :=
  match l with
  | [] => ret []
  | a :: l' => bind (f a) (fun b => bind (mapM f l') (fun bs => ret (b :: bs)))
  end.

Fixpoint iterM {A} (f : A -> M unit) (l : list A) : M unit :=
  match l with
  | [] => ret tt
  | a :: l' => bind (f a) (fun _ => iterM f l')
  end.

Definition whenM (b : bool) (m : M unit) : M unit := if b then m else ret tt.
End monad.

Arguments st W : clear implicits.
Arguments M W A : clear implicits.

Notation "'let!' x ':=' m 'in' k" := (bind m (fun x => k))
  (at level 10, x pattern, m at level 100, k at level 200) : tram_scope.
Notation "'do!' m 'in' k" := (bind m (fun _ => k))
  (at level 10, m at level 100, k at level 200) : tram_scope.

(** ** Reasoning about programs *)

Section reasoning.
Context {W : Type}.
Implicit Types (s t : st W).

(** Every run of [m] relates the state before to the state after. *)
Definition keeps {A} (R : st W -> st W -> Prop) (m : M W A) : Prop :=
  forall s r t, m s = (r, t) -> R s t.

Section keeps.
Context (R : st W -> st W -> Prop) {HR : PreOrder R}.

Lemma keeps_ret {A} (a : A) : keeps R (ret a).
Proof. intros s r t [= <- <-]. reflexivity. Qed.

Lemma keeps_throw {A} e : keeps R (@throw W A e).
Proof. intros s r t [= <- <-]. reflexivity. Qed.

Lemma keeps_lift {A} (x : res exn A) : keeps R (lift x).
Proof. intros s r t [= <- <-]. reflexivity. Qed.

Lemma keeps_get {A} (f : st W -> A) : keeps R (get f).
Proof. intros s r t [= <- <-]. reflexivity. Qed.

Lemma keeps_bind {A B} (m : M W A) (k : A -> M W B) :
  keeps R m -> (forall a, keeps R (k a)) -> keeps R (bind m k).
Proof.
  intros Hm Hk s r t. unfold bind. destruct (m s) as [[a|e] s1] eqn:E; intros H.
  - etrans; [exact (Hm _ _ _ E)|exact (Hk _ _ _ _ H)].
  - simplify_eq. exact (Hm _ _ _ E).
Qed.

Lemma keeps_catch {A} (m : M W A) (h : exn -> M W A) :
  keeps R m -> (forall e, keeps R (h e)) -> keeps R (catch m h).
Proof.
  intros Hm Hh s r t. unfold catch. destruct (m s) as [[a|e] s1] eqn:E; intros H.
  - simplify_eq. exact (Hm _ _ _ E).
  - etrans; [exact (Hm _ _ _ E)|exact (Hh _ _ _ _ H)].
Qed.

Lemma keeps_try_else {A B} (m : M W A) (h : exn -> M W B) (k : A -> M W B) :
  keeps R m -> (forall e, keeps R (h e)) -> (forall a, keeps R (k a)) -> keeps R (try_else m h k).
Proof.
  intros Hm Hh Hk s r t. unfold try_else. destruct (m s) as [[a|e] s1] eqn:E; intros H.
  - etrans; [exact (Hm _ _ _ E)|exact (Hk _ _ _ _ H)].
  - etrans; [exact (Hm _ _ _ E)|exact (Hh _ _ _ _ H)].
Qed.

Lemma keeps_modify f : (forall s, R s (f s)) -> keeps R (modify f).
Proof. intros Hf s r t [= <- <-]. apply Hf. Qed.

Lemma keeps_call {A} (f : W -> A * W) : (forall s w, R s (set_world w s)) -> keeps R (call f).
Proof. intros Hw s r t. unfold call. destruct (f (s_world s)). intros [= <- <-]. apply Hw. Qed.

Lemma keeps_call_res {A} (f : W -> res exn A * W) : (forall s w, R s (set_world w s)) -> keeps R (call_res f).
Proof. intros Hw s r t. unfold call_res. destruct (f (s_world s)). intros [= <- <-]. apply Hw. Qed.

Lemma keeps_call_log {A} (ev : res exn A -> event) f :
  (forall s w x, R s (log (ev x) (set_world w s))) -> keeps R (call_log ev f).
Proof. intros Hw s r t. unfold call_log. destruct (f (s_world s)). intros [= <- <-]. apply Hw. Qed.

Lemma keeps_foldM {A B} (f : B -> A -> M W B) l b :
  (forall b a, keeps R (f b a)) -> keeps R (foldM f l b).
Proof.
  intros Hf. revert b; induction l as [|a l IH]; intros b; simpl; [apply keeps_ret|].
  by apply keeps_bind.
Qed.

Lemma keeps_mapM {A B} (f : A -> M W B) l : (forall a, keeps R (f a)) -> keeps R (mapM f l).
Proof.
  intros Hf. induction l as [|a l IH]; simpl; [apply keeps_ret|].
  apply keeps_bind; [done|]. intros b. apply keeps_bind; [done|]. intros bs. apply keeps_ret.
Qed.

Lemma keeps_iterM {A} (f : A -> M W unit) l : (forall a, keeps R (f a)) -> keeps R (iterM f l).
Proof.
  intros Hf. induction l as [|a l IH]; simpl; [apply keeps_ret|]. by apply keeps_bind.
Qed.

Lemma keeps_whenM b (m : M W unit) : keeps R m -> keeps R (whenM b m).
Proof. destruct b; [done|]. intros _. apply keeps_ret. Qed.

Lemma keeps_let_pair {A B C} (p : A * B) (k : A -> B -> M W C) :
  (forall a b, keeps R (k a b)) -> keeps R (let '(a, b) := p in k a b).
Proof. destruct p. auto. Qed.
End keeps.

(** Inversion of the binds of a program that returned. *)
Lemma bind_ok {A B} (m : M W A) (k : A -> M W B) s b t :
  bind m k s = (Ok b, t) -> exists a u, m s = (Ok a, u) /\ k a u = (Ok b, t).
Proof. unfold bind. destruct (m s) as [[a|e] u]; [eauto|done]. Qed.

Lemma ret_ok {A} (a b : A) (s t : st W) : ret a s = (Ok b, t) -> a = b /\ s = t.
Proof. by intros [= <- <-]. Qed.

Lemma bind_inv {A B} (m : M W A) (k : A -> M W B) s r t :
  bind m k s = (r, t) ->
  (exists a u, m s = (Ok a, u) /\ k a u = (r, t)) \/ (exists e, m s = (Raise e, t) /\ r = Raise e).
Proof. unfold bind. destruct (m s) as [[a|e] u]; [eauto|]. intros [= <- <-]. eauto. Qed.
End reasoning.

(** One step along the structure of a program whose states are related by a
    preorder; what is not structure is left to the caller. *)
Ltac keeps_struct :=
  match goal with
  | |- keeps _ (bind _ _) => apply keeps_bind; [typeclasses eauto| |intros ?]
  | |- keeps _ (catch _ _) => apply keeps_catch; [typeclasses eauto| |intros ?]
  | |- keeps _ (try_else _ _ _) => apply keeps_try_else; [typeclasses eauto| |intros ?|intros ?]
  | |- keeps _ (ret _) => apply keeps_ret; typeclasses eauto
  | |- keeps _ (throw _) => apply keeps_throw; typeclasses eauto
  | |- keeps _ (lift _) => apply keeps_lift; typeclasses eauto
  | |- keeps _ (get _) => apply keeps_get; typeclasses eauto
  | |- keeps _ (whenM _ _) => apply keeps_whenM; [typeclasses eauto|]
  | |- keeps _ (foldM _ _ _) => apply keeps_foldM; [typeclasses eauto|intros ? ?]
  | |- keeps _ (mapM _ _) => apply keeps_mapM; [typeclasses eauto|intros ?]
  | |- keeps _ (iterM _ _) => apply keeps_iterM; [typeclasses eauto|intros ?]
  | |- keeps _ (if ?b then _ else _) => destruct b
  | |- keeps _ (match ?x with _ => _ end) => destruct x
  end.

End ExecMonad.
