(* ===== verification/ExecSinks.v ===== *)
(** * The executor's sink path

    PipelineExecutor's handling of one batch of decoded records
    (tram/pipeline/executor.py): the token bucket, the DLQ envelope with its
    disk spool, the global transform chain, condition routing, and
    [_process_records] with its nested [_write_one_sink] (per-sink transforms,
    circuit breaker, template partitions, retries, error policy), then
    [_process_chunk] and [_process_chunk_incrementally], which parse a chunk and
    hand it on.

    The keyword arguments that say whether statistics, accounting and a DLQ
    sink were passed are booleans of [opts]; metrics and logging are left out.
    With [parallel_sinks] every sink's task runs to its end before the results
    are read, in the order the scheduler picks. *)

From Stdlib Require Import ZArith Lia Ascii String SpecFloat.
From stdpp Require Import base tactics list strings gmap option.
From S2P Require Import Prelude PyStr Sha256 IsoTime PyVal Paths Transforms CounterDelta Accounting ExecKeys ExecMonad.
Import stdpp.list.

#[local] Open Scope Z_scope.
#[local] Open Scope list_scope.

Module ExecSinks.
Import PyVal Transforms Accounting ExecKeys ExecMonad.

(** ** Configuration *)

(** The fields of a sink's configuration the executor reads. *)
Record SinkConfig := mkSinkConfig {
  sf_type : string;
  sf_circuit_breaker_threshold : Z;
  sf_circuit_breaker_window_seconds : spec_float;
  sf_retry_count : Z;
  sf_retry_delay_seconds : spec_float }.

(** A sink tuple; [sk_cfg = None] and [sk_own_serializer = false] are the
    shorter tuples.  [sk_templates]: for each template attribute, the string
    the configuration and the instance have under it. *)
Record sink_entry := mkSinkEntry {
  sk_class : string;
  sk_condition : option string;
  sk_transforms : list nat;
  sk_cfg : option SinkConfig;
  sk_own_serializer : bool;
  sk_templates : list (option string * option string) }.

(** The arguments of a call of [_process_records] that are not data. *)
Record opts := mkOpts {
  o_on_error : on_error_mode;
  o_rate_limit_rps : option spec_float;
  o_dlq : bool;
  o_parallel : bool;
  o_cb_keys : list string;
  o_stats : bool;
  o_delivery : bool;
  o_count_records_in : bool;
  o_rate_limit_per_record : bool }.

Definition _FILE_TEMPLATE_ATTRS : list string := ["filename_template"; "key_template"; "blob_template"]%string.

Definition _sink_filename_template (e : sink_entry) : option string :=
  first_some (fun ci : option string * option string =>
    match sk_cfg e, ci.1 with
    | Some _, Some t => Some t
    | _, _ => ci.2
    end) (sk_templates e).

Definition _payload_size_bytes (payload : bytes) : Z := Z.of_nat (length payload).

Definition zlen {A} (l : list A) : Z := Z.of_nat (length l).

Section sinks.
Context {W : Type} {EX : External W} {PT : PyText}.

Definition when_delivery (o : opts) (f : _RunDeliveryAccounting -> _RunDeliveryAccounting) : M W unit :=
  whenM (o_delivery o) (modify (set_delivery f)).
Definition when_stats (o : opts) (d : stats_delta) : M W unit :=
  whenM (o_stats o) (modify (set_stats (increment d))).
Definition on_ctx (f : PipelineRunContext -> PipelineRunContext) : M W unit := modify (set_ctx f).

(** ** Rate limiting *)

Definition float_one : spec_float := float_of_int 1.
Definition float_zero : spec_float := S754_zero false.

(** Python's [min(a, b)]. *)
Definition py_min (a b : spec_float) : spec_float := if SFltb b a then b else a.

Definition _rate_limit (rps : spec_float) : M W unit :=
  if SFleb rps float_zero then
    throw (Exn COther ("rate_limit_rps must be > 0, got " ++ py_text (VFloat rps)))
  else
    let! now := call monotonic in
    let! tokens := get s_tokens in
    let! last := get s_last_refill in
    let elapsed := SFsub prec emax now last in
    let tokens := py_min rps (SFadd prec emax tokens (SFmul prec emax elapsed rps)) in
    let! sleep_time :=
      if SFleb float_one tokens then
        do! modify (set_bucket (SFsub prec emax tokens float_one) now) in ret float_zero
      else
        let! later := call monotonic in
        do! modify (set_bucket float_zero later) in
        ret (SFdiv prec emax (SFsub prec emax float_one tokens) rps) in
    if SFltb float_zero sleep_time then call (fun w => (tt, sleep sleep_time w)) else ret tt.

(** ** Dead letters *)

(** [_spool_dlq_envelope]: whether the envelope reached the disk spool. *)
Definition _spool_dlq_envelope (env : envelope) (error : string) : M W bool :=
  try_else (call_log (fun r => EvSpool (is_ok r)) (spool_write env error))
    (fun _ => ret false) (fun _ => ret true).

Definition _write_dlq_envelope (o : opts) (stage error : string) (record : option (list dict))
  (raw : option bytes) : M W bool :=
  let! ctx := get s_ctx in
  let env := mkEnvelope error stage (cx_pipeline_name ctx) (cx_run_id ctx) record
               (if String.eqb stage "parse" then raw else None) in
  try_else (call_log (fun r => EvDlq env (is_ok r)) (dlq_write env))
    (fun dlq_exc =>
       let! spooled := _spool_dlq_envelope env (exn_str dlq_exc) in
       do! when_delivery o (record_spool spooled) in
       ret spooled)
    (fun _ => ret true).

(** ** Transforms *)

(** Failed DLQ deliveries stop the run under [dlq] and [retry]. *)
Definition stops_on_failed_dlq (o : opts) : bool :=
  ((bool_decide (o_on_error o = OnDlq) || bool_decide (o_on_error o = OnRetry)) && o_delivery o)%bool.

(** What both transform stages do with a failed record or batch. *)
Definition transform_failed (o : opts) (key : option unit_key) (what : string) (record : list dict)
  (exc : exn) : M W unit :=
  if decide (o_on_error o = OnAbort) then throw (Exn CTram ("Transform error: " ++ exn_str exc))
  else
    do! (if o_dlq o then
           let! dlq_ok := _write_dlq_envelope o "transform" (exn_str exc) (Some record) None in
           do! on_ctx record_dlq in
           do! when_delivery o (record_loss key 0 (Z.b2z dlq_ok) (Z.b2z (negb dlq_ok))) in
           if (negb dlq_ok && stops_on_failed_dlq o)%bool then
             throw (Exn CDLQDelivery ("DLQ delivery failed for " ++ what ++ ": " ++ exn_str exc))
           else ret tt
         else when_delivery o (record_loss key 1 0 0)) in
    do! on_ctx (record_error (exn_str exc)) in
    when_stats o (mkDelta 0 0 1 (Z.b2z (o_dlq o)) 0 0 [exn_str exc]).

(** The chain over one record. *)
Definition transform_chain (transforms : list nat) (meta record : dict) : M W (list dict) :=
  foldM (fun processed t => call_res (transform_apply t meta processed)) transforms [record].

Definition _apply_global_transforms (o : opts) (records : list dict) (transforms : list nat) (meta : dict)
  : M W (list dict) :=
  let key := _source_unit_key meta in
  foldM (fun surviving record =>
    try_else (transform_chain transforms meta record)
      (fun exc => do! transform_failed o key "transform error" [record] exc in ret surviving)
      (fun processed => ret (surviving ++ processed))) records [].

(** ** Condition routing *)

Definition condition_error (condition : string) (exc : exn) : exn :=
  Exn CTram ("Condition eval error: " ++ repr_text (VStr condition) ++ " — " ++ exn_str exc).

Definition _filter_by_condition (records : list dict) (condition : string) : M W (list dict) :=
  if have_simpleeval then
    match records with
    | [] => ret []
    | _ =>
        do! try_else (lift (parse_condition condition))
          (fun exc => throw (condition_error condition exc)) (fun _ => ret tt) in
        foldM (fun result record =>
          try_else (call_res (eval_condition condition record))
            (fun exc => throw (condition_error condition exc))
            (fun keep => ret (if keep : bool then result ++ [record] else result))) records []
    end
  else throw (Exn CTram "simpleeval is required for conditional routing").

(** ** Circuit breakers *)

Definition cb_of (key : string) (cb : list (string * (Z * spec_float))) : Z * spec_float :=
  default (0, float_zero) (aget key cb).

Definition sink_key_of (o : opts) (sink_index : nat) : string :=
  match o_cb_keys o !! sink_index with
  | Some k => k
  | None => "__dynamic:" ++ py_str (Z.of_nat sink_index)
  end.

Definition cb_window (cfg : option SinkConfig) : spec_float :=
  match cfg with
  | Some c => if SFeqb (sf_circuit_breaker_window_seconds c) float_zero then float_of_int 60
              else sf_circuit_breaker_window_seconds c
  | None => float_of_int 60
  end.

(** The check before a write: is the breaker open? *)
Definition cb_open (threshold : Z) (key : string) : M W bool :=
  if 0 <? threshold then
    let! fo := get (fun s => cb_of key (s_cb s)) in
    let! now := call monotonic in
    ret (SFltb now fo.2)
  else ret false.

Definition cb_success (threshold : Z) (key : string) : M W unit :=
  whenM (0 <? threshold) (modify (set_cb (aset key (0, float_zero)))).

Definition cb_failure (threshold : Z) (key : string) (window : spec_float) : M W unit :=
  whenM (0 <? threshold)
    (let! fo := get (fun s => cb_of key (s_cb s)) in
     let failures := fo.1 + 1 in
     let! open_until :=
       if threshold <=? failures then
         let! now := call monotonic in ret (SFadd prec emax now window)
       else ret float_zero in
     modify (set_cb (aset key (failures, open_until)))).

(** ** One sink *)

Definition cb_threshold (e : sink_entry) : Z :=
  match sk_cfg e with Some c => sf_circuit_breaker_threshold c | None => 0 end.
Definition sink_retries (e : sink_entry) : nat :=
  match sk_cfg e with Some c => Z.to_nat (sf_retry_count c + 1) | None => 1%nat end.
Definition sink_retry_delay (e : sink_entry) : spec_float :=
  match sk_cfg e with Some c => sf_retry_delay_seconds c | None => float_one end.
Definition disposition_key (e : sink_entry) : string :=
  match sk_cfg e with Some c => sf_type c | None => sk_class e end.

(** [str(last_exc)]. *)
Definition exc_text (e : option exn) : string :=
  match e with Some x => exn_str x | None => "None" end.

(** The retry loop around one write, from attempt number [attempt] with [n]
    attempts left: [None] once written, else the last exception. *)
Fixpoint write_attempts (o : opts) (i : nat) (e : sink_entry) (data : bytes) (sink_meta : dict)
  (n attempt : nat) (last_exc : option exn) : M W (option (option exn)) :=
  match n with
  | O => ret (Some last_exc)
  | S n' =>
      try_else
        (call_log (fun r => EvWrite i data (is_ok r))
           (sink_write i data (dset "_sink_write_retry_attempt" (VInt (Z.of_nat attempt)) sink_meta)))
        (fun exc =>
           do! whenM (negb (Nat.eqb n' 0))
             (let! j := call jitter in
              call (fun w => (tt, sleep (SFadd prec emax
                (SFmul prec emax (sink_retry_delay e) (float_of_int (2 ^ Z.of_nat attempt))) j) w))) in
           write_attempts o i e data sink_meta n' (S attempt) (Some exc))
        (fun _ =>
           do! on_ctx (inc_bytes_out (_payload_size_bytes data)) in
           do! when_stats o (mkDelta 0 0 0 0 0 (_payload_size_bytes data) []) in
           do! cb_success (cb_threshold e) (sink_key_of o i) in
           ret None)
  end.

(** What a sink does with a partition whose attempts are exhausted. *)
Definition partition_failed (o : opts) (key : option unit_key) (e : sink_entry) (last_exc : option exn)
  (partition_records : list dict) : M W unit :=
  let n := zlen partition_records in
  let! dlq_ok :=
    if o_dlq o then
      let! dlq_ok := _write_dlq_envelope o "sink" (exc_text last_exc) (Some partition_records) None in
      do! on_ctx record_dlq in
      do! when_delivery o (record_loss key 0 (Z.b2z dlq_ok) (Z.b2z (negb dlq_ok))) in
      do! when_delivery o (record_sink (disposition_key e) 0 (Z.b2z (negb dlq_ok)) (Z.b2z dlq_ok)) in
      if (negb dlq_ok && stops_on_failed_dlq o)%bool then
        throw (Exn CDLQDelivery ("DLQ delivery failed for sink error: " ++ exc_text last_exc))
      else ret dlq_ok
    else
      do! when_delivery o (record_loss key n 0 0) in
      do! when_delivery o (record_sink (disposition_key e) 0 n 0) in
      ret false in
  if decide (o_on_error o = OnAbort) then throw (Exn CTram ("Sink write error: " ++ exc_text last_exc))
  else if (bool_decide (o_on_error o = OnRetry) && negb dlq_ok)%bool then
    throw (Exn CTram ("Sink write error: " ++ exc_text last_exc))
  else
    do! on_ctx (note_skip (exc_text last_exc)) in
    when_stats o (mkDelta 0 0 0 (Z.b2z (o_dlq o)) 0 0 [exc_text last_exc]).

Definition ser_name (i : nat) (e : sink_entry) : option nat := if sk_own_serializer e then Some i else None.

Definition config_type (c : dict) : string :=
  match dget "type" c with Some v => py_text v | None => "json" end.

Definition sink_meta_of (meta : dict) (cfg : dict) (field_values : list (string * string))
  (count : Z) : dict :=
  let m1 := match field_values with
            | [] => meta
            | _ => dset "field_values" (VDict ((fun kv => (kv.1, VStr kv.2)) <$> field_values)) meta
            end in
  ddel "_clickhouse_admitted_write"
    (dset "output_record_count" (VInt count)
       (dset "serializer_config" (VDict cfg)
          (dset "serializer_type" (VStr (config_type cfg)) m1))).

(** The loop over the partitions; a partition that fails stops the sink. *)
Fixpoint write_partitions (o : opts) (key : option unit_key) (meta : dict) (i : nat) (e : sink_entry)
  (parts : list (list (string * string) * list dict)) (written : Z) : M W Z :=
  match parts with
  | [] => do! when_delivery o (record_sink (disposition_key e) written 0 0) in ret written
  | (field_values, partition_records) :: parts' =>
      let! serialized := call_res (serialize (ser_name i e) partition_records) in
      let sink_meta := sink_meta_of meta (ser_config (ser_name i e)) field_values (zlen partition_records) in
      let! outcome := write_attempts o i e serialized sink_meta (sink_retries e) 0 None in
      match outcome with
      | None => write_partitions o key meta i e parts' (written + zlen partition_records)
      | Some last_exc =>
          do! cb_failure (cb_threshold e) (sink_key_of o i) (cb_window (sk_cfg e)) in
          do! partition_failed o key e last_exc partition_records in
          do! when_delivery o (record_sink (disposition_key e) written 0 0) in
          ret written
      end
  end.

(** Per-sink transforms: [None] when one failed. *)
Fixpoint sink_transform_loop (o : opts) (key : option unit_key) (meta : dict) (ts : list nat)
  (records : list dict) : M W (option (list dict)) :=
  match ts with
  | [] => ret (Some records)
  | t :: ts' =>
      try_else (call_res (transform_apply t meta records))
        (fun exc => do! transform_failed o key "sink transform error" records exc in ret None)
        (sink_transform_loop o key meta ts')
  end.

Definition _write_one_sink (o : opts) (key : option unit_key) (meta : dict) (records_in : list dict)
  (i : nat) (e : sink_entry) : M W Z :=
  let! filtered :=
    match sk_condition e with
    | None | Some ""%string => ret records_in
    | Some c => _filter_by_condition records_in c
    end in
  match filtered with
  | [] => ret 0
  | _ =>
      let! sink_records := sink_transform_loop o key meta (sk_transforms e) filtered in
      match sink_records with
      | None | Some [] => ret 0
      | Some sink_records =>
          do! match o_rate_limit_rps o with
              | None => ret tt
              | Some rps =>
                  if o_rate_limit_per_record o then iterM (fun _ => _rate_limit rps) sink_records
                  else _rate_limit rps
              end in
          let! is_open := cb_open (cb_threshold e) (sink_key_of o i) in
          if is_open then
            do! modify (log (EvBreakerSkip i)) in
            do! on_ctx (note_skip "Circuit breaker open") in
            do! when_delivery o (record_loss key (zlen records_in) 0 0) in
            do! when_stats o (mkDelta 0 0 0 0 0 0 ["Circuit breaker open"%string]) in
            ret 0
          else
            let! partitions := lift (_partition_records_for_template sink_records (_sink_filename_template e)) in
            write_partitions o key meta i e partitions 0
      end
  end.

(** ** All sinks *)

(** Run to the end without raising: the outcome as a value. *)
Definition outcome_of {A} (m : M W A) : M W (res exn A) := fun s => let '(r, t) := m s in (Ok r, t).

(** An exception of a pooled task that is not a TramError is folded into one. *)
Definition fold_exn (exc : exn) : exn :=
  if is_tram exc then exc else Exn CTram ("Sink write error: " ++ exn_str exc).

Fixpoint gather (results : list (res exn Z)) : res exn (list Z) :=
  match results with
  | [] => Ok []
  | Ok n :: rest => let? ns := gather rest in Ok (n :: ns)
  | Raise exc :: _ => Raise (fold_exn exc)
  end.

Definition write_all_sinks (o : opts) (key : option unit_key) (meta : dict) (records : list dict)
  (sinks : list sink_entry) : M W (list Z) :=
  if (o_parallel o && (1 <? zlen sinks))%bool then
    let! order := call (sink_schedule (length sinks)) in
    let! outcomes := mapM (fun i =>
      match sinks !! i with
      | Some e => let! r := outcome_of (_write_one_sink o key meta records i e) in ret [(i, r)]
      | None => ret []
      end) order in
    lift (gather (omap (fun i => aget i (mjoin outcomes)) (seq 0 (length sinks))))
  else
    mapM (fun ie : nat * sink_entry => _write_one_sink o key meta records ie.1 ie.2)
      (zip (seq 0 (length sinks)) sinks).

(** [max(written_counts) if written_counts else 0]. *)
Definition max_written (counts : list Z) : Z :=
  match counts with
  | [] => 0
  | n :: ns => fold_left Z.max ns n
  end.

Definition skip_msg : string :=
  "Records skipped — no sink wrote successfully (condition filtered all records or every sink failed/circuit-open)".

(** The handler of a TramError: re-raise, or record it and answer [on_skip]. *)
Definition on_tram_error (o : opts) (exc : exn) (on_skip : M W bool) : M W bool :=
  if negb (is_tram exc) then throw exc
  else if (bool_decide (o_on_error o = OnAbort) || bool_decide (exn_cls exc = CDLQDelivery))%bool then throw exc
  else
    let! lost := get (fun s => has_loss (s_delivery s)) in
    if (bool_decide (o_on_error o = OnRetry) && o_delivery o && lost)%bool then throw exc
    else
      let msg := ("Processing error: " ++ exn_str exc)%string in
      do! on_ctx (record_error msg) in
      do! when_stats o (mkDelta 0 0 1 0 0 0 [msg]) in
      on_skip.

Definition _process_records (o : opts) (records : list dict) (meta : dict) (transforms : list nat)
  (sinks : list sink_entry) : M W bool :=
  let key := _source_unit_key meta in
  catch
    (do! whenM (o_count_records_in o)
       (do! on_ctx (inc_records_in (zlen records)) in
        when_stats o (mkDelta (zlen records) 0 0 0 0 0 [])) in
     let! records := _apply_global_transforms o records transforms meta in
     let! written_counts := write_all_sinks o key meta records sinks in
     let records_written := max_written written_counts in
     do! when_delivery o (record_chunk key (zlen records) records_written) in
     do! (if 0 <? records_written then
            do! on_ctx (inc_records_out records_written) in
            when_stats o (mkDelta 0 records_written 0 0 0 0 [])
          else
            match records with
            | [] => ret tt
            | _ =>
                do! on_ctx (inc_records_skipped (zlen records)) in
                do! when_stats o (mkDelta 0 0 (zlen records) 0 0 0 []) in
                on_ctx (note_skip skip_msg)
            end) in
     ret true)
    (fun exc => on_tram_error o exc (ret false)).

(** ** One chunk *)

(** What a chunk that does not parse costs, and the TramError it becomes. *)
Definition parse_failed {A} (o : opts) (key : option unit_key) (raw : bytes) (exc : exn) : M W A :=
  let! dlq_ok :=
    if o_dlq o then
      let! ok := _write_dlq_envelope o "parse" (exn_str exc) None (Some raw) in
      do! on_ctx record_dlq in ret ok
    else ret true in
  do! when_delivery o (if o_dlq o then record_loss key 0 (Z.b2z dlq_ok) (Z.b2z (negb dlq_ok))
                       else record_loss key 1 0 0) in
  if (negb dlq_ok && stops_on_failed_dlq o)%bool then
    throw (Exn CDLQDelivery ("DLQ delivery failed for unparseable chunk: " ++ exn_str exc))
  else
    do! when_stats o (mkDelta 0 0 0 (Z.b2z (o_dlq o)) 0 0 [("Parse error: " ++ exn_str exc)%string]) in
    throw (Exn CTram ("Parse error: " ++ exn_str exc)).

Definition count_bytes_in (o : opts) (raw : bytes) : M W unit :=
  do! on_ctx (inc_bytes_in (_payload_size_bytes raw)) in
  when_stats o (mkDelta 0 0 0 0 (_payload_size_bytes raw) 0 []).

(** [_process_chunk] without a flush buffer and without passthrough. *)
Definition process_chunk_dict (o : opts) (raw : bytes) (meta : dict) (transforms : list nat)
  (sinks : list sink_entry) : M W bool :=
  let! ctx := get s_ctx in
  let meta := _augment_chunk_meta meta ctx in
  let key := _source_unit_key meta in
  catch
    (do! count_bytes_in o raw in
     try_else (call_res (parse raw)) (parse_failed o key raw)
       (fun records => _process_records o records meta transforms sinks))
    (fun exc => on_tram_error o exc (ret false)).

(** One batch of [parse_chunks] and the rest of the loop. *)
Definition incremental_step (o : opts) (meta : dict) (transforms : list nat) (sinks : list sink_entry)
  (batch_size : option Z) (records : list dict) (rest : M W bool) : M W bool :=
  match records with
  | [] => rest
  | _ =>
      do! _process_records o records meta transforms sinks in
      let! n_in := get (fun s => cx_records_in (s_ctx s)) in
      match batch_size with
      | Some b => if (negb (b =? 0) && (b <=? n_in))%bool then ret true else rest
      | None => rest
      end
  end.

(** The loop over the batches of [parse_chunks], which end with an exception
    or not. *)
Fixpoint incremental_loop (o : opts) (meta : dict) (transforms : list nat) (sinks : list sink_entry)
  (batch_size : option Z) (batches : list (list dict)) (ending : option exn) : M W bool :=
  match batches with
  | [] => match ending with Some exc => throw exc | None => ret true end
  | records :: batches' =>
      let rest := incremental_loop o meta transforms sinks batch_size batches' ending in
      let! n_in := get (fun s => cx_records_in (s_ctx s)) in
      match batch_size with
      | Some b =>
          let remaining := b - n_in in
          if remaining <=? 0 then ret true
          else
            incremental_step o meta transforms sinks batch_size
              (if remaining <? zlen records then take (Z.to_nat remaining) records else records) rest
      | None => incremental_step o meta transforms sinks batch_size records rest
      end
  end.

Definition _process_chunk_incrementally (o : opts) (raw : bytes) (meta : dict) (transforms : list nat)
  (sinks : list sink_entry) (record_chunk_size : Z) (batch_size : option Z) : M W bool :=
  let! ctx := get s_ctx in
  let meta := _augment_chunk_meta meta ctx in
  let key := _source_unit_key meta in
  catch
    (do! count_bytes_in o raw in
     let '(batches, ending) := parse_chunks raw record_chunk_size in
     catch (incremental_loop o meta transforms sinks batch_size batches ending)
       (fun exc => if is_tram exc then throw exc else parse_failed o key raw exc))
    (fun exc => on_tram_error o exc (ret false)).
End sinks.
End ExecSinks.
