(* ===== verification/Framing.v ===== *)
(** * Length-delimited Protobuf frames

    [_iter_validated_frames] and [_reframe] of
    tram/pipeline/protobuf_passthrough.py: a payload is a sequence of frames,
    each a 4-byte big-endian length and that many message bytes.  The loop is
    the iteration of its body on (offset, frames); a run of it is bounded by
    the number of length prefixes that fit into the data, which is proved to be
    enough.  [parse_message] stands for [msg.ParseFromString]. *)

From Stdlib Require Import ZArith Lia Ascii String Strings.Byte.
From stdpp Require Import base tactics list strings option.
From S2P Require Import Prelude PyStr Sha256 IsoTime PyVal Paths Transforms CounterDelta Accounting ExecKeys.
Import stdpp.list.

#[local] Open Scope Z_scope.
#[local] Open Scope list_scope.

Module Framing.

Notation bytes := (list Byte.byte).

Definition byte_val (b : Byte.byte) : Z := Z.of_N (Byte.to_N b).
Definition val_byte (z : Z) : Byte.byte := default Byte.x00 (Byte.of_N (Z.to_N (z mod 256))).

(** [struct.unpack_from(">I", view, offset)] on the bytes from [offset]. *)
Definition unpack_be32 (l : bytes) : option Z :=
  match l with
  | a :: b :: c :: d :: _ =>
      Some (byte_val a * 2 ^ 24 + byte_val b * 2 ^ 16 + byte_val c * 2 ^ 8 + byte_val d)
  | _ => None
  end.

(** [struct.pack(">I", n)]. *)
Definition pack_be32 (n : Z) : res exn bytes :=
  if ((0 <=? n) && (n <? 2 ^ 32))%bool
  then Ok [val_byte (n / 2 ^ 24); val_byte (n / 2 ^ 16); val_byte (n / 2 ^ 8); val_byte n]
  else Raise (Exn COther "'I' format requires 0 <= number <= 4294967295").

Section frames.
Variable parse_message : bytes -> res exn unit.
Variable data : bytes.

Definition total : Z := Z.of_nat (length data).

(** [data[lo:hi]] for [0 <= lo <= hi]. *)
Definition slice (lo hi : Z) : bytes := take (Z.to_nat (hi - lo)) (drop (Z.to_nat lo) data).

(** One run of the loop body: the next (offset, frames), or an exception. *)
Definition frame_step (offset : Z) (frames : list bytes) : res exn (Z * list bytes) :=
  if total <? offset + 4 then Raise (Exn CTram "Truncated length prefix in protobuf stream")
  else
    match unpack_be32 (drop (Z.to_nat offset) data) with
    | None => Raise (Exn COther "unpack_from requires a buffer of at least 4 bytes")
    | Some length =>
        let offset := offset + 4 in
        let end_ := offset + length in
        if total <? end_ then Raise (Exn CTram "Truncated protobuf record")
        else
          let frame := slice offset end_ in
          match parse_message frame with
          | Raise exc => Raise (Exn CTram ("Protobuf parse error: " ++ exn_str exc))
          | Ok _ => Ok (end_, frames ++ [frame])
          end
    end.

(** At most [n] iterations of [while offset < total]; [None]: not finished. *)
Fixpoint frame_loop (n : nat) (offset : Z) (frames : list bytes) : option (res exn (list bytes)) :=
  if offset <? total then
    match n with
    | O => None
    | S n' =>
        match frame_step offset frames with
        | Raise e => Some (Raise e)
        | Ok (offset', frames') => frame_loop n' offset' frames'
        end
    end
  else Some (Ok frames).

(** The iterations that suffice: each consumes at least a length prefix. *)
Definition max_frames : nat := S (length data / 4).

Definition _iter_validated_frames : res exn (list bytes) :=
  default (Raise (Exn COther "")) (frame_loop max_frames 0 []).
End frames.

Fixpoint _reframe (frames : list bytes) : res exn bytes :=
  match frames with
  | [] => Ok []
  | frame :: frames' =>
      let? prefix := pack_be32 (Z.of_nat (length frame)) in
      let? rest := _reframe frames' in
      Ok (prefix ++ frame ++ rest)
  end.

(** ** Bytes *)

Lemma byte_val_bounds b : 0 <= byte_val b < 256.
Proof.
  unfold byte_val. pose proof (Byte.to_N_bounded b). lia.
Qed.

Lemma val_byte_val b : val_byte (byte_val b) = b.
Proof.
  unfold val_byte. rewrite Z.mod_small by apply byte_val_bounds.
  unfold byte_val. rewrite N2Z.id, Byte.of_to_N. done.
Qed.

Lemma byte_val_byte z : byte_val (val_byte z) = z mod 256.
Proof.
  unfold val_byte, byte_val. pose proof (Z.mod_pos_bound z 256 ltac:(lia)) as Hz.
  destruct (Byte.of_N (Z.to_N (z mod 256))) as [b|] eqn:E; simpl.
  - apply Byte.to_of_N in E. rewrite E. lia.
  - apply Byte.of_N_None_iff in E. lia.
Qed.

(** ** The length prefix *)

Lemma unpack_short l : (length l < 4)%nat -> unpack_be32 l = None.
Proof. destruct l as [|a [|b [|c [|d l]]]]; simpl; try done; lia. Qed.

Lemma unpack_bounds l n : unpack_be32 l = Some n -> 0 <= n < 2 ^ 32 /\ (4 <= length l)%nat.
Proof.
  destruct l as [|a [|b [|c [|d l]]]]; simpl; try done. intros [= <-].
  pose proof (byte_val_bounds a). pose proof (byte_val_bounds b).
  pose proof (byte_val_bounds c). pose proof (byte_val_bounds d). lia.
Qed.

Lemma unpack_pack l n :
  unpack_be32 l = Some n -> exists rest, pack_be32 n = Ok (take 4 l) /\ l = take 4 l ++ rest.
Proof.
  intros H. pose proof (unpack_bounds _ _ H) as [Hn Hl].
  destruct l as [|a [|b [|c [|d l]]]]; simpl in H; try done. exists l. split; [|done].
  unfold pack_be32. assert (((0 <=? n) && (n <? 2 ^ 32))%bool = true) as ->.
  { apply andb_true_intro. split; [apply Z.leb_le|apply Z.ltb_lt]; lia. }
  simplify_eq. simpl take.
  pose proof (byte_val_bounds a). pose proof (byte_val_bounds b).
  pose proof (byte_val_bounds c). pose proof (byte_val_bounds d).
  set (va := byte_val a) in *. set (vb := byte_val b) in *.
  set (vc := byte_val c) in *. set (vd := byte_val d) in *.
  assert (forall z b0, z mod 256 = byte_val b0 -> val_byte z = b0) as Hv.
  { intros z b0 E. rewrite <- (val_byte_val b0), <- E. unfold val_byte. by rewrite Z.mod_mod by lia. }
  f_equal. f_equal; [|f_equal; [|f_equal; [|f_equal]]]; apply Hv; fold va vb vc vd.
  - replace ((va * 2 ^ 24 + vb * 2 ^ 16 + vc * 2 ^ 8 + vd) / 2 ^ 24) with va; [apply Z.mod_small; lia|].
    apply Z.div_unique with (vb * 2 ^ 16 + vc * 2 ^ 8 + vd); lia.
  - replace ((va * 2 ^ 24 + vb * 2 ^ 16 + vc * 2 ^ 8 + vd) / 2 ^ 16) with (va * 256 + vb).
    + symmetry. apply Z.mod_unique with va; lia.
    + apply Z.div_unique with (vc * 2 ^ 8 + vd); lia.
  - replace ((va * 2 ^ 24 + vb * 2 ^ 16 + vc * 2 ^ 8 + vd) / 2 ^ 8) with (va * 65536 + vb * 256 + vc).
    + symmetry. apply Z.mod_unique with (va * 256 + vb); lia.
    + apply Z.div_unique with vd; lia.
  - symmetry. apply Z.mod_unique with (va * 65536 + vb * 256 + vc); lia.
Qed.

Lemma pack_unpack n p rest :
  pack_be32 n = Ok p -> length p = 4%nat /\ unpack_be32 (p ++ rest) = Some n.
Proof.
  unfold pack_be32. destruct ((0 <=? n) && (n <? 2 ^ 32))%bool eqn:E; [|done].
  intros [= <-]. bool_to_prop. split; [done|]. simpl.
  rewrite !byte_val_byte. f_equal.
  pose proof (Z.div_mod n (2 ^ 8) ltac:(lia)) as E1.
  pose proof (Z.div_mod (n / 2 ^ 8) (2 ^ 8) ltac:(lia)) as E2.
  pose proof (Z.div_mod (n / 2 ^ 16) (2 ^ 8) ltac:(lia)) as E3.
  rewrite Z.div_div in E2, E3 by lia. change (2 ^ 8 * 2 ^ 8) with (2 ^ 16) in E2.
  change (2 ^ 16 * 2 ^ 8) with (2 ^ 24) in E3.
  change 256 with (2 ^ 8).
  assert (n / 2 ^ 24 mod 2 ^ 8 = n / 2 ^ 24) as ->.
  { apply Z.mod_small. split; [apply Z.div_pos; lia|]. apply Z.div_lt_upper_bound; lia. }
  lia.
Qed.

(** ** The loop *)

Section laws.
Variable parse_message : bytes -> res exn unit.

(** What the frames of a payload are. *)
Inductive framed : bytes -> list bytes -> Prop :=
| framed_nil : framed [] []
| framed_cons prefix frame rest frames :
    pack_be32 (Z.of_nat (length frame)) = Ok prefix ->
    is_ok (parse_message frame) = true ->
    framed rest frames ->
    framed (prefix ++ frame ++ rest) (frame :: frames).

Lemma framed_reframe d fs : framed d fs -> _reframe fs = Ok d.
Proof. induction 1 as [|p f rest fs Hp _ _ IH]; simpl; [done|]. by rewrite Hp; simpl; rewrite IH. Qed.

Lemma reframe_framed fs d :
  Forall (fun f => is_ok (parse_message f) = true) fs -> _reframe fs = Ok d -> framed d fs.
Proof.
  revert d; induction fs as [|f fs IH]; simpl; intros d Hv Hd; [inv_eq; constructor|].
  apply res_bind_ok in Hd as (p & Hp & Hd). apply res_bind_ok in Hd as (r & Hr & Hd). inv_eq.
  apply Forall_cons in Hv as [Hf Hv]. constructor; auto.
Qed.

(** A successful iteration: a frame lies at the offset. *)
Lemma frame_step_ok data offset frames offset' frames' :
  0 <= offset ->
  frame_step parse_message data offset frames = Ok (offset', frames') ->
  exists prefix frame,
    pack_be32 (Z.of_nat (length frame)) = Ok prefix /\
    is_ok (parse_message frame) = true /\
    drop (Z.to_nat offset) data = prefix ++ frame ++ drop (Z.to_nat offset') data /\
    frames' = frames ++ [frame] /\ offset + 4 <= offset' <= total data.
Proof.
  intros Ho. unfold frame_step. destruct (total data <? offset + 4) eqn:Et; [done|].
  destruct (unpack_be32 (drop (Z.to_nat offset) data)) as [n|] eqn:En; [|done].
  destruct (total data <? offset + 4 + n) eqn:Ee; [done|].
  destruct (parse_message _) eqn:Ep; [|done]. intros [= <- <-]. bool_to_prop.
  pose proof (unpack_bounds _ _ En) as [Hn _].
  apply unpack_pack in En as (rest & Hp & Hd).
  set (frame := slice data (offset + 4) (offset + 4 + n)) in *.
  assert (Z.of_nat (length frame) = n) as Hlen.
  { unfold frame, slice. rewrite length_take, length_drop. unfold total in *. lia. }
  exists (take 4 (drop (Z.to_nat offset) data)), frame.
  split; [by rewrite Hlen|]. split; [by rewrite Ep|]. split; [|split; [done|lia]].
  rewrite <- (take_drop 4 (drop (Z.to_nat offset) data)) at 1. f_equal.
  unfold frame, slice. rewrite drop_drop.
  replace (Z.to_nat offset + 4)%nat with (Z.to_nat (offset + 4)) by lia.
  replace (Z.to_nat (offset + 4 + n - (offset + 4))) with (Z.to_nat n) by lia.
  rewrite <- (take_drop (Z.to_nat n) (drop (Z.to_nat (offset + 4)) data)) at 1.
  f_equal. rewrite drop_drop. f_equal. lia.
Qed.

Lemma frame_loop_framed data n offset frames out :
  0 <= offset ->
  frame_loop parse_message data n offset frames = Some (Ok out) ->
  exists more, out = frames ++ more /\ framed (drop (Z.to_nat offset) data) more.
Proof.
  revert offset frames; induction n as [|n IH]; intros offset frames Ho; simpl;
    (destruct (offset <? total data) eqn:E; [|intros [= <-]; exists []; rewrite app_nil_r;
      split; [done|]; bool_to_prop; rewrite drop_ge by (unfold total in *; lia); constructor]); [done|].
  destruct (frame_step _ _ _ _) as [[offset' frames']|] eqn:Es; [|done].
  apply frame_step_ok in Es as (p & f & Hp & Hv & Hd & -> & Hb); [|done].
  intros H. apply IH in H as (more & -> & Hm); [|lia].
  exists (f :: more). rewrite <- app_assoc. split; [done|]. rewrite Hd. by constructor.
Qed.

(** The variant: each iteration leaves fewer prefixes. *)
Lemma frame_loop_enough data n offset frames :
  0 <= offset -> total data - offset < 4 * Z.of_nat n ->
  exists r, frame_loop parse_message data n offset frames = Some r.
Proof.
  revert offset frames; induction n as [|n IH]; intros offset frames Ho Hn; simpl;
    destruct (offset <? total data) eqn:E; bool_to_prop; eauto; [lia|].
  destruct (frame_step _ _ _ _) as [[offset' frames']|] eqn:Es; [|eauto].
  apply frame_step_ok in Es as (p & f & _ & _ & _ & _ & Hb); [|done]. apply IH; lia.
Qed.

Lemma iter_finishes data : exists r, frame_loop parse_message data (max_frames data) 0 [] = Some r.
Proof.
  apply frame_loop_enough; [lia|]. unfold max_frames, total.
  pose proof (Nat.div_mod_eq (length data) 4). pose proof (Nat.mod_upper_bound (length data) 4 ltac:(lia)).
  lia.
Qed.

Lemma frame_loop_complete data d fs offset n frames :
  framed d fs -> 0 <= offset -> drop (Z.to_nat offset) data = d -> (length fs <= n)%nat ->
  offset <= total data ->
  frame_loop parse_message data n offset frames = Some (Ok (frames ++ fs)).
Proof.
  intros Hf. revert offset n frames; induction Hf as [|p f rest fs Hp Hv Hf IH];
    intros offset n frames Ho Hd Hn Ht.
  - assert ((offset <? total data) = false) as E.
    { apply Z.ltb_ge. apply (f_equal length) in Hd. rewrite length_drop in Hd. simpl in Hd.
      unfold total. lia. }
    rewrite app_nil_r. destruct n; simpl; by rewrite E.
  - pose proof (pack_unpack _ _ (f ++ rest) Hp) as [Hl Hu].
    pose proof (f_equal length Hd) as Hlen. rewrite length_drop, !length_app, Hl in Hlen.
    destruct n as [|n]; [simpl in Hn; lia|]. cbn [frame_loop].
    assert ((offset <? total data) = true) as -> by (apply Z.ltb_lt; unfold total; lia).
    assert (frame_step parse_message data offset frames
            = Ok (offset + 4 + Z.of_nat (length f), frames ++ [f])) as ->.
    { unfold frame_step. assert ((total data <? offset + 4) = false) as ->.
      { apply Z.ltb_ge. unfold total. lia. }
      rewrite Hd, Hu. assert ((total data <? offset + 4 + Z.of_nat (length f)) = false) as ->.
      { apply Z.ltb_ge. unfold total. lia. }
      assert (slice data (offset + 4) (offset + 4 + Z.of_nat (length f)) = f) as ->.
      { unfold slice. replace (Z.to_nat (offset + 4)) with (Z.to_nat offset + 4)%nat by lia.
        rewrite <- drop_drop, Hd, <- Hl, drop_app_length.
        replace (Z.to_nat (offset + 4 + Z.of_nat (length f) - (offset + 4))) with (length f) by lia.
        apply take_app_length. }
      by destruct (parse_message f). }
    rewrite IH; [by rewrite <- app_assoc|lia| |simpl in Hn; lia|unfold total; lia].
    replace (Z.to_nat (offset + 4 + Z.of_nat (length f)))
      with (Z.to_nat offset + (4 + length f))%nat by lia.
    rewrite <- drop_drop, Hd, app_assoc.
    replace (4 + length f)%nat with (length (p ++ f)) by (rewrite length_app; lia).
    apply drop_app_length.
Qed.

(** Every frame takes at least its prefix. *)
Lemma framed_length d fs : framed d fs -> (4 * length fs <= length d)%nat.
Proof.
  induction 1 as [|p f rest fs Hp _ _ IH]; simpl; [lia|].
  apply (pack_unpack _ _ []) in Hp as [Hl _]. rewrite !length_app. lia.
Qed.

Lemma iter_framed data fs : framed data fs -> _iter_validated_frames parse_message data = Ok fs.
Proof.
  intros H. unfold _iter_validated_frames.
  rewrite (frame_loop_complete data data fs 0); [done|done|lia|done| |unfold total; lia].
  apply framed_length in H. unfold max_frames.
  pose proof (Nat.Div0.div_le_mono _ _ 4 H) as Hd. rewrite Nat.mul_comm, Nat.div_mul in Hd by lia. lia.
Qed.

Lemma iter_ok_framed data fs : _iter_validated_frames parse_message data = Ok fs -> framed data fs.
Proof.
  unfold _iter_validated_frames. destruct (iter_finishes data) as [r Hr]. rewrite Hr. simpl. intros ->.
  apply frame_loop_framed in Hr as (more & -> & Hm); [done|lia].
Qed.
End laws.

(** ** Theorems *)

(** C36: the frame loop ends on every payload: within one iteration more than
    the number of length prefixes that fit into the data it has returned
    frames or raised, whatever the message parser answers. *)
Theorem frame_loop_terminates parse_message data :
  exists r, frame_loop parse_message data (max_frames data) 0 [] = Some r
            /\ _iter_validated_frames parse_message data = r.
Proof.
  destruct (iter_finishes parse_message data) as [r Hr]. exists r. split; [done|].
  unfold _iter_validated_frames. by rewrite Hr.
Qed.

(** A payload whose frames validate is written out byte for byte: framing
    the validated frames again gives exactly the bytes that were read. *)
Theorem passthrough_preserves_bytes parse_message data frames :
  _iter_validated_frames parse_message data = Ok frames -> _reframe frames = Ok data.
Proof. intros H. exact (framed_reframe _ _ _ (iter_ok_framed _ _ _ H)). Qed.

Definition demo_payload : bytes :=
  [Byte.x00; Byte.x00; Byte.x00; Byte.x02; Byte.x08; Byte.x01; Byte.x00; Byte.x00; Byte.x00; Byte.x00].

Lemma passthrough_preserves_bytes_witness :
  _iter_validated_frames (fun _ => Ok tt) demo_payload = Ok [[Byte.x08; Byte.x01]; []] /\
  _reframe [[Byte.x08; Byte.x01]; []] = Ok demo_payload.
Proof.
  split; [reflexivity|]. apply (passthrough_preserves_bytes (fun _ => Ok tt)). reflexivity.
Defined.

(** Reading back what was framed gives the same messages: for frames that
    the parser accepts and that are shorter than 4 GiB, [_reframe] succeeds and
    [_iter_validated_frames] returns those frames in order. *)
Theorem reframe_roundtrip parse_message frames :
  Forall (fun f => is_ok (parse_message f) = true /\ Z.of_nat (length f) < 2 ^ 32) frames ->
  exists data, _reframe frames = Ok data /\ _iter_validated_frames parse_message data = Ok frames.
Proof.
  intros H. assert (exists d, _reframe frames = Ok d) as [d Hd].
  { induction H as [|f fs [_ Hf] _ [d IH]]; simpl; [eauto|].
    unfold pack_be32. assert (((0 <=? Z.of_nat (length f)) && (Z.of_nat (length f) <? 2 ^ 32))%bool = true) as ->.
    { apply andb_true_intro. split; [apply Z.leb_le|apply Z.ltb_lt]; lia. }
    simpl. rewrite IH. simpl. eauto. }
  exists d. split; [done|]. apply iter_framed, reframe_framed; [|done].
  eapply Forall_impl; [exact H|]. by intros f [Hf _].
Qed.

Lemma reframe_roundtrip_witness :
  exists data, _reframe [[Byte.x08; Byte.x01]; []] = Ok data
    /\ _iter_validated_frames (fun f => if bool_decide (length f <= 2)%nat then Ok tt
                                        else Raise (Exn COther "x")) data = Ok [[Byte.x08; Byte.x01]; []].
Proof.
  apply (reframe_roundtrip (fun f => if bool_decide (length f <= 2)%nat then Ok tt
                                     else Raise (Exn COther "x"))).
  repeat (apply List.Forall_cons; [split; [reflexivity|reflexivity]|]). apply List.Forall_nil.
Defined.

End Framing.
