(* ===== verification/Passthrough.v ===== *)
(** * Protobuf passthrough

    tram/pipeline/protobuf_passthrough.py: the eligibility conditions
    ([protobuf_passthrough_reasons] and its re-check at run start) and
    [process_chunk], which validates the frames of a chunk and writes them
    through the sinks without decoding records, over the executor's state
    (ExecMonad) and with its rate limiter and circuit breakers (ExecSinks).
    The content hash of a schema file and the registry URL of the environment
    are parameters. *)

From Stdlib Require Import ZArith Lia Ascii String SpecFloat Strings.Byte.
From stdpp Require Import base tactics list strings gmap option.
From S2P Require Import Prelude PyStr Sha256 IsoTime PyVal Paths Transforms CounterDelta Accounting ExecKeys ExecMonad ExecSinks Framing.
Import stdpp.list.

#[local] Open Scope Z_scope.
#[local] Open Scope list_scope.

Module Passthrough.
Import PyVal Transforms Accounting ExecKeys ExecMonad ExecSinks Framing.

(** ** Eligibility *)

(** The fields read of a serializer configuration; those after the type exist
    on Protobuf serializers. *)
Record SerializerConfig := mkSer {
  sr_type : string;
  sr_schema_file : string;
  sr_message_class : string;
  sr_framing : string;
  sr_schema_registry_url : string }.

(** The fields read of a sink: its type, the types of its transforms, its
    condition, whether it overrides the serializer, and the template strings
    it has. *)
Record PassSink := mkPassSink {
  pk_type : string;
  pk_transforms : list string;
  pk_condition : string;
  pk_serializer_out : bool;
  pk_templates : list (string * string) }.

Record PassConfig := mkPass {
  pc_serializer_in : SerializerConfig;
  pc_serializer_out : option SerializerConfig;
  pc_transforms : list string;
  pc_sinks : list PassSink;
  pc_dlq : option string }.

Definition _ELIGIBLE_SINK_TYPES : list string := ["local"%string].

Section reasons.
Context {PT : PyText}.
(** [_schema_content_hash] and [os.environ.get("TRAM_SCHEMA_REGISTRY_URL")]. *)
Variable _schema_content_hash : string -> option string.
Variable env_registry_url : string.

Definition repr (s : string) : string := repr_text (VStr s).

Definition when_s (b : bool) (r : string) : list string := if b then [r] else [].

Definition wire_reasons (i o : SerializerConfig) : list string :=
  let in_hash := _schema_content_hash (sr_schema_file i) in
  let out_hash := _schema_content_hash (sr_schema_file o) in
  (match in_hash with
   | None => ["serializer_in schema file not found or unreadable: " ++ sr_schema_file i]%string
   | Some _ => []
   end) ++
  (match out_hash with
   | None => ["serializer_out schema file not found or unreadable: " ++ sr_schema_file o]%string
   | Some _ => []
   end) ++
  (match in_hash, out_hash with
   | Some a, Some b =>
       when_s (negb (String.eqb a b))
         ("serializer_in and serializer_out schema content differ (sha256 " ++ String.substring 0 12 a
          ++ " != " ++ String.substring 0 12 b ++ ") — the compiled wire contracts are not identical")%string
   | _, _ => []
   end) ++
  when_s (negb (String.eqb (sr_message_class i) (sr_message_class o)))
    ("serializer_in message_class " ++ repr (sr_message_class i) ++ " != serializer_out message_class "
     ++ repr (sr_message_class o))%string ++
  when_s (negb (String.eqb (sr_framing i) (sr_framing o)))
    ("serializer_in framing " ++ repr (sr_framing i) ++ " != serializer_out framing "
     ++ repr (sr_framing o))%string ++
  when_s (negb (String.eqb (sr_framing i) "length_delimited"))
    ("serializer_in framing must be 'length_delimited' (got " ++ repr (sr_framing i) ++ ")")%string ++
  when_s (negb (String.eqb (sr_framing o) "length_delimited"))
    ("serializer_out framing must be 'length_delimited' (got " ++ repr (sr_framing o) ++ ")")%string ++
  when_s (negb (String.eqb (sr_schema_registry_url i) "")
          || negb (String.eqb (sr_schema_registry_url o) "") || negb (String.eqb env_registry_url ""))%bool
    "schema_registry configuration is not eligible for passthrough (magic-byte framing wraps the frame stream)".

Definition serializer_reasons (c : PassConfig) : list string :=
  let ser_in := pc_serializer_in c in
  when_s (negb (String.eqb (sr_type ser_in) "protobuf"))
    ("serializer_in must be type=protobuf (got " ++ repr (sr_type ser_in) ++ ")")%string ++
  match pc_serializer_out c with
  | None => ["serializer_out must be type=protobuf (unset — the default is json)"%string]
  | Some ser_out =>
      when_s (negb (String.eqb (sr_type ser_out) "protobuf"))
        ("serializer_out must be type=protobuf (got " ++ repr (sr_type ser_out) ++ ")")%string ++
      (if (String.eqb (sr_type ser_in) "protobuf" && String.eqb (sr_type ser_out) "protobuf")%bool
       then wire_reasons ser_in ser_out else [])
  end.

Definition template_reasons (label : string) (templates : list (string * string)) : res exn (list string) :=
  let? rs := res_mapM (fun at_ : string * string =>
    let? field_paths := extract_field_paths at_.2 in
    Ok (when_s (negb (bool_decide (field_paths = [])))
         (label ++ ": " ++ at_.1 ++ " " ++ repr at_.2 ++ " uses record-field token(s) field."
          ++ py_join ", field." field_paths
          ++ " — the template cannot be rendered without decoded records")%string)) templates in
  Ok (mjoin rs).

Definition sink_reasons (index : nat) (s : PassSink) : res exn (list string) :=
  let label := ("sinks[" ++ py_str (Z.of_nat index) ++ "] (" ++ pk_type s ++ ")")%string in
  let? templates := template_reasons label (pk_templates s) in
  Ok ((if decide (pk_type s ∈ _ELIGIBLE_SINK_TYPES) then []
       else if String.eqb (pk_type s) "kafka"
       then [label ++ ": kafka sinks are not eligible — their bounded-batch chunking re-serializes records"]%string
       else [label ++ ": sink type " ++ repr (pk_type s)
             ++ " is not eligible — only the 'local' file sink transports bytes without parsing records"]%string) ++
      when_s (negb (bool_decide (pk_transforms s = [])))
        (label ++ ": per-sink transforms are configured (" ++ py_join ", " (pk_transforms s) ++ ")")%string ++
      when_s (negb (String.eqb (pk_condition s) ""))
        (label ++ ": a sink condition is configured — conditions route on decoded records")%string ++
      when_s (pk_serializer_out s)
        (label ++ ": a per-sink serializer_out override is configured — passthrough writes the validated frames directly")%string ++
      templates).

Definition protobuf_passthrough_reasons (c : PassConfig) : res exn (list string) :=
  let? sinks := res_mapM (fun is_ : nat * PassSink => sink_reasons is_.1 is_.2)
                  (zip (seq 0 (length (pc_sinks c))) (pc_sinks c)) in
  Ok (serializer_reasons c ++
      when_s (negb (bool_decide (pc_transforms c = [])))
        ("global transforms are configured (" ++ py_join ", " (pc_transforms c)
         ++ ") — passthrough never decodes records")%string ++
      mjoin sinks ++
      match pc_dlq c with
      | None => []
      | Some t => ["a DLQ sink (" ++ t ++ ") is configured — DLQ envelopes require record dictionaries, which passthrough never builds"]%string
      end).

Definition protobuf_passthrough_runtime_reasons (c : PassConfig) (record_chunk_size : option Z)
  : res exn (list string) :=
  let? reasons := protobuf_passthrough_reasons c in
  Ok (reasons ++
      match record_chunk_size with
      | Some n => when_s (negb (n =? 0))
          "record_chunk_size is set — incremental chunked parsing is not supported in passthrough mode"
      | None => []
      end).

(** What eligibility means. *)
Record eligible (c : PassConfig) : Prop := {
  el_out : exists o, pc_serializer_out c = Some o /\ sr_type o = "protobuf"%string /\
             sr_message_class o = sr_message_class (pc_serializer_in c) /\
             sr_framing o = "length_delimited"%string /\
             sr_schema_registry_url o = ""%string /\
             exists h, _schema_content_hash (sr_schema_file o) = Some h /\
                       _schema_content_hash (sr_schema_file (pc_serializer_in c)) = Some h;
  el_in : sr_type (pc_serializer_in c) = "protobuf"%string;
  el_framing : sr_framing (pc_serializer_in c) = "length_delimited"%string;
  el_registry : sr_schema_registry_url (pc_serializer_in c) = ""%string /\ env_registry_url = ""%string;
  el_transforms : pc_transforms c = [];
  el_dlq : pc_dlq c = None;
  el_sinks : Forall (fun s => pk_type s = "local"%string /\ pk_transforms s = [] /\
               pk_condition s = ""%string /\ pk_serializer_out s = false /\
               Forall (fun t => extract_field_paths t.2 = Ok []) (pk_templates s)) (pc_sinks c) }.

Lemma when_s_nil b r : when_s b r = [] <-> b = false.
Proof. destruct b; naive_solver. Qed.

Lemma negb_eqb_false a b : negb (String.eqb a b) = false <-> a = b.
Proof. rewrite negb_false_iff. apply String.eqb_eq. Qed.

Lemma wire_reasons_nil i o :
  wire_reasons i o = [] <->
  (exists h, _schema_content_hash (sr_schema_file o) = Some h /\
             _schema_content_hash (sr_schema_file i) = Some h) /\
  sr_message_class i = sr_message_class o /\ sr_framing i = "length_delimited"%string /\
  sr_framing o = "length_delimited"%string /\ sr_schema_registry_url i = ""%string /\
  sr_schema_registry_url o = ""%string /\ env_registry_url = ""%string.
Proof.
  unfold wire_reasons. rewrite !app_nil, !when_s_nil, !orb_false_iff, !negb_eqb_false.
  destruct (_schema_content_hash (sr_schema_file i)), (_schema_content_hash (sr_schema_file o));
    rewrite ?when_s_nil, ?negb_eqb_false; split; naive_solver congruence.
Qed.

Lemma template_reasons_nil label ts :
  template_reasons label ts = Ok [] <-> Forall (fun t => extract_field_paths t.2 = Ok []) ts.
Proof.
  unfold template_reasons. induction ts as [|t ts IH]; simpl; [by split|].
  rewrite Forall_cons, <- IH.
  destruct (extract_field_paths t.2) as [ps|] eqn:E; simpl; [|by split; [|intros [? _]]].
  destruct (res_mapM _ ts) as [rs|]; simpl; [|naive_solver].
  split.
  - intros [= H]. apply app_nil in H as [H1 H2]. rewrite H2. apply when_s_nil, negb_false_iff in H1.
    apply bool_decide_eq_true in H1 as ->. done.
  - intros [[= ->] [= H]]. simpl. by rewrite H.
Qed.

Lemma sink_reasons_nil i s :
  sink_reasons i s = Ok [] <->
  pk_type s = "local"%string /\ pk_transforms s = [] /\ pk_condition s = ""%string /\
  pk_serializer_out s = false /\ Forall (fun t => extract_field_paths t.2 = Ok []) (pk_templates s).
Proof.
  unfold sink_reasons. set (label := (_ ++ _)%string). rewrite <- (template_reasons_nil label).
  destruct (template_reasons label (pk_templates s)) as [ts|]; simpl; [|naive_solver].
  split.
  - intros [= H]. rewrite !app_nil, !when_s_nil, negb_eqb_false in H.
    destruct H as (H1 & H2 & H3 & H4 & ->). rewrite negb_false_iff, bool_decide_eq_true in H2.
    destruct (decide (pk_type s ∈ _ELIGIBLE_SINK_TYPES)) as [Hin|]; [|by destruct (String.eqb _ "kafka")].
    apply list_elem_of_singleton in Hin. done.
  - intros (E1 & E2 & E3 & E4 & [= ->]). rewrite E1, E2, E3, E4. done.
Qed.

Lemma all_sink_reasons_nil n l :
  (let? sinks := res_mapM (fun is_ : nat * PassSink => sink_reasons is_.1 is_.2) (zip (seq n (length l)) l)
   in Ok (mjoin sinks)) = Ok [] <-> Forall (fun s => forall i, sink_reasons i s = Ok []) l.
Proof.
  revert n; induction l as [|s l IH]; intros n; csimpl; [by split|].
  rewrite Forall_cons, <- (IH (S n)).
  assert (sink_reasons n s = Ok [] <-> forall i, sink_reasons i s = Ok []) as Hs.
  { split; [|auto]. intros H i. apply sink_reasons_nil. by apply sink_reasons_nil in H. }
  rewrite <- Hs. destruct (sink_reasons n s) as [r|]; simpl; [|naive_solver].
  destruct (res_mapM _ _) as [rs|]; simpl; [|naive_solver].
  split; [intros [= [-> ->]%app_nil]; done|]. by intros [[= ->] [= ->]].
Qed.

Lemma reasons_nil c : protobuf_passthrough_reasons c = Ok [] <-> eligible c.
Proof.
  unfold protobuf_passthrough_reasons.
  set (sr := res_mapM _ _).
  assert ((let? sinks := sr in Ok (mjoin sinks)) = Ok []
          <-> Forall (fun s => forall i, sink_reasons i s = Ok []) (pc_sinks c)) as Hs
    by apply all_sink_reasons_nil.
  split.
  - intros H. apply res_bind_ok in H as (rs & Hr & H). rewrite Hr in Hs. simpl in Hs.
    injection H as H. rewrite !app_nil, when_s_nil, negb_false_iff, bool_decide_eq_true in H.
    destruct H as (H1 & H2 & H3 & H4). unfold serializer_reasons in H1.
    rewrite app_nil, when_s_nil, negb_eqb_false in H1. destruct H1 as [Hin H1].
    destruct (pc_serializer_out c) as [o|] eqn:Eo; [|done].
    rewrite app_nil, when_s_nil, negb_eqb_false in H1. destruct H1 as [Hout H1].
    rewrite Hin, Hout in H1. simpl in H1. apply wire_reasons_nil in H1 as (Hh & Hm & Hf1 & Hf2 & Hu1 & Hu2 & Hu3).
    constructor; eauto 10.
    + by destruct (pc_dlq c).
    + rewrite H3 in Hs. assert (Forall (fun s => forall i, sink_reasons i s = Ok []) (pc_sinks c)) as Hall
        by by apply Hs.
      eapply Forall_impl; [exact Hall|]. intros s H. simpl. apply (sink_reasons_nil 0), H.
  - intros [(o & Eo & Ho & Hm & Hf & Hu & Hh) Hin Hf' [Hu' He] Ht Hd Hss].
    assert (Forall (fun s => forall i, sink_reasons i s = Ok []) (pc_sinks c)) as Hall.
    { eapply Forall_impl; [exact Hss|]. intros s H i. by apply sink_reasons_nil. }
    apply Hs in Hall. destruct sr as [rs|]; [|done]. simpl in *. injection Hall as ->.
    rewrite Ht, Hd. unfold serializer_reasons. rewrite Eo, Hin, Ho. simpl.
    assert (wire_reasons (pc_serializer_in c) o = []) as ->; [|done].
    apply wire_reasons_nil. split_and!; try done.
Qed.
End reasons.

(** ** Writing *)

Section write.
Context {W : Type} {EX : External W} {PT : PyText}.

(** The retry loop of one sink around [sink_instance.write(payload, meta)]. *)
Fixpoint pass_attempts (o : opts) (i : nat) (e : sink_entry) (payload : bytes) (nframes : Z)
  (sink_meta : dict) (n attempt : nat) (last_exc : option exn) : M W (option (option exn)) :=
  match n with
  | O => ret (Some last_exc)
  | S n' =>
      try_else (call_log (fun r => EvWrite i payload (is_ok r)) (sink_write i payload sink_meta))
        (fun exc =>
           do! whenM (negb (Nat.eqb n' 0))
             (let! j := call jitter in
              call (fun w => (tt, sleep (SFadd prec emax
                (SFmul prec emax (sink_retry_delay e) (float_of_int (2 ^ Z.of_nat attempt))) j) w))) in
           pass_attempts o i e payload nframes sink_meta n' (S attempt) (Some exc))
        (fun _ =>
           do! on_ctx (inc_bytes_out (zlen payload)) in
           do! when_stats o (mkDelta 0 0 0 0 0 (zlen payload) []) in
           do! cb_success (cb_threshold e) (sink_key_of o i) in
           do! when_delivery o (record_sink (disposition_key e) nframes 0 0) in
           ret None)
  end.

Definition pass_sink_meta (meta : dict) (nframes : Z) : dict :=
  dset "output_record_count" (VInt nframes)
    (dset "serializer_config" (VDict (ser_config None))
       (dset "serializer_type" (VStr "protobuf") meta)).

Definition pass_write_one_sink (o : opts) (key : option unit_key) (meta : dict) (payload : bytes)
  (frames : list bytes) (i : nat) (e : sink_entry) : M W Z :=
  let nframes := zlen frames in
  do! match o_rate_limit_rps o with Some rps => _rate_limit rps | None => ret tt end in
  let! is_open := cb_open (cb_threshold e) (sink_key_of o i) in
  if is_open then
    do! modify (log (EvBreakerSkip i)) in
    do! on_ctx (note_skip "Circuit breaker open") in
    do! when_delivery o (record_loss key nframes 0 0) in
    do! when_stats o (mkDelta 0 0 0 0 0 0 ["Circuit breaker open"%string]) in
    ret 0
  else
    let! outcome := pass_attempts o i e payload nframes (pass_sink_meta meta nframes)
                      (sink_retries e) 0 None in
    match outcome with
    | None => ret nframes
    | Some last_exc =>
        do! cb_failure (cb_threshold e) (sink_key_of o i) (cb_window (sk_cfg e)) in
        do! when_delivery o (record_loss key nframes 0 0) in
        do! when_delivery o (record_sink (disposition_key e) 0 nframes 0) in
        if decide (o_on_error o = OnAbort) then throw (Exn CTram ("Sink write error: " ++ exc_text last_exc))
        else if decide (o_on_error o = OnRetry)
        then throw (Exn CTram ("Sink write error: " ++ exc_text last_exc))
        else
          do! on_ctx (note_skip (exc_text last_exc)) in
          do! when_stats o (mkDelta 0 0 0 0 0 0 [exc_text last_exc]) in
          ret 0
    end.

Definition _write_sinks (o : opts) (key : option unit_key) (meta : dict) (payload : bytes)
  (frames : list bytes) (sinks : list sink_entry) : M W (list Z) :=
  if (o_parallel o && (1 <? zlen sinks))%bool then
    let! order := call (sink_schedule (length sinks)) in
    let! outcomes := mapM (fun i =>
      match sinks !! i with
      | Some e => let! r := outcome_of (pass_write_one_sink o key meta payload frames i e) in ret [(i, r)]
      | None => ret []
      end) order in
    lift (gather (omap (fun i => aget i (mjoin outcomes)) (seq 0 (length sinks))))
  else
    mapM (fun ie : nat * sink_entry => pass_write_one_sink o key meta payload frames ie.1 ie.2)
      (zip (seq 0 (length sinks)) sinks).

Definition pass_skip_msg : string :=
  "Records skipped — no sink wrote successfully (every sink failed/circuit-open)".

(** [message_class] stands for [serializer_in._get_message_class()]. *)
Definition validated_frames (raw : bytes) : M W (list bytes) :=
  do! call_res message_class in
  lift (_iter_validated_frames parse_message raw).

(** The handler of a TramError; other exceptions pass. *)
Definition pass_error (o : opts) (exc : exn) : M W bool :=
  if negb (is_tram exc) then throw exc
  else if decide (o_on_error o = OnAbort) then throw exc
  else
    let! lost := get (fun s => has_loss (s_delivery s)) in
    if (bool_decide (o_on_error o = OnRetry) && o_delivery o && lost)%bool then throw exc
    else
      let msg := ("Processing error: " ++ exn_str exc)%string in
      do! on_ctx (record_error msg) in
      do! when_stats o (mkDelta 0 0 1 0 0 0 [msg]) in
      ret false.

Definition process_chunk (o : opts) (raw : bytes) (meta : dict) (sinks : list sink_entry) : M W bool :=
  let key := _source_unit_key meta in
  do! on_ctx (inc_bytes_in (zlen raw)) in
  do! when_stats o (mkDelta 0 0 0 0 (zlen raw) 0 []) in
  catch
    (try_else (validated_frames raw)
       (fun exc =>
          do! when_delivery o (record_loss key 1 0 0) in
          do! when_stats o (mkDelta 0 0 0 0 0 0 [("Parse error: " ++ exn_str exc)%string]) in
          throw (Exn CTram ("Parse error: " ++ exn_str exc)))
       (fun frames =>
          match frames with
          | [] => ret true
          | _ =>
              let! payload := lift (_reframe frames) in
              do! on_ctx (inc_records_in (zlen frames)) in
              do! when_stats o (mkDelta (zlen frames) 0 0 0 0 0 []) in
              let! written_counts := _write_sinks o key meta payload frames sinks in
              let records_written := max_written written_counts in
              do! when_delivery o (record_chunk key (zlen frames) records_written) in
              do! (if 0 <? records_written then
                     do! on_ctx (inc_records_out records_written) in
                     when_stats o (mkDelta 0 records_written 0 0 0 0 [])
                   else
                     do! on_ctx (inc_records_skipped (zlen frames)) in
                     do! when_stats o (mkDelta 0 0 (zlen frames) 0 0 0 []) in
                     on_ctx (note_skip pass_skip_msg)) in
              ret true
          end))
    (pass_error o).

(** [_process_chunk] of the executor without a flush buffer. *)
Definition _process_chunk (passthrough : bool) (o : opts) (raw : bytes) (meta : dict)
  (transforms : list nat) (sinks : list sink_entry) : M W bool :=
  if passthrough then
    let! ctx := get s_ctx in
    process_chunk o raw (_augment_chunk_meta meta ctx) sinks
  else process_chunk_dict o raw meta transforms sinks.
End write.

(** ** Theorems *)

(** The reasons are complete: passthrough is refused for no reason exactly
    when both serializers are length-delimited Protobuf with the same schema
    content and message class and no registry, there is no transform, condition,
    serializer override or DLQ, every sink is a local file sink, and no file
    template reads record fields. *)
Theorem eligibility_exact {PT : PyText} content_hash registry_url c :
  protobuf_passthrough_reasons content_hash registry_url c = Ok [] <-> eligible content_hash registry_url c.
Proof. apply reasons_nil. Qed.

End Passthrough.
