(* ===== verification/ExecBatch.v ===== *)
(** * Batch runs

    PipelineExecutor's batch path (tram/pipeline/executor.py): the commit
    barrier over the sinks, the checkpoint gate, the end of a source unit
    ([_finalize_batch_source_unit]: barrier, sink finalize, checkpoint, ack,
    source finalize), the sequential chunk loop and [_batch_run_inner] with its
    retries and its transform state.  Runs with one worker thread; the threaded
    loop is modelled in BatchThreads.

    A chunk loop is given the items its source yields, and the exception the
    source ends with, if any.  Closing sinks, sources and generators, logging
    and heap trimming are left out. *)

From Stdlib Require Import ZArith Lia Ascii String SpecFloat.
From stdpp Require Import base tactics list strings gmap option.
From S2P Require Import Prelude PyStr Sha256 IsoTime PyVal Paths Transforms CounterDelta Accounting ExecKeys ExecMonad ExecSinks Framing Passthrough.
Import stdpp.list.

#[local] Open Scope Z_scope.
#[local] Open Scope list_scope.

Module ExecBatch.
Import PyVal Transforms Accounting ExecKeys ExecMonad ExecSinks Passthrough.

(** The configuration of a pipeline as the batch path reads it.  A stateful
    transform is given with its state key. *)
Record PipelineConfig := mkPipeline {
  pl_name : string;
  pl_on_error : on_error_mode;
  pl_retry_count : Z;
  pl_retry_delay_seconds : spec_float;
  pl_batch_size : option Z;
  pl_record_chunk_size : option Z;
  pl_rate_limit_rps : option spec_float;
  pl_parallel_sinks : bool;
  pl_sinks : list sink_entry;
  pl_transforms : list nat;
  pl_stateful : list (nat * string);
  pl_dlq : bool;
  pl_strict : bool;
  pl_protobuf_passthrough : bool;
  pl_passthrough_config : PassConfig }.

Definition _make_sink_cb_key (c : PipelineConfig) (index : nat) : string :=
  let sink_type := match pl_sinks c !! index with
                   | Some e => disposition_key e
                   | None => "unknown"
                   end in
  (pl_name c ++ ":" ++ sink_type ++ ":" ++ py_str (Z.of_nat index))%string.

Definition run_opts (c : PipelineConfig) (has_stats has_delivery : bool) : opts :=
  mkOpts (pl_on_error c) (pl_rate_limit_rps c) (pl_dlq c) (pl_parallel_sinks c)
    ((fun i => _make_sink_cb_key c i) <$> seq 0 (length (pl_sinks c)))
    has_stats has_delivery true false.

Section batch.
Context {W : Type} {EX : External W} {PT : PyText}.
Context (_schema_content_hash : string -> option string) (env_registry_url : string).

(** ** The commit barrier *)

(** [_commit_failure]: record the failure under [continue], raise otherwise. *)
Definition _commit_failure (on_error : on_error_mode) (msg : string) : M W unit :=
  if decide (on_error = OnContinue) then on_ctx (note_skip msg) else throw (Exn CTram msg).

Definition barrier_failed {A} (on_error : on_error_mode) (msg : string) : M W (option A) :=
  do! _commit_failure on_error msg in ret None.

Definition commit_event (i : nat) (r : res exn SinkCommitReceipt) : event :=
  EvCommit i (match r with Ok rc => rc_confirmed rc | Raise _ => false end).

Fixpoint commit_loop (on_error : on_error_mode) (sinks : list nat) (receipts : list SinkCommitReceipt)
  : M W (option (list SinkCommitReceipt)) :=
  match sinks with
  | [] => ret (Some receipts)
  | i :: sinks' =>
      try_else (call_log (commit_event i) (sink_commit i))
        (fun exc => barrier_failed on_error ("Sink commit failed: " ++ exn_str exc))
        (fun rc => commit_loop on_error sinks' (receipts ++ [rc]))
  end.

Definition latched_event (i : nat) (r : res exn (option string)) : event :=
  EvLatched i (match r with Ok None => true | _ => false end).

Fixpoint latched_loop (on_error : on_error_mode) (sinks : list nat) (receipts : list SinkCommitReceipt)
  : M W (option (list SinkCommitReceipt)) :=
  match sinks with
  | [] => ret (Some receipts)
  | i :: sinks' =>
      try_else (call_log (latched_event i) (sink_latched i))
        (fun exc => barrier_failed on_error ("Sink latched_error check failed: " ++ exn_str exc))
        (fun latched =>
           match latched with
           | Some err => barrier_failed on_error ("Sink has a latched delivery failure: " ++ err)
           | None => latched_loop on_error sinks' receipts
           end)
  end.

Definition unconfirmed (receipts : list SinkCommitReceipt) : option SinkCommitReceipt :=
  first_some (fun rc => if rc_confirmed rc then None else Some rc) receipts.

Definition _commit_sinks_receipts (c : PipelineConfig) : M W (option (list SinkCommitReceipt)) :=
  let sinks := seq 0 (length (pl_sinks c)) in
  let! receipts := commit_loop (pl_on_error c) sinks [] in
  match receipts with
  | None => ret None
  | Some receipts =>
      match unconfirmed receipts with
      | Some rc => barrier_failed (pl_on_error c)
                     ("Sink commit unconfirmed: " ++ rc_sink_key rc ++ ": " ++ rc_notes rc)
      | None => latched_loop (pl_on_error c) sinks receipts
      end
  end.

Definition is_some {A} (o : option A) : bool := match o with Some _ => true | None => false end.

Definition _commit_sinks (c : PipelineConfig) : M W bool :=
  let! receipts := _commit_sinks_receipts c in ret (is_some receipts).

(** ** Hooks of sinks and source *)

Definition _finalize_source_for_sinks (c : PipelineConfig) (meta : dict) (success : bool) : M W unit :=
  iterM (fun i =>
    try_else (call_log (fun _ => EvSinkFinalize i success) (sink_finalize_source i meta success))
      (fun exc => on_ctx (note_skip ("Sink finalize failed: " ++ exn_str exc)))
      (fun _ => ret tt)) (seq 0 (length (pl_sinks c))).

Definition _ack_source_unit (meta : dict) (d : AckDisposition) : M W unit :=
  try_else (call_log (fun _ => EvAck meta d) (source_ack meta d)) (fun _ => ret tt) (fun _ => ret tt).

Definition source_finalize_call (meta : dict) (success : bool) : M W unit :=
  call_log (fun _ => EvFinalize meta success) (source_finalize meta success).

(** ** Transform state *)

Definition _collect_state_blob (c : PipelineConfig) : M W dict :=
  foldM (fun blob tk =>
    try_else (call_res (get_state tk.1))
      (fun _ => ret (dset tk.2 (VDict []) blob))
      (fun v => ret (dset tk.2 (if CounterDelta.truthy v then v else VDict []) blob))) (pl_stateful c) [].

Definition _apply_state (c : PipelineConfig) (blob : dict) : M W unit :=
  iterM (fun tk : nat * string =>
    catch (call_res (set_state tk.1 (default (VDict []) (dget tk.2 blob)))) (fun _ => ret tt))
    (pl_stateful c).

Definition sha_mismatch (config_sha256 : string) (loaded : TransformState) : bool :=
  (negb (String.eqb config_sha256 "") && negb (String.eqb (ts_config_sha256 loaded) config_sha256))%bool.

Definition _restore_committed_state (c : PipelineConfig) (config_sha256 : string) : M W unit :=
  if have_store then
    try_else (call_res store_get) (fun _ => ret tt)
      (fun loaded =>
         match loaded with
         | None => ret tt
         | Some l => if sha_mismatch config_sha256 l then ret tt else _apply_state c (ts_state l)
         end)
  else ret tt.

Definition empty_state : TransformState := mkTState [] "" 0.

Definition _hydrate_state_from_store (c : PipelineConfig) (config_sha256 : string) : M W TransformState :=
  if (have_store && negb (bool_decide (pl_stateful c = [])))%bool then
    try_else (call_res store_get) (fun _ => ret empty_state)
      (fun loaded =>
         match loaded with
         | None => ret empty_state
         | Some l =>
             if sha_mismatch config_sha256 l then ret empty_state
             else do! _apply_state c (ts_state l) in ret l
         end)
  else ret empty_state.

Definition _save_state_to_store (c : PipelineConfig) : M W unit :=
  if (have_store && negb (bool_decide (pl_stateful c = [])))%bool then
    let! blob := _collect_state_blob c in
    catch (call_log (fun _ => EvStorePut) (store_put blob)) (fun _ => ret tt)
  else ret tt.

(** [flush_of]: whether to flush a transform, the constant of [flush] or the
    answer of [flush_resolver]. *)
Definition _close_stateful_transforms (c : PipelineConfig) (flush_of : nat -> bool) : M W (list dict) :=
  foldM (fun emitted tk =>
    try_else (call_res (close_transform tk.1 (flush_of tk.1))) (fun _ => ret emitted)
      (fun out => ret (emitted ++ default [] out))) (pl_stateful c) [].

Definition _route_stateful_flush_records (c : PipelineConfig) (flush_records : list dict) : M W unit :=
  match flush_records with
  | [] => ret tt
  | _ =>
      let o := run_opts c false false in
      let o := mkOpts (o_on_error o) None (o_dlq o) (o_parallel o) (o_cb_keys o) false false true false in
      catch (do! _process_records o flush_records [] [] (pl_sinks c) in ret tt) (fun _ => ret tt)
  end.

(** ** The checkpoint gate *)

(** A strict pipeline counts the unit as pending and keeps it; a legacy one
    lets the ack proceed. *)
Definition checkpoint_unconfirmed (c : PipelineConfig) : M W bool :=
  if pl_strict c then do! modify (set_delivery record_checkpoint_pending) in ret false else ret true.

Definition check_unit (c : PipelineConfig) (config_sha256 : string) (meta : dict)
  (receipts : list SinkCommitReceipt) : M W bool :=
  if checkpoint_client then
    match _source_durable_unit_id source_unit_id meta with
    | None => checkpoint_unconfirmed c
    | Some unit_id =>
        let '(frontier_json, frontier_seq) := _checkpoint_frontier meta in
        let! state_blob := _collect_state_blob c in
        let! base_revision := get (fun s => d_state_revision (s_delivery s)) in
        let req := mkCkpt unit_id frontier_json frontier_seq receipts state_blob base_revision in
        try_else (call_log (fun r => EvCheckpoint req (is_ok r)) (checkpoint req))
          (fun _ => checkpoint_unconfirmed c)
          (fun result =>
             do! modify (set_delivery (set_state_revision (default base_revision (kr_state_revision result)))) in
             do! whenM (kr_already_committed result) (_restore_committed_state c config_sha256) in
             ret true)
    end
  else checkpoint_unconfirmed c.

(** ** The end of a source unit *)

Definition take_unit_call (key : unit_key) : M W (option _UnitOutcome) :=
  let! u := get (fun s => (take_unit key (s_delivery s)).1) in
  do! modify (set_delivery (fun d => (take_unit key d).2)) in
  ret u.

(** What follows the commit barrier, with its receipts if it was confirmed. *)
Definition finalize_after_barrier (c : PipelineConfig) (config_sha256 : string) (key : unit_key)
  (meta : dict) (unit_ : option _UnitOutcome) (finalize_source : bool)
  (receipts : option (list SinkCommitReceipt)) : M W unit :=
  let commit_ok := is_some receipts in
  do! _finalize_source_for_sinks c meta commit_ok in
  let! taken := take_unit_call key in
  do! (match receipts, (match taken with Some u => Some u | None => unit_ end) with
       | Some rcs, Some u =>
           if finalize_source then
             match disposition (pl_on_error c) u with
             | Some DELIVERED =>
                 let! ok := check_unit c config_sha256 meta rcs in
                 if ok then _ack_source_unit meta DELIVERED else ret tt
             | Some d => _ack_source_unit meta d
             | None => ret tt
             end
           else ret tt
       | _, _ => ret tt
       end) in
  if finalize_source then source_finalize_call meta commit_ok else ret tt.

Definition _finalize_batch_source_unit (c : PipelineConfig) (config_sha256 : string) (key : unit_key)
  (meta : dict) (unit_ : option _UnitOutcome) (finalize_source : bool) : M W unit :=
  let! receipts := _commit_sinks_receipts c in
  finalize_after_barrier c config_sha256 key meta unit_ finalize_source receipts.

(** ** The sequential chunk loop *)

(** The loop variables of the current source unit. *)
Record loop_vars := mkVars {
  lv_key : option unit_key;
  lv_meta : option dict;
  lv_unit : option _UnitOutcome }.

Definition no_unit : loop_vars := mkVars None None None.

(** How an iteration ends: [next], [break] by a stop request or by
    [batch_size], or an exception. *)
Inductive loop_exit := Next | DrainStopped | StoppedEarly | Raised (e : exn).

(** Run [m]; an exception ends the iteration with the variables as they are. *)
Definition in_loop {A} (v : loop_vars) (m : M W A) (k : A -> M W (loop_vars * loop_exit))
  : M W (loop_vars * loop_exit) :=
  try_else m (fun e => ret (v, Raised e)) k.

(** The previous unit ends when a chunk of another one arrives. *)
Definition switch_unit (c : PipelineConfig) (config_sha256 : string) (v : loop_vars) (key : unit_key)
  (k : loop_vars -> M W (loop_vars * loop_exit)) : M W (loop_vars * loop_exit) :=
  match lv_key v, lv_meta v with
  | Some cur, Some cur_meta =>
      if decide (key = cur) then k v
      else in_loop v (_finalize_batch_source_unit c config_sha256 cur cur_meta (lv_unit v) true)
             (fun _ => k no_unit)
  | _, _ => k v
  end.

(** Registration of the unit a chunk belongs to. *)
Definition enter_unit (v : loop_vars) (key : unit_key) (meta : dict) : M W loop_vars :=
  match lv_key v with
  | Some _ => ret (mkVars (lv_key v) (Some meta) (lv_unit v))
  | None =>
      let! u := get (fun s => (register_unit key meta (s_delivery s)).1) in
      do! modify (set_delivery (fun d => (register_unit key meta d).2)) in
      ret (mkVars (Some key) (Some meta) (Some u))
  end.

(** [if meta.get("source_path") or meta.get("source_filename")]. *)
Definition mark_safe_finalize (meta : dict) : dict :=
  if (CounterDelta.truthy (dget_or_none "source_path" meta)
      || CounterDelta.truthy (dget_or_none "source_filename" meta))%bool
  then dset "enable_safe_finalize" (VBool true) meta else meta.

(** The processing of one chunk, incremental when [record_chunk_size] is set. *)
Definition chunk_program (c : PipelineConfig) (passthrough has_stats : bool) (raw : bytes) (meta : dict)
  : M W bool :=
  let o := run_opts c has_stats true in
  match pl_record_chunk_size c with
  | Some n => if n =? 0 then _process_chunk passthrough o raw meta (pl_transforms c) (pl_sinks c)
              else _process_chunk_incrementally o raw meta (pl_transforms c) (pl_sinks c) n (pl_batch_size c)
  | None => _process_chunk passthrough o raw meta (pl_transforms c) (pl_sinks c)
  end.

Definition loop_body (c : PipelineConfig) (config_sha256 : string) (passthrough has_stats : bool)
  (v : loop_vars) (raw : bytes) (meta : dict) : M W (loop_vars * loop_exit) :=
  let! stop := call stop_requested in
  if stop then ret (v, DrainStopped)
  else
    let! ctx := get s_ctx in
    let '(source_key, meta) := _batch_source_unit_key (_augment_chunk_meta meta ctx) in
    let process (v : loop_vars) (meta : dict) : M W (loop_vars * loop_exit) :=
      in_loop v (chunk_program c passthrough has_stats raw meta)
        (fun _ =>
           let finish (v : loop_vars) : M W (loop_vars * loop_exit) :=
             let! n_in := get (fun s => cx_records_in (s_ctx s)) in
             match pl_batch_size c with
             | Some b => if (negb (b =? 0) && (b <=? n_in))%bool then ret (v, StoppedEarly) else ret (v, Next)
             | None => ret (v, Next)
             end in
           match source_key with
           | Some key =>
               if is_some (_broker_meta_unit_key meta) then
                 in_loop v (_finalize_batch_source_unit c config_sha256 key meta (lv_unit v) true)
                   (fun _ => finish no_unit)
               else finish v
           | None => finish v
           end) in
    match source_key with
    | Some key =>
        let meta := mark_safe_finalize meta in
        switch_unit c config_sha256 v key (fun v =>
          let! v := enter_unit v key meta in process v meta)
    | None => process v meta
    end.

Fixpoint chunk_loop (c : PipelineConfig) (config_sha256 : string) (passthrough has_stats : bool)
  (items : list (bytes * dict)) (ending : option exn) (v : loop_vars) : M W (loop_vars * loop_exit) :=
  match items with
  | [] => match ending with Some e => ret (v, Raised e) | None => ret (v, Next) end
  | (raw, meta) :: items' =>
      let! ve := loop_body c config_sha256 passthrough has_stats v raw meta in
      match ve.2 with
      | Next => chunk_loop c config_sha256 passthrough has_stats items' ending ve.1
      | _ => ret ve
      end
  end.

(** The [else] and [except] clauses of the loop. *)
Definition after_loop (c : PipelineConfig) (config_sha256 : string) (v : loop_vars) (exit : loop_exit)
  : M W unit :=
  match exit with
  | Raised e =>
      do! (match lv_meta v with
           | Some meta =>
               do! _finalize_source_for_sinks c meta false in source_finalize_call meta false
           | None => ret tt
           end) in
      throw e
  | _ =>
      match lv_key v, lv_meta v with
      | Some key, Some meta =>
          _finalize_batch_source_unit c config_sha256 key meta (lv_unit v)
            (match exit with StoppedEarly => false | _ => true end)
      | _, _ => ret tt
      end
  end.

Definition _run_batch_chunks_sequential (c : PipelineConfig) (config_sha256 : string)
  (passthrough has_stats : bool) (attempt : nat) : M W unit :=
  let! items := (fun s => let '(i, e, w) := read attempt (s_world s) in
                          (Ok (i, e), log (EvRead attempt) (set_world w s))) in
  let! ve := chunk_loop c config_sha256 passthrough has_stats items.1 items.2 no_unit in
  after_loop c config_sha256 ve.1 ve.2.

Definition _run_batch_chunks (c : PipelineConfig) (config_sha256 : string) (has_stats : bool)
  (attempt : nat) : M W unit :=
  let! passthrough :=
    if pl_protobuf_passthrough c then
      let! reasons := lift (protobuf_passthrough_runtime_reasons _schema_content_hash env_registry_url
                              (pl_passthrough_config c) (pl_record_chunk_size c)) in
      ret (bool_decide (reasons = []))
    else ret false in
  _run_batch_chunks_sequential c config_sha256 passthrough has_stats attempt.

(** ** One run *)

(** The body of an attempt, up to the result of a run that did not raise. *)
Definition batch_attempt (c : PipelineConfig) (config_sha256 : string) (flush has_stats : bool)
  (attempt : nat) : M W RunResult :=
  do! _run_batch_chunks c config_sha256 has_stats attempt in
  let! drained := call stop_requested in
  do! whenM flush
    (let! flush_records := _close_stateful_transforms c (fun _ => true) in
     _route_stateful_flush_records c flush_records) in
  let! commit_ok := _commit_sinks c in
  do! whenM (commit_ok && negb drained)
    (let! message := call_res completion_error in
     match message with
     | None | Some ""%string => ret tt
     | Some m => throw (Exn CTram m)
     end) in
  let! status_error :=
    if drained then
      let! reason := call stop_reason in ret (ABORTED, Some reason)
    else
      let! d := get s_delivery in
      ret (_batch_outcome (pl_on_error c) d (negb commit_ok), None) in
  let! s := get (fun s => s) in
  do! _save_state_to_store c in
  ret (with_delivery (s_delivery s) (from_context (s_ctx s) status_error.1 status_error.2)).

(** The accounting of a new attempt. *)
Definition start_attempt (snapshot : TransformState) : M W unit :=
  modify (set_delivery (fun _ => set_state_revision (ts_revision snapshot) new_accounting)).

(** The loop over the attempts, with [n] of them left. *)
Fixpoint attempt_loop (c : PipelineConfig) (config_sha256 : string) (flush has_stats : bool)
  (snapshot : TransformState) (n attempt : nat) : M W RunResult :=
  match n with
  | O =>
      let! ctx := get s_ctx in ret (from_context ctx FAILED (Some "Max retries exceeded"%string))
  | S n' =>
      do! start_attempt snapshot in
      try_else (batch_attempt c config_sha256 flush has_stats attempt)
        (fun exc =>
           if negb (is_tram exc) then throw exc
           else if (bool_decide (pl_on_error c = OnRetry) && negb (Nat.eqb n' 0))%bool then
             do! call (fun w => (tt, sleep (pl_retry_delay_seconds c) w)) in
             let! now := call utcnow in
             do! on_ctx (fun ctx => new_ctx (pl_name c) (cx_run_id ctx) now) in
             do! whenM has_stats (modify (set_stats stats_reset)) in
             do! call_res build_components in
             do! _apply_state c (ts_state snapshot) in
             attempt_loop c config_sha256 flush has_stats snapshot n' (S attempt)
           else
             let! s := get (fun s => s) in
             ret (with_delivery (s_delivery s) (from_context (s_ctx s) FAILED (Some (exn_str exc)))))
        ret
  end.

Definition run_attempts (c : PipelineConfig) : nat :=
  match pl_on_error c with
  | OnRetry => Z.to_nat (Z.max 1 (pl_retry_count c + 1))
  | _ => 1%nat
  end.

(** [_batch_run_inner]; [None] for [run_id] draws a new one. *)
Definition _batch_run_inner (c : PipelineConfig) (run_id : option string) (config_sha256 : string)
  (flush has_stats : bool) : M W RunResult :=
  let! rid := match run_id with
              | Some r => if String.eqb r "" then call new_uuid else ret r
              | None => call new_uuid
              end in
  let! now := call utcnow in
  do! on_ctx (fun _ => new_ctx (pl_name c) rid now) in
  do! call_res build_components in
  let! snapshot := _hydrate_state_from_store c config_sha256 in
  fun s =>
    let '(r, t) := attempt_loop c config_sha256 flush has_stats snapshot (run_attempts c) 0 s in
    let '(_, t') := _close_stateful_transforms c (fun _ => false) t in
    (r, t').
End batch.
End ExecBatch.
