(* ===== verification/ExecDemo.v ===== *)
(** * A concrete world for the executor

    An instance of [External] whose sinks follow a script, used to run the
    executor on concrete inputs: a record is a byte, parsing and serializing
    are the identity on bytes, the clock advances by one second per reading,
    and sink writes succeed or fail as the script says (and succeed when it is
    used up). *)

From Stdlib Require Import ZArith Lia Ascii String SpecFloat Strings.Byte.
From stdpp Require Import base tactics list strings gmap option.
From S2P Require Import Prelude PyStr Sha256 IsoTime PyVal Paths Transforms CounterDelta Accounting ExecKeys ExecMonad ExecSinks Framing Passthrough ExecBatch.
Import stdpp.list.

#[local] Open Scope Z_scope.
#[local] Open Scope list_scope.

Module ExecDemo.
Import PyVal Transforms Accounting ExecKeys ExecMonad ExecSinks Framing Passthrough ExecBatch.

Record world := mkWorld { w_writes : list bool; w_clock : Z }.

Definition record_of (b : Byte.byte) : dict := [("n"%string, VInt (byte_val b))].
Definition byte_of (r : dict) : Byte.byte :=
  match dget_or_none "n" r with VInt z => val_byte z | _ => Byte.x00 end.

(** The varying parts: what the source yields, how a chunk splits, whether
    serializing works. *)
Record script := mkScript {
  sc_items : list (bytes * dict);
  sc_chunks : bytes -> list (list dict) * option exn;
  sc_serialize : list dict -> res exn bytes }.

Definition demo (sc : script) : External world := {|
  monotonic w := (float_of_int (w_clock w), mkWorld (w_writes w) (w_clock w + 1));
  sleep _ w := w;
  jitter w := (S754_zero false, w);
  have_simpleeval := true;
  parse_condition _ := Ok tt;
  eval_condition _ _ w := (Ok true, w);
  transform_apply _ _ rs w := (Ok rs, w);
  ser_config _ := [];
  serialize _ rs w := (sc_serialize sc rs, w);
  parse raw w := (Ok (record_of <$> raw), w);
  parse_chunks raw _ := sc_chunks sc raw;
  message_class w := (Ok tt, w);
  parse_message _ := Ok tt;
  sink_write _ _ _ w :=
    match w_writes w with
    | false :: ws => (Raise (Exn CTram "disk full"), mkWorld ws (w_clock w))
    | true :: ws => (Ok tt, mkWorld ws (w_clock w))
    | [] => (Ok tt, w)
    end;
  sink_schedule n w := (seq 0 n, w);
  sink_commit i w := (Ok (mkReceipt "local" FSYNCED_LOCAL true ""), w);
  sink_latched _ w := (Ok None, w);
  sink_finalize_source _ _ _ w := (Ok tt, w);
  dlq_write _ w := (Ok tt, w);
  spool_write _ _ w := (Ok "spool"%string, w);
  read _ w := (sc_items sc, None, w);
  source_unit_id _ := Ok VNone;
  source_ack _ _ w := (Ok tt, w);
  source_finalize _ _ w := (Ok tt, w);
  completion_error w := (Ok None, w);
  stop_requested w := (false, w);
  stop_reason w := ("stop"%string, w);
  checkpoint_client := false;
  checkpoint _ w := (Raise (Exn COther "offline"), w);
  have_store := false;
  store_get w := (Ok None, w);
  store_put _ w := (Ok tt, w);
  get_state _ w := (Ok VNone, w);
  set_state _ _ w := (Ok tt, w);
  close_transform _ _ w := (Ok None, w);
  build_components w := (Ok tt, w);
  utcnow w := (1700000000000000, w);
  new_uuid w := ("run-1"%string, w) |}.

Definition demo_text : PyText := {| repr_text := fun _ => "?"%string |}.

Definition start (writes : list bool) : st world :=
  mkSt (new_ctx "" "" 0) stats_zero new_accounting [] (S754_zero false) (S754_zero false)
    empty_buffer (mkWorld writes 1000) [].

(** A file whose content comes in the given chunks. *)
Definition file_items (chunks : list bytes) : list (bytes * dict) :=
  (fun c => (c, [("source_path"%string, VStr "/in/a.cdr")])) <$> chunks.

Definition plain (chunks : list bytes) : script :=
  mkScript (file_items chunks) (fun raw => ([record_of <$> raw], None)) (fun rs => Ok (byte_of <$> rs)).

(** A local sink with the given breaker threshold and retries. *)
Definition local_sink (threshold retries : Z) : sink_entry :=
  mkSinkEntry "LocalSink" None []
    (Some (mkSinkConfig "local" threshold (float_of_int 60) retries (float_of_int 1))) false [].

Definition no_pass : PassConfig := mkPass (mkSer "json" "" "" "" "") None [] [] None.

Definition pipeline (on_error : on_error_mode) (sinks : list sink_entry) (dlq : bool)
  (chunk_size : option Z) (parallel : bool) : PipelineConfig :=
  mkPipeline "cdr" on_error 1 (float_of_int 1) None chunk_size None parallel sinks [] [] dlq false false no_pass.

Notation run sc c writes :=
  (@_batch_run_inner world (demo sc) demo_text (fun _ => None) ""%string c (Some "r1"%string) ""%string
     false true (start writes)).

(** The dispositions acknowledged and the data written, in order. *)
Definition acked (t : st world) : list AckDisposition :=
  omap (fun e => match e with EvAck _ d => Some d | _ => None end) (s_trace t).
Definition written (t : st world) : list bytes :=
  omap (fun e => match e with EvWrite _ d true => Some d | _ => None end) (s_trace t).
Definition dead_letters (t : st world) : list (option (list dict)) :=
  omap (fun e => match e with EvDlq env true => Some (en_record env) | _ => None end) (s_trace t).

(** A file delivered at the second try. *)
Notation retried_run :=
  (run (plain [[Byte.x01; Byte.x02]]) (pipeline OnContinue [local_sink 0 1] false None false) [false]).

Lemma retried_run_ok :
  exists r t, retried_run = (Ok r, t) /\ rr_status r = SUCCESS /\ rr_records_out r = 2 /\
    acked t = [DELIVERED] /\ written t = [[Byte.x01; Byte.x02]].
Proof. eexists _, _. vm_compute. auto. Qed.

End ExecDemo.
