(* ===== verification/ExecRel.v ===== *)
(** * Relations kept by the sink path

    The programs of ExecSinks and Passthrough change the state only by a few
    kinds of steps: counters of the context, records of the accounting, the
    breakers, the bucket, the world, and calls logged in the trace.  A relation
    that is a preorder and relates every such step ([SinkRel]) relates the state
    before and after a whole chunk; the executor's invariants are instances.
    The programs of ExecBatch add their own steps ([BatchRel]). *)

From Stdlib Require Import ZArith Lia Ascii String SpecFloat.
From stdpp Require Import base tactics list strings gmap option.
From S2P Require Import Prelude PyStr Sha256 IsoTime PyVal Paths Transforms CounterDelta Accounting ExecKeys ExecMonad ExecSinks Framing Passthrough ExecBatch.
Import stdpp.list.

#[local] Open Scope Z_scope.
#[local] Open Scope list_scope.

Module ExecRel.
Import PyVal Transforms Accounting ExecKeys ExecMonad ExecSinks Passthrough ExecBatch.

Create HintDb keeps.

Lemma zlen_nonneg {A} (l : list A) : 0 <= zlen l.
Proof. unfold zlen. lia. Qed.

Lemma b2z_nonneg b : 0 <= Z.b2z b.
Proof. destruct b; simpl; lia. Qed.

#[export] Hint Resolve zlen_nonneg b2z_nonneg : keeps.
#[export] Hint Extern 1 (0 <= 0) => lia : keeps.
#[export] Hint Extern 1 (0 <= 1) => lia : keeps.

(** The steps of the sink path on the accounting. *)
Inductive acct_op : (_RunDeliveryAccounting -> _RunDeliveryAccounting) -> Prop :=
| op_loss key a b c : 0 <= a -> 0 <= b -> 0 <= c -> acct_op (record_loss key a b c)
| op_sink key a b c : acct_op (record_sink key a b c)
| op_spool b : acct_op (record_spool b)
| op_chunk key a b : acct_op (record_chunk key a b).

(** The calls of the sink path. *)
Definition sink_event (e : event) : Prop :=
  match e with
  | EvWrite _ _ _ | EvBreakerSkip _ | EvDlq _ _ | EvSpool _ => True
  | _ => False
  end.

#[export] Hint Constructors acct_op : keeps.

Section rel.
Context {W : Type} {EX : External W} {PT : PyText}.

Class SinkRel (R : st W -> st W -> Prop) : Prop := {
  sr_pre : PreOrder R;
  sr_ctx : forall f s, R s (set_ctx f s);
  sr_stats : forall f s, R s (set_stats f s);
  sr_cb : forall f s, R s (set_cb f s);
  sr_bucket : forall a b s, R s (set_bucket a b s);
  sr_world : forall w s, R s (set_world w s);
  sr_acct : forall f s, acct_op f -> R s (set_delivery f s);
  sr_log : forall e s, sink_event e -> R s (log e s) }.

Section sink_path.
Context (R : st W -> st W -> Prop) {SR : SinkRel R}.
#[local] Instance sink_rel_pre : PreOrder R := sr_pre.

Lemma keeps_sr_call {A} (f : W -> A * W) : keeps R (call f).
Proof. apply keeps_call. intros. apply sr_world. Qed.
Lemma keeps_sr_call_res {A} (f : W -> res exn A * W) : keeps R (call_res f).
Proof. apply keeps_call_res. intros. apply sr_world. Qed.
Lemma keeps_sr_log {A} (ev : res exn A -> event) f : (forall r, sink_event (ev r)) -> keeps R (call_log ev f).
Proof. intros He. apply keeps_call_log. intros s w x. etrans; [apply sr_world|]. by apply sr_log. Qed.
Lemma keeps_on_ctx f : keeps R (on_ctx f).
Proof. apply keeps_modify. intros. apply sr_ctx. Qed.
Lemma keeps_when_stats o d : keeps R (when_stats o d).
Proof. apply (keeps_whenM R). apply keeps_modify. intros. apply sr_stats. Qed.
Lemma keeps_when_delivery o f : acct_op f -> keeps R (when_delivery o f).
Proof. intros Hf. apply (keeps_whenM R). apply keeps_modify. intros. by apply sr_acct. Qed.
Lemma keeps_cb f : keeps R (modify (set_cb f)).
Proof. apply keeps_modify. intros. apply sr_cb. Qed.
Lemma keeps_bucket a b : keeps R (modify (set_bucket a b)).
Proof. apply keeps_modify. intros. apply sr_bucket. Qed.
Lemma keeps_log e : sink_event e -> keeps R (modify (log e)).
Proof. intros He. apply keeps_modify. intros. by apply sr_log. Qed.

(** Follows the structure of a program down to the steps above. *)
Ltac keeps_step :=
  match goal with
  | |- keeps _ (call _) => apply keeps_sr_call
  | |- keeps _ (call_res _) => apply keeps_sr_call_res
  | |- keeps _ (call_log _ _) => apply keeps_sr_log; intros ?; exact I
  | |- keeps _ (modify (log _)) => apply keeps_log; exact I
  | |- keeps _ (on_ctx _) => apply keeps_on_ctx
  | |- keeps _ (when_stats _ _) => apply keeps_when_stats
  | |- keeps _ (when_delivery _ (if ?b then _ else _)) => destruct b
  | |- keeps _ (when_delivery _ _) => apply keeps_when_delivery; auto with keeps
  | |- keeps _ (modify (set_cb _)) => apply keeps_cb
  | |- keeps _ (modify (set_bucket _ _)) => apply keeps_bucket
  | |- keeps _ _ => solve [auto with keeps]
  end.
Ltac keeps_auto := repeat (keeps_step || keeps_struct).

Lemma keeps_attempt {A} (m : M W A) : keeps R m -> keeps R (outcome_of m).
Proof.
  intros Hm s r t. unfold outcome_of. destruct (m s) as [x u] eqn:E. intros [= <- <-]. exact (Hm _ _ _ E).
Qed.

Lemma keeps_rate_limit rps : keeps R (_rate_limit rps).
Proof. unfold _rate_limit. keeps_auto. Qed.
Hint Resolve keeps_rate_limit : keeps.

Lemma keeps_write_dlq o stage err rec raw : keeps R (_write_dlq_envelope o stage err rec raw).
Proof. unfold _write_dlq_envelope, _spool_dlq_envelope. keeps_auto. Qed.
Hint Resolve keeps_write_dlq : keeps.

Lemma keeps_transform_failed o key what rec exc : keeps R (transform_failed o key what rec exc).
Proof. unfold transform_failed. keeps_auto. Qed.
Hint Resolve keeps_transform_failed : keeps.

Lemma keeps_global_transforms o records ts meta : keeps R (_apply_global_transforms o records ts meta).
Proof. unfold _apply_global_transforms, transform_chain. keeps_auto. Qed.
Hint Resolve keeps_global_transforms : keeps.

Lemma keeps_filter records c : keeps R (_filter_by_condition records c).
Proof. unfold _filter_by_condition. keeps_auto. Qed.
Hint Resolve keeps_filter : keeps.

Lemma keeps_cb_open t k : keeps R (cb_open t k).
Proof. unfold cb_open. keeps_auto. Qed.
Lemma keeps_cb_success t k : keeps R (cb_success t k).
Proof. unfold cb_success. keeps_auto. Qed.
Lemma keeps_cb_failure t k w : keeps R (cb_failure t k w).
Proof. unfold cb_failure. keeps_auto. Qed.
Hint Resolve keeps_cb_open keeps_cb_success keeps_cb_failure : keeps.

Lemma keeps_write_attempts o i e data sm n a x : keeps R (write_attempts o i e data sm n a x).
Proof. revert a x; induction n as [|n IH]; intros a x; simpl; keeps_auto. Qed.
Hint Resolve keeps_write_attempts : keeps.

Lemma keeps_partition_failed o key e x recs : keeps R (partition_failed o key e x recs).
Proof. unfold partition_failed. keeps_auto. Qed.
Hint Resolve keeps_partition_failed : keeps.

Lemma keeps_write_partitions o key meta i e parts w : keeps R (write_partitions o key meta i e parts w).
Proof. revert w; induction parts as [|[fv recs] parts IH]; intros w; simpl; keeps_auto. Qed.
Hint Resolve keeps_write_partitions : keeps.

Lemma keeps_sink_transforms o key meta ts recs : keeps R (sink_transform_loop o key meta ts recs).
Proof. revert recs; induction ts as [|t ts IH]; intros recs; simpl; keeps_auto. Qed.
Hint Resolve keeps_sink_transforms : keeps.

Lemma keeps_write_one_sink o key meta recs i e : keeps R (_write_one_sink o key meta recs i e).
Proof. unfold _write_one_sink. keeps_auto. Qed.
Hint Resolve keeps_write_one_sink keeps_attempt : keeps.

Lemma keeps_write_all o key meta recs sinks : keeps R (write_all_sinks o key meta recs sinks).
Proof. unfold write_all_sinks. keeps_auto. Qed.
Hint Resolve keeps_write_all : keeps.

Lemma keeps_on_tram_error o exc b : keeps R (on_tram_error o exc (ret b)).
Proof. unfold on_tram_error. keeps_auto. Qed.
Hint Resolve keeps_on_tram_error : keeps.

Lemma keeps_process_records o recs meta ts sinks : keeps R (_process_records o recs meta ts sinks).
Proof. unfold _process_records. keeps_auto. Qed.
Hint Resolve keeps_process_records : keeps.

Lemma keeps_parse_failed {A} o key raw exc : keeps R (@parse_failed W EX A o key raw exc).
Proof. unfold parse_failed. keeps_auto. Qed.
Hint Resolve keeps_parse_failed : keeps.

Lemma keeps_chunk_dict o raw meta ts sinks : keeps R (process_chunk_dict o raw meta ts sinks).
Proof. unfold process_chunk_dict, count_bytes_in. keeps_auto. Qed.
Hint Resolve keeps_chunk_dict : keeps.

Lemma keeps_incremental_loop o meta ts sinks bs batches ending :
  keeps R (incremental_loop o meta ts sinks bs batches ending).
Proof. induction batches as [|b batches IH]; simpl; unfold incremental_step; keeps_auto. Qed.
Hint Resolve keeps_incremental_loop : keeps.

Lemma keeps_chunk_incremental o raw meta ts sinks n bs :
  keeps R (_process_chunk_incrementally o raw meta ts sinks n bs).
Proof. unfold _process_chunk_incrementally, count_bytes_in. keeps_auto. Qed.

Lemma keeps_pass_attempts o i e p nf sm n a x : keeps R (pass_attempts o i e p nf sm n a x).
Proof. revert a x; induction n as [|n IH]; intros a x; simpl; keeps_auto. Qed.
Hint Resolve keeps_pass_attempts : keeps.

Lemma keeps_pass_sink o key meta p fs i e : keeps R (pass_write_one_sink o key meta p fs i e).
Proof. unfold pass_write_one_sink. keeps_auto. Qed.
Hint Resolve keeps_pass_sink : keeps.

Lemma keeps_pass_chunk o raw meta sinks : keeps R (process_chunk o raw meta sinks).
Proof. unfold process_chunk, validated_frames, _write_sinks, pass_error. keeps_auto. Qed.
Hint Resolve keeps_pass_chunk : keeps.

Lemma keeps_chunk p o raw meta ts sinks : keeps R (_process_chunk p o raw meta ts sinks).
Proof. unfold _process_chunk. keeps_auto. Qed.
End sink_path.
End rel.


(** The steps of the batch path on the accounting, and its calls. *)
Inductive batch_op : (_RunDeliveryAccounting -> _RunDeliveryAccounting) -> Prop :=
| op_pending : batch_op record_checkpoint_pending
| op_revision r : batch_op (set_state_revision r)
| op_take k : batch_op (fun d => (take_unit k d).2)
| op_register k m : batch_op (fun d => (register_unit k m d).2).

#[export] Hint Constructors batch_op : keeps.

(** Everything but an acknowledgement and the steps of a stream's buffer. *)
Definition plain_event (e : event) : bool :=
  match e with EvAck _ _ | EvBuffer _ | EvDrain _ | EvGap _ _ => false | _ => true end.

Definition is_ack (e : event) : bool := match e with EvAck _ _ => true | _ => false end.

Section batch_rel.
Context {W : Type} {EX : External W} {PT : PyText}.

Class BatchRel (R : st W -> st W -> Prop) : Prop := {
  br_sink :: SinkRel R;
  br_acct : forall f s, batch_op f -> R s (set_delivery f s);
  br_log : forall e s, plain_event e = true -> R s (log e s) }.

Section batch_path.
Context (R : st W -> st W -> Prop) {BR : BatchRel R}.
#[local] Instance batch_rel_pre : PreOrder R := sr_pre.

Lemma keeps_br_log {A} (ev : res exn A -> event) f : (forall r, plain_event (ev r) = true) -> keeps R (call_log ev f).
Proof. intros He. apply keeps_call_log. intros s w x. etrans; [apply sr_world|]. by apply br_log. Qed.
Lemma keeps_br_acct f : batch_op f -> keeps R (modify (set_delivery f)).
Proof. intros Hf. apply keeps_modify. intros. by apply br_acct. Qed.

Ltac batch_step :=
  match goal with
  | |- keeps _ (in_loop _ _ _) => unfold in_loop
  | |- keeps _ (call _) => apply keeps_sr_call; apply br_sink
  | |- keeps _ (call_res _) => apply keeps_sr_call_res; apply br_sink
  | |- keeps _ (call_log _ _) => apply keeps_br_log; intros ?; reflexivity
  | |- keeps _ (on_ctx _) => apply keeps_on_ctx; apply br_sink
  | |- keeps _ (modify (set_stats _)) => apply keeps_modify; intros; apply sr_stats
  | |- keeps _ (modify (set_delivery _)) => apply keeps_br_acct; auto with keeps
  | |- keeps _ (_process_records _ _ _ _ _) => apply keeps_process_records; apply br_sink
  | |- keeps _ (_process_chunk _ _ _ _ _ _) => apply keeps_chunk; apply br_sink
  | |- keeps _ (_process_chunk_incrementally _ _ _ _ _ _ _) => apply keeps_chunk_incremental; apply br_sink
  | |- keeps _ _ => solve [auto with keeps]
  end.
Ltac batch_auto := repeat (batch_step || keeps_struct).

Lemma keeps_barrier_failed {A} on_error msg : keeps R (@barrier_failed W A on_error msg).
Proof. unfold barrier_failed, _commit_failure. batch_auto. Qed.
Hint Resolve keeps_barrier_failed : keeps.

Lemma keeps_commit_loop on_error sinks rcs : keeps R (commit_loop on_error sinks rcs).
Proof. revert rcs; induction sinks as [|i sinks IH]; intros rcs; simpl; batch_auto. Qed.
Lemma keeps_latched_loop on_error sinks rcs : keeps R (latched_loop on_error sinks rcs).
Proof. induction sinks as [|i sinks IH]; simpl; batch_auto. Qed.
Hint Resolve keeps_commit_loop keeps_latched_loop : keeps.

Lemma keeps_commit_receipts c : keeps R (_commit_sinks_receipts c).
Proof. unfold _commit_sinks_receipts. batch_auto. Qed.
Hint Resolve keeps_commit_receipts : keeps.

Lemma keeps_commit_sinks c : keeps R (_commit_sinks c).
Proof. unfold _commit_sinks. batch_auto. Qed.
Hint Resolve keeps_commit_sinks : keeps.

Lemma keeps_sink_finalize c meta ok : keeps R (_finalize_source_for_sinks c meta ok).
Proof. unfold _finalize_source_for_sinks. batch_auto. Qed.
Lemma keeps_source_finalize meta ok : keeps R (source_finalize_call meta ok).
Proof. unfold source_finalize_call. batch_auto. Qed.
Lemma keeps_collect c : keeps R (_collect_state_blob c).
Proof. unfold _collect_state_blob. batch_auto. Qed.
Lemma keeps_apply_state c blob : keeps R (_apply_state c blob).
Proof. unfold _apply_state. batch_auto. Qed.
Hint Resolve keeps_sink_finalize keeps_source_finalize keeps_collect keeps_apply_state : keeps.

Lemma keeps_restore c sha : keeps R (_restore_committed_state c sha).
Proof. unfold _restore_committed_state. batch_auto. Qed.
Lemma keeps_hydrate c sha : keeps R (_hydrate_state_from_store c sha).
Proof. unfold _hydrate_state_from_store. batch_auto. Qed.
Lemma keeps_save c : keeps R (_save_state_to_store c).
Proof. unfold _save_state_to_store. batch_auto. Qed.
Lemma keeps_close c flush : keeps R (_close_stateful_transforms c flush).
Proof. unfold _close_stateful_transforms. batch_auto. Qed.
Lemma keeps_route c recs : keeps R (_route_stateful_flush_records c recs).
Proof. unfold _route_stateful_flush_records. batch_auto. Qed.
Hint Resolve keeps_restore keeps_hydrate keeps_save keeps_close keeps_route : keeps.

Lemma keeps_check_unit c sha meta rcs : keeps R (check_unit c sha meta rcs).
Proof. unfold check_unit, checkpoint_unconfirmed. batch_auto. Qed.
Lemma keeps_take_unit key : keeps R (take_unit_call key).
Proof. unfold take_unit_call. batch_auto. Qed.
Lemma keeps_enter_unit v key meta : keeps R (enter_unit v key meta).
Proof. unfold enter_unit. batch_auto. Qed.
Hint Resolve keeps_check_unit keeps_take_unit keeps_enter_unit : keeps.

(** Without a confirmed barrier nothing is acknowledged. *)
Lemma keeps_unconfirmed_finalize c sha key meta u b :
  keeps R (finalize_after_barrier c sha key meta u b None).
Proof. unfold finalize_after_barrier. batch_auto. Qed.

(** From the end of a unit to a whole run. *)
Section run.
Context (content_hash : string -> option string) (registry_url : string).
Context (c : PipelineConfig) (sha : string).
Hypothesis finalize_keeps : forall key meta u b, keeps R (_finalize_batch_source_unit c sha key meta u b).
Hint Resolve finalize_keeps : keeps.

Lemma keeps_loop_body p hs v raw meta : keeps R (loop_body c sha p hs v raw meta).
Proof. unfold loop_body, switch_unit, chunk_program. batch_auto. Qed.
Hint Resolve keeps_loop_body : keeps.

Lemma keeps_chunk_loop p hs items ending v : keeps R (chunk_loop c sha p hs items ending v).
Proof. revert v; induction items as [|[raw meta] items IH]; intros v; simpl; batch_auto. Qed.
Hint Resolve keeps_chunk_loop : keeps.

Lemma keeps_after_loop v x : keeps R (after_loop c sha v x).
Proof. unfold after_loop. batch_auto. Qed.
Hint Resolve keeps_after_loop : keeps.

Lemma keeps_sequential p hs a : keeps R (_run_batch_chunks_sequential c sha p hs a).
Proof.
  unfold _run_batch_chunks_sequential. apply (keeps_bind R); [|intros ?; batch_auto].
  intros s r t. destruct (read a (s_world s)) as [[i e] w]. intros [= <- <-].
  etrans; [apply sr_world|]. by apply br_log.
Qed.
Hint Resolve keeps_sequential : keeps.

Lemma keeps_batch_attempt flush hs a : keeps R (batch_attempt content_hash registry_url c sha flush hs a).
Proof. unfold batch_attempt, _run_batch_chunks. batch_auto. Qed.
Hint Resolve keeps_batch_attempt : keeps.

(** A new attempt starts with a new accounting. *)
Hypothesis start_keeps : forall snap, keeps R (start_attempt snap).
Hint Resolve start_keeps : keeps.

Lemma keeps_attempt_loop flush hs snap n a :
  keeps R (attempt_loop content_hash registry_url c sha flush hs snap n a).
Proof.
  revert a; induction n as [|n IH]; intros a; simpl; [batch_auto|]. batch_auto.
Qed.
Hint Resolve keeps_attempt_loop : keeps.

Lemma keeps_batch_run rid flush hs :
  keeps R (_batch_run_inner content_hash registry_url c rid sha flush hs).
Proof.
  unfold _batch_run_inner. batch_auto; intros s r t;
    destruct (attempt_loop _ _ _ _ _ _ _ _ _ s) as [x u] eqn:E1;
    destruct (_close_stateful_transforms c (fun _ => false) u) as [y v] eqn:E2; intros [= <- <-];
    (etrans; [eapply keeps_attempt_loop; exact E1|eapply keeps_close; exact E2]).
Qed.
End run.
End batch_path.
End batch_rel.

End ExecRel.
