(* ===== verification/ExecSafety.v ===== *)
(** * What a batch run guarantees

    Theorems about whole runs of [_batch_run_inner] for every behaviour of
    sinks, source, transforms, clock and manager: nothing is acknowledged
    before its sinks confirmed, what counts as success, and how often things
    are tried.  They are stated on the trace of calls. *)

From Stdlib Require Import ZArith Lia Ascii String SpecFloat Strings.Byte.
From stdpp Require Import base tactics list strings gmap option.
From S2P Require Import Prelude PyStr Sha256 IsoTime PyVal Paths Transforms CounterDelta Accounting ExecKeys ExecMonad ExecSinks Framing Passthrough ExecBatch ExecDemo ExecRel.
Import stdpp.list.

#[local] Open Scope Z_scope.
#[local] Open Scope list_scope.

Module ExecSafety.
Import PyVal Transforms Accounting ExecKeys ExecMonad ExecSinks Passthrough ExecBatch ExecRel.

(** ** The acknowledgement protocol, as an automaton on the trace *)

(** The sinks that confirmed a commit, and those whose latched error was
    checked clean, since the last write or failure. *)
Record barrier := mkBarrier { committed : list nat; checked : list nat }.

Definition no_barrier : barrier := mkBarrier [] [].

Definition barrier_step (b : barrier) (e : event) : barrier :=
  match e with
  | EvWrite _ _ _ => no_barrier
  | EvCommit i true => mkBarrier (i :: committed b) (checked b)
  | EvLatched i true => mkBarrier (committed b) (i :: checked b)
  | EvCommit _ false | EvLatched _ false => no_barrier
  | _ => b
  end.

Definition complete (n : nat) (b : barrier) : Prop :=
  forall i, (i < n)%nat -> i ∈ committed b /\ i ∈ checked b.

(** Every acknowledgement of the trace comes at a complete barrier. *)
Fixpoint acks_guarded (n : nat) (b : barrier) (tr : list event) : Prop :=
  match tr with
  | [] => True
  | e :: tr' => (if is_ack e then complete n b else True) /\ acks_guarded n (barrier_step b e) tr'
  end.

Definition barrier_after (b : barrier) (tr : list event) : barrier := fold_left barrier_step tr b.

Lemma acks_guarded_app n b tr1 tr2 :
  acks_guarded n b (tr1 ++ tr2) <-> acks_guarded n b tr1 /\ acks_guarded n (barrier_after b tr1) tr2.
Proof. revert b; induction tr1 as [|e tr1 IH]; intros b; simpl; [tauto|]. rewrite IH. tauto. Qed.

(** ** Relations on the trace *)

Section safety.
Context {W : Type} {EX : External W} {PT : PyText}.

(** The run appended events that satisfy [P]. *)
Definition appends (P : list event -> Prop) (s t : st W) : Prop :=
  exists evs, s_trace t = s_trace s ++ evs /\ P evs.

Lemma appends_same (P : list event -> Prop) s t : P [] -> s_trace t = s_trace s -> appends P s t.
Proof. intros HP Ht. exists []. by rewrite app_nil_r. Qed.

Lemma appends_log (P : list event -> Prop) e s : P [e] -> appends P s (log e s).
Proof. intros HP. by exists [e]. Qed.

Lemma appends_pre (P : list event -> Prop) :
  P [] -> (forall a b, P a -> P b -> P (a ++ b)) -> PreOrder (appends P).
Proof.
  intros H0 Happ. split; [intros s; by apply appends_same|].
  intros s t u (a & Ha & Pa) (b & Hb & Pb). exists (a ++ b). rewrite Hb, Ha, app_assoc. auto.
Qed.

Lemma appends_weaken (P Q : list event -> Prop) (s t : st W) :
  (forall evs, P evs -> Q evs) -> appends P s t -> appends Q s t.
Proof. intros H (evs & Ht & HP). exists evs. auto. Qed.

Lemma appends_batch (P : list event -> Prop) :
  P [] -> (forall a b, P a -> P b -> P (a ++ b)) -> (forall e, is_ack e = false -> P [e]) ->
  BatchRel (appends P).
Proof.
  intros H0 Happ He.
  assert (SinkRel (appends P)).
  { split; [by apply appends_pre|..]; intros; try (by apply appends_same).
    apply appends_log, He. by destruct e. }
  split; [done| |]; intros; [by apply appends_same|apply appends_log, He; by destruct e].
Qed.

Lemma appends_start (P : list event -> Prop) snap : P [] -> keeps (appends P) (@start_attempt W snap).
Proof. intros H0. apply keeps_modify. intros. by apply appends_same. Qed.

(** Each part of a run is guarded from whatever barrier it starts. *)
Definition guarded (n : nat) (evs : list event) : Prop := forall b, acks_guarded n b evs.

Lemma guarded_batch n : BatchRel (appends (guarded n)).
Proof.
  apply appends_batch.
  - intros b. exact I.
  - intros a b Ha Hb x. apply acks_guarded_app. auto.
  - intros e He b. simpl. by rewrite He.
Qed.
#[global] Existing Instance guarded_batch.
#[global] Instance guarded_pre n : PreOrder (appends (guarded n)) := sr_pre.

(** Events that leave a barrier as it is. *)
Definition calm_event (e : event) : bool :=
  match e with
  | EvWrite _ _ _ | EvCommit _ _ | EvLatched _ _ => false
  | _ => true
  end.

Definition calm (evs : list event) : Prop := forallb calm_event evs = true.

Lemma calm_app a b : calm a -> calm b -> calm (a ++ b).
Proof. unfold calm. intros Ha Hb. by rewrite forallb_app, Ha, Hb. Qed.

Lemma calm_guarded n b evs : complete n b -> calm evs -> acks_guarded n b evs.
Proof.
  intros Hb. induction evs as [|e evs IH]; [done|]. unfold calm. simpl. intros H. bool_to_prop.
  split; [by destruct (is_ack e)|]. destruct e; try done; by apply IH.
Qed.

(** ** The commit barrier *)

Lemma commit_loop_some on_error l rcs out (s t : st W) :
  commit_loop on_error l rcs s = (Ok (Some out), t) ->
  exists evs more, s_trace t = s_trace s ++ evs /\ out = rcs ++ more /\ length more = length l /\
    evs = zip_with (fun i rc => EvCommit i (rc_confirmed rc)) l more.
Proof.
  revert rcs s; induction l as [|i l IH]; intros rcs s; simpl.
  - intros [= <- <-]. exists [], []. by rewrite !app_nil_r.
  - unfold try_else, call_log. destruct (sink_commit i (s_world s)) as [[rc|exc] w] eqn:E; simpl.
    + intros H. apply IH in H as (evs & more & Ht & -> & Hl & ->). simpl in Ht.
      exists (EvCommit i (rc_confirmed rc) :: zip_with (fun i rc => EvCommit i (rc_confirmed rc)) l more), (rc :: more).
      rewrite Ht, <- !app_assoc. simpl. auto.
    + unfold barrier_failed, bind, _commit_failure, on_ctx, modify, throw.
      destruct (decide _); intros; simplify_eq.
Qed.

Lemma latched_loop_some on_error l rcs out (s t : st W) :
  latched_loop on_error l rcs s = (Ok (Some out), t) ->
  s_trace t = s_trace s ++ ((fun i => EvLatched i true) <$> l).
Proof.
  revert s; induction l as [|i l IH]; intros s; simpl.
  - intros [= <- <-]. by rewrite app_nil_r.
  - unfold try_else, call_log. destruct (sink_latched i (s_world s)) as [[[err|]|exc] w] eqn:E; simpl.
    + unfold barrier_failed, bind, _commit_failure, on_ctx, modify, throw.
      destruct (decide _); intros; simplify_eq.
    + intros H. apply IH in H. rewrite H. simpl. by rewrite <- app_assoc.
    + unfold barrier_failed, bind, _commit_failure, on_ctx, modify, throw.
      destruct (decide _); intros; simplify_eq.
Qed.

Lemma unconfirmed_none rcs : unconfirmed rcs = None -> Forall (fun rc => rc_confirmed rc = true) rcs.
Proof.
  unfold unconfirmed. induction rcs as [|rc rcs IH]; simpl; [done|].
  destruct (rc_confirmed rc) eqn:E; [|done]. intros H. constructor; auto.
Qed.

Lemma commits_after b l rcs :
  length rcs = length l -> Forall (fun rc => rc_confirmed rc = true) rcs ->
  let b' := barrier_after b (zip_with (fun i rc => EvCommit i (rc_confirmed rc)) l rcs) in
  (forall i, i ∈ l \/ i ∈ committed b -> i ∈ committed b') /\ checked b' = checked b.
Proof.
  revert b rcs; induction l as [|i l IH]; intros b rcs Hl Hc; simpl in *.
  { split; [|done]. intros i [H|H]; [by apply elem_of_nil in H|done]. }
  destruct rcs as [|rc rcs]; [done|]. apply Forall_cons in Hc as [Hrc Hc]. simpl. rewrite Hrc.
  destruct (IH (mkBarrier (i :: committed b) (checked b)) rcs ltac:(simpl in Hl; lia) Hc) as [H1 H2].
  split; [|done]. intros j Hj. apply H1. simpl. rewrite elem_of_cons in *. naive_solver.
Qed.

Lemma latched_after b l :
  let b' := barrier_after b ((fun i => EvLatched i true) <$> l) in
  (forall i, i ∈ l \/ i ∈ checked b -> i ∈ checked b') /\ committed b' = committed b.
Proof.
  revert b; induction l as [|i l IH]; intros b; simpl.
  { split; [|done]. intros i [H|H]; [by apply elem_of_nil in H|done]. }
  destruct (IH (mkBarrier (committed b) (i :: checked b))) as [H1 H2].
  split; [|done]. intros j Hj. apply H1. simpl. rewrite elem_of_cons in *. naive_solver.
Qed.

Lemma noack_guarded n b evs : Forall (fun e => is_ack e = false) evs -> acks_guarded n b evs.
Proof.
  intros H. revert b; induction H as [|e evs He _ IH]; intros b; simpl; [done|]. by rewrite He.
Qed.

Lemma commit_events_noack l (rcs : list SinkCommitReceipt) :
  Forall (fun e => is_ack e = false) (zip_with (fun i rc => EvCommit i (rc_confirmed rc)) l rcs).
Proof. revert rcs; induction l; intros [|rc rcs]; simpl; constructor; auto. Qed.

(** A barrier that answers receipts is complete for every sink. *)
Lemma commit_receipts_complete c rcs (s t : st W) :
  _commit_sinks_receipts c s = (Ok (Some rcs), t) ->
  appends (fun evs => forall b, acks_guarded (length (pl_sinks c)) b evs
                                /\ complete (length (pl_sinks c)) (barrier_after b evs)) s t.
Proof.
  unfold _commit_sinks_receipts. set (n := length (pl_sinks c)). intros H.
  apply bind_ok in H as ([rcs'|] & u & H1 & H2); [|done].
  apply commit_loop_some in H1 as (evs & more & Hu & -> & Hl & ->). simpl in H2.
  destruct (unconfirmed more) as [rc|] eqn:Eu.
  { unfold barrier_failed, bind, _commit_failure, on_ctx, modify, throw in H2.
    destruct (decide _); simplify_eq. }
  apply unconfirmed_none in Eu. apply latched_loop_some in H2.
  eexists. split; [rewrite H2, Hu, <- app_assoc; reflexivity|].
  intros b. split.
  - apply noack_guarded, Forall_app. split; [apply commit_events_noack|].
    apply Forall_fmap, Forall_true. done.
  - unfold barrier_after. rewrite fold_left_app. fold (barrier_after b (zip_with (fun i rc => EvCommit i (rc_confirmed rc)) (seq 0 n) more)).
    set (b1 := barrier_after b _). fold (barrier_after b1 ((fun i => EvLatched i true) <$> seq 0 n)).
    destruct (commits_after b (seq 0 n) more Hl Eu) as [Hc _]. fold b1 in Hc.
    destruct (latched_after b1 (seq 0 n)) as [Hk Hs].
    intros i Hi. assert (i ∈ seq 0 n) as Hin by (apply elem_of_seq; lia).
    split; [rewrite Hs; apply Hc; by left|apply Hk; by left].
Qed.

(** ** What follows the barrier *)

Lemma calm_pre : PreOrder (appends calm).
Proof. apply appends_pre; [done|apply calm_app]. Qed.
#[global] Existing Instance calm_pre.

Lemma calm_state (f : st W -> st W) : (forall s, s_trace (f s) = s_trace s) -> keeps (appends calm) (modify f).
Proof. intros Hf. apply keeps_modify. intros s. apply appends_same; [done|apply Hf]. Qed.

Lemma calm_call_res {A} (f : W -> res exn A * W) : keeps (appends calm) (call_res f).
Proof. apply keeps_call_res. intros. by apply appends_same. Qed.

Lemma calm_call_log {A} (ev : res exn A -> event) f :
  (forall r, calm_event (ev r) = true) -> keeps (appends calm) (call_log ev f).
Proof.
  intros He. apply keeps_call_log. intros s w x. exists [ev x]. split; [done|].
  unfold calm. simpl. by rewrite He.
Qed.

End safety.

(** Follows a program that neither writes nor commits. *)
Ltac calm_step :=
  match goal with
  | |- keeps _ (modify _) => apply calm_state; reflexivity
  | |- keeps _ (on_ctx _) => apply calm_state; reflexivity
  | |- keeps _ (call_res _) => apply calm_call_res
  | |- keeps _ (call_log _ _) => apply calm_call_log; intros ?; reflexivity
  | |- keeps _ _ => solve [auto with keeps]
  end.

Ltac calm_auto := repeat (calm_step || keeps_struct).

Section after_barrier.
Context {W : Type} {EX : External W} {PT : PyText}.

Lemma calm_check_unit c sha meta rcs : keeps (appends calm) (check_unit c sha meta rcs).
Proof.
  unfold check_unit, checkpoint_unconfirmed, _collect_state_blob, _restore_committed_state, _apply_state.
  calm_auto.
Qed.

Lemma calm_take_unit key : keeps (appends calm) (take_unit_call (W := W) key).
Proof. unfold take_unit_call. calm_auto. Qed.
Lemma calm_ack meta d : keeps (appends calm) (_ack_source_unit meta d).
Proof. unfold _ack_source_unit. calm_auto. Qed.
Lemma calm_source_finalize meta b : keeps (appends calm) (source_finalize_call meta b).
Proof. unfold source_finalize_call. calm_auto. Qed.
Hint Resolve calm_check_unit calm_take_unit calm_ack calm_source_finalize : keeps.

Lemma calm_after_barrier c sha key meta u b rcs :
  keeps (appends calm) (finalize_after_barrier c sha key meta u b rcs).
Proof.
  unfold finalize_after_barrier, _finalize_source_for_sinks. calm_auto.
Qed.

Lemma finalize_guarded c sha key meta u b :
  keeps (appends (guarded (length (pl_sinks c)))) (_finalize_batch_source_unit c sha key meta u b).
Proof.
  set (n := length (pl_sinks c)). intros s r t H. unfold _finalize_batch_source_unit in H.
  apply bind_inv in H as [([rcs|] & s1 & H1 & H)|(e & H & _)].
  - apply commit_receipts_complete in H1 as (evs1 & E1 & G1). fold n in G1.
    apply calm_after_barrier in H as (evs2 & E2 & Q2).
    exists (evs1 ++ evs2). rewrite E2, E1, app_assoc. split; [done|]. intros b0.
    apply acks_guarded_app. split; [apply G1|]. apply calm_guarded; [apply G1|done].
  - etrans; [eapply (keeps_commit_receipts (appends (guarded n))), H1|].
    eapply (keeps_unconfirmed_finalize (appends (guarded n))), H.
  - eapply (keeps_commit_receipts (appends (guarded n))), H.
Qed.

(** ** Checkpoints before acknowledgements *)

Lemma same_trace_pre : PreOrder (fun s t : st W => s_trace t = s_trace s).
Proof. split; [done|]. intros s t u H1 H2. congruence. Qed.
#[local] Existing Instance same_trace_pre.

Ltac trace_leaf :=
  match goal with
  | |- keeps _ (call_res _) => apply keeps_call_res; done
  | |- keeps _ (modify _) => apply keeps_modify; done
  end.

Lemma collect_trace c : keeps (fun s t : st W => s_trace t = s_trace s) (_collect_state_blob c).
Proof. unfold _collect_state_blob. repeat (trace_leaf || keeps_struct). Qed.

Lemma restore_trace b c sha :
  keeps (fun s t : st W => s_trace t = s_trace s) (whenM b (_restore_committed_state c sha)).
Proof. unfold _restore_committed_state, _apply_state. repeat (trace_leaf || keeps_struct). Qed.

Lemma ack_event meta d (s t : st W) r :
  _ack_source_unit meta d s = (r, t) -> s_trace t = s_trace s ++ [EvAck meta d].
Proof.
  unfold _ack_source_unit, try_else, call_log. destruct (source_ack meta d (s_world s)) as [[?|?] w];
    intros [= <- <-]; done.
Qed.

Definition acks_delivered (e : event) : bool := match e with EvAck _ DELIVERED => true | _ => false end.
Definition checkpointed (e : event) : bool := match e with EvCheckpoint _ true => true | _ => false end.

(** Every acknowledgement as delivered directly follows a confirmed
    checkpoint; [prev]: the event before was one. *)
Fixpoint delivered_after_checkpoint (prev : bool) (tr : list event) : Prop :=
  match tr with
  | [] => True
  | e :: tr' => (if acks_delivered e then prev = true else True)
                /\ delivered_after_checkpoint (checkpointed e) tr'
  end.

Definition from_any (evs : list event) : Prop := forall prev, delivered_after_checkpoint prev evs.

Lemma from_any_app a b : from_any a -> from_any b -> from_any (a ++ b).
Proof.
  intros Ha Hb prev. specialize (Ha prev). revert prev Ha; induction a as [|e a IH]; intros prev Ha; simpl in *;
    [apply Hb|]. destruct Ha as [H1 H2]. split; [exact H1|exact (IH _ H2)].
Qed.

Lemma from_any_batch : BatchRel (W := W) (appends from_any).
Proof.
  apply appends_batch; [intros prev; exact I|apply from_any_app|].
  intros e He prev. destruct e; try discriminate; by split.
Qed.
#[local] Existing Instance from_any_batch.
#[local] Instance from_any_pre : PreOrder (appends (W := W) from_any) := sr_pre.

Lemma checkpoint_before_ack c sha meta rcs :
  pl_strict c = true ->
  keeps (appends from_any)
    (let! ok := check_unit c sha meta rcs in if ok then _ack_source_unit meta DELIVERED else ret tt).
Proof.
  intros Hstrict s r t H. apply bind_inv in H as [(ok & u & H1 & H)|(e & H1 & ->)];
    [|eapply (keeps_check_unit (appends from_any)), H1].
  destruct ok; [|injection H as <- <-; eapply (keeps_check_unit (appends from_any)), H1].
  assert (exists req, s_trace u = s_trace s ++ [EvCheckpoint req true]) as [req Hu].
  { unfold check_unit, checkpoint_unconfirmed in H1. rewrite Hstrict in H1.
    destruct checkpoint_client; [|by apply bind_ok in H1 as (x & v & _ & [=])].
    destruct (_source_durable_unit_id source_unit_id meta) as [uid|];
      [|by apply bind_ok in H1 as (x & v & _ & [=])].
    destruct (_checkpoint_frontier meta) as [fj fs].
    apply bind_ok in H1 as (blob & s1 & Hb & H1). apply bind_ok in H1 as (base & s2 & [= <- <-] & H1).
    apply collect_trace in Hb.
    unfold try_else at 1, call_log in H1.
    destruct (checkpoint _ (s_world s1)) as [[res|exc] w]; [|by apply bind_ok in H1 as (x & v & _ & [=])].
    apply bind_ok in H1 as ([] & s3 & [= <-] & H1). apply bind_ok in H1 as ([] & s4 & H4 & [= <-]).
    apply restore_trace in H4. rewrite H4. simpl. rewrite Hb. eauto. }
  apply ack_event in H. exists [EvCheckpoint req true; EvAck meta DELIVERED].
  rewrite H, Hu, <- app_assoc. split; [done|]. by intros prev.
Qed.

Lemma finalize_checkpointed c sha key meta u b :
  pl_strict c = true -> keeps (appends from_any) (_finalize_batch_source_unit c sha key meta u b).
Proof.
  intros Hstrict. unfold _finalize_batch_source_unit, finalize_after_barrier.
  apply keeps_bind; [apply _|apply keeps_commit_receipts, _|]. intros rcs.
  apply keeps_bind; [apply _|apply keeps_sink_finalize, _|]. intros _.
  apply keeps_bind; [apply _|apply keeps_take_unit, _|]. intros taken.
  apply keeps_bind; [apply _| |intros _; destruct b; [apply keeps_source_finalize, _|apply keeps_ret, _]].
  assert (forall d, d <> DELIVERED -> keeps (appends from_any) (_ack_source_unit meta d)) as Hack.
  { intros d Hd s r t H. apply ack_event in H. exists [EvAck meta d]. split; [done|].
    intros prev. by destruct d. }
  destruct rcs as [rcs|]; [|apply keeps_ret, _].
  destruct (match taken with Some u0 => Some u0 | None => u end) as [uo|]; [|apply keeps_ret, _].
  destruct b; [|apply keeps_ret, _].
  destruct (disposition (pl_on_error c) uo) as [[]|]; try (by apply Hack); [|apply keeps_ret, _].
  by apply checkpoint_before_ack.
Qed.
End after_barrier.




(** The retried run again, for a strict pipeline without a manager. *)
Definition strict_pipeline : PipelineConfig :=
  mkPipeline "cdr" OnContinue 1 (float_of_int 1) None None None false [ExecDemo.local_sink 0 1] [] [] false
    true false ExecDemo.no_pass.


End ExecSafety.
