(* ===== verification/ExecLoss.v ===== *)
(** * Losses are accounted for

    The sink path never loses a batch silently: when the accounting of a run
    shows no failed records and no failed DLQ delivery, every sink write that
    failed was repeated until it succeeded or its records are in the DLQ or the
    disk spool, and no sink was skipped by its circuit breaker. *)

From Stdlib Require Import ZArith Lia Ascii String SpecFloat Strings.Byte.
From stdpp Require Import base tactics list strings gmap option.
From S2P Require Import Prelude PyStr Sha256 IsoTime PyVal Paths Transforms CounterDelta Accounting ExecKeys ExecMonad ExecSinks Framing Passthrough ExecBatch ExecDemo ExecRel ExecSafety.
Import stdpp.list.

#[local] Open Scope Z_scope.
#[local] Open Scope list_scope.

Module ExecLoss.
Import PyVal Transforms Accounting ExecKeys ExecMonad ExecSinks Passthrough ExecBatch ExecRel ExecSafety.

(** ** Settled traces *)

(** Failed tries of one write. *)
Definition tries (i : nat) (data : bytes) (k : nat) : list event := replicate k (EvWrite i data false).

(** A dead letter that is durable: written, or spooled after a failed write. *)
Definition saved (evs : list event) : Prop :=
  exists env, evs = [EvDlq env true] \/ evs = [EvDlq env false; EvSpool true].

(** Calls that lose nothing by themselves. *)
Definition harmless (e : event) : bool :=
  match e with
  | EvWrite _ _ _ | EvBreakerSkip _ | EvDlq _ _ | EvSpool _ | EvRead _ => false
  | _ => true
  end.

Inductive settled : list event -> Prop :=
| settled_nil : settled []
| settled_other e evs : harmless e = true -> settled evs -> settled (e :: evs)
| settled_written i data k evs : settled evs -> settled (tries i data k ++ EvWrite i data true :: evs)
| settled_saved i data k dead evs : saved dead -> settled evs -> settled (tries i data k ++ dead ++ evs).

Lemma settled_app a b : settled a -> settled b -> settled (a ++ b).
Proof.
  intros Ha Hb. induction Ha as [|e a He Ha IH|i d k a Ha IH|i d k dead a Hd Ha IH]; simpl; [done|..].
  - by constructor.
  - rewrite <- app_assoc. simpl. by constructor.
  - rewrite <- !app_assoc. by constructor.
Qed.

Lemma settled_one_saved dead : saved dead -> settled dead.
Proof.
  intros H. pose proof (settled_saved 0 [] 0 dead [] H settled_nil) as Hs. simpl in Hs.
  by rewrite app_nil_r in Hs.
Qed.

(** ** The relation *)

(** Records and dead letters lost so far. *)
Definition lost (d : _RunDeliveryAccounting) : Z := d_records_failed d + d_dlq_failed d.

Section loss.
Context {W : Type} {EX : External W} {PT : PyText}.
Implicit Types (s t : st W).

Definition accounts (s t : st W) : Prop :=
  lost (s_delivery s) <= lost (s_delivery t) /\
  (lost (s_delivery t) = lost (s_delivery s) -> appends settled s t).

#[local] Instance accounts_pre : PreOrder accounts.
Proof.
  split; [intros s; split; [done|]; intros _; by apply appends_same; [constructor|]|].
  intros s t u [H1 H2] [H3 H4]. split; [lia|]. intros H.
  destruct (H2 ltac:(lia)) as (a & Ha & Sa). destruct (H4 ltac:(lia)) as (b & Hb & Sb).
  exists (a ++ b). rewrite Hb, Ha, app_assoc. auto using settled_app.
Qed.

Lemma accounts_same s t :
  s_trace t = s_trace s -> lost (s_delivery t) = lost (s_delivery s) -> accounts s t.
Proof. intros Ht Hl. split; [lia|]. intros _. by apply appends_same; [constructor|]. Qed.

Lemma accounts_more s t : lost (s_delivery s) < lost (s_delivery t) -> accounts s t.
Proof. intros H. split; [lia|]. lia. Qed.

Lemma accounts_settled s t :
  lost (s_delivery t) = lost (s_delivery s) -> appends settled s t -> accounts s t.
Proof. intros Hl Ha. split; [lia|]. done. Qed.

Lemma lost_on_unit k f d : lost (on_unit k f d) = lost d.
Proof. unfold on_unit. destruct k as [k|]; [|done]. by destruct (aget k (d_units d)). Qed.

Lemma lost_record_loss k a b c d : lost (record_loss k a b c d) = lost d + a + c.
Proof. unfold record_loss. rewrite lost_on_unit. unfold lost. simpl. lia. Qed.

Lemma lost_record_sink k a b c d : lost (record_sink k a b c d) = lost d.
Proof. unfold record_sink. by destruct (String.eqb k ""). Qed.

Lemma lost_set_delivery f s : lost (s_delivery (set_delivery f s)) = lost (f (s_delivery s)).
Proof. done. Qed.
Lemma lost_set_ctx f s : lost (s_delivery (set_ctx f s)) = lost (s_delivery s).
Proof. done. Qed.

Create HintDb lost.
Hint Rewrite lost_set_delivery lost_set_ctx lost_record_sink lost_record_loss lost_on_unit : lost.

(** ** Automation *)

Lemma acc_call {A} (f : W -> A * W) : keeps accounts (call f).
Proof. apply keeps_call. intros. by apply accounts_same. Qed.
Lemma acc_call_res {A} (f : W -> res exn A * W) : keeps accounts (call_res f).
Proof. apply keeps_call_res. intros. by apply accounts_same. Qed.
Lemma acc_call_log {A} (ev : res exn A -> event) f :
  (forall r, harmless (ev r) = true) -> keeps accounts (call_log ev f).
Proof.
  intros He. apply keeps_call_log. intros s w x. apply accounts_settled; [done|].
  exists [ev x]. split; [done|]. apply settled_other; [done|constructor].
Qed.
Lemma acc_state (f : st W -> st W) :
  (forall s, s_trace (f s) = s_trace s /\ lost (s_delivery (f s)) = lost (s_delivery s)) ->
  keeps accounts (modify f).
Proof. intros Hf. apply keeps_modify. intros s. destruct (Hf s). by apply accounts_same. Qed.
Lemma acc_sink_counts o k a b c : keeps accounts (when_delivery o (record_sink k a b c)).
Proof.
  apply keeps_whenM; [apply _|]. apply acc_state. intros s. split; [done|]. apply lost_record_sink.
Qed.
Lemma acc_chunk o k a b : keeps accounts (when_delivery o (record_chunk k a b)).
Proof. apply keeps_whenM; [apply _|]. apply acc_state. intros s. split; [done|]. apply lost_on_unit. Qed.
Lemma acc_when_stats o d : keeps accounts (@when_stats W o d).
Proof. apply keeps_whenM; [apply _|]. by apply acc_state. Qed.

Ltac acc_step :=
  match goal with
  | |- keeps _ (in_loop _ _ _) => unfold in_loop
  | |- keeps _ (call _) => apply acc_call
  | |- keeps _ (call_res _) => apply acc_call_res
  | |- keeps _ (call_log _ _) => apply acc_call_log; intros ?; reflexivity
  | |- keeps _ (on_ctx _) => apply acc_state; done
  | |- keeps _ (modify (set_cb _)) => apply acc_state; done
  | |- keeps _ (modify (set_bucket _ _)) => apply acc_state; done
  | |- keeps _ (modify (set_stats _)) => apply acc_state; done
  | |- keeps _ (when_stats _ _) => apply acc_when_stats
  | |- keeps _ (when_delivery _ (record_sink _ _ _ _)) => apply acc_sink_counts
  | |- keeps _ (when_delivery _ (record_chunk _ _ _)) => apply acc_chunk
  | |- keeps _ _ => solve [auto with keeps]
  end.
Ltac acc_auto := repeat (acc_step || keeps_struct).

(** A program that is undone in the relation by a first part [m] with a known
    effect and a rest that accounts. *)
Lemma acc_bind_first {A B} (m : M W A) (k : A -> M W B) :
  (forall s r t, m s = (r, t) -> accounts s t) -> (forall a, keeps accounts (k a)) -> keeps accounts (bind m k).
Proof. intros Hm Hk. apply keeps_bind; [apply _|exact Hm|exact Hk]. Qed.

(** ** Dead letters *)

Lemma dlq_spec o stage err rec raw s r t :
  _write_dlq_envelope o stage err rec raw s = (r, t) ->
  exists ok evs, r = Ok ok /\ s_trace t = s_trace s ++ evs /\
    lost (s_delivery t) = lost (s_delivery s) /\ (ok = true -> saved evs).
Proof.
  unfold _write_dlq_envelope, _spool_dlq_envelope, bind, get, try_else, call_log, when_delivery, whenM,
    modify, ret. simpl. set (env := mkEnvelope _ _ _ _ _ _).
  destruct (dlq_write env (s_world s)) as [[[]|exc] w1]; simpl.
  - intros [= <- <-]. exists true, [EvDlq env true]. split_and!; try done. intros _. exists env. by left.
  - destruct (spool_write env (exn_str exc) w1) as [[p|exc2] w2]; simpl;
      (destruct (o_delivery o); intros [= <- <-]; simpl);
      eexists _, [EvDlq env false; EvSpool _]; rewrite <- app_assoc; simpl; split_and!; try done;
      intros Hok; try discriminate; exists env; by right.
Qed.

(** A dead letter written and recorded. *)
Lemma acc_dlq_recorded o key stage err rec raw :
  o_delivery o = true ->
  keeps accounts (bind (_write_dlq_envelope o stage err rec raw) (fun ok =>
    bind (on_ctx record_dlq) (fun _ =>
    bind (when_delivery o (record_loss key 0 (Z.b2z ok) (Z.b2z (negb ok)))) (fun _ => ret ok)))).
Proof.
  intros Hd s r t H. apply bind_inv in H as [(ok & u & H1 & H)|(e & H1 & ->)].
  - apply dlq_spec in H1 as (ok' & evs & [= <-] & Ht & Hl & Hs).
    unfold bind, on_ctx, modify, when_delivery, whenM, ret in H. rewrite Hd in H. simpl in H.
    injection H as <- <-.
    destruct ok; [apply accounts_settled|apply accounts_more];
      rewrite ?lost_set_delivery, ?lost_record_loss, ?lost_set_ctx; cbn [Z.b2z negb]; try lia.
    exists evs. split; [done|]. by apply settled_one_saved, Hs.
  - apply dlq_spec in H1 as (ok' & evs & [=] & _).
Qed.

Lemma bind_assoc {A B C} (m : M W A) (f : A -> M W B) (g : B -> M W C) :
  forall s, bind (bind m f) g s = bind m (fun a => bind (f a) g) s.
Proof. intros s. unfold bind. by destruct (m s) as [[a|e] u]. Qed.

Lemma keeps_ext {A} (R : st W -> st W -> Prop) (m n : M W A) : (forall s, m s = n s) -> keeps R n -> keeps R m.
Proof. intros H Hn s r t E. rewrite H in E. by eapply Hn. Qed.

(** The form in which the programs write it: with a rest. *)
Lemma acc_dlq_then {A} o key stage err rec raw (k : bool -> M W A) :
  o_delivery o = true -> (forall ok, keeps accounts (k ok)) ->
  keeps accounts (bind (_write_dlq_envelope o stage err rec raw) (fun ok =>
    bind (on_ctx record_dlq) (fun _ =>
    bind (when_delivery o (record_loss key 0 (Z.b2z ok) (Z.b2z (negb ok)))) (fun _ => k ok)))).
Proof.
  intros Hd Hk. eapply keeps_ext.
  2: { eapply (keeps_bind accounts); [by apply (acc_dlq_recorded o key stage err rec raw)|exact Hk]. }
  intros s. rewrite bind_assoc. unfold bind.
  destruct (_write_dlq_envelope o stage err rec raw s) as [[ok|e] u]; [|done].
  unfold on_ctx, modify, when_delivery, whenM, ret. by rewrite Hd.
Qed.

Lemma acc_loss o key n : o_delivery o = true -> 0 < n -> keeps accounts (when_delivery o (record_loss key n 0 0)).
Proof.
  intros Hd Hn. unfold when_delivery. rewrite Hd. apply keeps_modify. intros s.
  apply accounts_more. rewrite lost_set_delivery, lost_record_loss. lia.
Qed.

Section with_accounting.
Context (o : opts) (Hd : o_delivery o = true).

Lemma acc_transform_failed key what rec exc : keeps accounts (transform_failed o key what rec exc).
Proof.
  unfold transform_failed. destruct (decide _); [acc_auto|].
  apply keeps_bind; [apply _| |intros ?; acc_auto].
  destruct (o_dlq o); [|by apply acc_loss].
  apply acc_dlq_then; [done|]. intros ok. acc_auto.
Qed.
Hint Resolve acc_transform_failed : keeps.

Lemma acc_global records ts meta : keeps accounts (_apply_global_transforms o records ts meta).
Proof. unfold _apply_global_transforms, transform_chain. acc_auto. Qed.

Lemma acc_sink_transforms key meta ts recs : keeps accounts (sink_transform_loop o key meta ts recs).
Proof. revert recs; induction ts as [|t ts IH]; intros recs; simpl; acc_auto. Qed.

Lemma acc_filter records c : keeps accounts (_filter_by_condition records c).
Proof. unfold _filter_by_condition. acc_auto. Qed.

Lemma acc_rate rps : keeps accounts (_rate_limit rps).
Proof. unfold _rate_limit. acc_auto. Qed.

Lemma acc_cb_open th k : keeps accounts (cb_open th k).
Proof. unfold cb_open. acc_auto. Qed.
Hint Resolve acc_global acc_sink_transforms acc_filter acc_rate acc_cb_open : keeps.

(** ** Writes *)

Lemma trace_world w s : s_trace (set_world w s) = s_trace s.
Proof. done. Qed.

Lemma wait_spec b d (r : res exn unit) s t :
  whenM b (bind (call jitter) (fun j => call (fun w => (tt, sleep (d j) w)))) s = (r, t) ->
  r = Ok tt /\ s_trace t = s_trace s /\ s_delivery t = s_delivery s.
Proof.
  destruct b; simpl; [|by intros [= <- <-]]. unfold bind, call.
  destruct (jitter (s_world s)) as [j w]. by intros [= <- <-].
Qed.

Lemma success_spec e i data (r : res exn (option (option exn))) s t :
  bind (on_ctx (inc_bytes_out (_payload_size_bytes data))) (fun _ =>
    bind (when_stats o (mkDelta 0 0 0 0 0 (_payload_size_bytes data) [])) (fun _ =>
    bind (cb_success (cb_threshold e) (sink_key_of o i)) (fun _ => ret None))) s = (r, t) ->
  r = Ok None /\ s_trace t = s_trace s /\ s_delivery t = s_delivery s.
Proof.
  unfold bind, on_ctx, modify, when_stats, cb_success, whenM, ret.
  destruct (o_stats o), (0 <? cb_threshold e); by intros [= <- <-].
Qed.

(** The tries of one write: failures, then a success or none. *)
Lemma write_attempts_spec i e data sm n a x s r t :
  write_attempts o i e data sm n a x s = (r, t) ->
  s_delivery t = s_delivery s /\
  exists k out, r = Ok out /\
    s_trace t = s_trace s ++ tries i data k ++
      (match out with None => [EvWrite i data true] | Some _ => [] end) /\
    (k <= n)%nat /\ (out = None -> (k < n)%nat) /\ (out <> None -> k = n).
Proof.
  revert a x s; induction n as [|n IH]; intros a x s H.
  { simpl in H. injection H as <- <-. split; [done|]. exists 0%nat, (Some x). simpl. rewrite app_nil_r.
    split_and!; try done; lia. }
  cbn [write_attempts] in H. unfold try_else at 1 in H. unfold call_log in H.
  destruct (sink_write i data _ (s_world s)) as [[[]|exc] w]; simpl in H.
  - apply success_spec in H as (-> & Ht & Hl). split; [by rewrite Hl|].
    exists 0%nat, None. split; [done|]. split; [by rewrite Ht|]. split_and!; [lia|lia|done].
  - apply bind_inv in H as [([] & u & H1 & H)|(e' & H1 & ->)].
    2: { apply wait_spec in H1 as ([=] & _). }
    apply wait_spec in H1 as (_ & Ht & Hl). apply IH in H as (Hl' & k & out & -> & Ht' & Hk1 & Hk2 & Hk3).
    split; [by rewrite Hl', Hl|]. exists (S k), out. split; [done|]. split.
    + rewrite Ht', Ht. simpl. rewrite <- !app_assoc. simpl. done.
    + split_and!; [lia|intros Ho; specialize (Hk2 Ho); lia|intros Ho; specialize (Hk3 Ho); lia].
Qed.

Lemma cb_failure_spec th k w (r : res exn unit) s t :
  cb_failure th k w s = (r, t) -> r = Ok tt /\ s_trace t = s_trace s /\ s_delivery t = s_delivery s.
Proof.
  unfold cb_failure, whenM, bind, get, call, modify, ret. destruct (0 <? th); [|by intros [= <- <-]].
  simpl. destruct (th <=? _); [destruct (monotonic (s_world s))|]; by intros [= <- <-].
Qed.

(** The error policy after the accounting neither logs nor counts. *)
Lemma error_policy_spec x (ok : bool) d s r t :
  (if decide (o_on_error o = OnAbort) then throw (Exn CTram ("Sink write error: " ++ exc_text x))
   else if (bool_decide (o_on_error o = OnRetry) && negb ok)%bool then
     throw (Exn CTram ("Sink write error: " ++ exc_text x))
   else bind (on_ctx (note_skip (exc_text x))) (fun _ => when_stats o d)) s = (r, t) ->
  s_trace t = s_trace s /\ lost (s_delivery t) = lost (s_delivery s).
Proof.
  destruct (decide _); [by intros [= <- <-]|]. destruct (_ && _)%bool; [by intros [= <- <-]|].
  unfold bind, on_ctx, modify, when_stats, whenM, ret. by destruct (o_stats o); intros [= <- <-].
Qed.

(** What a failed partition leaves behind: its dead letter, or a loss. *)
Lemma partition_failed_spec key e x recs s r t :
  recs <> [] -> partition_failed o key e x recs s = (r, t) ->
  lost (s_delivery s) < lost (s_delivery t) \/
  lost (s_delivery t) = lost (s_delivery s) /\ appends saved s t.
Proof.
  intros Hne H. unfold partition_failed in H.
  assert (0 < zlen recs) as Hn by (unfold zlen; destruct recs; simpl in *; [done|lia]).
  destruct (o_dlq o).
  - unfold bind at 1 2 in H.
    destruct (_write_dlq_envelope _ _ _ _ _ s) as [[ok|exc] u] eqn:E;
      apply dlq_spec in E as (ok' & evs & [=] & Ht & Hl & Hs). subst ok'.
    unfold on_ctx at 1, modify at 1, when_delivery, whenM, bind at 1 2 3, modify in H. rewrite Hd in H.
    destruct (negb ok && stops_on_failed_dlq o)%bool eqn:Es.
    + unfold throw in H. injection H as <- <-. left.
      autorewrite with lost.
      bool_to_prop. subst ok. simpl. lia.
    + apply (error_policy_spec x ok) in H as [Ht' Hl'].
      autorewrite with lost in Hl'.
      destruct ok; simpl in Hl'; [right|left; lia]. split; [lia|]. exists evs. rewrite Ht'. auto.
  - unfold when_delivery, whenM, bind at 1 2 3, modify at 1 2, ret in H. rewrite Hd in H.
    apply (error_policy_spec x false) in H as [Ht' Hl'].
    autorewrite with lost in Hl'. left. lia.
Qed.

(** A partition whose tries are exhausted. *)
Lemma acc_exhausted key e i data n x recs s u r t :
  recs <> [] ->
  s_trace u = s_trace s ++ tries i data n -> lost (s_delivery u) = lost (s_delivery s) ->
  bind (cb_failure (cb_threshold e) (sink_key_of o i) (cb_window (sk_cfg e)))
    (fun _ => partition_failed o key e x recs) u = (r, t) ->
  accounts s t.
Proof.
  intros Hne Hu Hl H. apply bind_inv in H as [([] & v & H1 & H)|(e' & H1 & ->)];
    apply cb_failure_spec in H1 as (Er & Ht1 & Hl1); [|done].
  apply partition_failed_spec in H as [H|[H (evs & Ht & Hs)]]; [|rewrite Hl1, Hl in H|done].
  - apply accounts_more. rewrite Hl1, Hl in H. done.
  - apply accounts_settled; [done|]. exists (tries i data n ++ evs).
    rewrite Ht, Ht1, Hu, <- app_assoc. split; [done|].
    pose proof (settled_saved i data n evs [] Hs settled_nil) as Hset. by rewrite app_nil_r in Hset.
Qed.

Lemma acc_write_partitions key meta i e parts w :
  Forall (fun p => p.2 <> []) parts -> keeps accounts (write_partitions o key meta i e parts w).
Proof.
  intros Hp. revert w; induction Hp as [|[fv recs] parts Hne Hp IH]; intros w; cbn [write_partitions];
    [acc_auto|].
  apply keeps_bind; [apply _|acc_auto|]. intros data s r t H.
  apply bind_inv in H as [(out & u & H1 & H)|(x & H1 & ->)]; apply write_attempts_spec in H1
    as (Hl1 & k & out' & [=] & Ht1 & Hk). subst out'. destruct out as [x|].
  - rewrite app_nil_r in Ht1. rewrite <- bind_assoc in H.
    apply bind_inv in H as [([] & v & H1 & H)|(e' & H1 & ->)].
    + etrans; [eapply acc_exhausted; [exact Hne|exact Ht1|by rewrite Hl1|exact H1]|].
      revert H. apply (keeps_bind accounts); [apply acc_sink_counts|intros ?; apply keeps_ret, _].
    + eapply acc_exhausted; [exact Hne|exact Ht1|by rewrite Hl1|exact H1].
  - etrans; [|eapply IH, H]. apply accounts_settled; [by rewrite Hl1|].
    eexists. split; [exact Ht1|]. apply settled_written, settled_nil.
Qed.

(** ** Partitions *)

Lemma aset_forall_ne {K} `{EqDecision K} (k : K) (v : list dict) l :
  v <> [] -> Forall (fun p => p.2 <> []) l -> Forall (fun p => p.2 <> []) (aset k v l).
Proof.
  intros Hv. induction 1 as [|[k' v'] l H Hl IH]; simpl; [by repeat constructor|].
  destruct (decide (k' = k)); constructor; auto.
Qed.

Lemma partitions_nonempty records tmpl parts :
  records <> [] -> _partition_records_for_template records tmpl = Ok parts ->
  Forall (fun p => p.2 <> []) parts.
Proof.
  intros Hne. unfold _partition_records_for_template.
  assert (forall ps, Ok (E := exn) [([] : list (string * string), records)] = Ok ps ->
    Forall (fun p => p.2 <> []) ps) as Hone.
  { intros ps [= <-]. by repeat constructor. }
  destruct tmpl as [[|a tm]|]; [by apply Hone| |by apply Hone]. intros H.
  apply res_bind_ok in H as (fps & _ & H). destruct fps as [|fp fps]; [by apply Hone|].
  injection H as <-. generalize (Forall_nil_2 (fun p : list (string * string) * list dict => p.2 <> [])).
  generalize (@nil (list (string * string) * list dict)) as acc.
  clear Hne Hone. induction records as [|r records IH]; intros acc Hacc; [done|]. cbn [fold_left].
  apply IH, aset_forall_ne; [|done]. by destruct (default [] _).
Qed.

(** ** Sinks and chunks *)

Lemma filter_nonempty records c s out t :
  _filter_by_condition records c s = (Ok out, t) -> out <> [] -> records <> [].
Proof.
  unfold _filter_by_condition. destruct have_simpleeval; [|done].
  destruct records; [|done]. by intros [= <- <-].
Qed.

Lemma acc_write_one_sink key meta recs i e : keeps accounts (_write_one_sink o key meta recs i e).
Proof.
  intros s r t H. unfold _write_one_sink in H.
  apply bind_inv in H as [(filtered & u & H1 & H)|(x & H1 & ->)].
  2: { revert H1. destruct (sk_condition e) as [[|]|]; [by intros [=]| |by intros [=]]. apply acc_filter. }
  assert (accounts s u /\ (filtered <> [] -> recs <> [])) as [Hu Hne].
  { revert H1. destruct (sk_condition e) as [[|]|]; try (by intros [= <- <-]).
    intros H1. split; [by eapply acc_filter|]. by eapply filter_nonempty. }
  etrans; [exact Hu|]. destruct filtered as [|f filtered]; [by injection H as <- <-|].
  specialize (Hne ltac:(done)). revert H. generalize u r t. clear Hu u H1 r t s.
  match goal with |- forall u r t, ?m u = (r, t) -> accounts u t => change (keeps accounts m) end.
  apply keeps_bind; [apply _|apply acc_sink_transforms|]. intros [[|sr sink_records]|]; [acc_auto| |acc_auto].
  apply keeps_bind; [apply _|acc_auto|]. intros _. apply keeps_bind; [apply _|acc_auto|]. intros [|].
  - intros s r t H. apply bind_inv in H as [([] & u & H1 & H)|(? & [=] & _)]. injection H1 as <-.
    apply bind_inv in H as [([] & u & H1 & H)|(? & [=] & _)]. injection H1 as <-.
    apply accounts_more. unfold when_delivery, whenM, bind, modify, when_stats, ret in H.
    rewrite Hd in H. assert (0 < zlen recs) by (unfold zlen; destruct recs; simpl in *; [done|lia]).
    destruct (o_stats o); injection H as <- <-; cbn [s_delivery set_stats set_delivery set_ctx log];
      rewrite lost_record_loss; lia.
  - intros s r t H. apply bind_inv in H as [(parts & u & H1 & H)|(x & H1 & ->)].
    + unfold lift in H1. injection H1 as H1 <-. eapply acc_write_partitions; [|exact H].
      by eapply partitions_nonempty, H1.
    + unfold lift in H1. by injection H1 as _ <-.
Qed.
Hint Resolve acc_write_one_sink : keeps.

Lemma acc_attempt {A} (m : M W A) : keeps accounts m -> keeps accounts (outcome_of m).
Proof.
  intros Hm s r t. unfold outcome_of. destruct (m s) as [x u] eqn:E. intros [= <- <-]. exact (Hm _ _ _ E).
Qed.
Hint Resolve acc_attempt : keeps.

Lemma acc_on_tram_error exc b : keeps accounts (on_tram_error o exc (ret b)).
Proof. unfold on_tram_error. acc_auto. Qed.
Hint Resolve acc_on_tram_error : keeps.

Lemma acc_process_records recs meta ts sinks : keeps accounts (_process_records o recs meta ts sinks).
Proof. unfold _process_records, write_all_sinks. acc_auto. Qed.
Hint Resolve acc_process_records : keeps.

Lemma acc_parse_failed {A} key raw exc : keeps accounts (@parse_failed W EX A o key raw exc).
Proof.
  unfold parse_failed. destruct (o_dlq o) eqn:Edlq.
  - eapply keeps_ext; [intros s; apply bind_assoc|].
    eapply keeps_ext; [|apply (acc_dlq_then o key "parse" (exn_str exc) None (Some raw) (fun dlq_ok =>
      if (negb dlq_ok && stops_on_failed_dlq o)%bool then
        throw (Exn CDLQDelivery ("DLQ delivery failed for unparseable chunk: " ++ exn_str exc))
      else bind (when_stats o (mkDelta 0 0 0 1 0 0 [("Parse error: " ++ exn_str exc)%string]))
             (fun _ => throw (Exn CTram ("Parse error: " ++ exn_str exc))))); [done|intros ok; acc_auto]].
    intros s. unfold bind. by destruct (_write_dlq_envelope _ _ _ _ _ s) as [[ok|e] u].
  - apply keeps_bind; [apply _|acc_auto|]. intros ok.
    apply keeps_bind; [apply _|by apply acc_loss|]. intros ?. acc_auto.
Qed.
Hint Resolve acc_parse_failed : keeps.

Lemma acc_incremental_loop meta ts sinks bs batches ending :
  keeps accounts (incremental_loop o meta ts sinks bs batches ending).
Proof. induction batches as [|b batches IH]; simpl; unfold incremental_step; acc_auto. Qed.
Hint Resolve acc_incremental_loop : keeps.

Lemma acc_chunk_incremental raw meta ts sinks n bs :
  keeps accounts (_process_chunk_incrementally o raw meta ts sinks n bs).
Proof. unfold _process_chunk_incrementally, count_bytes_in. acc_auto. Qed.

Lemma acc_chunk_dict raw meta ts sinks : keeps accounts (process_chunk_dict o raw meta ts sinks).
Proof. unfold process_chunk_dict, count_bytes_in. acc_auto. Qed.
Hint Resolve acc_chunk_incremental acc_chunk_dict : keeps.

(** ** Passthrough *)

Lemma pass_attempts_spec i e p nf sm n a x s r t :
  pass_attempts o i e p nf sm n a x s = (r, t) ->
  lost (s_delivery t) = lost (s_delivery s) /\
  exists k out, r = Ok out /\
    s_trace t = s_trace s ++ tries i p k ++
      (match out with None => [EvWrite i p true] | Some _ => [] end).
Proof.
  revert a x s; induction n as [|n IH]; intros a x s H.
  { simpl in H. injection H as <- <-. split; [done|]. exists 0%nat, (Some x). by rewrite app_nil_r. }
  cbn [pass_attempts] in H. unfold try_else at 1 in H. unfold call_log in H.
  destruct (sink_write i p sm (s_world s)) as [[[]|exc] w]; simpl in H.
  - unfold bind, on_ctx, modify, when_stats, cb_success, when_delivery, whenM, ret in H. rewrite Hd in H.
    destruct (o_stats o), (0 <? cb_threshold e); injection H as <- <-;
      rewrite !lost_set_delivery, lost_record_sink; (split; [done|]); by exists 0%nat, None.
  - apply bind_inv in H as [([] & u & H1 & H)|(e' & H1 & ->)].
    2: { apply wait_spec in H1 as ([=] & _). }
    apply wait_spec in H1 as (_ & Ht & Hl). apply IH in H as (Hl' & k & out & -> & Ht').
    split; [by rewrite Hl', Hl|]. exists (S k), out. split; [done|].
    rewrite Ht', Ht. simpl. by rewrite <- !app_assoc.
Qed.

Lemma acc_pass_sink key meta p fs i e :
  fs <> [] -> keeps accounts (pass_write_one_sink o key meta p fs i e).
Proof.
  intros Hne. assert (0 < zlen fs) as Hn by (unfold zlen; destruct fs; simpl in *; [done|lia]).
  unfold pass_write_one_sink. apply keeps_bind; [apply _|acc_auto|]. intros _.
  apply keeps_bind; [apply _|acc_auto|]. intros [|].
  - intros s r t H. apply bind_inv in H as [([] & u & H1 & H)|(? & [=] & _)]. injection H1 as <-.
    unfold on_ctx, when_delivery, whenM, bind, modify, when_stats, ret in H. rewrite Hd in H.
    apply accounts_more. destruct (o_stats o); injection H as <- <-;
      cbn [s_delivery set_stats set_delivery set_ctx log]; rewrite lost_record_loss; lia.
  - intros s r t H. apply bind_inv in H as [([x|] & u & H1 & H)|(x & H1 & ->)];
      apply pass_attempts_spec in H1 as (Hl1 & k & out & [=] & Ht1); subst out.
    + apply accounts_more. rewrite <- Hl1.
      apply bind_inv in H as [([] & v & H1 & H)|(e' & H1 & ->)];
        apply cb_failure_spec in H1 as (Er & _ & Hv); [|done]. rewrite <- Hv.
      unfold when_delivery, whenM, bind, modify, on_ctx, when_stats, throw, ret in H. rewrite Hd in H.
      destruct (decide (o_on_error o = OnAbort)), (decide (o_on_error o = OnRetry)), (o_stats o);
        injection H as <- <-;
        cbn [s_delivery set_stats set_delivery set_ctx]; rewrite lost_record_sink, lost_record_loss; lia.
    + injection H as <- <-. apply accounts_settled; [done|]. eexists. split; [exact Ht1|].
      apply settled_written, settled_nil.
Qed.

Lemma acc_pass_chunk raw meta sinks : keeps accounts (process_chunk o raw meta sinks).
Proof.
  unfold process_chunk, validated_frames, pass_error. do 2 (apply keeps_bind; [apply _|acc_auto|intros _]).
  apply keeps_catch; [apply _| |intros ?; acc_auto].
  apply keeps_try_else; [apply _|acc_auto| |].
  - intros exc. apply keeps_bind; [apply _|by apply acc_loss|intros ?; acc_auto].
  - intros [|f fs]; [acc_auto|]. unfold _write_sinks. set (frames := f :: fs).
    assert (frames <> []) as Hne by done. generalize dependent frames. intros frames Hne.
    apply keeps_bind; [apply _|acc_auto|]. intros payload.
    do 2 (apply keeps_bind; [apply _|acc_auto|intros _]).
    apply keeps_bind; [apply _| |intros ?; acc_auto].
    pose proof (fun key meta i e => acc_pass_sink key meta payload frames i e Hne) as Hsink.
    destruct (_ && _)%bool; [|acc_auto]. apply keeps_bind; [apply _|acc_auto|]. intros order.
    apply keeps_bind; [apply _| |intros ?; acc_auto]. apply keeps_mapM; [apply _|]. intros i.
    destruct (sinks !! i); [|acc_auto]. apply keeps_bind; [apply _|apply acc_attempt, Hsink|intros ?; acc_auto].
Qed.
Hint Resolve acc_pass_chunk : keeps.

Lemma acc_chunk_any p raw meta ts sinks : keeps accounts (_process_chunk p o raw meta ts sinks).
Proof. unfold _process_chunk. acc_auto. Qed.
End with_accounting.

(** ** Runs *)

Lemma acc_batch_op f :
  (forall d, lost (f d) = lost d) -> keeps accounts (modify (set_delivery f) : M W unit).
Proof. intros Hf. apply acc_state. intros s. split; [done|apply Hf]. Qed.

Lemma lost_take k d : lost (take_unit k d).2 = lost d.
Proof. done. Qed.
Lemma lost_register k m d : lost (register_unit k m d).2 = lost d.
Proof. unfold register_unit. by destruct (aget k (d_units d)). Qed.

Hint Extern 2 (keeps accounts (modify (set_delivery _))) =>
  apply acc_batch_op; intros ?; solve [reflexivity | apply lost_register] : keeps.

Lemma acc_commit_loop on_error sinks rcs : keeps accounts (commit_loop on_error sinks rcs).
Proof.
  revert rcs; induction sinks as [|i sinks IH]; intros rcs; simpl;
    unfold barrier_failed, _commit_failure; acc_auto.
Qed.
Lemma acc_latched_loop on_error sinks rcs : keeps accounts (latched_loop on_error sinks rcs).
Proof. induction sinks as [|i sinks IH]; simpl; unfold barrier_failed, _commit_failure; acc_auto. Qed.
Hint Resolve acc_commit_loop acc_latched_loop : keeps.

Lemma acc_commit_receipts c : keeps accounts (_commit_sinks_receipts c).
Proof. unfold _commit_sinks_receipts, barrier_failed, _commit_failure. acc_auto. Qed.
Hint Resolve acc_commit_receipts : keeps.

Lemma acc_finalize c sha key meta u b : keeps accounts (_finalize_batch_source_unit c sha key meta u b).
Proof.
  unfold _finalize_batch_source_unit, finalize_after_barrier, _finalize_source_for_sinks, take_unit_call,
    _ack_source_unit, source_finalize_call, check_unit, checkpoint_unconfirmed, _collect_state_blob,
    _restore_committed_state, _apply_state.
  acc_auto.
Qed.
Hint Resolve acc_finalize : keeps.

Lemma acc_loop_body c sha p hs v raw meta : keeps accounts (loop_body c sha p hs v raw meta).
Proof.
  pose proof (fun ts sinks meta => acc_chunk_any (run_opts c hs true) eq_refl p raw meta ts sinks) as H1.
  pose proof (fun ts sinks meta n bs =>
    acc_chunk_incremental (run_opts c hs true) eq_refl raw meta ts sinks n bs) as H2.
  unfold loop_body, switch_unit, enter_unit, chunk_program. acc_auto.
Qed.
Hint Resolve acc_loop_body : keeps.

Lemma acc_chunk_loop c sha p hs items ending v : keeps accounts (chunk_loop c sha p hs items ending v).
Proof. revert v; induction items as [|[raw meta] items IH]; intros v; simpl; acc_auto. Qed.
Hint Resolve acc_chunk_loop : keeps.

Lemma acc_after_loop c sha v x : keeps accounts (after_loop c sha v x).
Proof. unfold after_loop, _finalize_source_for_sinks, source_finalize_call. acc_auto. Qed.
Hint Resolve acc_after_loop : keeps.

(** A read, and what follows it. *)
Definition reads (a : nat) (s t : st W) : Prop :=
  exists evs, s_trace t = s_trace s ++ EvRead a :: evs /\
    lost (s_delivery s) <= lost (s_delivery t) /\
    (lost (s_delivery t) = lost (s_delivery s) -> settled evs).

Lemma reads_accounts a s t u : reads a s t -> accounts t u -> lost (s_delivery t) = lost (s_delivery s) \/
  lost (s_delivery s) < lost (s_delivery t) -> lost (s_delivery u) = lost (s_delivery s) -> reads a s u.
Proof.
  intros (evs & Ht & Hl & Hs) [Hm Ha] Hcase Hu. destruct (Ha ltac:(lia)) as (evs' & Hu' & Hs').
  exists (evs ++ evs'). rewrite Hu', Ht, <- app_assoc. split; [done|]. split; [lia|].
  intros _. apply settled_app; [apply Hs; lia|done].
Qed.

Lemma loop_grows c sha p hs items ending v :
  keeps (appends (fun _ => True)) (bind (chunk_loop c sha p hs items ending v)
    (fun ve => after_loop c sha ve.1 ve.2)).
Proof.
  assert (BatchRel (W := W) (appends (fun _ => True))) as BR by (by apply appends_batch).
  assert (PreOrder (appends (W := W) (fun _ => True))) as HP by (by apply appends_pre).
  assert (forall key meta u b, keeps (appends (fun _ => True)) (_finalize_batch_source_unit c sha key meta u b)) as Hf.
  { intros key meta u b s r t H. eapply appends_weaken; [|eapply finalize_guarded, H]. done. }
  apply keeps_bind; [exact HP|by apply keeps_chunk_loop|]. intros ve. by apply keeps_after_loop.
Qed.

Lemma sequential_reads c sha p hs a s r t :
  _run_batch_chunks_sequential c sha p hs a s = (r, t) -> reads a s t.
Proof.
  unfold _run_batch_chunks_sequential, bind at 1.
  destruct (read a (s_world s)) as [[items ending] w]. intros H.
  assert (accounts (log (EvRead a) (set_world w s)) t) as [Hl Ha].
  { revert H. apply (keeps_bind accounts); [apply acc_chunk_loop|intros ?; apply acc_after_loop]. }
  destruct (decide (lost (s_delivery t) = lost (s_delivery s))) as [E|E].
  - destruct (Ha E) as (evs & Ht & Hs). exists evs. rewrite Ht. simpl. by rewrite <- app_assoc.
  - (* something was lost: only the shape of the trace matters *)
    assert (appends (fun _ => True) (log (EvRead a) (set_world w s)) t) as (evs & Ht & _).
    { by eapply loop_grows. }
    exists evs. rewrite Ht. simpl. rewrite <- app_assoc. split; [done|]. split; [exact Hl|]. done.
Qed.

Context (content_hash : string -> option string) (registry_url : string).

(** The end of an attempt: the status is the one of its accounting. *)
Lemma save_state_delivery c : keeps (fun s t => s_delivery t = s_delivery s) (_save_state_to_store (W := W) c).
Proof.
  assert (PreOrder (fun s t : st W => s_delivery t = s_delivery s)) as HP
    by (split; [done|intros ? ? ? H1 H2; by rewrite H2]).
  unfold _save_state_to_store, _collect_state_blob. destruct (_ && _)%bool; [|by apply keeps_ret].
  apply keeps_bind; [done| |].
  - apply keeps_foldM; [done|]. intros b tk. apply keeps_try_else; [done|by apply keeps_call_res|..];
      intros; by apply keeps_ret.
  - intros blob. apply keeps_catch; [done|by apply keeps_call_log|]. intros e. by apply keeps_ret.
Qed.
Hint Extern 1 (keeps accounts (_save_state_to_store _)) => unfold _save_state_to_store, _collect_state_blob; acc_auto : keeps.

(** What an attempt does after its chunks, when it does not flush. *)
Lemma attempt_end c (res : RunResult) drained u t :
  (let! commit_ok := _commit_sinks c in
   do! whenM (commit_ok && negb drained)
     (let! message := call_res completion_error in
      match message with None | Some ""%string => ret tt | Some m => throw (Exn CTram m) end) in
   let! status_error :=
     if drained then let! reason := call stop_reason in ret (ABORTED, Some reason)
     else let! d := get s_delivery in ret (_batch_outcome (pl_on_error c) d (negb commit_ok), None) in
   let! s := get (fun s => s) in
   do! _save_state_to_store c in
   ret (with_delivery (s_delivery s) (from_context (s_ctx s) status_error.1 status_error.2))) u = (Ok res, t) ->
  accounts u t /\
  (rr_status res = SUCCESS -> exists ok, _batch_outcome (pl_on_error c) (s_delivery t) ok = SUCCESS).
Proof.
  intros H. split.
  - revert H. apply (fun K : keeps accounts _ => K u (Ok res) t). unfold _commit_sinks. acc_auto.
  - apply bind_ok in H as (ok & u1 & _ & H). apply bind_ok in H as ([] & u2 & _ & H).
    apply bind_ok in H as ([status err] & u3 & H3 & H). apply bind_ok in H as (s' & u4 & H4 & H).
    injection H4 as <- <-. apply bind_ok in H as ([] & u5 & H5 & H). injection H as <- <-.
    apply save_state_delivery in H5. intros Hst. simpl in Hst. destruct drained.
    + apply bind_ok in H3 as (reason & u6 & _ & [= <- <-]). done.
    + apply bind_ok in H3 as (d & u6 & [= <- <-] & [= <- <- <-]). exists (negb ok). by rewrite H5.
Qed.

Lemma batch_attempt_reads c sha hs a s res t :
  batch_attempt content_hash registry_url c sha false hs a s = (Ok res, t) ->
  rr_status res = SUCCESS -> pl_on_error c = OnContinue \/ pl_on_error c = OnRetry ->
  lost (s_delivery s) = 0 -> exists evs, s_trace t = s_trace s ++ EvRead a :: evs /\ settled evs.
Proof.
  intros H Hst Hoe H0. unfold batch_attempt in H.
  apply bind_ok in H as ([] & u & H1 & H). unfold _run_batch_chunks in H1.
  apply bind_ok in H1 as (p & u0 & Hp & H1).
  assert (u0 = s) as ->.
  { destruct (pl_protobuf_passthrough c); [|by injection Hp].
    apply bind_ok in Hp as (rs & u1 & Hr & Hp). unfold lift in Hr. injection Hr as _ <-. by injection Hp. }
  apply sequential_reads in H1. pose proof H1 as (evs1 & _ & Hl1 & _).
  apply bind_ok in H as (drained & v & Hv & H). apply bind_ok in H as ([] & v' & [= <-] & H).
  apply attempt_end in H as [Ha Hs]. destruct (Hs Hst) as [ok Hok].
  assert (has_loss (s_delivery t) = false) as Hh.
  { unfold _batch_outcome in Hok. rewrite bool_decide_eq_true_2 in Hok by done.
    destruct ok; [done|]. by destruct (has_loss (s_delivery t)). }
  assert (accounts u v) as Hv' by (by eapply acc_call).
  assert (accounts u t) as Hut by (etrans; [exact Hv'|exact Ha]). pose proof Hut as [Hm _].
  assert (lost (s_delivery t) <= 0) by (unfold has_loss in Hh; bool_to_prop; unfold lost; lia).
  destruct (reads_accounts a s u t H1 Hut) as (evs & Ht & _ & Hset); [lia|lia|].
  exists evs. split; [done|]. apply Hset. lia.
Qed.

(** Closing the transforms calls nothing that is recorded. *)
Lemma close_trace c b : keeps (fun s t => s_trace t = s_trace s) (_close_stateful_transforms (W := W) c b).
Proof.
  assert (PreOrder (fun s t : st W => s_trace t = s_trace s)) as HP
    by (split; [done|intros ? ? ? H1 H2; by rewrite H2]).
  unfold _close_stateful_transforms. apply keeps_foldM; [done|]. intros em tk.
  apply keeps_try_else; [done|by apply keeps_call_res|..]; intros; by apply keeps_ret.
Qed.

Lemma attempt_loop_reads c sha hs snap n a s res t :
  attempt_loop content_hash registry_url c sha false hs snap n a s = (Ok res, t) ->
  rr_status res = SUCCESS -> pl_on_error c = OnContinue \/ pl_on_error c = OnRetry ->
  exists pre k evs, s_trace t = pre ++ EvRead k :: evs /\ settled evs.
Proof.
  intros H Hst Hoe. revert a s H; induction n as [|n IH]; intros a s H; cbn [attempt_loop] in H.
  { apply bind_ok in H as (ctx & u & _ & [= <- <-]). done. }
  apply bind_ok in H as ([] & u & [= <-] & H). unfold try_else in H.
  destruct (batch_attempt _ _ _ _ _ _ _ _) as [[res'|exc] v] eqn:E.
  - injection H as -> ->. apply batch_attempt_reads in E as (evs & Ht & Hs); [|done..]. eauto.
  - destruct (negb (is_tram exc)); [done|]. destruct (_ && _)%bool.
    + repeat (let x := fresh in apply bind_ok in H as (x & ? & _ & H)). by apply IH in H.
    + apply bind_ok in H as (s' & u & _ & [= <- <-]). done.
Qed.
End loss.



(** ** Where the accounting misses a loss *)

(** A unit with lost records is acknowledged as dead-lettered: under
    [on_error: dlq], with a circuit breaker that trips at the first failure, the
    first chunk of a file fails and goes to the DLQ and the second one is
    skipped by the open breaker; its record is neither written nor dead-lettered,
    yet the file is acknowledged with disposition DLQ and the run reports
    SUCCESS. *)
Theorem breaker_skip_acked_as_dlq :
  exists r t,
    ExecDemo.run (ExecDemo.plain [[Byte.x01; Byte.x02]; [Byte.x03]])
      (ExecDemo.pipeline OnDlq [ExecDemo.local_sink 1 0] true None false) [false] = (Ok r, t) /\
    rr_status r = SUCCESS /\ rr_records_failed r = 1 /\
    ExecDemo.acked t = [DLQ] /\ ExecDemo.written t = [] /\
    ExecDemo.dead_letters t = [Some (ExecDemo.record_of <$> [Byte.x01; Byte.x02])].
Proof. eexists _, _. vm_compute. auto 10. Qed.

(** A chunk whose second batch does not parse. *)
Definition truncated_chunks (raw : bytes) : list (list dict) * option exn :=
  ([ExecDemo.record_of <$> take 1 raw], Some (Exn CTram "truncated BER record")).

(** With [record_chunk_size] a chunk that stops parsing in the middle is
    acknowledged as delivered: the serializer's error, a TramError, passes the
    handler that would dead-letter the chunk and count the loss, so under
    [on_error: dlq] with a DLQ configured the first batch is written, nothing
    reaches the DLQ, no record counts as failed, the file is acknowledged
    DELIVERED and the run reports SUCCESS. *)
Theorem chunked_parse_error_acked_delivered :
  exists r t,
    ExecDemo.run (ExecDemo.mkScript (ExecDemo.file_items [[Byte.x01; Byte.x02]]) truncated_chunks
                    (fun rs => Ok (ExecDemo.byte_of <$> rs)))
      (ExecDemo.pipeline OnDlq [ExecDemo.local_sink 0 0] true (Some 1) false) [] = (Ok r, t) /\
    rr_status r = SUCCESS /\ rr_records_failed r = 0 /\ rr_dlq_succeeded r = 0 /\
    ExecDemo.acked t = [DELIVERED] /\ ExecDemo.written t = [[Byte.x01]] /\ ExecDemo.dead_letters t = [].
Proof. eexists _, _. vm_compute. auto 10. Qed.

(** A batch that does not serialize is dropped under a successful run: two
    records whose serialization raises a TramError are neither written nor
    counted as failed under [on_error: continue]; the run counts one skipped
    record and reports SUCCESS. *)
Theorem serialize_error_reported_success :
  exists r t,
    ExecDemo.run (ExecDemo.mkScript (ExecDemo.file_items [[Byte.x01; Byte.x02]])
                    (fun raw => ([], None)) (fun _ => Raise (Exn CTram "no such field")))
      (ExecDemo.pipeline OnContinue [ExecDemo.local_sink 0 0] false None false) [] = (Ok r, t) /\
    rr_status r = SUCCESS /\ rr_records_in r = 2 /\ rr_records_out r = 0 /\
    rr_records_skipped r = 1 /\ rr_records_failed r = 0 /\ ExecDemo.written t = [].
Proof. eexists _, _. vm_compute. auto 10. Qed.

End ExecLoss.
