(* ===== verification/ExecLaws.v ===== *)
(** * Laws of the sink path

    What the parts of the executor's sink path compute: template partitions,
    the retry loop, the circuit breaker, and the counters of a chunk. *)

From Stdlib Require Import ZArith Lia Ascii String SpecFloat Strings.Byte.
From stdpp Require Import base tactics list strings gmap option.
From S2P Require Import Prelude PyStr Sha256 IsoTime PyVal Paths Transforms CounterDelta Accounting ExecKeys ExecMonad ExecSinks Framing Passthrough ExecBatch ExecDemo ExecRel ExecSafety ExecLoss.
Import stdpp.list.

#[local] Open Scope Z_scope.
#[local] Open Scope list_scope.

Module ExecLaws.
Import PyVal Transforms Accounting ExecKeys ExecMonad ExecSinks Passthrough ExecBatch ExecRel ExecSafety ExecLoss.

(** ** Template partitions *)

Section partitions.
Context {PT : PyText}.
Context (fps : list string).

Notation key_of r := ((fun p => (p, _lookup_record_field r p)) <$> fps).
Notation groups := (list (list (string * string) * list dict)).

Definition add_to_group (g : groups) (r : dict) : groups :=
  aset (key_of r) (default [] (aget (key_of r) g) ++ [r]) g.

(** Groups have distinct keys, and a record lies in the group of its key. *)
Definition grouped (g : groups) : Prop :=
  NoDup g.*1 /\ forall k rs, (k, rs) ∈ g -> Forall (fun r => key_of r = k) rs.

Lemma mjoin_aset (k : list (string * string)) (g : groups) r :
  NoDup g.*1 ->
  mjoin (aset k (default [] (aget k g) ++ [r]) g).*2 ≡ₚ r :: mjoin g.*2.
Proof.
  induction g as [|[k' rs] g IH]; csimpl; intros Hn; [done|]. apply NoDup_cons in Hn as [Hk Hn].
  destruct (decide (k' = k)) as [->|Hne]; csimpl.
  - rewrite <- app_assoc. symmetry. apply Permutation_middle.
  - rewrite IH by done. symmetry. apply Permutation_middle.
Qed.

Lemma elem_of_aset {K V} `{EqDecision K} (k : K) (v : V) l p :
  NoDup l.*1 -> p ∈ aset k v l -> p = (k, v) \/ (p ∈ l /\ p.1 <> k).
Proof.
  induction l as [|[k' v'] l IH]; csimpl; intros Hn Hp.
  { apply list_elem_of_singleton in Hp. auto. }
  apply NoDup_cons in Hn as [Hk Hn]. destruct (decide (k' = k)) as [->|Hne];
    apply elem_of_cons in Hp as [->|Hp].
  - auto.
  - right. split; [by right|]. intros <-. apply Hk. by apply list_elem_of_fmap_2.
  - right. split; [by left|done].
  - apply IH in Hp as [->|[Hp Hne']]; [by left|right|done]. split; [by right|done].
Qed.

Lemma NoDup_aset {K V} `{EqDecision K} (k : K) (v : V) l : NoDup l.*1 -> NoDup (aset k v l).*1.
Proof.
  intros Hn. destruct (decide (k ∈ l.*1)) as [Hin|Hout]; [by rewrite keys_aset_in|].
  rewrite aset_fresh by done. rewrite fmap_app. apply NoDup_app. split; [done|]. split.
  - intros x Hx Hx'. apply list_elem_of_singleton in Hx' as ->. done.
  - apply NoDup_singleton.
Qed.

Lemma add_to_group_ok g r :
  grouped g -> grouped (add_to_group g r) /\ mjoin (add_to_group g r).*2 ≡ₚ r :: mjoin g.*2.
Proof.
  intros [Hn Hg]. split; [|by apply mjoin_aset]. split; [by apply NoDup_aset|].
  intros k rs Hin. apply elem_of_aset in Hin as [[= -> ->]|[Hin _]]; [|by eapply Hg|done].
  apply Forall_app. split; [|by repeat constructor].
  destruct (aget (key_of r) g) as [rs|] eqn:E; simpl; [|done].
  apply (Hg _ rs). by apply aget_Some_elem.
Qed.

Lemma fold_groups records g :
  grouped g ->
  grouped (fold_left add_to_group records g) /\
  mjoin (fold_left add_to_group records g).*2 ≡ₚ records ++ mjoin g.*2.
Proof.
  revert g; induction records as [|r records IH]; intros g Hg; simpl; [done|].
  destruct (add_to_group_ok g r Hg) as [Hg' Hp]. destruct (IH _ Hg') as [H1 H2].
  split; [done|]. rewrite H2, Hp. symmetry. apply Permutation_middle.
Qed.
End partitions.

(** Grouping by the fields of a filename template neither loses nor
    invents a record: the partitions together are the records, no two
    partitions have the same field values, and every record lies in the
    partition of its own field values. *)
Theorem partitions_conserve_records {PT : PyText} records template parts :
  _partition_records_for_template records template = Ok parts ->
  mjoin parts.*2 ≡ₚ records /\ NoDup parts.*1 /\
  forall field_values rs r path value, (field_values, rs) ∈ parts -> r ∈ rs ->
    (path, value) ∈ field_values -> _lookup_record_field r path = value.
Proof.
  assert (forall ps, Ok (E := exn) [([] : list (string * string), records)] = Ok ps ->
    mjoin ps.*2 ≡ₚ records /\ NoDup ps.*1 /\
    forall fv rs r p v, (fv, rs) ∈ ps -> r ∈ rs -> (p, v) ∈ fv -> _lookup_record_field r p = v) as Hone.
  { intros ps [= <-]. csimpl. rewrite app_nil_r. split; [done|]. split; [apply NoDup_singleton|].
    intros fv rs r p v [= -> ->]%list_elem_of_singleton _ Hp. by apply elem_of_nil in Hp. }
  unfold _partition_records_for_template. destruct template as [[|a tm]|]; [by apply Hone| |by apply Hone].
  intros H. apply res_bind_ok in H as (fps & _ & H). destruct fps as [|fp fps]; [by apply Hone|].
  set (ps := fp :: fps) in *. injection H as <-.
  destruct (fold_groups ps records []) as [[Hn Hg] Hp].
  { split; [constructor|]. intros k rs Hin. by apply elem_of_nil in Hin. }
  fold (add_to_group (PT := PT) ps) in *. unfold add_to_group in *.
  split; [by rewrite app_nil_r in Hp|]. split; [done|].
  intros fv rs r p v Hin Hr Hpv. apply Hg in Hin. rewrite Forall_forall in Hin. specialize (Hin _ Hr).
  rewrite <- Hin in Hpv. apply list_elem_of_fmap_1 in Hpv as (q & [= -> ->] & _). done.
Qed.

Definition msc_records : list dict :=
  [[("msc"%string, VStr "A")]; [("msc"%string, VStr "B")]; [("msc"%string, VStr "A"); ("n"%string, VInt 2)]].

Lemma partitions_conserve_records_witness :
  mjoin ([([("msc", "A")], [[("msc", VStr "A")]; [("msc", VStr "A"); ("n", VInt 2)]]);
          ([("msc", "B")], [[("msc", VStr "B")]])] : list (list (string * string) * list dict)).*2
    ≡ₚ msc_records.
Proof.
  exact (proj1 (@partitions_conserve_records ExecDemo.demo_text msc_records
    (Some "cdr_{field.msc}_{part}.json") _ ltac:(vm_compute; reflexivity))).
Defined.

(** ** Retries *)

(** The writes of a trace to one sink. *)
Definition is_write (e : event) : bool := match e with EvWrite _ _ _ => true | _ => false end.
Definition is_written (e : event) : bool := match e with EvWrite _ _ true => true | _ => false end.

Lemma filter_tries_writes i d k : List.filter is_write (tries i d k) = tries i d k.
Proof. unfold tries. induction k as [|k IH]; simpl; [done|]. by rewrite IH. Qed.
Lemma filter_tries_written i d k : List.filter is_written (tries i d k) = [].
Proof. unfold tries. induction k as [|k IH]; simpl; [done|]. by rewrite IH. Qed.

(** The retry loop of a sink write never raises and is bounded: it makes
    at most [retry_count + 1] calls of the sink, at most one of them succeeds
    and nothing is tried after it, and it reports failure only after exactly
    [retry_count + 1] failed calls. *)
Theorem write_tries_bounded {W} {EX : External W} o i e data sink_meta n attempt x (s t : st W) r :
  write_attempts o i e data sink_meta n attempt x s = (r, t) ->
  exists out evs, r = Ok out /\ s_trace t = s_trace s ++ evs /\
    (length (List.filter is_write evs) <= n)%nat /\
    match out with
    | None => List.filter is_written evs = [EvWrite i data true] /\ last evs = Some (EvWrite i data true)
    | Some _ => evs = tries i data n
    end.
Proof.
  intros H. apply write_attempts_spec in H as (_ & k & out & -> & Ht & Hk & Hk1 & Hk2).
  exists out, (tries i data k ++ match out with None => [EvWrite i data true] | Some _ => [] end).
  split; [done|]. split; [done|]. rewrite !List.filter_app, filter_tries_writes, filter_tries_written, length_app.
  assert (length (tries i data k) = k) as Hlen by apply length_replicate.
  destruct out as [x'|]; simpl; rewrite Hlen.
  - rewrite (Hk2 ltac:(done)), app_nil_r. split; [lia|done].
  - specialize (Hk1 eq_refl). split; [lia|]. split; [done|]. apply last_snoc.
Qed.

Lemma write_tries_bounded_witness :
  exists out evs,
    s_trace (@write_attempts ExecDemo.world (ExecDemo.demo (ExecDemo.plain [])) 
      (run_opts (ExecDemo.pipeline OnContinue [] false None false) true true) 0 (ExecDemo.local_sink 0 2)
      [Byte.x07] [] 3 0 None (ExecDemo.start [false; false])).2 = [] ++ evs /\
    (length (List.filter is_write evs) <= 3)%nat /\ out = @None (option exn).
Proof.
  destruct (@write_tries_bounded ExecDemo.world (ExecDemo.demo (ExecDemo.plain []))
    (run_opts (ExecDemo.pipeline OnContinue [] false None false) true true) 0 (ExecDemo.local_sink 0 2)
    [Byte.x07] [] 3 0 None (ExecDemo.start [false; false]) _ _ (surjective_pairing _))
    as (out & evs & Hr & Ht & Hn & _).
  exists out, evs. split; [exact Ht|]. split; [exact Hn|]. vm_compute in Hr. injection Hr as <-. reflexivity.
Defined.

(** ** The circuit breaker *)

(** A history of exhausted ([false]) and successful ([true]) writes of one
    sink, as the executor records it. *)
Definition breaker_history {W} {EX : External W} (threshold : Z) (key : string) (window : spec_float)
  (outcomes : list bool) : M W unit :=
  iterM (fun ok : bool => if ok then cb_success threshold key else cb_failure threshold key window) outcomes.

(** The failures since the last success. *)
Fixpoint failures_since (n : Z) (outcomes : list bool) : Z :=
  match outcomes with
  | [] => n
  | true :: l => failures_since 0 l
  | false :: l => failures_since (n + 1) l
  end.

Section breaker.
Context {W : Type} {EX : External W} (threshold : Z) (key : string) (window : spec_float).

(** The breaker is open from the [threshold]-th failure in a row on. *)
Definition breaker_state (fo : Z * spec_float) (n : Z) : Prop :=
  fo.1 = n /\
  if threshold <=? n then exists w : W, fo.2 = SFadd prec emax (monotonic w).1 window
  else fo.2 = float_zero.

Lemma breaker_step (ok : bool) (s t : st W) r n :
  0 < threshold -> breaker_state (cb_of key (s_cb s)) n ->
  (if ok then cb_success threshold key else cb_failure threshold key window) s = (r, t) ->
  r = Ok tt /\ breaker_state (cb_of key (s_cb t)) (if ok then 0 else n + 1).
Proof.
  intros Hth [Hn _] H. assert ((0 <? threshold) = true) as E by (by apply Z.ltb_lt).
  unfold cb_success, cb_failure, whenM, bind, get, call, modify, ret in H. rewrite E in H. destruct ok.
  - injection H as <- <-. split; [done|]. unfold cb_of. simpl. rewrite aget_aset. split; [done|].
    assert ((threshold <=? 0) = false) as -> by (apply Z.leb_gt; lia). done.
  - rewrite Hn in H. destruct (threshold <=? n + 1) eqn:Et.
    + destruct (monotonic (s_world s)) as [now w] eqn:Em. injection H as <- <-.
      split; [done|]. unfold cb_of. simpl. rewrite aget_aset. split; [done|]. rewrite Et.
      exists (s_world s). by rewrite Em.
    + injection H as <- <-. split; [done|]. unfold cb_of. simpl. rewrite aget_aset. split; [done|].
      by rewrite Et.
Qed.

Lemma breaker_run outcomes (s t : st W) r n :
  0 < threshold -> breaker_state (cb_of key (s_cb s)) n ->
  breaker_history threshold key window outcomes s = (r, t) ->
  r = Ok tt /\ breaker_state (cb_of key (s_cb t)) (failures_since n outcomes).
Proof.
  intros Hth. revert s n; induction outcomes as [|ok outcomes IH]; intros s n Hs H; simpl in H.
  { by injection H as <- <-. }
  apply bind_inv in H as [([] & u & H1 & H)|(e & H1 & ->)].
  - eapply breaker_step in H1 as [_ Hu]; [|done|exact Hs]. destruct ok; by eapply IH.
  - eapply breaker_step in H1 as [[=] _]; done.
Qed.
End breaker.

(** The circuit breaker of a sink counts failures in a row: after any
    history of exhausted and successful writes from a closed breaker, its count
    is the number of failures since the last success, and it is open, until the
    clock reading of the last failure plus the window, exactly when that number
    has reached the threshold. *)
Theorem breaker_trips_at_threshold {W} {EX : External W} threshold key window outcomes (s t : st W) r :
  0 < threshold -> cb_of key (s_cb s) = (0, float_zero) ->
  breaker_history threshold key window outcomes s = (r, t) ->
  r = Ok tt /\ (cb_of key (s_cb t)).1 = failures_since 0 outcomes /\
  if threshold <=? failures_since 0 outcomes
  then exists w : W, (cb_of key (s_cb t)).2 = SFadd prec emax (monotonic w).1 window
  else (cb_of key (s_cb t)).2 = float_zero.
Proof.
  intros Hth H0 H. eapply (breaker_run threshold key window) in H as [-> [H1 H2]]; [done|done|].
  rewrite H0. split; [done|]. assert ((threshold <=? 0) = false) as -> by (apply Z.leb_gt; lia). done.
Qed.

Lemma breaker_trips_at_threshold_witness :
  (cb_of "k" (s_cb (@breaker_history ExecDemo.world (ExecDemo.demo (ExecDemo.plain [])) 2 "k"
    (float_of_int 60) [false; true; false; false] (ExecDemo.start [])).2)).1 = 2.
Proof.
  exact (proj1 (proj2 (@breaker_trips_at_threshold ExecDemo.world (ExecDemo.demo (ExecDemo.plain [])) 2 "k"
    (float_of_int 60) [false; true; false; false] (ExecDemo.start []) _ _ eq_refl eq_refl
    (surjective_pairing _)))).
Defined.

(** ** Counters of a chunk *)

(** A sink that takes every record: no condition, transform or template. *)
Definition takes_all (e : sink_entry) : Prop :=
  sk_condition e = None /\ sk_transforms e = [] /\ _sink_filename_template e = None.

Section counters.
Context {W : Type} {EX : External W} {PT : PyText}.

Definition counts (s : st W) : Z * Z * Z :=
  (cx_records_in (s_ctx s), cx_records_out (s_ctx s), cx_records_skipped (s_ctx s)).

Definition same_counts (s t : st W) : Prop := counts t = counts s.

#[local] Instance same_counts_pre : PreOrder same_counts.
Proof. split; [done|]. intros s t u H1 H2. unfold same_counts in *. congruence. Qed.

Lemma same_state (f : st W -> st W) : (forall s, counts (f s) = counts s) -> keeps same_counts (modify f).
Proof. intros Hf. apply keeps_modify. exact Hf. Qed.

Ltac counts_leaf :=
  match goal with
  | |- keeps _ (call _) => apply keeps_call; done
  | |- keeps _ (call_res _) => apply keeps_call_res; done
  | |- keeps _ (call_log _ _) => apply keeps_call_log; done
  | |- keeps _ (modify _) => apply same_state; done
  | |- keeps _ (on_ctx _) => apply same_state; done
  | |- keeps _ (when_stats _ _) => unfold when_stats
  | |- keeps _ (when_delivery _ _) => unfold when_delivery
  | |- keeps _ _ => solve [auto with keeps]
  end.
Ltac counts_auto := repeat (counts_leaf || keeps_struct).

Lemma counts_write_attempts o i e data sm n a x : keeps same_counts (write_attempts o i e data sm n a x).
Proof. revert a x; induction n as [|n IH]; intros a x; simpl; unfold cb_success; counts_auto. Qed.
Hint Resolve counts_write_attempts : keeps.

Lemma counts_partition_failed o key e x recs : keeps same_counts (partition_failed o key e x recs).
Proof. unfold partition_failed, _write_dlq_envelope, _spool_dlq_envelope. counts_auto. Qed.
Hint Resolve counts_partition_failed : keeps.

Lemma counts_write_partitions o key meta i e parts w : keeps same_counts (write_partitions o key meta i e parts w).
Proof.
  revert w; induction parts as [|[fv recs] parts IH]; intros w; simpl; unfold cb_failure; counts_auto.
Qed.
Hint Resolve counts_write_partitions : keeps.

Lemma counts_write_one_sink o key meta recs i e :
  takes_all e -> keeps same_counts (_write_one_sink o key meta recs i e).
Proof.
  intros (H1 & H2 & H3). unfold _write_one_sink. rewrite H1, H2. simpl.
  unfold cb_open, _rate_limit. counts_auto.
Qed.

(** Such a sink writes all of the records or none of them. *)
Lemma all_or_nothing o key meta recs i e s n t :
  takes_all e -> _write_one_sink o key meta recs i e s = (Ok n, t) -> n = 0 \/ n = zlen recs.
Proof.
  intros (H1 & H2 & H3) H. unfold _write_one_sink in H. rewrite H1, H2, H3 in H. simpl in H.
  apply bind_ok in H as (f & u & [= <- <-] & H). destruct recs as [|r0 recs]; [apply ret_ok in H as [<- _]; auto|].
  apply bind_ok in H as (sr & u & [= <- <-] & H). set (all := r0 :: recs) in *.
  apply bind_ok in H as ([] & u1 & _ & H). apply bind_ok in H as ([|] & u2 & _ & H).
  - repeat (let x := fresh in apply bind_ok in H as (x & ? & _ & H)). apply ret_ok in H as [<- _]. auto.
  - apply bind_ok in H as (ps & u3 & [= <- <-] & H). simpl in H.
    apply bind_ok in H as (data & u4 & _ & H). apply bind_ok in H as ([x|] & u5 & _ & H).
    + repeat (let x := fresh in apply bind_ok in H as (x & ? & _ & H)). apply ret_ok in H as [<- _]. auto.
    + repeat (let x := fresh in apply bind_ok in H as (x & ? & _ & H)). apply ret_ok in H as [<- _]. auto.
Qed.

Lemma gather_all (P : Z -> Prop) rs ns :
  gather rs = Ok ns -> (forall n, Ok n ∈ rs -> P n) -> Forall P ns.
Proof.
  revert ns; induction rs as [|[n|e] rs IH]; simpl; intros ns H HP; [by injection H as <-| |done].
  apply res_bind_ok in H as (ns' & H1 & [= <-]). constructor; [apply HP; by left|].
  apply IH; [done|]. intros m Hm. apply HP. by right.
Qed.

(** What every element of a loop's result satisfies. *)
Lemma mapM_forall {A B} (f : A -> M W B) (P : B -> Prop) l s bs t :
  (forall a s b t, a ∈ l -> f a s = (Ok b, t) -> P b) -> mapM f l s = (Ok bs, t) -> Forall P bs.
Proof.
  revert s bs; induction l as [|a l IH]; intros s bs Hf H; simpl in H; [by injection H as <- <-|].
  apply bind_ok in H as (b & u & H1 & H). apply bind_ok in H as (bs' & v & H2 & [= <- <-]).
  constructor; [eapply Hf; [by left|exact H1]|]. eapply IH; [|exact H2].
  intros a' s' b' t' Ha. apply Hf. by right.
Qed.

Lemma written_all_or_nothing o key meta recs sinks s ns t :
  Forall takes_all sinks -> write_all_sinks o key meta recs sinks s = (Ok ns, t) ->
  Forall (fun n => n = 0 \/ n = zlen recs) ns.
Proof.
  intros Hs H. rewrite Forall_lookup in Hs. unfold write_all_sinks in H. destruct (_ && _)%bool.
  - apply bind_ok in H as (order & u & _ & H). apply bind_ok in H as (outs & v & H1 & H).
    injection H as H <-. eapply gather_all; [exact H|]. intros n Hn.
    apply list_elem_of_omap in Hn as (i & _ & Hi). apply aget_Some_elem in Hi.
    apply list_elem_of_join in Hi as (l & Hl & Hout).
    assert (Forall (fun l => forall j n, (j, Ok n) ∈ l -> n = 0 \/ n = zlen recs) outs) as Hall.
    { eapply mapM_forall; [|exact H1]. intros j s' l' t' _ Hj k m Hm. cbn beta in Hj.
      destruct (sinks !! j) as [e|] eqn:Ej; [|apply ret_ok in Hj as [<- _]; by apply elem_of_nil in Hm].
      apply bind_ok in Hj as (r & u' & Hr & [= <- <-]). apply list_elem_of_singleton in Hm as [= -> <-].
      unfold outcome_of in Hr. destruct (_write_one_sink o key meta recs j e s') as [r' q] eqn:Ew.
      injection Hr as -> <-. eapply all_or_nothing; [by eapply Hs|exact Ew]. }
    rewrite Forall_forall in Hall. by eapply Hall.
  - eapply mapM_forall; [|exact H]. intros [i e] s' n t' Hin Hw.
    apply list_elem_of_lookup in Hin as (k & Hk). apply lookup_zip_Some in Hk as (Hi & He).
    eapply all_or_nothing; [by eapply Hs|exact Hw].
Qed.

Lemma counts_write_all o key meta recs sinks :
  Forall takes_all sinks -> keeps same_counts (write_all_sinks o key meta recs sinks).
Proof.
  intros Hs. rewrite Forall_lookup in Hs. unfold write_all_sinks. destruct (_ && _)%bool.
  - apply keeps_bind; [apply _|counts_auto|]. intros order. apply keeps_bind; [apply _| |intros ?; counts_auto].
    apply keeps_mapM; [apply _|]. intros i. destruct (sinks !! i) as [e|] eqn:E; [|counts_auto].
    apply keeps_bind; [apply _| |intros ?; counts_auto]. intros s r t. unfold outcome_of.
    destruct (_write_one_sink o key meta recs i e s) as [x u] eqn:Ew. intros [= <- <-].
    eapply counts_write_one_sink; [by eapply Hs|exact Ew].
  - assert (forall l, (forall ie, ie ∈ l -> takes_all ie.2) ->
      keeps same_counts (mapM (fun ie : nat * sink_entry => _write_one_sink o key meta recs ie.1 ie.2) l)) as Hm.
    { induction l as [|[i e] l IH]; intros Hl; simpl; [counts_auto|].
      apply keeps_bind; [apply _|apply counts_write_one_sink, (Hl (i, e)); by left|]. intros n.
      apply keeps_bind; [apply _|apply IH; intros ie Hie; apply Hl; by right|intros ?; counts_auto]. }
    apply Hm. intros [i e] Hin. apply list_elem_of_lookup in Hin as (k & Hk).
    apply lookup_zip_Some in Hk as (_ & He). by eapply Hs.
Qed.

(** No transforms: the records go on as they are. *)
Lemma no_transforms o records meta (s : st W) :
  _apply_global_transforms o records [] meta s = (Ok records, s).
Proof.
  unfold _apply_global_transforms.
  assert (forall acc, foldM (fun surviving record =>
    try_else (transform_chain [] meta record)
      (fun exc => bind (transform_failed o (_source_unit_key meta) "transform error" [record] exc)
                    (fun _ => ret surviving))
      (fun processed => ret (surviving ++ processed))) records acc s = (Ok (acc ++ records), s)) as H.
  { induction records as [|r records IH]; intros acc; simpl; [by rewrite app_nil_r|].
    unfold bind at 1, try_else at 1, transform_chain. simpl. rewrite IH. by rewrite <- app_assoc. }
  apply H.
Qed.

Lemma max_written_cases n ns :
  0 <= n -> Forall (fun m => m = 0 \/ m = n) ns -> max_written ns = 0 \/ max_written ns = n.
Proof.
  intros Hn H. destruct H as [|m ns Hm H]; simpl; [by left|].
  assert (forall acc, acc = 0 \/ acc = n -> fold_left Z.max ns acc = 0 \/ fold_left Z.max ns acc = n) as Hf.
  { induction H as [|k ns Hk _ IH]; intros acc Ha; simpl; [done|]. apply IH. lia. }
  by apply Hf.
Qed.

(** The end of [_process_records]: the counters move by the chunk. *)
Lemma chunk_counted o key (records : list dict) written (s t : st W) r :
  written = 0 \/ written = zlen records ->
  (do! when_delivery o (record_chunk key (zlen records) written) in
   do! (if 0 <? written then
          do! on_ctx (inc_records_out written) in when_stats o (mkDelta 0 written 0 0 0 0 [])
        else
          match records with
          | [] => ret tt
          | _ =>
              do! on_ctx (inc_records_skipped (zlen records)) in
              do! when_stats o (mkDelta 0 0 (zlen records) 0 0 0 []) in
              on_ctx (note_skip skip_msg)
          end) in
   ret true) s = (r, t) ->
  let '(n_in, n_out, n_skip) := counts s in
  let '(n_in', n_out', n_skip') := counts t in
  n_in' = n_in /\ n_out' + n_skip' = n_out + n_skip + zlen records.
Proof.
  intros Hw. unfold when_delivery, when_stats, on_ctx, whenM, bind, modify, ret.
  destruct (0 <? written) eqn:E; bool_to_prop.
  - destruct Hw as [->| ->]; [lia|].
    destruct (o_delivery o), (o_stats o); intros [= <- <-]; unfold counts; simpl; lia.
  - assert (written = 0) as -> by (unfold zlen in Hw; lia).
    destruct records as [|r0 records]; destruct (o_delivery o), (o_stats o); intros [= <- <-];
      unfold counts; simpl; unfold zlen; simpl; lia.
Qed.

Lemma chunk_conserves o records meta sinks s t :
  Forall takes_all sinks -> o_count_records_in o = true ->
  _process_records o records meta [] sinks s = (Ok true, t) ->
  let '(n_in, n_out, n_skip) := counts s in
  let '(n_in', n_out', n_skip') := counts t in
  n_in' = n_in + zlen records /\ n_out' + n_skip' = n_out + n_skip + zlen records.
Proof.
  intros Hs Hc H. unfold _process_records, catch in H.
  match type of H with context [bind ?m ?k s] => destruct (bind m k s) as [[b|exc] u] eqn:E end.
  2: { unfold on_tram_error in H. destruct (negb (is_tram exc)); [done|]. destruct (_ || _)%bool; [done|].
       apply bind_ok in H as (l & v & _ & H). destruct (_ && _)%bool; [done|].
       repeat (let x := fresh in apply bind_ok in H as (x & ? & _ & H)). by apply ret_ok in H as [[=] _]. }
  injection H as -> ->. rewrite Hc in E. cbn [whenM] in E.
  apply bind_ok in E as ([] & s1 & H1 & E). apply bind_ok in E as (recs & s2 & H2 & E).
  rewrite no_transforms in H2. injection H2 as <- <-.
  apply bind_ok in E as (ns & s3 & H3 & E).
  pose proof (written_all_or_nothing _ _ _ _ _ _ _ _ Hs H3) as Hn.
  apply counts_write_all in H3; [|done]. apply chunk_counted in E; [|apply max_written_cases; [apply zlen_nonneg|done]].
  rewrite H3 in E.
  assert (counts s1 = (cx_records_in (s_ctx s) + zlen records, cx_records_out (s_ctx s), cx_records_skipped (s_ctx s))) as Hs1.
  { unfold bind, on_ctx, modify, when_stats, whenM, ret in H1. by destruct (o_stats o); injection H1 as <-. }
  rewrite Hs1 in E. unfold counts in *. simpl in *. destruct (counts t) eqn:Et. unfold counts in Et. simplify_eq. lia.
Qed.
End counters.

(** Every record of a chunk is counted once: when [_process_records]
    succeeds without transforms on sinks that have no condition, transform or
    template, [records_in] grows by the records of the chunk and [records_out]
    plus [records_skipped] grow by as much, whichever sinks fail, are retried
    or are skipped by their breaker, sequentially or in parallel. *)
Theorem skipped_is_in_minus_out {W} {EX : External W} {PT : PyText} o records meta sinks (s t : st W) :
  Forall takes_all sinks -> o_count_records_in o = true ->
  _process_records o records meta [] sinks s = (Ok true, t) ->
  cx_records_in (s_ctx t) = cx_records_in (s_ctx s) + zlen records /\
  cx_records_out (s_ctx t) + cx_records_skipped (s_ctx t)
    = cx_records_out (s_ctx s) + cx_records_skipped (s_ctx s) + zlen records.
Proof. intros Hs Hc H. exact (chunk_conserves o records meta sinks s t Hs Hc H). Qed.

Lemma skipped_is_in_minus_out_witness :
  let t := (@_process_records ExecDemo.world (ExecDemo.demo (ExecDemo.plain [])) ExecDemo.demo_text
    (run_opts (ExecDemo.pipeline OnContinue [] false None false) true true)
    (ExecDemo.record_of <$> [Byte.x01; Byte.x02]) [] [] [ExecDemo.local_sink 0 0; ExecDemo.local_sink 0 0]
    (ExecDemo.start [false; false])).2 in
  cx_records_out (s_ctx t) + cx_records_skipped (s_ctx t) = 2.
Proof.
  refine (proj2 (@skipped_is_in_minus_out ExecDemo.world (ExecDemo.demo (ExecDemo.plain [])) ExecDemo.demo_text
    (run_opts (ExecDemo.pipeline OnContinue [] false None false) true true)
    (ExecDemo.record_of <$> [Byte.x01; Byte.x02]) [] [ExecDemo.local_sink 0 0; ExecDemo.local_sink 0 0]
    (ExecDemo.start [false; false]) _ _ eq_refl _)); [|vm_compute; reflexivity].
  repeat (apply List.Forall_cons; [repeat split|]). apply List.Forall_nil.
Defined.

(** Records in groups by field, of which the second group cannot be written. *)
Definition template_sink : sink_entry :=
  mkSinkEntry "LocalSink" None []
    (Some (mkSinkConfig "local" 0 (float_of_int 60) 0 (float_of_int 1))) false
    [(Some "out_{field.n}.json"%string, None)].

(** The identity fails for a partial write: with a filename template, a
    chunk of two records of which the second partition cannot be written counts
    two records in, one out and none skipped. *)
Theorem partial_write_not_counted_skipped :
  let t := (@_process_records ExecDemo.world (ExecDemo.demo (ExecDemo.plain [])) ExecDemo.demo_text
    (run_opts (ExecDemo.pipeline OnContinue [] false None false) true true)
    (ExecDemo.record_of <$> [Byte.x01; Byte.x02]) [] [] [template_sink] (ExecDemo.start [true; false])).2 in
  cx_records_in (s_ctx t) = 2 /\ cx_records_out (s_ctx t) = 1 /\ cx_records_skipped (s_ctx t) = 0.
Proof. vm_compute. auto. Qed.

End ExecLaws.
