(* ===== verification/BatchThreads.v ===== *)
(** * The threaded batch loop

    [_run_batch_chunks_threaded] of tram/pipeline/executor.py as a step
    relation: the reading thread submits chunks, drains the oldest future when
    the in-flight window is full, and finalizes source units whose chunks are
    all drained, while the pool processes the submitted chunks in any order.
    A pool step processes one whole chunk ([chunk_program]); chunks interleave
    with each other and with the reader at that granularity.

    Units and tasks carry the number of their source unit in the order of
    registration, and the history records submissions, processed chunks and
    finalizations by that number; the code does not read them. *)

From Stdlib Require Import ZArith Lia Ascii String SpecFloat Strings.Byte.
From stdpp Require Import base tactics list strings gmap option.
From S2P Require Import Prelude PyStr Sha256 IsoTime PyVal Paths Transforms CounterDelta Accounting ExecKeys ExecMonad ExecSinks Framing Passthrough ExecBatch ExecDemo.
Import stdpp.list.

#[local] Open Scope Z_scope.
#[local] Open Scope list_scope.

Module BatchThreads.
Import PyVal Transforms Accounting ExecKeys ExecMonad ExecSinks Passthrough ExecBatch.

Definition _batch_inflight_cap (thread_workers : Z) : Z := Z.max 1 (thread_workers * 2).

(** A submitted chunk and its future. *)
Record task := mkTask {
  tk_raw : bytes;
  tk_meta : dict;
  tk_key : option unit_key;
  tk_unit : nat;
  tk_result : option (res exn bool) }.

(** An entry of [units]: key, first meta, remaining chunks, fully submitted,
    outcome; and its number. *)
Record unit_entry := mkEntry {
  ue_key : unit_key;
  ue_meta : dict;
  ue_remaining : Z;
  ue_submitted : bool;
  ue_outcome : option _UnitOutcome;
  ue_id : nat }.

(** Where the reading thread is: before pulling an item, after a submission,
    draining at the end, returned, or raised. *)
Inductive phase := PRead | PCheck | PFinish | PDone | PFailed (e : exn).

Inductive hist := HSubmit (u : nat) | HWork (u : nat) | HFinalize (u : nat).

Record tstate (W : Type) := mkTState_ {
  t_items : list (bytes * dict);
  t_inflight : list task;
  t_units : list unit_entry;
  t_phase : phase;
  t_next : nat;
  t_st : st W;
  t_hist : list hist }.
Arguments mkTState_ {W}.
Arguments t_items {W}.
Arguments t_inflight {W}.
Arguments t_units {W}.
Arguments t_phase {W}.
Arguments t_next {W}.
Arguments t_st {W}.
Arguments t_hist {W}.

(** [units[-1][3] = True]. *)
Definition close_last (us : list unit_entry) : list unit_entry :=
  match last us with
  | None => us
  | Some u => take (length us - 1) us
              ++ [mkEntry (ue_key u) (ue_meta u) (ue_remaining u) true (ue_outcome u) (ue_id u)]
  end.

(** [units[-1][2] += 1]. *)
Definition bump_last (us : list unit_entry) : list unit_entry :=
  match last us with
  | None => us
  | Some u => take (length us - 1) us
              ++ [mkEntry (ue_key u) (ue_meta u) (ue_remaining u + 1) (ue_submitted u) (ue_outcome u) (ue_id u)]
  end.

Section threads.
Context {W : Type} {EX : External W} {PT : PyText}.
Context (c : PipelineConfig) (config_sha256 : string) (passthrough has_stats : bool) (thread_workers : Z).
(** The exception [source.read()] ends with, if any. *)
Context (ending : option exn).

(** [_submit]: the unit is registered before the future can start. *)
Definition _submit (raw : bytes) (meta : dict) (rest : list (bytes * dict)) (ts : tstate W) : tstate W :=
  let '(key, meta) := _batch_source_unit_key (_augment_chunk_meta meta (s_ctx (t_st ts))) in
  match key with
  | None =>
      mkTState_ rest (t_inflight ts ++ [mkTask raw meta None (t_next ts) None]) (t_units ts) PCheck
        (t_next ts) (t_st ts) (t_hist ts)
  | Some k =>
      let meta := mark_safe_finalize meta in
      let same := match last (t_units ts) with Some u => bool_decide (ue_key u = k) | None => false end in
      if same then
        let id := match last (t_units ts) with Some u => ue_id u | None => t_next ts end in
        mkTState_ rest (t_inflight ts ++ [mkTask raw meta key id None]) (bump_last (t_units ts)) PCheck
          (t_next ts) (t_st ts) (t_hist ts ++ [HSubmit id])
      else
        let '(u, d) := register_unit k meta (s_delivery (t_st ts)) in
        let entry := mkEntry k meta 1 (is_some (_broker_meta_unit_key meta)) (Some u) (t_next ts) in
        mkTState_ rest (t_inflight ts ++ [mkTask raw meta key (t_next ts) None])
          (close_last (t_units ts) ++ [entry]) PCheck (S (t_next ts))
          (set_delivery (fun _ => d) (t_st ts)) (t_hist ts ++ [HSubmit (t_next ts)])
  end.

(** What a drained future's exception costs. *)
Definition drain_error (exc : exn) : M W unit :=
  if negb (is_tram exc) then throw exc
  else if decide (pl_on_error c = OnAbort) then throw exc
  else
    let! lost := get (fun s => has_loss (s_delivery s)) in
    if (bool_decide (pl_on_error c = OnRetry) && lost)%bool then throw exc
    else
      do! on_ctx (record_error (exn_str exc)) in
      whenM has_stats (modify (set_stats (increment (mkDelta 0 0 1 0 0 0 [exn_str exc])))).

(** The accounting of a drained chunk on the units: the unit to finalize, if
    its last chunk was drained. *)
Definition count_down (key : option unit_key) (us : list unit_entry) : list unit_entry * option unit_entry :=
  match key, us with
  | Some k, u :: us' =>
      if decide (ue_key u = k) then
        let u' := mkEntry (ue_key u) (ue_meta u) (ue_remaining u - 1) (ue_submitted u) (ue_outcome u) (ue_id u) in
        if ((ue_remaining u' =? 0) && ue_submitted u')%bool then (us', Some u') else (u' :: us', None)
      else (us, None)
  | _, _ => (us, None)
  end.

(** The entries of one key hold one outcome object: once it is taken out of
    the accounting, they see its final value. *)
Definition settle (k : unit_key) (final : option _UnitOutcome) (us : list unit_entry) : list unit_entry :=
  match final with
  | None => us
  | Some v =>
      (fun e => if decide (ue_key e = k)
                then mkEntry (ue_key e) (ue_meta e) (ue_remaining e) (ue_submitted e) (Some v) (ue_id e)
                else e) <$> us
  end.

(** [_drain_one] on a future whose result is [r]. *)
Definition _drain_one (tk : task) (r : res exn bool) (rest : list task) (ts : tstate W) : tstate W :=
  let '(r1, s1) := match r with Ok _ => (Ok tt, t_st ts) | Raise exc => drain_error exc (t_st ts) end in
  match r1 with
  | Raise e => mkTState_ (t_items ts) rest (t_units ts) (PFailed e) (t_next ts) s1 (t_hist ts)
  | Ok _ =>
      match count_down (tk_key tk) (t_units ts) with
      | (us, None) => mkTState_ (t_items ts) rest us (t_phase ts) (t_next ts) s1 (t_hist ts)
      | (us, Some u) =>
          let '(r2, s2) := _finalize_batch_source_unit c config_sha256 (ue_key u) (ue_meta u) (ue_outcome u) true s1 in
          mkTState_ (t_items ts) rest
            (settle (ue_key u) (finish <$> aget (ue_key u) (d_units (s_delivery s1))) us)
            (match r2 with Ok _ => t_phase ts | Raise e => PFailed e end)
            (t_next ts) s2 (t_hist ts ++ [HFinalize (ue_id u)])
      end
  end.

Definition set_phase (p : phase) (us : list unit_entry) (ts : tstate W) : tstate W :=
  mkTState_ (t_items ts) (t_inflight ts) us p (t_next ts) (t_st ts) (t_hist ts).

Definition window_full (ts : tstate W) : bool := _batch_inflight_cap thread_workers <=? zlen (t_inflight ts).

Definition batch_reached (ts : tstate W) : bool :=
  match pl_batch_size c with
  | Some b => negb (b =? 0) && (b <=? cx_records_in (s_ctx (t_st ts)))
  | None => false
  end.

(** One step of the reading thread or of the pool. *)
Inductive tstep : tstate W -> tstate W -> Prop :=
| step_submit ts raw meta rest w :
    t_phase ts = PRead -> t_items ts = (raw, meta) :: rest ->
    stop_requested (s_world (t_st ts)) = (false, w) ->
    tstep ts (_submit raw meta rest
      (mkTState_ (t_items ts) (t_inflight ts) (t_units ts) (t_phase ts) (t_next ts)
         (set_world w (t_st ts)) (t_hist ts)))
| step_stop ts item rest w :
    t_phase ts = PRead -> t_items ts = item :: rest ->
    stop_requested (s_world (t_st ts)) = (true, w) ->
    tstep ts (mkTState_ (t_items ts) (t_inflight ts) (close_last (t_units ts)) PFinish (t_next ts)
                (set_world w (t_st ts)) (t_hist ts))
| step_source_end ts :
    t_phase ts = PRead -> t_items ts = [] -> ending = None ->
    tstep ts (set_phase PFinish (close_last (t_units ts)) ts)
| step_source_error ts e :
    t_phase ts = PRead -> t_items ts = [] -> ending = Some e ->
    tstep ts (set_phase (PFailed e) (t_units ts) ts)
| step_work ts before tk after r s' :
    t_inflight ts = before ++ tk :: after -> tk_result tk = None ->
    chunk_program c passthrough has_stats (tk_raw tk) (tk_meta tk) (t_st ts) = (r, s') ->
    tstep ts (mkTState_ (t_items ts)
      (before ++ mkTask (tk_raw tk) (tk_meta tk) (tk_key tk) (tk_unit tk) (Some r) :: after)
      (t_units ts) (t_phase ts) (t_next ts) s'
      (t_hist ts ++ match tk_key tk with Some _ => [HWork (tk_unit tk)] | None => [] end))
| step_drain ts tk r rest :
    (t_phase ts = PCheck /\ window_full ts = true) \/ t_phase ts = PFinish ->
    t_inflight ts = tk :: rest -> tk_result tk = Some r ->
    tstep ts (_drain_one tk r rest ts)
| step_batch_size ts :
    t_phase ts = PCheck -> window_full ts = false -> batch_reached ts = true ->
    tstep ts (set_phase PFinish (t_units ts) ts)
| step_next ts :
    t_phase ts = PCheck -> window_full ts = false -> batch_reached ts = false ->
    tstep ts (set_phase PRead (t_units ts) ts)
| step_done ts :
    t_phase ts = PFinish -> t_inflight ts = [] ->
    tstep ts (set_phase PDone (t_units ts) ts).

Definition t_start (items : list (bytes * dict)) (s : st W) : tstate W :=
  mkTState_ items [] [] PRead 0 s [].

Definition reachable (items : list (bytes * dict)) (s : st W) : tstate W -> Prop :=
  rtc tstep (t_start items s).
End threads.

(** ** The invariant *)

Definition finalized (e : hist) : option nat := match e with HFinalize n => Some n | _ => None end.
Definition submits (n : nat) (h : list hist) : nat := length (List.filter (fun e => match e with HSubmit m => Nat.eqb m n | _ => false end) h).
Definition works (n : nat) (h : list hist) : nat := length (List.filter (fun e => match e with HWork m => Nat.eqb m n | _ => false end) h).
(** Chunks of unit [n] in flight and not processed yet. *)
Definition undone (n : nat) (l : list task) : nat :=
  length (List.filter (fun tk => Nat.eqb (tk_unit tk) n && negb (is_some (tk_result tk)))%bool l).

(** A finalized unit was completely processed before, and nothing follows. *)
Definition clean (h : list hist) : Prop :=
  forall h1 n h2, h = h1 ++ HFinalize n :: h2 ->
    submits n h1 = works n h1 /\ HSubmit n ∉ h2 /\ HWork n ∉ h2.

(** The (unit, key) of the chunks in flight, by the counters of the units. *)
Definition slots (us : list unit_entry) : list (nat * option unit_key) :=
  mjoin ((fun u => replicate (Z.to_nat (ue_remaining u)) (ue_id u, Some (ue_key u))) <$> us).

Definition reading (p : phase) : bool := match p with PRead | PCheck => true | _ => false end.

(** A unit entry: no counter is negative, an entry at zero waits for more
    chunks, and none is at zero while the reader submits. *)
Definition entry_ok (p : phase) (u : unit_entry) : Prop :=
  0 <= ue_remaining u /\ (ue_remaining u = 0 -> ue_submitted u = false) /\
  (reading p = true -> 0 < ue_remaining u).

Fixpoint entries_ok (p : phase) (us : list unit_entry) : Prop :=
  match us with
  | [] => True
  | u :: us' => entry_ok p u /\ (us' <> [] -> ue_submitted u = true) /\ entries_ok p us'
  end.

Record inv_running {W} (ts : tstate W) : Prop := {
  iv_slots : (fun tk => (tk_unit tk, tk_key tk)) <$> t_inflight ts = slots (t_units ts);
  iv_entries : entries_ok (t_phase ts) (t_units ts);
  iv_len : (length (t_units ts) <= t_next ts)%nat;
  iv_ids : ue_id <$> t_units ts = seq (t_next ts - length (t_units ts)) (length (t_units ts));
  iv_fin : omap finalized (t_hist ts) = seq 0 (t_next ts - length (t_units ts)) }.

(** Holds also after the reader raised. *)
Record inv_always {W} (ts : tstate W) : Prop := {
  ia_counts : forall n, (submits n (t_hist ts) = works n (t_hist ts) + undone n (t_inflight ts))%nat;
  ia_clean : clean (t_hist ts);
  ia_live : forall tk, tk ∈ t_inflight ts -> HFinalize (tk_unit tk) ∉ t_hist ts;
  ia_keyed : Forall (fun tk => is_some (tk_key tk) = true) (t_inflight ts) }.

Definition failed (p : phase) : bool := match p with PFailed _ => true | _ => false end.

Definition inv {W} (ts : tstate W) : Prop :=
  inv_always ts /\ (failed (t_phase ts) = false -> inv_running ts).

(** ** Lists *)

Lemma entries_ok_app p us v :
  entries_ok p (us ++ [v]) <->
  Forall (fun u => entry_ok p u /\ ue_submitted u = true) us /\ entry_ok p v.
Proof.
  induction us as [|u us IH]; simpl; [split; [intros (?&_)|intros [_ ?]]; naive_solver|].
  rewrite Forall_cons, IH. assert (us ++ [v] <> []) by (by destruct us). naive_solver.
Qed.

Lemma last_split {A} (l : list A) x : last l = Some x -> l = take (length l - 1) l ++ [x].
Proof.
  intros H. apply last_Some in H as [l' ->]. rewrite length_app. simpl.
  replace (length l' + 1 - 1)%nat with (length l') by lia. by rewrite take_app_length.
Qed.

Lemma slots_app us vs : slots (us ++ vs) = slots us ++ slots vs.
Proof. unfold slots. by rewrite fmap_app, join_app. Qed.

Lemma settle_slots k o us : slots (settle k o us) = slots us.
Proof.
  destruct o; [|done]. unfold slots, settle. rewrite <- list_fmap_compose. f_equal. apply list_fmap_ext.
  intros i e _. simpl. by destruct (decide (ue_key e = k)).
Qed.

Lemma settle_ids k o us : ue_id <$> settle k o us = ue_id <$> us.
Proof.
  destruct o; [|done]. unfold settle. rewrite <- list_fmap_compose. apply list_fmap_ext.
  intros i e _. simpl. by destruct (decide (ue_key e = k)).
Qed.

Lemma settle_length k o us : length (settle k o us) = length us.
Proof. destruct o; [|done]. apply length_fmap. Qed.

Lemma settle_entries k o q us : entries_ok q us -> entries_ok q (settle k o us).
Proof.
  destruct o as [v|]; [|done]. unfold settle. induction us as [|u us IH]; csimpl; [done|].
  intros (H1 & H2 & H3). split_and!; [|intros Hn; destruct (decide _); simpl; apply H2; by intros ->|by apply IH].
  by destruct (decide (ue_key u = k)).
Qed.

Lemma submits_app n h h' : submits n (h ++ h') = (submits n h + submits n h')%nat.
Proof. unfold submits. by rewrite List.filter_app, length_app. Qed.
Lemma works_app n h h' : works n (h ++ h') = (works n h + works n h')%nat.
Proof. unfold works. by rewrite List.filter_app, length_app. Qed.
Lemma undone_app n l l' : undone n (l ++ l') = (undone n l + undone n l')%nat.
Proof. unfold undone. by rewrite List.filter_app, length_app. Qed.

Lemma undone_none n l : (forall tk, tk ∈ l -> tk_unit tk <> n) -> undone n l = 0%nat.
Proof.
  unfold undone. induction l as [|tk l IH]; intros H; simpl; [done|].
  assert (Nat.eqb (tk_unit tk) n = false) as -> by (apply Nat.eqb_neq, H; by left). simpl.
  apply IH. intros tk' Hin. apply H. by right.
Qed.

(** Appending an event that is no finalization keeps a history clean when its
    unit is not finalized. *)
Lemma clean_snoc h e :
  clean h -> finalized e = None ->
  (forall n, e = HSubmit n \/ e = HWork n -> HFinalize n ∉ h) -> clean (h ++ [e]).
Proof.
  intros Hc He Hn h1 n h2 Heq. destruct h2 as [|x h2 _] using rev_ind.
  - apply app_inj_tail in Heq as [_ ->]. done.
  - change (HFinalize n :: h2 ++ [x]) with ((HFinalize n :: h2) ++ [x]) in Heq.
    rewrite app_assoc in Heq. apply app_inj_tail in Heq as [-> ->].
    destruct (Hc _ _ _ eq_refl) as (H1 & H2 & H3). split; [done|].
    assert (HFinalize n ∈ h1 ++ HFinalize n :: h2) as Hin by (rewrite elem_of_app, elem_of_cons; auto).
    rewrite !not_elem_of_app, !not_elem_of_cons. split_and!; try done; try apply not_elem_of_nil;
      intros <-; by eapply Hn; eauto.
Qed.

Lemma clean_finalize h n :
  clean h -> submits n h = works n h -> HFinalize n ∉ h -> clean (h ++ [HFinalize n]).
Proof.
  intros Hc Hs Hn h1 m h2 Heq. destruct h2 as [|x h2 _] using rev_ind.
  - apply app_inj_tail in Heq as [-> [= ->]]. split; [done|]. split; apply not_elem_of_nil.
  - change (HFinalize m :: h2 ++ [x]) with ((HFinalize m :: h2) ++ [x]) in Heq.
    rewrite app_assoc in Heq. apply app_inj_tail in Heq as [-> <-].
    destruct (Hc _ _ _ eq_refl) as (H1 & H2 & H3). split; [done|].
    rewrite !not_elem_of_app, !not_elem_of_cons. split_and!; try done; apply not_elem_of_nil.
Qed.

Lemma finalized_in (h : list hist) n : HFinalize n ∈ h <-> n ∈ omap finalized h.
Proof.
  rewrite list_elem_of_omap. split; [intros H; eauto|]. by intros ([] & H & [= ->]).
Qed.

(** Units in flight are not finalized. *)
Lemma running_live {W} (ts : tstate W) u :
  inv_running ts -> u ∈ t_units ts -> HFinalize (ue_id u) ∉ t_hist ts.
Proof.
  intros [_ _ Hl Hi Hf] Hu. rewrite finalized_in, Hf, elem_of_seq.
  assert (ue_id u ∈ seq (t_next ts - length (t_units ts)) (length (t_units ts))) as Hin.
  { rewrite <- Hi. by apply list_elem_of_fmap_2. }
  apply elem_of_seq in Hin. lia.
Qed.

(** ** Steps *)

Section preservation.
Context {W : Type} {EX : External W} {PT : PyText}.
Context (c : PipelineConfig) (config_sha256 : string) (passthrough has_stats : bool) (thread_workers : Z).
Context (ending : option exn).
Hypothesis many_workers : 1 < thread_workers.
Implicit Types (ts : tstate W).

(** Every item of the source has a unit identity. *)
Definition all_keyed (items : list (bytes * dict)) : Prop :=
  Forall (fun rm => forall ctx, is_some (_batch_source_unit_key (_augment_chunk_meta rm.2 ctx)).1 = true) items.

Lemma entries_ok_phase p q us :
  (reading q = true -> reading p = true) -> entries_ok p us -> entries_ok q us.
Proof.
  intros Hpq. induction us as [|u us IH]; simpl; [done|]. unfold entry_ok. intros ((H1 & H2 & H3) & H4 & H5).
  split_and!; auto.
Qed.

Lemma slots_last us u :
  last us = Some u -> 0 <= ue_remaining u ->
  slots (bump_last us) = slots us ++ [(ue_id u, Some (ue_key u))].
Proof.
  intros Hl Hr. unfold bump_last. rewrite Hl. rewrite (last_split _ _ Hl) at 3. rewrite !slots_app.
  rewrite <- app_assoc. f_equal. unfold slots. csimpl. rewrite !app_nil_r.
  rewrite Z2Nat.inj_add, replicate_add by lia. done.
Qed.

Lemma slots_close us : slots (close_last us) = slots us.
Proof.
  unfold close_last. destruct (last us) as [u|] eqn:Hl; [|done].
  rewrite (last_split _ _ Hl) at 3. rewrite !slots_app. done.
Qed.

Lemma ids_close us : ue_id <$> close_last us = ue_id <$> us.
Proof.
  unfold close_last. destruct (last us) as [u|] eqn:Hl; [|done].
  rewrite (last_split _ _ Hl) at 3. by rewrite !fmap_app.
Qed.
Lemma ids_bump us : ue_id <$> bump_last us = ue_id <$> us.
Proof.
  unfold bump_last. destruct (last us) as [u|] eqn:Hl; [|done].
  rewrite (last_split _ _ Hl) at 3. by rewrite !fmap_app.
Qed.
Lemma len_close us : length (close_last us) = length us.
Proof. rewrite <- (length_fmap ue_id (close_last us)), ids_close. apply length_fmap. Qed.
Lemma len_bump us : length (bump_last us) = length us.
Proof. rewrite <- (length_fmap ue_id (bump_last us)), ids_bump. apply length_fmap. Qed.

Lemma entries_close p us :
  reading p = true -> entries_ok p us ->
  Forall (fun u => entry_ok p u /\ ue_submitted u = true) (close_last us).
Proof.
  intros Hp H. unfold close_last. destruct (last us) as [u|] eqn:Hl.
  - rewrite (last_split _ _ Hl) in H. apply entries_ok_app in H as [H1 (H2 & H3 & H4)].
    rewrite Forall_app, Forall_singleton. split; [done|]. split; [|done]. specialize (H4 Hp).
    split_and!; simpl; [lia|lia|lia].
  - apply last_None in Hl as ->. constructor.
Qed.

Lemma forall_entries p us :
  Forall (fun u => entry_ok p u /\ ue_submitted u = true) us -> entries_ok p us.
Proof. induction 1 as [|u us [H1 H2] _ IH]; simpl; auto. Qed.

Lemma entries_bump p us u :
  last us = Some u -> entries_ok p us -> entries_ok p (bump_last us).
Proof.
  intros Hl H. unfold bump_last. rewrite Hl. rewrite (last_split _ _ Hl) in H.
  apply entries_ok_app in H as [H1 (H2 & H3 & H4)]. apply entries_ok_app. split; [done|].
  unfold entry_ok. simpl. split_and!; [lia|lia|lia].
Qed.

(** A phase change that keeps units and tasks. *)
Lemma inv_phase ts q :
  failed (t_phase ts) = false -> (reading q = true -> reading (t_phase ts) = true) ->
  inv ts -> inv (set_phase q (t_units ts) ts).
Proof.
  intros Hf Hq [Ha Hr]. specialize (Hr Hf). split; [by destruct Ha|]. intros _. destruct Hr. split; try done.
  by eapply entries_ok_phase.
Qed.

(** The last unit is closed and the reader drains. *)
Lemma inv_finish ts (s' : st W) :
  t_phase ts = PRead -> inv ts ->
  inv (mkTState_ (t_items ts) (t_inflight ts) (close_last (t_units ts)) PFinish (t_next ts) s' (t_hist ts)).
Proof.
  intros Hp [Ha Hr]. rewrite Hp in Hr. destruct (Hr eq_refl) as [H1 H2 H3 H4 H5]. split; [by destruct Ha|].
  intros _. rewrite Hp in H2. split; simpl; rewrite ?len_close, ?ids_close, ?slots_close; try done.
  apply (entries_ok_phase PRead); [done|]. by apply forall_entries, entries_close.
Qed.

(** Another task in flight, for a unit that is not finalized. *)
Lemma always_submit ts items us q n' (s' : st W) tk id :
  tk_unit tk = id -> tk_result tk = None -> is_some (tk_key tk) = true ->
  HFinalize id ∉ t_hist ts -> inv_always ts ->
  inv_always (mkTState_ items (t_inflight ts ++ [tk]) us q n' s' (t_hist ts ++ [HSubmit id])).
Proof.
  intros Hu Hres Hkey Hfin [H1 H2 H3 H4]. split; simpl.
  - intros n. rewrite submits_app, works_app, undone_app, H1. unfold submits, works, undone. simpl.
    rewrite Hu, Hres. simpl. rewrite andb_true_r. destruct (Nat.eqb id n); simpl; lia.
  - apply clean_snoc; [done|done|]. intros n [[= <-]|[=]]. done.
  - intros tk'. rewrite elem_of_app, list_elem_of_singleton. intros [Hin| ->];
      rewrite not_elem_of_app, not_elem_of_cons; (split; [|split; [done|apply not_elem_of_nil]]); [auto|].
    by rewrite Hu.
  - apply Forall_app. by repeat constructor.
Qed.

Lemma fin_submit h id : omap finalized (h ++ [HSubmit id]) = omap finalized h.
Proof. rewrite omap_app. simpl. apply app_nil_r. Qed.

(** A chunk of a unit that is not the last one registers a new unit. *)
Lemma inv_new_unit ts raw meta rest k u d broker :
  t_phase ts = PRead -> inv ts ->
  inv (mkTState_ rest (t_inflight ts ++ [mkTask raw meta (Some k) (t_next ts) None])
         (close_last (t_units ts) ++ [mkEntry k meta 1 broker (Some u) (t_next ts)]) PCheck (S (t_next ts))
         (set_delivery d (t_st ts)) (t_hist ts ++ [HSubmit (t_next ts)])).
Proof.
  intros Hp [Ha Hr]. rewrite Hp in Hr. specialize (Hr eq_refl). pose proof Hr as [H1 H2 H3 H4 H5].
  rewrite Hp in H2. set (n := t_next ts) in *. split.
  - eapply always_submit; try done. rewrite finalized_in, H5, elem_of_seq. lia.
  - intros _. split; simpl; rewrite ?length_app, ?len_close, ?fin_submit; simpl.
    + rewrite fmap_app, H1, slots_app, slots_close. done.
    + apply entries_ok_app. split; [|unfold entry_ok; simpl; split_and!; lia].
      eapply Forall_impl; [exact (entries_close PRead _ eq_refl H2)|]. intros v [Hv ?]. split; [|done].
      destruct Hv as (? & ? & Hv). split_and!; [done|done|]. intros _. by apply Hv.
    + lia.
    + rewrite fmap_app, ids_close, H4. simpl. rewrite Nat.add_1_r, seq_S.
      replace (S n - S (length (t_units ts)))%nat with (n - length (t_units ts))%nat by lia.
      do 2 f_equal. lia.
    + rewrite H5. f_equal. lia.
Qed.

Lemma inv_submit ts raw meta rest :
  t_phase ts = PRead -> all_keyed ((raw, meta) :: rest) -> inv ts -> inv (_submit raw meta rest ts).
Proof.
  intros Hp Hk Hinv. apply Forall_cons in Hk as [Hk _].
  specialize (Hk (s_ctx (t_st ts))). simpl in Hk. unfold _submit.
  destruct (_batch_source_unit_key _) as [[k|] meta']; [|done]. clear Hk.
  destruct (register_unit k (mark_safe_finalize meta') (s_delivery (t_st ts))) as [u d].
  destruct (last (t_units ts)) as [v|] eqn:Hl; [case_bool_decide as Hku|]; [|by apply inv_new_unit..].
  destruct Hinv as [Ha Hr]. rewrite Hp in Hr. specialize (Hr eq_refl). pose proof Hr as [H1 H2 H3 H4 H5].
  rewrite Hp in H2.
  assert (v ∈ t_units ts) as Hin by (rewrite (last_split _ _ Hl), elem_of_app, list_elem_of_singleton; auto).
  split; [by eapply always_submit; [..|by apply running_live|]|]. intros _. split; simpl;
    rewrite ?len_bump, ?ids_bump, ?fin_submit; try done.
  - rewrite fmap_app, H1, (slots_last _ v); [by rewrite <- Hku|done|].
    rewrite (last_split _ _ Hl) in H2. apply entries_ok_app in H2 as [_ (? & _)]. done.
  - eapply entries_bump; [done|]. by apply (entries_ok_phase PRead).
Qed.

(** A processed chunk. *)
Lemma inv_work ts before tk after r (s' : st W) :
  t_inflight ts = before ++ tk :: after -> tk_result tk = None -> inv ts ->
  inv (mkTState_ (t_items ts)
      (before ++ mkTask (tk_raw tk) (tk_meta tk) (tk_key tk) (tk_unit tk) (Some r) :: after)
      (t_units ts) (t_phase ts) (t_next ts) s'
      (t_hist ts ++ match tk_key tk with Some _ => [HWork (tk_unit tk)] | None => [] end)).
Proof.
  intros Hfl Hres [[H1 H2 H3 H4] Hr]. rewrite Hfl in *.
  assert (exists k, tk_key tk = Some k) as [k Hk].
  { apply Forall_app in H4 as [_ H4]. apply Forall_cons in H4 as [H4 _]. destruct (tk_key tk); [eauto|done]. }
  assert (HFinalize (tk_unit tk) ∉ t_hist ts) as Hfin by (apply H3; rewrite elem_of_app, elem_of_cons; auto).
  rewrite Hk. split.
  - split; simpl.
    + intros n. specialize (H1 n). rewrite undone_app in H1. rewrite submits_app, works_app, undone_app.
      unfold submits, works, undone in *. simpl in *. rewrite Hres in H1. simpl in H1. rewrite andb_true_r in H1.
      rewrite andb_false_r. destruct (Nat.eqb (tk_unit tk) n); simpl in *; lia.
    + apply clean_snoc; [done|done|]. intros n [[=]|[= <-]]. done.
    + intros tk' Hin. rewrite not_elem_of_app, not_elem_of_cons. split; [|split; [done|apply not_elem_of_nil]].
      rewrite elem_of_app, elem_of_cons in Hin. destruct Hin as [Hin|[->|Hin]]; [|exact Hfin|];
        apply H3; rewrite elem_of_app, elem_of_cons; auto.
    + rewrite Forall_app, Forall_cons in *. simpl. naive_solver.
  - intros Hf. destruct (Hr Hf) as [R1 R2 R3 R4 R5]. split; simpl; try done.
    + rewrite Hfl in R1. rewrite fmap_app in *. csimpl in *. by rewrite Hk in R1.
    + rewrite omap_app. simpl. by rewrite app_nil_r.
Qed.

(** The head in flight belongs to the first unit. *)
Lemma head_of_first ts tk rest :
  inv_running ts -> t_inflight ts = tk :: rest ->
  exists u us, t_units ts = u :: us /\ tk_unit tk = ue_id u /\ tk_key tk = Some (ue_key u) /\
    0 < ue_remaining u /\
    (fun t => (tk_unit t, tk_key t)) <$> rest
      = replicate (Z.to_nat (ue_remaining u - 1)) (ue_id u, Some (ue_key u)) ++ slots us.
Proof.
  intros [H1 H2 _ _ _] Hfl. rewrite Hfl in H1. csimpl in H1.
  destruct (t_units ts) as [|u us]; [done|]. exists u, us. split; [done|].
  simpl in H2. destruct H2 as ((Hge & Hz & _) & Hsub & H2).
  unfold slots in H1. csimpl in H1.
  destruct (decide (ue_remaining u = 0)) as [E|E].
  - (* an entry at zero is the last one *)
    rewrite E in H1. destruct us as [|u' us]; [done|].
    specialize (Hsub ltac:(done)). specialize (Hz E). congruence.
  - replace (Z.to_nat (ue_remaining u)) with (S (Z.to_nat (ue_remaining u - 1))) in H1 by lia.
    simpl in H1. injection H1 as Hu Hk Hrest. split_and!; [done|done|lia|exact Hrest].
Qed.

(** A task leaves the window. *)
Lemma always_drain ts tk r rest items us q n' (s' : st W) :
  t_inflight ts = tk :: rest -> tk_result tk = Some r -> inv_always ts ->
  inv_always (mkTState_ items rest us q n' s' (t_hist ts)).
Proof.
  intros Hfl Hr [H1 H2 H3 H4]. rewrite Hfl in *. split; simpl; try done.
  - intros n. rewrite (H1 n). unfold undone. simpl. rewrite Hr. simpl. by rewrite andb_false_r.
  - intros tk' Hin. apply H3. by right.
  - by apply Forall_cons in H4 as [_ H4].
Qed.

(** The first unit is done: it leaves [units] and is finalized. *)
Lemma inv_pop ts tk r rest u us q k o (s' : st W) :
  t_inflight ts = tk :: rest -> tk_result tk = Some r -> inv_always ts -> inv_running ts ->
  t_units ts = u :: us -> ue_remaining u = 1 ->
  (fun t => (tk_unit t, tk_key t)) <$> rest = slots us -> entries_ok q us ->
  inv (mkTState_ (t_items ts) rest (settle k o us) q (t_next ts) s' (t_hist ts ++ [HFinalize (ue_id u)])).
Proof.
  intros Hfl Hres Ha Hrun Hus Hone Hrest Hq. pose proof Hrun as [R1 R2 R3 R4 R5]. rewrite Hus in *.
  csimpl in R4. simpl length in *.
  assert (ue_id u = (t_next ts - S (length us))%nat /\
          ue_id <$> us = seq (t_next ts - length us) (length us)) as [Hid Hids].
  { injection R4 as Hi Hs. split; [done|]. rewrite Hs. f_equal. lia. }
  assert (forall t, t ∈ rest -> tk_unit t <> ue_id u) as Hother.
  { intros t Ht E. assert ((tk_unit t, tk_key t) ∈ slots us) as Hin.
    { rewrite <- Hrest. change (tk_unit t, tk_key t) with ((fun t => (tk_unit t, tk_key t)) t).
      by apply list_elem_of_fmap_2. }
    apply list_elem_of_join in Hin as (l & Hl1 & Hl2). apply list_elem_of_fmap_1 in Hl2 as (v & -> & Hv).
    apply elem_of_replicate in Hl1 as [[= E' _] _].
    assert (ue_id v ∈ seq (t_next ts - length us) (length us)) as Hin
      by (rewrite <- Hids; by apply list_elem_of_fmap_2).
    apply elem_of_seq in Hin. lia. }
  assert (HFinalize (ue_id u) ∉ t_hist ts) as Hfin by (apply running_live; [done|rewrite Hus; by left]).
  pose proof (always_drain ts tk r rest (t_items ts) us q (t_next ts) s' Hfl Hres Ha) as [H1 H2 H3 H4].
  simpl in *. split; [split; simpl|intros _; split; simpl];
    rewrite ?settle_slots, ?settle_ids, ?settle_length; try done; [..|by apply settle_entries| |].
  - intros n. rewrite submits_app, works_app, H1. unfold submits, works. simpl. lia.
  - apply clean_finalize; [done| |done]. rewrite H1, (undone_none _ rest) by done. lia.
  - intros t Ht. rewrite not_elem_of_app, list_elem_of_singleton. split; [auto|]. intros [= E].
    by apply (Hother t).
  - lia.
  - rewrite omap_app, R5. simpl. rewrite Hid.
    replace (t_next ts - length us)%nat with (S (t_next ts - S (length us))) by lia. by rewrite seq_S.
Qed.

Lemma window_two ts tk rest : window_full thread_workers ts = true -> t_inflight ts = tk :: rest -> rest <> [].
Proof.
  unfold window_full, _batch_inflight_cap. intros H Hfl. rewrite Hfl in H. bool_to_prop.
  intros ->. unfold zlen in H. simpl in H. lia.
Qed.

Lemma inv_drain ts tk r rest :
  (t_phase ts = PCheck /\ window_full thread_workers ts = true) \/ t_phase ts = PFinish ->
  t_inflight ts = tk :: rest -> tk_result tk = Some r -> inv ts ->
  inv (_drain_one c config_sha256 has_stats tk r rest ts).
Proof.
  intros Hp Hfl Hres [Ha Hr].
  assert (inv_running ts) as Hrun by (apply Hr; by destruct Hp as [[-> _]| ->]).
  destruct (head_of_first _ _ _ Hrun Hfl) as (u & us & Hus & Hu & Hk & Hpos & Hrest).
  assert (entries_ok (t_phase ts) us) as Heus by (destruct Hrun as [_ H2 _ _ _]; rewrite Hus in H2; apply H2).
  unfold _drain_one.
  destruct (match r with Ok _ => _ | Raise exc => _ end) as [[x|e] s1];
    [|split; [by eapply always_drain|done]].
  rewrite Hus, Hk. unfold count_down. rewrite decide_True by done. simpl ue_remaining. simpl ue_submitted.
  destruct (ue_remaining u - 1 =? 0) eqn:Ez; [destruct (ue_submitted u) eqn:Esub|]; simpl; bool_to_prop.
  - (* the last chunk of a complete unit *)
    assert (ue_remaining u = 1) as Hone by lia. rewrite Hone in Hrest. simpl in Hrest.
    destruct (_finalize_batch_source_unit _ _ _ _ _ _ s1) as [[[]|e] s2];
      (eapply inv_pop; [done|done|done|done|done|done|done|]); [done|].
    by eapply entries_ok_phase, Heus.
  - (* the reader may still submit to it: it is the last one, and the window is empty *)
    assert (us = [] /\ t_phase ts = PFinish) as [-> Hpf].
    { destruct Hrun as [_ H2 _ _ _]. rewrite Hus in H2. simpl in H2. destruct H2 as (_ & H2 & _).
      assert (us = []) as -> by (destruct us; [done|]; specialize (H2 ltac:(done)); congruence).
      split; [done|]. destruct Hp as [[Hp Hw]|Hp]; [|done]. exfalso.
      eapply window_two; [exact Hw|exact Hfl|].
      replace (ue_remaining u) with 1 in Hrest by lia. simpl in Hrest. by apply fmap_nil_inv in Hrest. }
    split; [by eapply always_drain|]. intros _. destruct Hrun as [_ H2 R3 R4 R5]. rewrite Hus in *.
    split; cbn [t_inflight t_units t_phase t_next t_hist]; try done.
    rewrite Hpf. simpl. unfold entry_ok. simpl. split_and!; try done; lia.
  - split; [by eapply always_drain|]. intros _. destruct Hrun as [_ H2 R3 R4 R5]. rewrite Hus in *.
    split; cbn [t_inflight t_units t_phase t_next t_hist]; try done.
    simpl in *. destruct H2 as ((? & ? & ?) & ? & ?). unfold entry_ok. simpl. split_and!; try done; lia.
Qed.

Lemma inv_step ts ts' :
  all_keyed (t_items ts) ->
  tstep c config_sha256 passthrough has_stats thread_workers ending ts ts' ->
  inv ts -> inv ts' /\ all_keyed (t_items ts').
Proof.
  intros Hk Hs Hi. destruct Hs as [ts raw meta rest w Hp Hit _|ts item rest w Hp _ _|ts Hp _ _|ts e Hp _ _
    |ts before tk after r s' Hfl Hres _|ts tk r rest Hp Hfl Hres|ts Hp Hw _|ts Hp Hw _|ts Hp Hfl].
  - rewrite Hit in Hk. split.
    + apply (inv_submit (mkTState_ _ _ _ _ _ _ _)); [done|done|]. destruct Hi as [[] Hr].
      split; [done|]. intros Hf. by destruct (Hr Hf).
    + apply Forall_cons in Hk as [_ Hk]. unfold _submit. repeat case_match; simpl; done.
  - split; [by apply inv_finish|done].
  - split; [by apply inv_finish|done].
  - split; [|done]. apply inv_phase; [by rewrite Hp|done|done].
  - split; [by apply inv_work|done].
  - split; [by apply inv_drain|]. unfold _drain_one. repeat case_match; simpl; done.
  - split; [|done]. apply inv_phase; [by rewrite Hp|done|done].
  - split; [|done]. apply inv_phase; [by rewrite Hp|by rewrite Hp|done].
  - split; [|done]. apply inv_phase; [by rewrite Hp|done|done].
Qed.

Lemma inv_reachable items s ts :
  all_keyed items ->
  reachable c config_sha256 passthrough has_stats thread_workers ending items s ts -> inv ts.
Proof.
  intros Hk H. assert (inv (t_start items s)) as H0.
  { split; [split; simpl; try done|intros _; split; simpl; try done].
    - intros h1 n h2 E. by destruct h1.
    - intros tk Hin. by apply elem_of_nil in Hin. }
  revert Hk H0. unfold reachable in H. change items with (t_items (t_start items s)) at 1.
  induction H as [ts|ts ts' ts'' Hs _ IH]; intros Hk Hi; [done|].
  destruct (inv_step _ _ Hk Hs Hi) as [Hi' Hk']. by apply IH.
Qed.
End preservation.

(** ** Theorems *)


(** The threaded loop finalizes every unit once and in order: in every
    reachable state in which it has not raised, the finalized units are the
    first ones registered, each exactly once and in that order; and when it has
    returned, only a unit cut off by the batch_size limit is left. *)
Theorem threaded_finalizes_in_order {W} {EX : External W} {PT : PyText} c sha passthrough has_stats
  thread_workers ending items (s : st W) ts :
  1 < thread_workers -> all_keyed items ->
  reachable c sha passthrough has_stats thread_workers ending items s ts ->
  failed (t_phase ts) = false ->
  omap finalized (t_hist ts) = seq 0 (t_next ts - length (t_units ts)) /\
  (t_inflight ts = [] -> (length (t_units ts) <= 1)%nat /\ Forall (fun u => ue_submitted u = false) (t_units ts)).
Proof.
  intros Hw Hk Hr Hf. destruct (inv_reachable _ _ _ _ _ _ Hw _ _ _ Hk Hr) as [_ Hrun].
  destruct (Hrun Hf) as [H1 H2 H3 H4 H5]. split; [done|]. intros Hfl. rewrite Hfl in H1.
  assert (Forall (fun u => ue_remaining u = 0) (t_units ts)) as Hz.
  { clear - H1 H2. induction (t_units ts) as [|u us IH]; [constructor|]. unfold slots in H1. csimpl in H1.
    symmetry in H1. apply app_nil in H1 as [Hr Hrest]. simpl in H2. destruct H2 as ((Hge & _) & _ & H2).
    constructor; [|by apply IH]. destruct (Z.to_nat (ue_remaining u)) eqn:E; [lia|done]. }
  destruct (t_units ts) as [|u us]; [split; [simpl; lia|constructor]|].
  simpl in H2. destruct H2 as ((_ & Hsub & _) & Hlast & _). apply Forall_cons in Hz as [Hz _].
  assert (us = []) as -> by (destruct us; [done|]; specialize (Hlast ltac:(done)); rewrite (Hsub Hz) in Hlast; done).
  split; [simpl; lia|]. by repeat constructor; apply Hsub.
Qed.

(** Two files of one chunk each, read by two workers. *)
Definition two_files : list (bytes * dict) :=
  [([Byte.x01], [("source_path"%string, VStr "/in/a")]); ([Byte.x02], [("source_path"%string, VStr "/in/b")])].

Definition demo_pipe : PipelineConfig := ExecDemo.pipeline OnContinue [ExecDemo.local_sink 0 0] false None false.

Lemma two_files_keyed : @all_keyed ExecDemo.demo_text two_files.
Proof. repeat (apply List.Forall_cons; [intros ctx; reflexivity|]). apply List.Forall_nil. Qed.

Notation demo_step := (@tstep ExecDemo.world (ExecDemo.demo (ExecDemo.plain [])) ExecDemo.demo_text
  demo_pipe ""%string false true 2 None).

(** The second file is processed before the first one. *)
Lemma two_files_run : exists ts,
  @reachable ExecDemo.world (ExecDemo.demo (ExecDemo.plain [])) ExecDemo.demo_text demo_pipe ""%string false true
    2 None two_files (ExecDemo.start []) ts /\
  t_phase ts = PDone /\ t_inflight ts = [] /\
  t_hist ts = [HSubmit 0; HSubmit 1; HWork 1; HWork 0; HFinalize 0; HFinalize 1].
Proof.
  eexists. split; [|split; [|split]].
  - unfold reachable.
    eapply rtc_l; [eapply step_submit; reflexivity|].
    eapply rtc_l; [eapply step_next; reflexivity|].
    eapply rtc_l; [eapply step_submit; reflexivity|].
    eapply rtc_l; [eapply step_next; reflexivity|].
    eapply rtc_l; [eapply (step_work _ _ _ _ _ _ _ [_] _ []); [reflexivity|reflexivity|vm_compute; reflexivity]|].
    eapply rtc_l; [eapply (step_work _ _ _ _ _ _ _ [] _ [_]); [reflexivity|reflexivity|vm_compute; reflexivity]|].
    eapply rtc_l; [eapply step_source_end; reflexivity|].
    eapply rtc_l; [eapply step_drain; [by right|reflexivity|reflexivity]|].
    eapply rtc_l; [eapply step_drain; [right; vm_compute; reflexivity|vm_compute; reflexivity|vm_compute; reflexivity]|].
    eapply rtc_l; [eapply step_done; vm_compute; reflexivity|].
    apply rtc_refl.
  - reflexivity.
  - vm_compute. reflexivity.
  - vm_compute. reflexivity.
Qed.


Lemma threaded_finalizes_in_order_witness :
  exists ts : tstate ExecDemo.world,
    t_phase ts = PDone /\ omap finalized (t_hist ts) = seq 0 (t_next ts - length (t_units ts)).
Proof.
  destruct two_files_run as (ts & Hr & Hp & _ & _). exists ts. split; [exact Hp|].
  exact (proj1 (@threaded_finalizes_in_order ExecDemo.world (ExecDemo.demo (ExecDemo.plain []))
    ExecDemo.demo_text demo_pipe ""%string false true 2 None two_files (ExecDemo.start []) ts eq_refl
    two_files_keyed Hr (eq_trans (f_equal failed Hp) eq_refl))).
Defined.

End BatchThreads.
