(* ===== verification/Streams.v ===== *)
(** * Stream runs

    PipelineExecutor's stream path (tram/pipeline/executor.py): the micro-batch
    buffer [_StreamFlushBuffer], its flush through the batch sink path
    ([_flush_stream_buffer]), the decision of broker records at a poll boundary
    ([_finalize_stream_broker_units]), the chunk loop of [stream_run] with one
    worker thread, its crash path and its end.

    The interval flusher is a thread.  Its flushes hold the run's flush lock
    across the drain and the write, so it is a step of its own,
    [interval_flusher], that the world may take before and after the processing
    of every chunk; the end of a source unit is preceded by a flush and leaves
    it nothing to do.  Stopping the source, closing sinks and joining threads
    are left out. *)

From Stdlib Require Import ZArith Lia Ascii String SpecFloat.
From stdpp Require Import base tactics list strings gmap option.
From S2P Require Import Prelude PyStr Sha256 IsoTime PyVal Paths Transforms CounterDelta Accounting ExecKeys ExecMonad ExecSinks Framing Passthrough ExecBatch.
Import stdpp.list.

#[local] Open Scope Z_scope.
#[local] Open Scope list_scope.

Module Streams.
Import PyVal Transforms Accounting ExecKeys ExecMonad ExecSinks Passthrough ExecBatch.

Notation partition := (string * pyval * pyval)%type.

(** The durable identity of a unit, or its key. *)
Notation identity := (option (string + unit_key)).

(** The fields of the pipeline only streams read. *)
Record StreamConfig := mkStream {
  sm_pipeline : PipelineConfig;
  sm_stream_flush_records : option Z;
  sm_stream_flush_interval_s : option spec_float;
  sm_state_persist_interval_s : spec_float }.

(** What streams call beside [External]: the wake-ups of the flusher thread,
    the drain deadline, the order in which a set of identities is iterated, the
    [flush_on_close] field of a transform, and the two environment defaults. *)
Class StreamExternal (W : Type) := {
  flusher_wakes : W -> bool * W;
  deadline_reached : W -> bool * W;
  set_order : list identity -> W -> list identity * W;
  set_order_perm : forall l w, (set_order l w).1 ≡ₚ l;
  flush_on_close : nat -> bool;
  _default_stream_flush_records : Z;
  _default_stream_flush_interval : spec_float }.

(** ** Gaps of partitions *)

Definition partition_eqb (p q : partition) : bool :=
  (String.eqb p.1.1 q.1.1 && py_eq p.1.2 q.1.2 && py_eq p.2 q.2)%bool.

Fixpoint gap_get (p : partition) (gaps : list (partition * Z)) : option Z :=
  match gaps with
  | [] => None
  | (q, n) :: gaps' => if partition_eqb p q then Some n else gap_get p gaps'
  end.

Fixpoint gap_put (p : partition) (n : Z) (gaps : list (partition * Z)) : list (partition * Z) :=
  match gaps with
  | [] => [(p, n)]
  | (q, m) :: gaps' => if partition_eqb p q then (q, n) :: gaps' else (q, m) :: gap_put p n gaps'
  end.

Section streams.
Context {W : Type} {EX : External W} {SX : StreamExternal W} {PT : PyText}.
Context (_schema_content_hash : string -> option string) (env_registry_url : string).

(** ** The micro-batch buffer *)

Definition _effective_stream_flush_records (c : StreamConfig) : Z :=
  default _default_stream_flush_records (sm_stream_flush_records c).

Definition _effective_stream_flush_interval (c : StreamConfig) : spec_float :=
  default _default_stream_flush_interval (sm_stream_flush_interval_s c).

(** [interval_s > 0 and time.monotonic() - (oldest_at or 0.0) >= interval_s]. *)
Definition interval_elapsed (c : StreamConfig) : M W bool :=
  let interval_s := _effective_stream_flush_interval c in
  if SFltb float_zero interval_s then
    let! now := call monotonic in
    let! oldest := get (fun s => fb_oldest_at (s_buf s)) in
    ret (SFleb interval_s (SFsub prec emax now (default float_zero oldest)))
  else ret false.

Definition is_nil {A} (l : list A) : bool := match l with [] => true | _ => false end.

Definition set_oldest (now : spec_float) (b : _StreamFlushBuffer) : _StreamFlushBuffer :=
  mkBuf (fb_records b) (fb_meta b) (Some now) (fb_contributors b) (fb_completed b).

(** A broker record joins the buffer as a contributor. *)
Definition add_contributor (meta : dict) (records : list dict) : M W unit :=
  do! modify (set_buf (fun b => mkBuf (fb_records b) (fb_meta b) (fb_oldest_at b)
                                  (fb_contributors b ++ [(meta, records)]) (fb_completed b))) in
  let! oldest := get (fun s => fb_oldest_at (s_buf s)) in
  match oldest with
  | Some _ => ret tt
  | None => let! now := call monotonic in modify (set_buf (set_oldest now))
  end.

Definition buffer_records (records : list dict) (s : st W) : st W :=
  log (EvBuffer records)
    (set_buf (fun b => mkBuf (fb_records b ++ records) (fb_meta b) (fb_oldest_at b) (fb_contributors b)
                         (fb_completed b)) s).

(** Records join the buffer; the first chunk gives the meta of the flush. *)
Definition add_records (meta : dict) (records : list dict) : M W unit :=
  let! buffered := get (fun s => fb_records (s_buf s)) in
  do! whenM (is_nil buffered)
    (let! now := call monotonic in
     modify (set_buf (fun b => mkBuf (fb_records b) (Some meta) (Some now) (fb_contributors b) (fb_completed b)))) in
  modify (buffer_records records).

Definition append (c : StreamConfig) (records : list dict) (meta : dict) (batch_end : bool) : M W bool :=
  let broker_unit := _stream_batch_broker meta in
  if (is_nil records && negb batch_end && negb broker_unit)%bool then ret false
  else
    do! whenM broker_unit (add_contributor meta records) in
    do! whenM (negb (is_nil records)) (add_records meta records) in
    let! b := get s_buf in
    if (is_nil (fb_records b) && is_nil (fb_contributors b))%bool then ret false
    else if (batch_end || (_effective_stream_flush_records c <=? zlen (fb_records b))
             || (_effective_stream_flush_records c <=? zlen (fb_contributors b)))%bool then ret true
    else interval_elapsed c.

Definition due (c : StreamConfig) : M W bool :=
  let! b := get s_buf in
  if (is_nil (fb_records b) && is_nil (fb_contributors b))%bool then ret false
  else interval_elapsed c.

Definition drain_state (s : st W) : st W :=
  log (EvDrain (fb_records (s_buf s))) (set_buf (fun b => mkBuf [] None None [] (fb_completed b)) s).

(** The records, their meta and the contributors of a flush. *)
Definition drain : M W (option (list dict * dict * list (dict * list dict))) :=
  let! b := get s_buf in
  if (is_nil (fb_records b) && is_nil (fb_contributors b))%bool then ret None
  else
    do! modify drain_state in
    ret (Some (fb_records b, default [] (fb_meta b), fb_contributors b)).

Definition buffer_complete (entries : list (dict * _UnitOutcome)) : M W unit :=
  modify (set_buf (fun b => mkBuf (fb_records b) (fb_meta b) (fb_oldest_at b) (fb_contributors b)
                              (fb_completed b ++ entries))).

Definition take_completed : M W (list (dict * _UnitOutcome)) :=
  let! completed := get (fun s => fb_completed (s_buf s)) in
  do! modify (set_buf (fun b => mkBuf (fb_records b) (fb_meta b) (fb_oldest_at b) (fb_contributors b) [])) in
  ret completed.

(** ** A flush *)

(** The options of a flush: records were counted on arrival, and each costs a
    token. *)
Definition flush_opts (c : StreamConfig) (has_stats : bool) : opts :=
  let o := run_opts (sm_pipeline c) has_stats true in
  mkOpts (o_on_error o) (o_rate_limit_rps o) (o_dlq o) (o_parallel o) (o_cb_keys o) has_stats true false true.

(** Whether some sink selects one of the records. *)
Fixpoint any_selected (sinks : list sink_entry) (survivors : list dict) : M W bool :=
  match sinks with
  | [] => ret false
  | e :: sinks' =>
      let! selected :=
        match sk_condition e with
        | None | Some ""%string => ret survivors
        | Some cond => _filter_by_condition survivors cond
        end in
      if is_nil selected then any_selected sinks' survivors else ret true
  end.

(** The losses of a flush fall on each of its contributors. *)
Definition share_cohort (c : StreamConfig) (cohort : _UnitOutcome) (key : unit_key) (survivors : list dict)
  : M W unit :=
  do! modify (set_delivery (on_unit (Some key)
        (add_loss (u_records_failed cohort) (u_dlq_succeeded cohort) (u_dlq_failed cohort)))) in
  if u_delivered cohort =? 0 then ret tt
  else
    let! selected := any_selected (pl_sinks (sm_pipeline c)) survivors in
    whenM selected (modify (set_delivery (record_chunk (Some key) 0 (zlen survivors)))).

(** One contributor after its flush; it is completed if its unit is known. *)
Definition settle_contributor (c : StreamConfig) (cohort : option _UnitOutcome)
  (completed : list (dict * _UnitOutcome)) (contributor : dict * list dict)
  : M W (list (dict * _UnitOutcome)) :=
  let '(unit_meta, survivors) := contributor in
  match _source_unit_key unit_meta with
  | None => ret completed
  | Some key =>
      let! unit_ := get (fun s => aget key (d_units (s_delivery s))) in
      match unit_ with
      | None => ret completed
      | Some _ =>
          do! (match cohort with
               | Some co => if is_nil survivors then ret tt else share_cohort c co key survivors
               | None => ret tt
               end) in
          let! unit_ := get (fun s => aget key (d_units (s_delivery s))) in
          ret (completed ++ match unit_ with Some u => [(unit_meta, u)] | None => [] end)
      end
  end.

Definition _flush_stream_buffer (c : StreamConfig) (has_stats : bool) : M W bool :=
  let! entry := drain in
  match entry with
  | None => ret false
  | Some (records, meta, contributors) =>
      if is_nil contributors then
        do! _process_records (flush_opts c has_stats) records meta [] (pl_sinks (sm_pipeline c)) in ret true
      else
        let! uuid := call new_uuid in
        let cohort_key := ("stream-flush"%string, uuid) in
        let meta := dset _UNIT_KEY_META (stash cohort_key) meta in
        do! modify (set_delivery (fun d => (register_unit cohort_key meta d).2)) in
        do! _process_records (flush_opts c has_stats) records meta [] (pl_sinks (sm_pipeline c)) in
        let! cohort := take_unit_call cohort_key in
        let! completed := foldM (settle_contributor c cohort) contributors [] in
        do! buffer_complete completed in
        ret true
  end.

(** ** One chunk of a stream *)

Definition batch_end_of (meta : dict) : bool := CounterDelta.truthy (dget_or_none "source_batch_end" meta).

(** [_process_chunk] with a flush buffer: whether the buffer is to be flushed. *)
Definition process_chunk_buffered (c : StreamConfig) (has_stats : bool) (raw : bytes) (meta : dict) : M W bool :=
  let o := run_opts (sm_pipeline c) has_stats true in
  let! ctx := get s_ctx in
  let meta := _augment_chunk_meta meta ctx in
  let key := _source_unit_key meta in
  catch
    (do! count_bytes_in o raw in
     try_else (call_res (parse raw)) (parse_failed o key raw)
       (fun records =>
          do! on_ctx (inc_records_in (zlen records)) in
          do! when_stats o (mkDelta (zlen records) 0 0 0 0 0 []) in
          do! whenM (is_some (_broker_meta_unit_key meta))
            (when_delivery o (record_chunk key (Z.max 1 (zlen records)) 0)) in
          let! survivors := _apply_global_transforms o records (pl_transforms (sm_pipeline c)) meta in
          append c survivors meta (batch_end_of meta)))
    (fun exc => on_tram_error o exc
       (if _stream_batch_broker meta then append c [] meta (batch_end_of meta) else ret false)).

(** ** Broker records at a poll boundary *)

Definition frontier_of (meta : dict) : M W (option (partition * Z)) := lift (_broker_partition_frontier meta).

(** Whether an undecided record of the partition comes before the offset. *)
Fixpoint earlier_pending (frontier : partition * Z) (pending : list dict) : M W bool :=
  match pending with
  | [] => ret false
  | item :: pending' =>
      let! earlier := frontier_of item in
      match earlier with
      | Some e => if (partition_eqb e.1 frontier.1 && (e.2 <? frontier.2))%bool then ret true
                  else earlier_pending frontier pending'
      | None => earlier_pending frontier pending'
      end
  end.

(** Whether the cohort must wait for an earlier record. *)
Fixpoint held_back (completed : list (dict * _UnitOutcome)) (pending : list dict) : M W bool :=
  match completed with
  | [] => ret false
  | (meta, _) :: completed' =>
      let! frontier := frontier_of meta in
      match frontier with
      | Some f =>
          let! held := earlier_pending f pending in
          if held then ret true else held_back completed' pending
      | None => held_back completed' pending
      end
  end.

(** The unit of a completed meta: out of the accounting, else the object the
    entry holds, which is the one taken for an equal key before it. *)
Fixpoint decide_units (on_error : on_error_mode) (taken : list (unit_key * _UnitOutcome))
  (completed : list (dict * _UnitOutcome)) : M W (list (dict * option AckDisposition)) :=
  match completed with
  | [] => ret []
  | (meta, unit_) :: completed' =>
      let! popped := match _source_unit_key meta with
                     | Some key => take_unit_call key
                     | None => ret None
                     end in
      let known := match _source_unit_key meta with Some key => aget key taken | None => None end in
      let u := match popped, known with
               | Some u, _ => u
               | None, Some u => u
               | None, None => unit_
               end in
      let taken' := match _source_unit_key meta with Some key => aset key u taken | None => taken end in
      let! rest := decide_units on_error taken' completed' in
      ret ((meta, disposition on_error u) :: rest)
  end.

(** [broker_gaps[p] = min(offset, broker_gaps.get(p, offset))]. *)
Definition gap_state (p : partition) (offset : Z) (s : st W) : st W :=
  let n := Z.min offset (default offset (gap_get p (d_broker_gaps (s_delivery s)))) in
  log (EvGap p offset) (set_delivery (fun d => set_broker_gaps (gap_put p n (d_broker_gaps d)) d) s).

(** An undecided record is a gap of its partition. *)
Definition note_gap (unconfirmed : bool) (md : dict * option AckDisposition) : M W unit :=
  let! frontier := frontier_of md.1 in
  match frontier with
  | Some (p, offset) =>
      if (unconfirmed || negb (is_some md.2))%bool then
        modify (gap_state p offset)
      else ret tt
  | None => ret tt
  end.

(** Whether some record lies at or past a gap of its partition. *)
Fixpoint past_gap (decisions : list (dict * option AckDisposition)) : M W bool :=
  match decisions with
  | [] => ret false
  | (meta, _) :: decisions' =>
      let! frontier := frontier_of meta in
      match frontier with
      | Some (p, offset) =>
          let! gaps := get (fun s => d_broker_gaps (s_delivery s)) in
          if default (offset + 1) (gap_get p gaps) <=? offset then ret true else past_gap decisions'
      | None => past_gap decisions'
      end
  end.

Definition identity_of (meta : dict) : identity :=
  match _source_durable_unit_id source_unit_id meta with
  | Some u => Some (inl u)
  | None => inr <$> _source_unit_key meta
  end.

(** The record with the highest frontier of each identity. *)
Definition highest (partitions : list (identity * dict)) (meta : dict) : list (identity * dict) :=
  match aget (identity_of meta) partitions with
  | Some current =>
      if (_checkpoint_frontier current).2 <? (_checkpoint_frontier meta).2
      then aset (identity_of meta) meta partitions else partitions
  | None => aset (identity_of meta) meta partitions
  end.

Definition add_identity (ids : list identity) (md : dict * option AckDisposition) : list identity :=
  if decide (md.2 = Some DELIVERED) then
    if decide (identity_of md.1 ∈ ids) then ids else ids ++ [identity_of md.1]
  else ids.

(** One checkpoint per delivered identity, until one is refused. *)
Fixpoint checkpoint_identities (c : StreamConfig) (config_sha256 : string) (receipts : list SinkCommitReceipt)
  (partitions : list (identity * dict)) (ids : list identity) : M W bool :=
  match ids with
  | [] => ret true
  | i :: ids' =>
      match aget i partitions with
      | None => throw (Exn COther "KeyError")
      | Some meta =>
          let! ok := check_unit (sm_pipeline c) config_sha256 meta receipts in
          if ok then checkpoint_identities c config_sha256 receipts partitions ids' else ret false
      end
  end.

(** Whether the cohort may be acknowledged. *)
Definition cohort_checkpoint (c : StreamConfig) (config_sha256 : string)
  (receipts : option (list SinkCommitReceipt)) (decisions : list (dict * option AckDisposition)) : M W bool :=
  do! iterM (note_gap (negb (is_some receipts))) decisions in
  let! gap := past_gap decisions in
  do! whenM gap (modify (set_delivery record_checkpoint_pending)) in
  let! pending := get (fun s => has_pending_checkpoints (s_delivery s)) in
  let undecided := existsb (fun md : dict * option AckDisposition => negb (is_some md.2)) decisions in
  let blocked := (pl_strict (sm_pipeline c) && (pending || undecided))%bool in
  do! whenM blocked (modify (set_delivery record_checkpoint_pending)) in
  match receipts with
  | Some rcs =>
      if (gap || blocked)%bool then ret false
      else
        let partitions := fold_left highest decisions.*1 [] in
        let! order := call (set_order (fold_left add_identity decisions [])) in
        checkpoint_identities c config_sha256 rcs partitions order
  | None => ret false
  end.

(** The acknowledgements and the legacy hook of the source. *)
Definition finish_record (receipts : option (list SinkCommitReceipt)) (checkpoint_ok : bool)
  (md : dict * option AckDisposition) : M W unit :=
  do! (match md.2 with
       | Some d => whenM checkpoint_ok (_ack_source_unit md.1 d)
       | None => ret tt
       end) in
  source_finalize_call md.1 (is_some receipts).

Definition _finalize_stream_broker_units (c : StreamConfig) (config_sha256 : string) : M W unit :=
  let! completed := take_completed in
  match completed with
  | [] => ret tt
  | _ =>
      let ready_keys := (fun mu : dict * _UnitOutcome => _source_unit_key mu.1) <$> completed in
      let! pending := get (fun s => (fun ku : unit_key * _UnitOutcome => u_meta ku.2) <$>
                                      filter (fun ku => Some ku.1 ∉ ready_keys) (d_units (s_delivery s))) in
      let! held := held_back completed pending in
      if held then buffer_complete completed
      else
        let! receipts := _commit_sinks_receipts (sm_pipeline c) in
        do! whenM (negb (is_some receipts)) (modify (set_delivery record_checkpoint_pending)) in
        let! decisions := decide_units (pl_on_error (sm_pipeline c)) [] completed in
        let! checkpoint_ok := cohort_checkpoint c config_sha256 receipts decisions in
        iterM (finish_record receipts checkpoint_ok) decisions
  end.

(** ** The run *)

Definition _flush_now (c : StreamConfig) (has_stats : bool) : M W unit :=
  do! _flush_stream_buffer c has_stats in ret tt.

Definition _decide_brokers (c : StreamConfig) (config_sha256 : string) : M W unit :=
  let! b := get s_buf in
  if is_nil (fb_completed b) then ret tt else _finalize_stream_broker_units c config_sha256.

(** A turn of the flusher thread; a failed flush is logged and dropped. *)
Definition interval_flusher (c : StreamConfig) (has_stats : bool) : M W unit :=
  let! awake := call flusher_wakes in
  if awake then
    let! is_due := due c in
    if is_due then catch (_flush_now c has_stats) (fun _ => ret tt) else ret tt
  else ret tt.

(** [_maybe_persist_state]: the time of the last snapshot. *)
Definition _maybe_persist_state (c : StreamConfig) (last_persist : spec_float) : M W spec_float :=
  let interval := sm_state_persist_interval_s c in
  if SFleb interval float_zero then ret last_persist
  else
    let! now := call monotonic in
    if SFleb interval (SFsub prec emax now last_persist) then
      do! _save_state_to_store (sm_pipeline c) in call monotonic
    else ret last_persist.

(** The bookkeeping of units before a chunk is processed. *)
Definition stream_unit (c : StreamConfig) (config_sha256 : string) (has_stats : bool) (v : loop_vars)
  (source_key : option unit_key) (meta : dict) : M W loop_vars :=
  match source_key with
  | None => ret v
  | Some key =>
      if _stream_batch_broker meta then
        do! modify (set_delivery (fun d => (register_unit key meta d).2)) in ret v
      else
        let! v :=
          match lv_key v, lv_meta v with
          | Some cur, Some cur_meta =>
              if decide (key = cur) then ret v
              else
                do! _flush_now c has_stats in
                do! _finalize_batch_source_unit (sm_pipeline c) config_sha256 cur cur_meta (lv_unit v) true in
                ret no_unit
          | _, _ => ret v
          end in
        enter_unit v key meta
  end.

(** One item of the source; [true]: the reader was stopped. *)
Definition stream_body (c : StreamConfig) (config_sha256 : string) (has_stats : bool) (v : loop_vars)
  (last_persist : spec_float) (raw : bytes) (meta : dict) : M W (loop_vars * spec_float * bool) :=
  let! stop := call stop_requested in
  if stop then ret (v, last_persist, true)
  else
    do! interval_flusher c has_stats in
    let '(source_key, meta) := _stream_source_unit_key source_unit_id meta in
    let! v := stream_unit c config_sha256 has_stats v source_key meta in
    let! flush := process_chunk_buffered c has_stats raw meta in
    do! interval_flusher c has_stats in
    do! whenM flush (_flush_now c has_stats) in
    do! whenM (_stream_batch_broker meta && batch_end_of meta) (_decide_brokers c config_sha256) in
    let! last_persist := _maybe_persist_state c last_persist in
    ret (v, last_persist, false).

Fixpoint stream_loop (c : StreamConfig) (config_sha256 : string) (has_stats : bool)
  (items : list (bytes * dict)) (ending : option exn) (v : loop_vars) (last_persist : spec_float)
  : M W (loop_vars * bool) :=
  match items with
  | [] => match ending with Some e => throw e | None => ret (v, false) end
  | (raw, meta) :: items' =>
      let! r := stream_body c config_sha256 has_stats v last_persist raw meta in
      let '(v, last_persist, stopped) := r in
      if stopped then ret (v, true)
      else stream_loop c config_sha256 has_stats items' ending v last_persist
  end.

(** The body of the [try]: the loop, the last unit, the last flush. *)
Definition stream_try (c : StreamConfig) (config_sha256 : string) (has_stats : bool) (last_persist : spec_float)
  : M W unit :=
  let! items := (fun s => let '(i, e, w) := read 0 (s_world s) in
                          (Ok (i, e), log (EvRead 0) (set_world w s))) in
  let! vs := stream_loop c config_sha256 has_stats items.1 items.2 no_unit last_persist in
  do! (match lv_key vs.1, lv_meta vs.1 with
       | Some key, Some meta =>
           if vs.2 : bool then ret tt
           else
             do! _flush_now c has_stats in
             _finalize_batch_source_unit (sm_pipeline c) config_sha256 key meta (lv_unit vs.1) true
       | _, _ => ret tt
       end) in
  do! _flush_now c has_stats in
  _decide_brokers c config_sha256.

(** The [finally] clause. *)
Definition stream_finally (c : StreamConfig) (graceful_stop : bool) : M W unit :=
  let! flush_records :=
    _close_stateful_transforms (sm_pipeline c) (if graceful_stop then flush_on_close else fun _ => false) in
  do! _route_stateful_flush_records (sm_pipeline c) flush_records in
  _save_state_to_store (sm_pipeline c).

Definition stream_result (c : StreamConfig) : M W RunResult :=
  let! late := call deadline_reached in
  let! s := get (fun s => s) in
  ret (with_delivery (s_delivery s)
        (if late then
           from_context (s_ctx s) ABORTED (Some "drained: worker drain deadline exceeded"%string)
         else from_context (s_ctx s) (_batch_outcome (pl_on_error (sm_pipeline c)) (s_delivery s) false) None)).

(** Up to the empty buffer: components, context, accounting, state. *)
Definition stream_open (c : StreamConfig) (config_sha256 : string) : M W spec_float :=
  do! call_res build_components in
  do! (if pl_protobuf_passthrough (sm_pipeline c) then
         do! lift (protobuf_passthrough_runtime_reasons _schema_content_hash env_registry_url
                     (pl_passthrough_config (sm_pipeline c)) None) in ret tt
       else ret tt) in
  let! run_id := call new_uuid in
  let! now := call utcnow in
  do! on_ctx (fun _ => new_ctx (pl_name (sm_pipeline c)) run_id now) in
  let! snapshot := _hydrate_state_from_store (sm_pipeline c) config_sha256 in
  do! start_attempt snapshot in
  let! last_persist := call monotonic in
  do! modify (set_buf (fun _ => empty_buffer)) in
  ret last_persist.

(** The [try] statement and the result. *)
Definition stream_main (c : StreamConfig) (config_sha256 : string) (has_stats : bool) (last_persist : spec_float)
  : M W RunResult :=
  do! try_else (stream_try c config_sha256 has_stats last_persist)
    (fun exc =>
       do! catch (_flush_now c has_stats) (fun _ => ret tt) in
       do! stream_finally c false in
       throw exc)
    (fun _ => stream_finally c true) in
  stream_result c.

Definition stream_run (c : StreamConfig) (config_sha256 : string) (has_stats : bool) : M W RunResult :=
  let! last_persist := stream_open c config_sha256 in
  stream_main c config_sha256 has_stats last_persist.
End streams.
End Streams.
