(* ===== verification/StreamRel.v ===== *)
(** * Relations kept by stream runs

    The steps the stream path adds to those of batch runs: changes of the
    buffer, records that join it or leave it, gaps of partitions, and the
    losses of a flush shared by its contributors ([StreamRel]).  A relation
    kept by these steps and by the two ways a unit ends is kept by
    [stream_run]. *)

From Stdlib Require Import ZArith Lia Ascii String SpecFloat.
From stdpp Require Import base tactics list strings gmap option.
From S2P Require Import Prelude PyStr Sha256 IsoTime PyVal Paths Transforms CounterDelta Accounting ExecKeys ExecMonad ExecSinks Framing Passthrough ExecBatch ExecRel Streams.
Import stdpp.list.

#[local] Open Scope Z_scope.
#[local] Open Scope list_scope.

Module StreamRel.
Import PyVal Transforms Accounting ExecKeys ExecMonad ExecSinks Passthrough ExecBatch ExecRel Streams.

Section stream_rel.
Context {W : Type} {EX : External W} {SX : StreamExternal W} {PT : PyText}.

Class StreamRel (R : st W -> st W -> Prop) : Prop := {
  mr_batch :: BatchRel R;
  mr_buf : forall f s, (forall b, fb_records (f b) = fb_records b) -> R s (set_buf f s);
  mr_add : forall records s, R s (buffer_records records s);
  mr_drain : forall s, R s (drain_state s);
  mr_gap : forall p n s, R s (gap_state p n s);
  mr_share : forall key a b c s, R s (set_delivery (on_unit key (add_loss a b c)) s) }.

Section stream_path.
Context (R : st W -> st W -> Prop) {SR : StreamRel R}.
#[local] Instance stream_rel_pre : PreOrder R := sr_pre.

Lemma keeps_set_buf f : (forall b, fb_records (f b) = fb_records b) -> keeps R (modify (set_buf f)).
Proof. intros Hf. apply keeps_modify. intros. by apply mr_buf. Qed.

Ltac stream_step :=
  match goal with
  | |- keeps _ (call _) => apply keeps_sr_call; apply br_sink
  | |- keeps _ (call_res _) => apply keeps_sr_call_res; apply br_sink
  | |- keeps _ (on_ctx _) => apply keeps_on_ctx; apply br_sink
  | |- keeps _ (when_stats _ _) => apply keeps_when_stats; apply br_sink
  | |- keeps _ (when_delivery _ _) => apply keeps_when_delivery; [apply br_sink|auto with keeps]
  | |- keeps _ (modify (set_buf _)) => apply keeps_set_buf; intros ?; reflexivity
  | |- keeps _ (modify (set_delivery (on_unit _ (add_loss _ _ _)))) =>
      apply keeps_modify; intros; apply mr_share
  | |- keeps _ (modify (set_delivery (record_chunk _ _ _))) =>
      apply keeps_modify; intros; apply sr_acct; auto with keeps
  | |- keeps _ (modify (set_delivery _)) => apply keeps_br_acct; [apply mr_batch|auto with keeps]
  | |- keeps _ (modify (buffer_records _)) => apply keeps_modify; intros; apply mr_add
  | |- keeps _ (modify drain_state) => apply keeps_modify; intros; apply mr_drain
  | |- keeps _ (modify (gap_state _ _)) => apply keeps_modify; intros; apply mr_gap
  | |- keeps _ (frontier_of _) => unfold frontier_of
  | |- keeps _ (_process_records _ _ _ _ _) => apply keeps_process_records; apply br_sink
  | |- keeps _ (_filter_by_condition _ _) => apply keeps_filter; apply br_sink
  | |- keeps _ (_apply_global_transforms _ _ _ _) => apply keeps_global_transforms; apply br_sink
  | |- keeps _ (parse_failed _ _ _ _) => apply keeps_parse_failed; apply br_sink
  | |- keeps _ (take_unit_call _) => apply keeps_take_unit; apply mr_batch
  | |- keeps _ (enter_unit _ _ _) => apply keeps_enter_unit; apply mr_batch
  | |- keeps _ (check_unit _ _ _ _) => apply keeps_check_unit; apply mr_batch
  | |- keeps _ (_commit_sinks_receipts _) => apply keeps_commit_receipts; apply mr_batch
  | |- keeps _ (source_finalize_call _ _) => apply keeps_source_finalize; apply mr_batch
  | |- keeps _ (_save_state_to_store _) => apply keeps_save; apply mr_batch
  | |- keeps _ (_close_stateful_transforms _ _) => apply keeps_close; apply mr_batch
  | |- keeps _ (_route_stateful_flush_records _ _) => apply keeps_route; apply mr_batch
  | |- keeps _ (_hydrate_state_from_store _ _) => apply keeps_hydrate; apply mr_batch
  | |- keeps _ _ => solve [auto with keeps]
  end.
Ltac stream_auto := repeat (stream_step || keeps_struct).

(** ** The buffer and its flush *)

Lemma keeps_interval_elapsed c : keeps R (interval_elapsed c).
Proof. unfold interval_elapsed. stream_auto. Qed.
Hint Resolve keeps_interval_elapsed : keeps.

Lemma keeps_append c records meta b : keeps R (append c records meta b).
Proof. unfold append, add_contributor, add_records. stream_auto. Qed.
Lemma keeps_due c : keeps R (due c).
Proof. unfold due. stream_auto. Qed.
Lemma keeps_drain : keeps R drain.
Proof. unfold drain. stream_auto. Qed.
Lemma keeps_buffer_complete l : keeps R (buffer_complete l).
Proof. unfold buffer_complete. stream_auto. Qed.
Lemma keeps_take_completed : keeps R take_completed.
Proof. unfold take_completed. stream_auto. Qed.
Hint Resolve keeps_append keeps_due keeps_drain keeps_buffer_complete keeps_take_completed : keeps.

Lemma keeps_any_selected sinks recs : keeps R (any_selected sinks recs).
Proof. induction sinks as [|e sinks IH]; simpl; stream_auto. Qed.
Hint Resolve keeps_any_selected : keeps.

Lemma keeps_settle_contributor c cohort done_ x : keeps R (settle_contributor c cohort done_ x).
Proof. unfold settle_contributor, share_cohort. stream_auto. Qed.
Hint Resolve keeps_settle_contributor : keeps.

Lemma keeps_flush c hs : keeps R (_flush_stream_buffer c hs).
Proof. unfold _flush_stream_buffer. stream_auto. Qed.
Hint Resolve keeps_flush : keeps.

Lemma keeps_flush_now c hs : keeps R (_flush_now c hs).
Proof. unfold _flush_now. stream_auto. Qed.
Hint Resolve keeps_flush_now : keeps.

Lemma keeps_flusher c hs : keeps R (interval_flusher c hs).
Proof. unfold interval_flusher. stream_auto. Qed.
Hint Resolve keeps_flusher : keeps.

Lemma keeps_stream_error o exc m : keeps R m -> keeps R (on_tram_error o exc m).
Proof. intros. unfold on_tram_error. stream_auto. Qed.

Lemma keeps_chunk_buffered c hs raw meta : keeps R (process_chunk_buffered c hs raw meta).
Proof.
  unfold process_chunk_buffered, count_bytes_in. repeat (stream_step || keeps_struct);
    apply keeps_stream_error; stream_auto.
Qed.
Hint Resolve keeps_chunk_buffered : keeps.

(** ** Broker cohorts *)

Lemma keeps_earlier f pending : keeps R (earlier_pending f pending).
Proof. induction pending as [|x pending IH]; simpl; stream_auto. Qed.
Hint Resolve keeps_earlier : keeps.
Lemma keeps_held completed pending : keeps R (held_back completed pending).
Proof. induction completed as [|[m u] l IH]; simpl; stream_auto. Qed.
Lemma keeps_decide_units oe taken completed : keeps R (decide_units oe taken completed).
Proof. revert taken; induction completed as [|[m u] l IH]; intros taken; simpl; stream_auto. Qed.
Lemma keeps_past_gap ds : keeps R (past_gap ds).
Proof. induction ds as [|[m d] l IH]; simpl; stream_auto. Qed.
Lemma keeps_note_gap b md : keeps R (note_gap b md).
Proof. unfold note_gap. stream_auto. Qed.
Hint Resolve keeps_held keeps_decide_units keeps_past_gap keeps_note_gap : keeps.

Lemma keeps_checkpoint_identities c sha rcs ps ids : keeps R (checkpoint_identities c sha rcs ps ids).
Proof. induction ids as [|i ids IH]; simpl; stream_auto. Qed.
Hint Resolve keeps_checkpoint_identities : keeps.

Lemma keeps_cohort_checkpoint c sha rcs ds : keeps R (cohort_checkpoint c sha rcs ds).
Proof. unfold cohort_checkpoint. stream_auto. Qed.
Hint Resolve keeps_cohort_checkpoint : keeps.

Lemma keeps_persist c last : keeps R (_maybe_persist_state c last).
Proof. unfold _maybe_persist_state. stream_auto. Qed.
Lemma keeps_finally c b : keeps R (stream_finally c b).
Proof. unfold stream_finally. stream_auto. Qed.
Lemma keeps_result c : keeps R (stream_result c).
Proof. unfold stream_result. stream_auto. Qed.
Hint Resolve keeps_persist keeps_finally keeps_result : keeps.

(** ** The run *)

(** The current unit of the loop is never a broker record. *)
Definition plain_vars (v : loop_vars) : Prop :=
  match lv_meta v with Some m => _stream_batch_broker m = false | None => True end.

Section run.
Context (c : StreamConfig) (sha : string) (hs : bool).
Hypothesis finalize_keeps : forall key meta u, _stream_batch_broker meta = false ->
  keeps R (_finalize_batch_source_unit (sm_pipeline c) sha key meta u true).
Hypothesis brokers_keep : keeps R (_finalize_stream_broker_units c sha).
Hint Resolve brokers_keep : keeps.

Lemma keeps_decide_brokers : keeps R (_decide_brokers c sha).
Proof. unfold _decide_brokers. stream_auto. Qed.
Hint Resolve keeps_decide_brokers : keeps.

Lemma keeps_stream_unit v key meta : plain_vars v -> keeps R (stream_unit c sha hs v key meta).
Proof.
  unfold plain_vars, stream_unit. intros Hv. destruct key as [key|]; [|stream_auto].
  destruct (_stream_batch_broker meta); [stream_auto|].
  destruct (lv_key v) as [cur|], (lv_meta v) as [m|]; stream_auto.
Qed.

Lemma enter_plain (v w : loop_vars) key meta (s t : st W) :
  _stream_batch_broker meta = false -> enter_unit v key meta s = (Ok w, t) -> plain_vars w.
Proof.
  unfold enter_unit, plain_vars. intros Hm H. destruct (lv_key v).
  - apply ret_ok in H as [<- _]. done.
  - apply bind_ok in H as (u & s1 & _ & H). apply bind_ok in H as ([] & s2 & _ & H).
    apply ret_ok in H as [<- _]. done.
Qed.

Lemma stream_unit_plain v w key meta (s t : st W) :
  plain_vars v -> stream_unit c sha hs v key meta s = (Ok w, t) -> plain_vars w.
Proof.
  unfold stream_unit. intros Hv H. destruct key as [key|]; [|by apply ret_ok in H as [<- _]].
  destruct (_stream_batch_broker meta) eqn:Hb.
  - apply bind_ok in H as ([] & s1 & _ & H). by apply ret_ok in H as [<- _].
  - apply bind_ok in H as (v1 & s1 & _ & H). by eapply enter_plain.
Qed.

Lemma stream_body_inv v last raw meta s r (t : st W) :
  plain_vars v -> stream_body c sha hs v last raw meta s = (r, t) ->
  R s t /\ (forall w l b, r = Ok (w, l, b) -> plain_vars w).
Proof.
  intros Hv. unfold stream_body. intros H.
  apply bind_inv in H as [(stop & s1 & H1 & H)|(e & H1 & ->)];
    [|split; [by eapply keeps_sr_call, H1; apply br_sink|done]].
  assert (R s s1) as R1 by (eapply keeps_sr_call, H1; apply br_sink).
  destruct stop; [apply pair_equal_spec in H as [<- <-]; split; [done|by intros ? ? ? [= <- _ _]]|].
  apply bind_inv in H as [([] & s2 & H2 & H)|(e & H2 & ->)]; apply keeps_flusher in H2;
    [|split; [by etrans|done]].
  destruct (_stream_source_unit_key source_unit_id meta) as [key meta'].
  apply bind_inv in H as [(w & s3 & H3 & H)|(e & H3 & ->)]; pose proof H3 as Hw;
    eapply keeps_stream_unit in H3; [|done| |done]; [|split; [by etrans; [|etrans]|done]].
  apply stream_unit_plain in Hw; [|done]. split.
  - etrans; [exact R1|]. etrans; [exact H2|]. etrans; [exact H3|]. revert H. clear - SR brokers_keep.
    apply (fun K => K : keeps R _). stream_auto.
  - intros w' l b ->. do 5 (apply bind_ok in H as (? & ? & _ & H)). apply ret_ok in H as [[= <- _ _] _]. done.
Qed.

Lemma keeps_stream_loop items ending v last s r (t : st W) :
  plain_vars v -> stream_loop c sha hs items ending v last s = (r, t) ->
  R s t /\ (forall w b, r = Ok (w, b) -> plain_vars w).
Proof.
  revert v last s; induction items as [|[raw meta] items IH]; intros v last s Hv H; simpl in H.
  - destruct ending; apply pair_equal_spec in H as [<- <-]; (split; [reflexivity|]); [done|].
    by intros ? ? [= <- _].
  - apply bind_inv in H as [([[w l] b] & s1 & H1 & H)|(e & H1 & ->)];
      apply stream_body_inv in H1 as [R1 Hw]; try done.
    specialize (Hw _ _ _ eq_refl). destruct b.
    + apply pair_equal_spec in H as [<- <-]. split; [done|]. by intros ? ? [= <- _].
    + apply IH in H as [R2 H]; [|done]. split; [by etrans|done].
Qed.

Lemma keeps_stream_try last : keeps R (stream_try c sha hs last).
Proof.
  unfold stream_try. apply (keeps_bind R).
  { intros s r t. destruct (read 0 (s_world s)) as [[i e] w]. intros [= <- <-].
    etrans; [apply sr_world|]. by apply br_log. }
  intros [items ending]. intros s r t H. simpl in H.
  apply bind_inv in H as [([v b] & s1 & H1 & H)|(e & H1 & ->)];
    apply keeps_stream_loop in H1 as [R1 Hv]; try done.
  specialize (Hv _ _ eq_refl). etrans; [exact R1|]. simpl in H. revert H.
  apply (fun K => K : keeps R _). unfold plain_vars in Hv.
  destruct (lv_key v) as [key|], (lv_meta v) as [m|]; stream_auto.
Qed.
Hint Resolve keeps_stream_try : keeps.

Lemma keeps_stream_main last : keeps R (stream_main c sha hs last).
Proof. unfold stream_main. stream_auto. Qed.
Hint Resolve keeps_stream_main : keeps.

Context (content_hash : string -> option string) (registry_url : string).
Hypothesis start_keeps : forall snap, keeps R (start_attempt snap).
Hypothesis reset_keeps : keeps R (modify (set_buf (fun _ => empty_buffer))).
Hint Resolve start_keeps reset_keeps : keeps.

Lemma keeps_stream_run : keeps R (stream_run content_hash registry_url c sha hs).
Proof.
  unfold stream_run, stream_open.
  repeat match goal with
         | |- keeps _ (modify (set_buf (fun _ => empty_buffer))) => exact reset_keeps
         | _ => stream_step || keeps_struct
         end.
Qed.
End run.

(** ** Relations that acknowledgements keep *)

Lemma keeps_finalize_any c sha key meta u b :
  (forall d, keeps R (_ack_source_unit meta d)) -> keeps R (_finalize_batch_source_unit c sha key meta u b).
Proof.
  intros Hack. unfold _finalize_batch_source_unit, finalize_after_barrier.
  repeat ((apply keeps_sink_finalize; apply mr_batch) || stream_step || keeps_struct).
Qed.

Lemma keeps_brokers_any c sha :
  (forall meta d, keeps R (_ack_source_unit meta d)) -> keeps R (_finalize_stream_broker_units c sha).
Proof. intros Hack. unfold _finalize_stream_broker_units, finish_record. stream_auto. Qed.

(** The end of a broker cohort, from its acknowledgements. *)
Lemma keeps_brokers c sha :
  (forall rcs ds s1 s2 r t, cohort_checkpoint c sha rcs ds s1 = (Ok true, s2) ->
     iterM (finish_record rcs true) ds s2 = (r, t) -> R s2 t) ->
  keeps R (_finalize_stream_broker_units c sha).
Proof.
  intros Hfin. unfold _finalize_stream_broker_units.
  apply keeps_bind; [apply _|stream_auto|]. intros completed. destruct completed as [|mu l]; [stream_auto|].
  apply keeps_bind; [apply _|stream_auto|]. intros pending.
  apply keeps_bind; [apply _|stream_auto|]. intros held. destruct held; [stream_auto|].
  apply keeps_bind; [apply _|stream_auto|]. intros rcs.
  apply keeps_bind; [apply _|stream_auto|]. intros _.
  apply keeps_bind; [apply _|stream_auto|]. intros ds.
  intros s r t H. apply bind_inv in H as [(ok & s1 & H1 & H)|(e & H1 & _)]; pose proof H1 as R1;
    apply keeps_cohort_checkpoint in R1; [|done].
  etrans; [exact R1|]. destruct ok; [by eapply Hfin|]. revert H. apply (fun K => K : keeps R _).
  unfold finish_record. cbn [whenM]. stream_auto.
Qed.
End stream_path.
End stream_rel.

End StreamRel.
