(* ===== verification/StreamLaws.v ===== *)
(** * What a stream run guarantees

    For every behaviour of source, sinks, transforms, manager, clock and
    flusher thread: nothing is acknowledged before its sinks confirmed, every
    buffered record goes to the sinks exactly once and in order, the buffer
    stays below its threshold, and no broker record is acknowledged at or past
    a gap of its partition. *)

From Stdlib Require Import ZArith Lia Ascii String SpecFloat Strings.Byte.
From stdpp Require Import base tactics list strings gmap option.
From S2P Require Import Prelude PyStr Sha256 IsoTime PyVal Paths Transforms CounterDelta Accounting ExecKeys ExecMonad ExecSinks Framing Passthrough ExecBatch ExecDemo ExecRel ExecSafety Streams StreamRel.
Import stdpp.list.

#[local] Open Scope Z_scope.
#[local] Open Scope list_scope.

Module StreamLaws.
Import PyVal Transforms Accounting ExecKeys ExecMonad ExecSinks Framing Passthrough ExecBatch ExecRel ExecSafety Streams StreamRel.

Section acks.
Context {W : Type} {EX : External W} {SX : StreamExternal W} {PT : PyText}.

Lemma appends_stream (P : list event -> Prop) :
  P [] -> (forall a b, P a -> P b -> P (a ++ b)) -> (forall e, is_ack e = false -> P [e]) ->
  StreamRel (W := W) (appends P).
Proof.
  intros H0 Happ He. split; [by apply appends_batch|..]; intros; try (by apply appends_same);
    eexists; (split; [reflexivity|by apply He]).
Qed.

Lemma guarded_stream n : StreamRel (W := W) (appends (guarded n)).
Proof.
  apply appends_stream.
  - intros b. exact I.
  - intros a b Ha Hb x. apply acks_guarded_app. auto.
  - intros e He b. simpl. by rewrite He.
Qed.
#[local] Existing Instance guarded_stream.

(** ** Acknowledgements of broker cohorts *)

Lemma calm_earlier f pending : keeps (appends calm) (earlier_pending (W := W) f pending).
Proof. induction pending as [|x l IH]; simpl; unfold frontier_of; calm_auto. Qed.
Lemma calm_decide_units oe taken l : keeps (appends calm) (decide_units (W := W) oe taken l).
Proof.
  revert taken; induction l as [|[m u] l IH]; intros taken; simpl;
    repeat (apply calm_take_unit || calm_step || keeps_struct).
Qed.
Lemma calm_past_gap ds : keeps (appends calm) (past_gap (W := W) ds).
Proof. induction ds as [|[m d] l IH]; simpl; unfold frontier_of; calm_auto. Qed.
Lemma calm_note_gap b md : keeps (appends calm) (note_gap (W := W) b md).
Proof.
  unfold note_gap, frontier_of. repeat (keeps_struct); try (calm_auto; fail).
  apply keeps_modify. intros s. by eexists.
Qed.
Lemma calm_identities c sha rcs ps ids : keeps (appends calm) (checkpoint_identities (W := W) c sha rcs ps ids).
Proof. induction ids as [|i ids IH]; simpl; repeat (apply calm_check_unit || calm_step || keeps_struct). Qed.

Lemma calm_cohort c sha rcs ds : keeps (appends calm) (cohort_checkpoint c sha rcs ds).
Proof.
  unfold cohort_checkpoint.
  repeat (apply calm_note_gap || apply calm_past_gap || apply calm_identities || calm_step || keeps_struct);
    apply keeps_call; intros; by apply appends_same.
Qed.

Lemma calm_finish rcs ok md : keeps (appends calm) (finish_record rcs ok md).
Proof.
  unfold finish_record. repeat (apply calm_ack || apply calm_source_finalize || calm_step || keeps_struct).
Qed.

Lemma cohort_unconfirmed c sha ds b (s t : st W) : cohort_checkpoint c sha None ds s = (Ok b, t) -> b = false.
Proof.
  unfold cohort_checkpoint. intros H. do 5 (apply bind_ok in H as (? & ? & _ & H)).
  by apply ret_ok in H as [<- _].
Qed.

Lemma finish_unacked (R : st W -> st W -> Prop) {SR : StreamRel R} rcs md : keeps R (finish_record rcs false md).
Proof.
  pose proof (sr_pre (R := R)) as HP.
  unfold finish_record. apply keeps_bind; [done|destruct md.2; apply keeps_ret; done|].
  intros _. apply keeps_source_finalize, mr_batch.
Qed.

Lemma brokers_guarded c sha :
  keeps (appends (guarded (length (pl_sinks (sm_pipeline c))))) (_finalize_stream_broker_units c sha).
Proof.
  set (n := length _). unfold _finalize_stream_broker_units.
  apply keeps_bind; [apply _|apply keeps_take_completed, _|]. intros completed.
  destruct completed as [|mu l]; [apply keeps_ret, _|].
  apply keeps_bind; [apply _|apply keeps_get, _|]. intros pending.
  apply keeps_bind; [apply _|apply keeps_held, _|]. intros held.
  destruct held; [apply keeps_buffer_complete, _|].
  intros s r t H. apply bind_inv in H as [([rcs|] & s1 & H1 & H)|(e & H & _)].
  - (* the barrier is complete and nothing is written after it *)
    apply commit_receipts_complete in H1 as (evs1 & E1 & G1). fold n in G1.
    assert (appends calm s1 t) as (evs2 & E2 & Q2).
    { revert H. apply (fun K => K : keeps (appends calm) _).
      apply keeps_bind; [apply _|calm_auto|]. intros _.
      apply keeps_bind; [apply _|apply calm_decide_units|]. intros ds.
      apply keeps_bind; [apply _|apply calm_cohort|]. intros ok.
      apply keeps_iterM; [apply _|]. intros md. apply calm_finish. }
    exists (evs1 ++ evs2). rewrite E2, E1, app_assoc. split; [done|]. intros b0.
    apply acks_guarded_app. split; [apply G1|]. apply calm_guarded; [apply G1|done].
  - (* an unconfirmed barrier acknowledges nothing *)
    etrans; [eapply (keeps_commit_receipts (appends (guarded n))), H1|].
    apply bind_inv in H as [([] & s2 & H2 & H)|(e & H & _)]; cbn [whenM negb is_some] in *.
    2: { eapply (keeps_br_acct (appends (guarded n))), H. constructor. }
    etrans; [eapply (keeps_br_acct (appends (guarded n))), H2; constructor|].
    apply bind_inv in H as [(ds & s3 & H3 & H)|(e & H & _)];
      [|eapply (keeps_decide_units (appends (guarded n))), H].
    etrans; [eapply (keeps_decide_units (appends (guarded n))), H3|].
    apply bind_inv in H as [(ok & s4 & H4 & H)|(e & H & _)];
      [|eapply (keeps_cohort_checkpoint (appends (guarded n))), H].
    etrans; [eapply (keeps_cohort_checkpoint (appends (guarded n))), H4|].
    apply cohort_unconfirmed in H4 as ->. revert H.
    apply (fun K => K : keeps (appends (guarded n)) _). apply keeps_iterM; [apply _|].
    intros md. apply finish_unacked, _.
  - eapply (keeps_commit_receipts (appends (guarded n))), H.
Qed.
End acks.


(** ** The buffer conserves records *)

Section conservation.
Context {W : Type} {EX : External W} {SX : StreamExternal W} {PT : PyText}.

(** The records that joined the buffer, and those handed to the sink path. *)
Definition buffered (tr : list event) : list dict :=
  mjoin (omap (fun e => match e with EvBuffer rs => Some rs | _ => None end) tr).
Definition drained (tr : list event) : list dict :=
  mjoin (omap (fun e => match e with EvDrain rs => Some rs | _ => None end) tr).

Definition conserved (s : st W) : Prop :=
  buffered (s_trace s) = drained (s_trace s) ++ fb_records (s_buf s).

Definition conserves (s t : st W) : Prop := conserved s -> conserved t.

Lemma buffered_snoc tr e :
  buffered (tr ++ [e]) = buffered tr ++ match e with EvBuffer rs => rs | _ => [] end.
Proof. unfold buffered. rewrite omap_app, join_app. destruct e; simpl; by rewrite ?app_nil_r. Qed.
Lemma drained_snoc tr e :
  drained (tr ++ [e]) = drained tr ++ match e with EvDrain rs => rs | _ => [] end.
Proof. unfold drained. rewrite omap_app, join_app. destruct e; simpl; by rewrite ?app_nil_r. Qed.

(** Logging an event that is no step of the buffer. *)
Lemma conserves_log e (s : st W) :
  match e with EvBuffer _ | EvDrain _ => False | _ => True end -> conserves s (log e s).
Proof.
  intros He. unfold conserves, conserved. simpl. rewrite buffered_snoc, drained_snoc.
  intros H. destruct e; try done; by rewrite !app_nil_r.
Qed.

Lemma conserves_stream : StreamRel conserves.
Proof.
  assert (SinkRel conserves).
  { split; [split; [by intros s H|by intros s t u H1 H2 H; apply H2, H1]|..];
      try (intros; intros Hc; exact Hc). intros e s He. apply conserves_log. by destruct e. }
  split; [split; [done|intros; intros Hc; exact Hc|]|..].
  - intros e s He. apply conserves_log. by destruct e.
  - intros f s Hf. unfold conserves, conserved. simpl. by rewrite Hf.
  - intros records s. unfold conserves, conserved. simpl. rewrite buffered_snoc, drained_snoc, app_nil_r.
    intros ->. by rewrite app_assoc.
  - intros s. unfold conserves, conserved. simpl. rewrite buffered_snoc, drained_snoc, !app_nil_r. done.
  - intros p n s. unfold gap_state. apply (conserves_log _ (set_delivery _ s)). done.
  - intros; intros Hc; exact Hc.
Qed.

Lemma ack_conserves meta d : keeps conserves (_ack_source_unit meta d).
Proof.
  intros s r t H. unfold conserves, conserved, _ack_source_unit, try_else, call_log in *.
  destruct (source_ack meta d (s_world s)) as [[?|?] w]; injection H as <- <-; simpl;
    rewrite buffered_snoc, drained_snoc, !app_nil_r; done.
Qed.

(** *** A flush leaves the buffer empty *)

(** The records and the contributors of the buffer. *)
Definition contents (s : st W) : list dict * list (dict * list dict) :=
  (fb_records (s_buf s), fb_contributors (s_buf s)).

Definition same_contents (s t : st W) : Prop := contents t = contents s.

Lemma same_contents_batch : BatchRel same_contents.
Proof.
  unfold same_contents. assert (SinkRel (fun s t : st W => contents t = contents s)).
  { split; try done. split; [done|]. intros s t u H1 H2. congruence. }
  by split.
Qed.
#[local] Existing Instance same_contents_batch.
Lemma same_contents_pre : PreOrder same_contents.
Proof. apply sr_pre. Qed.
#[local] Existing Instance same_contents_pre.

Lemma same_ack meta d : keeps same_contents (_ack_source_unit meta d).
Proof. unfold _ack_source_unit. repeat keeps_struct. by apply keeps_call_log. Qed.

Ltac same_step :=
  match goal with
  | |- keeps _ (modify _) => apply keeps_modify; done
  | |- keeps _ (call _) => apply keeps_call; done
  | |- keeps _ (call_res _) => apply keeps_call_res; done
  | |- keeps _ (_process_records _ _ _ _ _) => apply keeps_process_records; apply br_sink
  | |- keeps _ (_filter_by_condition _ _) => apply keeps_filter; apply br_sink
  | |- keeps _ (take_unit_call _) => apply keeps_take_unit; apply _
  | |- keeps _ _ => solve [auto with keeps]
  end.

Lemma same_any_selected sinks recs : keeps same_contents (any_selected sinks recs).
Proof. induction sinks as [|e sinks IH]; simpl; repeat (same_step || keeps_struct). Qed.

Lemma flush_empties c hs (s : st W) r t :
  _flush_stream_buffer c hs s = (r, t) -> contents t = ([], []).
Proof.
  unfold _flush_stream_buffer. intros H. apply bind_inv in H as [(entry & s1 & H1 & H)|(e & H1 & _)];
    unfold drain in H1.
  2: { apply bind_inv in H1 as [(b & s0 & [= <- <-] & H1)|(? & [=] & _)].
       destruct (_ && _)%bool; [by apply pair_equal_spec in H1 as [[=] _]|].
       by apply bind_inv in H1 as [(? & ? & [= <- <-] & [=])|(? & [=] & _)]. }
  assert (contents s1 = ([], [])) as Hs1.
  { apply bind_ok in H1 as (b & s0 & [= <- <-] & H1).
    destruct (is_nil (fb_records (s_buf s))) eqn:E; simpl in H1;
      [destruct (is_nil (fb_contributors _)) eqn:E' in H1|].
    - apply ret_ok in H1 as [_ <-]. unfold contents. by destruct (fb_records (s_buf s)), (fb_contributors (s_buf s)).
    - by apply bind_ok in H1 as ([] & s2 & [= <-] & [= _ <-]).
    - by apply bind_ok in H1 as ([] & s2 & [= <-] & [= _ <-]). }
  rewrite <- Hs1. revert H. apply (fun K => K : keeps same_contents _).
  destruct entry as [[[records meta] contributors]|]; [|apply keeps_ret, _].
  unfold settle_contributor, share_cohort, buffer_complete.
  repeat (apply same_any_selected || same_step || keeps_struct).
Qed.

Lemma flush_now_empties c hs (s : st W) r t : _flush_now c hs s = (r, t) -> contents t = ([], []).
Proof.
  unfold _flush_now. intros H. apply bind_inv in H as [(b & s1 & H1 & [= _ <-])|(e & H1 & _)];
    by eapply flush_empties.
Qed.

Lemma same_brokers c sha : keeps same_contents (_decide_brokers c sha).
Proof.
  unfold _decide_brokers, _finalize_stream_broker_units, take_completed, buffer_complete, cohort_checkpoint,
    finish_record, note_gap, frontier_of.
  assert (forall f l, keeps same_contents (earlier_pending f l)) as H1.
  { intros f l; induction l as [|x l IH]; simpl; unfold frontier_of; repeat (same_step || keeps_struct). }
  assert (forall l p, keeps same_contents (held_back l p)) as H2.
  { intros l p; induction l as [|[m u] l IH]; simpl; unfold frontier_of; repeat (same_step || keeps_struct). }
  assert (forall oe tk l, keeps same_contents (decide_units oe tk l)) as H3.
  { intros oe tk l; revert tk; induction l as [|[m u] l IH]; intros tk; simpl;
      repeat (same_step || keeps_struct). }
  assert (forall l, keeps same_contents (past_gap l)) as H4.
  { intros l; induction l as [|[m d] l IH]; simpl; unfold frontier_of; repeat (same_step || keeps_struct). }
  assert (forall rcs ps l, keeps same_contents (checkpoint_identities c sha rcs ps l)) as H5.
  { intros rcs ps l; induction l as [|i l IH]; simpl;
      repeat ((apply keeps_check_unit; apply _) || same_step || keeps_struct). }
  repeat (apply same_ack || (apply keeps_commit_receipts; apply _) || (apply keeps_source_finalize; apply _)
          || same_step || keeps_struct).
Qed.

Lemma same_finalize c sha key meta u b : keeps same_contents (_finalize_batch_source_unit c sha key meta u b).
Proof.
  unfold _finalize_batch_source_unit, finalize_after_barrier.
  repeat (apply same_ack || (apply keeps_commit_receipts; apply _) || (apply keeps_source_finalize; apply _)
          || (apply keeps_sink_finalize; apply _) || (apply keeps_check_unit; apply _) || same_step || keeps_struct).
Qed.

Lemma same_finally c b : keeps same_contents (stream_finally c b).
Proof.
  unfold stream_finally. repeat ((apply keeps_close; apply _) || (apply keeps_route; apply _)
                                 || (apply keeps_save; apply _) || keeps_struct).
Qed.

(** *** The end of a run *)

Lemma try_empties c sha hs last (s t : st W) u : stream_try c sha hs last s = (Ok u, t) -> contents t = ([], []).
Proof.
  unfold stream_try. intros H. do 4 (apply bind_ok in H as (? & ? & ? & H)).
  apply same_brokers in H. unfold same_contents in H. rewrite H. by eapply flush_now_empties.
Qed.

Lemma main_empties c sha hs last (s t : st W) r : stream_main c sha hs last s = (r, t) -> contents t = ([], []).
Proof.
  unfold stream_main. intros H.
  assert (forall x u, try_else (stream_try c sha hs last)
      (fun exc => do! catch (_flush_now c hs) (fun _ => ret tt) in do! stream_finally c false in throw exc)
      (fun _ => stream_finally c true) s = (x, u) -> contents u = ([], [])) as Htry.
  { intros x u. unfold try_else. destruct (stream_try c sha hs last s) as [[[]|exc] s1] eqn:E; intros H1.
    - apply try_empties in E. apply same_finally in H1. unfold same_contents in H1. congruence.
    - assert (forall y v, catch (_flush_now c hs) (fun _ => ret tt) s1 = (y, v) -> contents v = ([], [])) as Hc.
      { intros y v. unfold catch. destruct (_flush_now c hs s1) as [[[]|e'] s2] eqn:E2; intros [= <- <-];
          by eapply flush_now_empties. }
      apply bind_inv in H1 as [([] & s2 & H1 & H2)|(e' & H1 & _)]; apply Hc in H1; [|done].
      rewrite <- H1. revert H2. apply (fun K => K : keeps same_contents _).
      repeat (apply same_finally || keeps_struct). }
  apply bind_inv in H as [([] & s1 & H1 & H)|(e & H1 & _)]; apply Htry in H1; [|done].
  rewrite <- H1. revert H. apply (fun K => K : keeps same_contents _).
  unfold stream_result. repeat (same_step || keeps_struct).
Qed.

(** The trace and the buffer up to the start of the loop. *)
Definition opens (s t : st W) : Prop :=
  s_trace t = s_trace s /\ (s_buf t = empty_buffer \/ s_buf t = s_buf s).

Lemma opens_pre : PreOrder opens.
Proof.
  split; [by intros s; split; [|right]|]. intros s t u [H1 H2] [H3 H4]. split; [congruence|].
  destruct H4 as [?| ->]; auto.
Qed.
#[local] Existing Instance opens_pre.

Ltac opens_step :=
  match goal with
  | |- keeps _ (modify _) => apply keeps_modify; intros ?; (split; [done|simpl; auto])
  | |- keeps _ (on_ctx _) => apply keeps_modify; intros ?; (split; [done|simpl; auto])
  | |- keeps _ (call _) => apply keeps_call; intros ? ?; (split; [done|simpl; auto])
  | |- keeps _ (call_res _) => apply keeps_call_res; intros ? ?; (split; [done|simpl; auto])
  end.

Lemma keeps_opens content_hash registry_url c sha : keeps opens (stream_open content_hash registry_url c sha).
Proof.
  unfold stream_open, _hydrate_state_from_store, _apply_state, start_attempt.
  repeat (opens_step || keeps_struct).
Qed.
End conservation.


(** ** The size of the buffer *)

Section bound.
Context {W : Type} {EX : External W} {SX : StreamExternal W} {PT : PyText}.
Context (c : StreamConfig).
Hypothesis threshold_positive : 0 < _effective_stream_flush_records c.

(** Fewer records and contributors than the threshold. *)
Definition below (s : st W) : Prop :=
  zlen (contents s).1 < _effective_stream_flush_records c /\
  zlen (contents s).2 < _effective_stream_flush_records c.

Lemma below_same s t : same_contents s t -> below s -> below t.
Proof. unfold same_contents, below. by intros ->. Qed.

Lemma below_flush hs s r t : _flush_now c hs s = (r, t) -> below t.
Proof. intros H. apply flush_now_empties in H. unfold below. rewrite H. done. Qed.

Lemma same_interval : keeps same_contents (interval_elapsed c).
Proof.
  pose proof (same_contents_pre (W := W)). unfold interval_elapsed.
  repeat (keeps_struct || (apply keeps_call; done)).
Qed.

Lemma below_flusher hs s r t : interval_flusher c hs s = (r, t) -> below s -> below t.
Proof.
  intros H Hs. unfold interval_flusher in H.
  apply bind_inv in H as [(awake & s1 & H1 & H)|(e & H1 & _)];
    (apply (keeps_call same_contents) in H1; [|done]); apply below_same in H1; try done.
  destruct awake; [|by apply pair_equal_spec in H as [_ <-]].
  assert (keeps same_contents (due c)) as Hdue.
  { pose proof (same_contents_pre (W := W)). unfold due.
    repeat (keeps_struct || apply same_interval). }
  apply bind_inv in H as [(d & s2 & H2 & H)|(e & H2 & _)]; apply Hdue, below_same in H2; try done.
  destruct d; [|by apply pair_equal_spec in H as [_ <-]].
  unfold catch in H. destruct (_flush_now c hs s2) as [[[]|e] s3] eqn:E; apply pair_equal_spec in H as [_ <-];
    by eapply below_flush.
Qed.

Lemma below_unit sha hs v key meta s r t : stream_unit c sha hs v key meta s = (r, t) -> below s -> below t.
Proof.
  pose proof (same_contents_pre (W := W)) as HP. pose proof (same_contents_batch (W := W)) as HB.
  assert (forall w k, keeps same_contents (enter_unit (W := W) w k meta)) as Henter
    by (intros; by apply keeps_enter_unit).
  unfold stream_unit. intros H Hs. destruct key as [key|]; [|by apply pair_equal_spec in H as [_ <-]].
  destruct (_stream_batch_broker meta).
  { revert Hs. apply below_same. revert H. apply (fun K => K : keeps same_contents _).
    repeat (keeps_struct || (apply keeps_modify; done)). }
  assert (forall m : M W loop_vars, (forall x u, m s = (x, u) -> below u) ->
    bind m (fun v => enter_unit v key meta) s = (r, t) -> below t) as Hbind.
  { intros m Hm Hb. apply bind_inv in Hb as [(w & s1 & H1 & Hb)|(e & H1 & _)]; apply Hm in H1; [|done].
    by eapply below_same, H1; eapply Henter. }
  revert H. apply Hbind. intros x u H.
  destruct (lv_key v) as [cur|], (lv_meta v) as [m|]; try (by apply pair_equal_spec in H as [_ <-]).
  destruct (decide (key = cur)); [by apply pair_equal_spec in H as [_ <-]|].
  apply bind_inv in H as [([] & s1 & H1 & H)|(e & H1 & _)]; apply below_flush in H1; [|done].
  eapply below_same, H1. revert H. apply (fun K => K : keeps same_contents _).
  repeat (apply same_finalize || keeps_struct).
Qed.

(** An [append] that asks for no flush leaves the buffer below the threshold. *)
Lemma append_below records meta b s t :
  append c records meta b s = (Ok false, t) -> below s -> below t.
Proof.
  unfold append. intros H Hs.
  destruct (_ && _)%bool; [by apply ret_ok in H as [_ <-]|].
  do 2 (apply bind_ok in H as (? & ? & _ & H)). apply bind_ok in H as (buf & s3 & [= <- <-] & H).
  match goal with H : context [s_buf ?x] |- _ => set (u := x) in H end.
  destruct (is_nil (fb_records (s_buf u)) && is_nil (fb_contributors (s_buf u)))%bool eqn:E.
  - apply ret_ok in H as [_ <-]. unfold below, contents. simpl.
    apply andb_prop in E as [E1 E2]. destruct (fb_records (s_buf u)), (fb_contributors (s_buf u)); try done.
  - destruct b; simpl in H; [by apply ret_ok in H as [[=] _]|].
    destruct (_effective_stream_flush_records c <=? zlen (fb_records (s_buf u))) eqn:E1;
      [by apply ret_ok in H as [[=] _]|].
    destruct (_effective_stream_flush_records c <=? zlen (fb_contributors (s_buf u))) eqn:E2;
      simpl in H; [by apply ret_ok in H as [[=] _]|].
    apply same_interval in H. eapply below_same; [exact H|]. bool_to_prop. unfold below, contents. simpl. lia.
Qed.

Lemma append_returns records meta b s : exists f t, append c records meta b s = (Ok f, t).
Proof.
  unfold append, add_contributor, add_records, interval_elapsed, whenM, bind, modify, get, call, ret.
  repeat case_match; simplify_eq; eauto.
Qed.
(** A program that ends with an [append]: it leaves the buffer as it was or
    answers the flush of that [append]. *)
Definition appending (m : M W bool) : Prop :=
  forall s r t, m s = (r, t) ->
    same_contents s t \/ exists u records meta b, same_contents s u /\ append c records meta b u = (r, t).

Lemma appending_bind {A} (m : M W A) (k : A -> M W bool) :
  keeps same_contents m -> (forall a, appending (k a)) -> appending (bind m k).
Proof.
  pose proof (same_contents_pre (W := W)). intros Hm Hk s r t H0.
  apply bind_inv in H0 as [(a & s1 & H1 & H0)|(e & H1 & ->)]; apply Hm in H1; [|by left].
  destruct (Hk a _ _ _ H0) as [Hc|(u & rs & me & b & Hc & Ha)]; [left; by etrans|].
  right. exists u, rs, me, b. split; [by etrans|done].
Qed.

Lemma appending_keeps (m : M W bool) : keeps same_contents m -> appending m.
Proof. intros Hm s r t H. left. by eapply Hm. Qed.

Lemma appending_append records meta b : appending (append c records meta b).
Proof.
  pose proof (same_contents_pre (W := W)). intros s r t H0. right. exists s, records, meta, b.
  split; [reflexivity|done].
Qed.

Lemma appending_catch m h : appending m -> (forall e, appending (h e)) -> appending (catch m h).
Proof.
  pose proof (same_contents_pre (W := W)). intros Hm Hh s r t. unfold catch.
  destruct (m s) as [[b|e] s1] eqn:E; intros H0.
  - apply pair_equal_spec in H0 as [<- <-]. by apply (Hm s).
  - assert (same_contents s s1) as Hs.
    { destruct (Hm _ _ _ E) as [?|(u & rs & me & b & _ & Ha)]; [done|].
      destruct (append_returns rs me b u) as (f & v & Hf). congruence. }
    destruct (Hh e _ _ _ H0) as [?|(u & rs & me & b & Hc & Ha)]; [left; by etrans|].
    right. exists u, rs, me, b. split; [by etrans|done].
Qed.

Lemma appending_chunk hs raw meta : appending (process_chunk_buffered c hs raw meta).
Proof.
  pose proof (same_contents_pre (W := W)) as HP. pose proof (same_contents_batch (W := W)) as HB.
  assert (SinkRel (W := W) same_contents) as HS by apply br_sink.
  unfold process_chunk_buffered. apply appending_bind; [apply keeps_get, _|]. intros ctx.
  apply appending_catch.
  - apply appending_bind.
    { unfold count_bytes_in. apply keeps_bind; [done|by apply keeps_on_ctx|]. intros _. by apply keeps_when_stats. }
    intros _ s r t. unfold try_else. destruct (call_res (parse raw) s) as [x s1] eqn:E.
    pose proof (keeps_call_res same_contents (parse raw) ltac:(done) _ _ _ E) as H1.
    intros H. enough (appending (match x with
       | Ok records => _ | Raise e => _ end)) as Ha by
      (destruct (Ha s1 r t ltac:(destruct x; exact H)) as [?|(u & rs & me & b & Hc & Hb)];
       [left; by etrans|right; exists u, rs, me, b; split; [by etrans|done]]).
    destruct x as [records|e]; [|apply appending_keeps; by apply keeps_parse_failed].
    apply appending_bind; [by apply keeps_on_ctx|]. intros _.
    apply appending_bind; [by apply keeps_when_stats|]. intros _.
    apply appending_bind; [apply keeps_whenM; [done|]; apply keeps_when_delivery; auto with keeps|]. intros _.
    apply appending_bind; [by apply keeps_global_transforms|]. intros survivors. apply appending_append.
  - intros exc. unfold on_tram_error.
    destruct (negb _); [apply appending_keeps, keeps_throw, _|].
    destruct (_ || _)%bool; [apply appending_keeps, keeps_throw, _|].
    apply appending_bind; [apply keeps_get, _|]. intros lost.
    destruct (_ && _)%bool; [apply appending_keeps, keeps_throw, _|].
    apply appending_bind; [by apply keeps_on_ctx|]. intros _.
    apply appending_bind; [by apply keeps_when_stats|]. intros _.
    destruct (_stream_batch_broker _); [apply appending_append|apply appending_keeps, keeps_ret, _].
Qed.

(** One item of the source. *)
Lemma body_below sha hs v last raw meta s x t :
  stream_body c sha hs v last raw meta s = (Ok x, t) -> below s -> below t.
Proof.
  pose proof (same_contents_pre (W := W)) as HP. pose proof (same_contents_batch (W := W)) as HB.
  intros H Hs. unfold stream_body in H. apply bind_ok in H as (stop & s1 & H1 & H).
  apply (keeps_call same_contents) in H1; [|done]. apply below_same in H1; [|done].
  destruct stop; [by apply ret_ok in H as [_ <-]|].
  apply bind_ok in H as ([] & s2 & H2 & H). apply below_flusher in H2; [|done].
  destruct (_stream_source_unit_key source_unit_id meta) as [key meta'].
  apply bind_ok in H as (w & s3 & H3 & H). apply below_unit in H3; [|done].
  apply bind_ok in H as (flush & s4 & H4 & H). apply bind_ok in H as ([] & s5 & H5 & H).
  apply bind_ok in H as ([] & s6 & H6 & H).
  assert (below s6) as Hs6.
  { destruct flush; [by eapply below_flush|]. apply ret_ok in H6 as [_ <-]. eapply below_flusher; [exact H5|].
    destruct (appending_chunk _ _ _ _ _ _ H4) as [Hc|(u & rs & me & b & Hc & Ha)];
      [by eapply below_same|]. eapply append_below; [exact Ha|]. by eapply below_same. }
  eapply below_same; [|exact Hs6]. revert H. apply (fun K => K : keeps same_contents _).
  unfold _maybe_persist_state. repeat (apply same_brokers || (apply keeps_save; apply _) || keeps_struct
    || (apply keeps_call; done)).
Qed.
End bound.

(** The buffer of a stream is bounded: when it holds fewer records and
    contributors than [stream_flush_records], it does so again after each
    processed item, however large the chunk is and whether or not flushes of
    the flusher thread fail. *)
Theorem stream_buffer_bounded {W} {EX : External W} {SX : StreamExternal W} {PT : PyText} c sha has_stats v last raw
  meta (s t : st W) x :
  0 < _effective_stream_flush_records c -> below c s ->
  stream_body c sha has_stats v last raw meta s = (Ok x, t) -> below c t.
Proof. intros Hp Hs H. by eapply body_below. Qed.

(** ** Gaps *)

Section gaps.
Context {W : Type} {EX : External W} {SX : StreamExternal W} {PT : PyText}.

Definition gaps_of (s : st W) : list (partition * Z) := d_broker_gaps (s_delivery s).

(** No acknowledgement at or past a gap recorded before it. *)
Definition below_gaps (tr : list event) : Prop :=
  forall h1 p g h2 meta d n, tr = h1 ++ EvGap p g :: h2 -> EvAck meta d ∈ h2 -> partition_eqb p p = true ->
    _broker_partition_frontier meta = Ok (Some (p, n)) -> n < g.

(** Every recorded gap is known to the accounting. *)
Definition gaps_known (s : st W) : Prop :=
  forall p g, EvGap p g ∈ s_trace s -> partition_eqb p p = true ->
    exists m, gap_get p (gaps_of s) = Some m /\ m <= g.

Definition respects (s t : st W) : Prop :=
  gaps_known s /\ below_gaps (s_trace s) -> gaps_known t /\ below_gaps (s_trace t).

Lemma below_gaps_snoc tr e :
  below_gaps tr ->
  (forall meta d p g n, e = EvAck meta d -> EvGap p g ∈ tr -> partition_eqb p p = true ->
     _broker_partition_frontier meta = Ok (Some (p, n)) -> n < g) ->
  below_gaps (tr ++ [e]).
Proof.
  intros Htr He h1 p g h2 meta d n Heq Hin Hp Hn.
  destruct h2 as [|x h2 _] using rev_ind; [by apply elem_of_nil in Hin|].
  rewrite app_comm_cons, app_assoc in Heq. apply app_inj_tail in Heq as [-> ->].
  apply elem_of_app in Hin as [Hin|<-%list_elem_of_singleton].
  - by eapply Htr.
  - eapply He; [reflexivity| |done|done]. rewrite elem_of_app, elem_of_cons. auto.
Qed.

Lemma gap_put_same p n l : partition_eqb p p = true -> gap_get p (gap_put p n l) = Some n.
Proof.
  intros Hp. induction l as [|[q m] l IH]; simpl; [by rewrite Hp|].
  destruct (partition_eqb p q) eqn:E; simpl; by rewrite E.
Qed.

Lemma gap_put_lower p q n m l :
  n <= default n (gap_get q l) -> gap_get p l = Some m ->
  exists m', gap_get p (gap_put q n l) = Some m' /\ m' <= m.
Proof.
  induction l as [|[k v] l IH]; simpl; [done|]. intros Hn Hm.
  destruct (partition_eqb q k) eqn:Eq; simpl in *; destruct (partition_eqb p k) eqn:Ep.
  - simplify_eq. eauto.
  - eauto with lia.
  - eauto with lia.
  - by apply IH.
Qed.

(** Steps that neither acknowledge nor record a gap. *)
Lemma respects_quiet (s t : st W) e :
  gaps_of t = gaps_of s -> s_trace t = s_trace s ++ [e] ->
  match e with EvAck _ _ | EvGap _ _ => False | _ => True end -> respects s t.
Proof.
  intros Hg Ht He [Hk Hb]. split.
  - intros p g Hin Hp. rewrite Ht in Hin. apply elem_of_app in Hin as [Hin| <-%list_elem_of_singleton]; [|done].
    rewrite Hg. by apply Hk.
  - rewrite Ht. apply below_gaps_snoc; [done|]. by intros meta d p g n ->.
Qed.

Lemma respects_same (s t : st W) : gaps_of t = gaps_of s -> s_trace t = s_trace s -> respects s t.
Proof.
  intros Hg Ht [Hk Hb]. split; [|by rewrite Ht]. intros p g. rewrite Ht, Hg. apply Hk.
Qed.

Lemma on_unit_gaps key f d : d_broker_gaps (on_unit key f d) = d_broker_gaps d.
Proof. unfold on_unit. by repeat case_match. Qed.

Lemma acct_op_gaps f d : acct_op f -> d_broker_gaps (f d) = d_broker_gaps d.
Proof.
  intros [key a b x _ _ _|key a b x|b|key a b]; simpl.
  - unfold record_loss. by rewrite on_unit_gaps.
  - unfold record_sink. by case_match.
  - done.
  - unfold record_chunk. by rewrite on_unit_gaps.
Qed.

Lemma batch_op_gaps f d : batch_op f -> d_broker_gaps (f d) = d_broker_gaps d.
Proof. intros []; simpl; try done. unfold register_unit. by case_match. Qed.

Lemma same_gaps_batch : BatchRel (fun s t : st W => gaps_of t = gaps_of s).
Proof.
  assert (SinkRel (fun s t : st W => gaps_of t = gaps_of s)).
  { split; try done; [split; [done|intros s t u H1 H2; congruence]|].
    intros f s Hf. by apply acct_op_gaps. }
  split; try done. intros f s Hf. by apply batch_op_gaps.
Qed.

Lemma respects_stream : StreamRel respects.
Proof.
  assert (SinkRel respects).
  { split; [split; [by intros s H|by intros s t u H1 H2 H; apply H2, H1]|..];
      try (intros; by apply respects_same).
    - intros f s Hf. apply respects_same; [by apply acct_op_gaps|done].
    - intros e s He. eapply respects_quiet; [done|done|by destruct e]. }
  split; [split; [done| |]|..].
  - intros f s Hf. apply respects_same; [by apply batch_op_gaps|done].
  - intros e s He. eapply respects_quiet; [done|done|by destruct e].
  - intros. by apply respects_same.
  - intros. by eapply respects_quiet.
  - intros. by eapply respects_quiet.
  - intros p n s [Hk Hb]. unfold gap_state. split.
    + intros q g Hin Hq. unfold gaps_of. simpl in *. apply elem_of_app in Hin as [Hin|Hin].
      * destruct (Hk q g Hin Hq) as (m & Hm & Hle).
        eapply gap_put_lower in Hm as (m' & -> & Hm'); [eauto with lia|].
        destruct (gap_get p _); simpl; lia.
      * apply list_elem_of_singleton in Hin as [= -> ->]. rewrite gap_put_same by done.
        eexists; split; [done|]. lia.
    + simpl. by apply below_gaps_snoc.
  - intros. apply respects_same; [apply on_unit_gaps|done].
Qed.
#[local] Existing Instance respects_stream.

(** The records of a list lie below the gaps. *)
Definition clear (s : st W) (ds : list (dict * option AckDisposition)) : Prop :=
  forall md p n m, md ∈ ds -> _broker_partition_frontier md.1 = Ok (Some (p, n)) ->
    gap_get p (gaps_of s) = Some m -> n < m.

Lemma ack_clear meta d s r (t : st W) :
  (forall p n m, _broker_partition_frontier meta = Ok (Some (p, n)) -> gap_get p (gaps_of s) = Some m -> n < m) ->
  _ack_source_unit meta d s = (r, t) -> respects s t /\ gaps_of t = gaps_of s.
Proof.
  intros Hc H. pose proof (ack_event _ _ _ _ _ H) as Ht.
  assert (gaps_of t = gaps_of s) as Hg.
  { unfold _ack_source_unit, try_else, call_log in H.
    by destruct (source_ack meta d (s_world s)) as [[?|?] w]; injection H as <- <-. }
  split; [|done]. intros [Hk Hb]. split.
  - intros p g Hin Hp. rewrite Ht in Hin. apply elem_of_app in Hin as [Hin|[=]%list_elem_of_singleton].
    rewrite Hg. by apply Hk.
  - rewrite Ht. apply below_gaps_snoc; [done|]. intros meta' d' p g n [= <- <-] Hin Hp Hn.
    destruct (Hk p g Hin Hp) as (m & Hm & Hle). specialize (Hc _ _ _ Hn Hm). lia.
Qed.

Lemma past_gap_clear ds s (t : st W) : past_gap ds s = (Ok false, t) -> t = s /\ clear s ds.
Proof.
  revert s; induction ds as [|[meta d] ds IH]; intros s; simpl; intros H.
  - apply ret_ok in H as [_ <-]. split; [done|]. intros md p n m Hin. by apply elem_of_nil in Hin.
  - apply bind_ok in H as (f & s1 & Hf & H). unfold frontier_of, lift in Hf.
    apply pair_equal_spec in Hf as [Hf <-].
    assert (past_gap ds s = (Ok false, t) /\
      forall p n m, f = Some (p, n) -> gap_get p (gaps_of s) = Some m -> n < m) as [H' Hp].
    { destruct f as [[p n]|]; [|by split].
      apply bind_ok in H as (gs & s1 & [= <- <-] & H).
      destruct (default (n + 1) (gap_get p (d_broker_gaps (s_delivery s))) <=? n) eqn:E;
        [by apply ret_ok in H as [[=] _]|]. split; [done|].
      intros p' n' m [= <- <-] Hm. unfold gaps_of in Hm. rewrite Hm in E. simpl in E. bool_to_prop. lia. }
    apply IH in H' as [-> Hc]. split; [done|]. intros md p n m [->|Hin]%elem_of_cons Hn Hm.
    + simpl in Hn. eapply Hp; [|done]. congruence.
    + by eapply Hc.
Qed.

Lemma cohort_clear c sha rcs ds s (t : st W) : cohort_checkpoint c sha rcs ds s = (Ok true, t) -> clear t ds.
Proof.
  unfold cohort_checkpoint. intros H. apply bind_ok in H as ([] & s1 & _ & H).
  apply bind_ok in H as (gap & s2 & Hg & H).
  assert (gap = false -> gaps_of t = gaps_of s2) as Hsame.
  { intros ->. pose proof same_gaps_batch as HB.
    pose proof (sr_pre (R := fun s t : st W => gaps_of t = gaps_of s)) as HP.
    revert H. apply (fun K => K : keeps (fun s t : st W => gaps_of t = gaps_of s) _).
    assert (forall rcs ps ids, keeps (fun s t : st W => gaps_of t = gaps_of s)
              (checkpoint_identities c sha rcs ps ids)) as Hids.
    { intros rcs' ps ids. induction ids as [|i ids IH]; simpl;
        repeat ((apply (keeps_check_unit _ (BR := HB))) || apply IH || keeps_struct). }
    repeat (apply Hids || (apply (keeps_br_acct _ (BR := HB)); constructor)
      || (apply keeps_call; done) || keeps_struct). }
  assert (gap = false) as ->.
  { apply bind_ok in H as ([] & ? & _ & H). apply bind_ok in H as (pend & ? & _ & H).
    apply bind_ok in H as ([] & ? & _ & H). destruct rcs; [|by apply ret_ok in H as [[=] _]].
    destruct gap; [|done]. by apply ret_ok in H as [[=] _]. }
  apply past_gap_clear in Hg as [-> Hc]. specialize (Hsame eq_refl).
  unfold clear in *. by rewrite Hsame.
Qed.

Lemma finish_clear rcs ds s r (t : st W) :
  clear s ds -> iterM (finish_record rcs true) ds s = (r, t) -> respects s t.
Proof.
  pose proof (sr_pre (R := respects)) as HP.
  revert s; induction ds as [|md ds IH]; intros s Hc H; simpl in H.
  { apply pair_equal_spec in H as [_ <-]. done. }
  assert (forall x u, finish_record rcs true md s = (x, u) -> respects s u /\ gaps_of u = gaps_of s) as Hone.
  { intros x u Hx. unfold finish_record in Hx.
    assert (forall y v, (match md.2 with Some d => whenM true (_ack_source_unit md.1 d) | None => ret tt end) s
              = (y, v) -> respects s v /\ gaps_of v = gaps_of s) as Hack.
    { intros y v Hy. destruct md.2 as [d|]; [|by apply pair_equal_spec in Hy as [_ <-]].
      eapply ack_clear; [|exact Hy]. intros p n m Hn Hm. eapply Hc; [|done|done]. by left. }
    apply bind_inv in Hx as [([] & s1 & H1 & Hx)|(e & H1 & _)]; apply Hack in H1 as [H1 G1]; [|done].
    pose proof (keeps_source_finalize _ _ _ _ _ _ Hx : respects s1 u) as H2.
    pose proof (keeps_source_finalize _ (BR := same_gaps_batch) _ _ _ _ _ Hx) as G2. simpl in G2.
    split; [by etrans|congruence]. }
  apply bind_inv in H as [([] & s1 & H1 & H)|(e & H1 & _)]; apply Hone in H1 as [H1 G1]; [|done].
  etrans; [exact H1|]. eapply IH; [|exact H]. intros md' p n m Hin Hn Hm. rewrite G1 in Hm.
  eapply Hc; [|done|done]. by right.
Qed.

Lemma plain_frontier meta : _stream_batch_broker meta = false -> _broker_partition_frontier meta = Ok None.
Proof. unfold _stream_batch_broker, _broker_partition_frontier. by destruct (_broker_meta_unit_key meta). Qed.
End gaps.


(** ** Concrete streams *)

(** The flusher thread is awake at every turn, or never. *)
Definition demo_stream (awake : bool) : StreamExternal ExecDemo.world := {|
  flusher_wakes w := (awake, w);
  deadline_reached w := (false, w);
  set_order l w := (l, w);
  set_order_perm l w := Permutation_refl l;
  flush_on_close _ := false;
  _default_stream_flush_records := 500;
  _default_stream_flush_interval := float_of_int 1 |}.

Definition stream_config (on_error : on_error_mode) : StreamConfig :=
  mkStream (ExecDemo.pipeline on_error [ExecDemo.local_sink 0 0] false None false) None None (S754_zero false).

(** A polled record at an offset of one partition. *)
Definition polled (offset : Z) : bytes * dict :=
  ([val_byte offset],
   [("kafka_topic"%string, VStr "cdr"); ("kafka_partition"%string, VInt 0);
    ("kafka_offset"%string, VInt offset); ("source_batch_end"%string, VBool true)]).

Definition polled_script (offsets : list Z) : ExecDemo.script :=
  ExecDemo.mkScript (polled <$> offsets) (fun raw => ([], None)) (fun rs => Ok (ExecDemo.byte_of <$> rs)).

Notation stream sc awake on_error writes :=
  (@stream_run ExecDemo.world (ExecDemo.demo sc) (demo_stream awake) ExecDemo.demo_text (fun _ => None) ""%string
     (stream_config on_error) ""%string true (ExecDemo.start writes)).

(** Three polls of which the second cannot be written: the first is
    acknowledged, the third is not. *)
Lemma gap_run :
  exists r t, stream (polled_script [1; 2; 3]) false OnDlq [true; false] = (Ok r, t) /\
    ExecDemo.acked t = [DELIVERED] /\ ExecDemo.written t = [[Byte.x01]; [Byte.x03]] /\
    EvGap ("kafka"%string, VStr "cdr", VInt 0) 2 ∈ s_trace t.
Proof.
  eexists _, _. split; [vm_compute; reflexivity|]. split; [reflexivity|]. split; [reflexivity|].
  simpl. repeat (apply elem_of_cons; (left; reflexivity) || right).
Qed.




(** One item of a file, well within the flush interval. *)
Definition slow_config : StreamConfig :=
  mkStream (sm_pipeline (stream_config OnContinue)) None (Some (float_of_int 60)) (S754_zero false).

Notation one_item :=
  (@stream_body ExecDemo.world (ExecDemo.demo (polled_script [])) (demo_stream false) ExecDemo.demo_text
     slow_config ""%string true no_unit (float_of_int 0) [Byte.x01; Byte.x02]
     [("source_path"%string, VStr "/in/a.cdr")] (ExecDemo.start [])).

Lemma stream_buffer_bounded_witness :
  exists x, one_item.1 = Ok x /\
    @below ExecDemo.world (demo_stream false) slow_config one_item.2 /\
    length (fb_records (s_buf one_item.2)) = 2%nat.
Proof.
  eexists. split; [vm_compute; reflexivity|]. split; [|vm_compute; reflexivity].
  eapply (@stream_buffer_bounded ExecDemo.world (ExecDemo.demo (polled_script [])) (demo_stream false)
    ExecDemo.demo_text slow_config ""%string true no_unit (float_of_int 0) [Byte.x01; Byte.x02]
    [("source_path"%string, VStr "/in/a.cdr")] (ExecDemo.start [])); [reflexivity|split; reflexivity|].
  vm_compute. reflexivity.
Defined.

(** Under [on_error: abort] a flush that fails on the flusher thread is only
    logged: of a file of two chunks the first is lost, yet the run goes on, the
    file is finalized as processed and the stream reports SUCCESS, where the
    same failure on the reading thread ends the run with the file left for a
    retry. *)
Theorem abort_ignored_by_flusher :
  (exists r t, stream (ExecDemo.plain [[Byte.x01]; [Byte.x02]]) true OnAbort [false] = (Ok r, t) /\
     rr_status r = SUCCESS /\ rr_records_failed r = 1 /\ ExecDemo.written t = [[Byte.x02]] /\
     omap (fun e => match e with EvFinalize _ b => Some b | _ => None end) (s_trace t) = [true]) /\
  (exists e t, stream (ExecDemo.plain [[Byte.x01]; [Byte.x02]]) false OnAbort [false] = (Raise e, t) /\
     omap (fun e => match e with EvFinalize _ b => Some b | _ => None end) (s_trace t) = []).
Proof. split; eexists _, _; vm_compute; auto 10. Qed.

End StreamLaws.
