(* ===== verification/WorkerPool.v ===== *)
(** * The worker pool

    src/tram/agent/worker_pool.py: the manager's registry of workers.  Its
    state is the record [pool]; one definition per method that changes it or
    decides a placement: health polling with its debounce, the handshake and
    the rotation of session secrets, fair placement, dispatch and the run
    bookkeeping.  src/tram/agent/stats_store.py: the latest statistics of
    active runs, which the load score reads.

    The network is given by arguments: what each probe and each handshake
    answers, and whether a POST of a run succeeds.  A time is in microseconds.
    The dicts whose order the code never uses are finite maps; the health map
    keeps its order. *)

From Stdlib Require Import ZArith Lia Ascii String SpecFloat.
From stdpp Require Import base tactics list strings gmap option.
From S2P Require Import Prelude PyStr Sha256 AuthTokens PyVal.
Import stdpp.list.

#[local] Open Scope Z_scope.
#[local] Open Scope list_scope.

Module StatsStore.

(** The fields of a statistics report the manager reads. *)
Record PipelineStatsPayload := mkStat {
  sp_run_id : string;
  sp_pipeline_name : string;
  sp_worker_id : string;
  sp_timestamp : Z;
  sp_bytes_in : Z;
  sp_bytes_out : Z;
  sp_uptime_seconds : spec_float }.

(** [_entries], in insertion order, and the report interval in seconds. *)
Record stats_store := mkStore { st_interval : Z; st_entries : list (string * PipelineStatsPayload) }.

Definition store_update (p : PipelineStatsPayload) (s : stats_store) : stats_store :=
  mkStore (st_interval s) (aset (sp_run_id p) p (st_entries s)).

Definition store_remove (run_id : string) (s : stats_store) : stats_store :=
  mkStore (st_interval s) (adel run_id (st_entries s)).

Definition get_by_run_id (run_id : string) (s : stats_store) : option PipelineStatsPayload :=
  aget run_id (st_entries s).

Definition is_stale (now : Z) (interval : option Z) (s : stats_store) (p : PipelineStatsPayload) : bool :=
  let i := match interval with Some i => if i =? 0 then st_interval s else i | None => st_interval s end in
  i * 3 * 1000000 <? now - sp_timestamp p.

Definition fresh (now : Z) (s : stats_store) : list PipelineStatsPayload :=
  List.filter (fun p => negb (is_stale now None s p)) (st_entries s).*2.

Definition for_pipeline (now : Z) (name : string) (s : stats_store) : list PipelineStatsPayload :=
  List.filter (fun p => String.eqb (sp_pipeline_name p) name && negb (is_stale now None s p))%bool
    (st_entries s).*2.

Definition for_worker (now : Z) (worker_id : string) (s : stats_store) : list PipelineStatsPayload :=
  List.filter (fun p => String.eqb (sp_worker_id p) worker_id && negb (is_stale now None s p))%bool
    (st_entries s).*2.
End StatsStore.

Module WorkerPool.
Import PyVal StatsStore.

(** ** State *)

Record health := mkHealth {
  h_ok : bool;
  h_active_runs : Z;
  h_running_pipelines : list string;
  h_failures : Z }.

Record session := mkSession {
  ss_session_id : string;
  ss_secret : string;
  ss_previous_secret : option string;
  ss_previous_secret_until : option Z }.

Record attempt_ref := mkAttemptRef { ar_attempt_id : string; ar_generation : Z; ar_slot_id : string }.

(** The arguments of [__init__] and the settings of src/tram/core/config.py. *)
Record pool_config := mkPoolConfig {
  pc_manager_url : string;
  pc_stats_interval : Z;
  pc_health_failures_to_down : Z;
  pc_fair_placement_threshold : Z;
  pc_auth_token_ttl_s : Z;
  pc_auth_max_ttl_s : Z;
  pc_auth_clock_skew_s : Z }.

Record pool := mkPool {
  p_workers : list string;
  p_health : list (string * health);
  p_assignments : gmap string string;
  p_run_pipelines : gmap string string;
  p_pipeline_workers : gmap string (list string);
  p_worker_ids : gmap string string;
  p_url_to_worker_id : gmap string string;
  p_attempts_by_run : gmap string attempt_ref;
  p_worker_sessions : gmap string session;
  p_session_refresh_pending : gmap string string;
  p_rr_counter : Z;
  p_starvation : gmap string Z }.

Definition with_health (f : list (string * health) -> list (string * health)) (p : pool) : pool :=
  mkPool (p_workers p) (f (p_health p)) (p_assignments p) (p_run_pipelines p) (p_pipeline_workers p)
    (p_worker_ids p) (p_url_to_worker_id p) (p_attempts_by_run p) (p_worker_sessions p)
    (p_session_refresh_pending p) (p_rr_counter p) (p_starvation p).
Definition with_runs (a r : gmap string string) (w : gmap string (list string)) (at_ : gmap string attempt_ref)
  (p : pool) : pool :=
  mkPool (p_workers p) (p_health p) a r w (p_worker_ids p) (p_url_to_worker_id p) at_ (p_worker_sessions p)
    (p_session_refresh_pending p) (p_rr_counter p) (p_starvation p).
Definition with_ids (ids urls : gmap string string) (p : pool) : pool :=
  mkPool (p_workers p) (p_health p) (p_assignments p) (p_run_pipelines p) (p_pipeline_workers p) ids urls
    (p_attempts_by_run p) (p_worker_sessions p) (p_session_refresh_pending p) (p_rr_counter p) (p_starvation p).
Definition with_sessions (s : gmap string session) (pending : gmap string string) (p : pool) : pool :=
  mkPool (p_workers p) (p_health p) (p_assignments p) (p_run_pipelines p) (p_pipeline_workers p)
    (p_worker_ids p) (p_url_to_worker_id p) (p_attempts_by_run p) s pending (p_rr_counter p) (p_starvation p).
Definition with_turns (rr : Z) (st : gmap string Z) (p : pool) : pool :=
  mkPool (p_workers p) (p_health p) (p_assignments p) (p_run_pipelines p) (p_pipeline_workers p)
    (p_worker_ids p) (p_url_to_worker_id p) (p_attempts_by_run p) (p_worker_sessions p)
    (p_session_refresh_pending p) rr st.

Definition set_health (url : string) (f : health -> health) (p : pool) : pool :=
  match aget url (p_health p) with
  | Some h => with_health (aset url (f h)) p
  | None => p
  end.

Definition set_ok (ok : bool) (h : health) : health :=
  mkHealth ok (h_active_runs h) (h_running_pipelines h) (h_failures h).
Definition add_runs (n : Z) (h : health) : health :=
  mkHealth (h_ok h) (h_active_runs h + n) (h_running_pipelines h) (h_failures h).
Definition drop_runs (n : Z) (h : health) : health :=
  mkHealth (h_ok h) (Z.max 0 (h_active_runs h - n)) (h_running_pipelines h) (h_failures h).

(** [__init__]: both limits are at least one. *)
Definition init_config (c : pool_config) : pool_config :=
  mkPoolConfig (pc_manager_url c) (pc_stats_interval c) (Z.max 1 (pc_health_failures_to_down c))
    (Z.max 1 (pc_fair_placement_threshold c)) (pc_auth_token_ttl_s c) (pc_auth_max_ttl_s c)
    (pc_auth_clock_skew_s c).

Definition init_pool (workers : list string) : pool :=
  mkPool workers
    (fold_left (fun d url => aset url (mkHealth true 0 [] 0) d) workers [])
    ∅ ∅ ∅ ∅ ∅ ∅ ∅ ∅ 0 (fold_left (fun m url => <[url := 0]> m) workers ∅).

(** ** Queries *)

Definition healthy_workers (p : pool) : list string :=
  (List.filter (fun uh : string * health => h_ok uh.2) (p_health p)).*1.

Definition is_worker_healthy (url : string) (p : pool) : bool :=
  match aget url (p_health p) with Some h => h_ok h | None => false end.

Definition float_zero : spec_float := S754_zero false.

(** [max(a, b)] on floats. *)
Definition fmax (a b : spec_float) : spec_float := if SFltb a b then b else a.

(** Bytes per second of the worker's runs, else a million per active run. *)
Definition load_score (c : pool_config) (stats : option stats_store) (now : Z) (url : string) (p : pool)
  : spec_float :=
  let reports := match stats, p_url_to_worker_id p !! url with
                 | Some s, Some wid => for_worker now wid s
                 | _, _ => []
                 end in
  let interval := float_of_int (pc_stats_interval c) in
  match reports with
  | [] =>
      let active := match aget url (p_health p) with Some h => h_active_runs h | None => 0 end in
      SFmul prec emax (float_of_int active) (float_of_int 1000000)
  | _ =>
      fold_left (fun acc s =>
        let up := if SFeqb (sp_uptime_seconds s) float_zero then interval else sp_uptime_seconds s in
        SFadd prec emax acc
          (SFdiv prec emax (float_of_int (sp_bytes_in s + sp_bytes_out s)) (fmax up interval)))
        reports float_zero
  end.

(** ** Fair placement *)

(** [sorted(urls)] and [sorted(urls, key=score)], both stable. *)
Fixpoint insert_by {A} (lt : A -> A -> bool) (x : A) (l : list A) : list A :=
  match l with
  | [] => [x]
  | y :: l' => if lt x y then x :: l else y :: insert_by lt x l'
  end.

Definition sort_by {A} (lt : A -> A -> bool) (l : list A) : list A :=
  fold_left (fun acc x => insert_by lt x acc) l [].

Definition str_ltb (a b : string) : bool := match String.compare a b with Lt => true | _ => false end.

(** [min(score(u) for u in pool)] of a non-empty pool. *)
Definition min_score (score : string -> spec_float) (u : string) (us : list string) : spec_float :=
  fold_left (fun m v => if SFltb (score v) m then score v else m) us (score u).

Definition starvation_of (p : pool) (url : string) : Z := default 0 (p_starvation p !! url).

Definition starved (c : pool_config) (p : pool) (url : string) : bool :=
  pc_fair_placement_threshold c <=? starvation_of p url.

(** Every candidate that is not selected has been skipped once more. *)
Definition count_skips (candidates selected : list string) (st : gmap string Z) : gmap string Z :=
  fold_left (fun m url => <[url := if decide (url ∈ selected) then 0 else default 0 (m !! url) + 1]> m)
    candidates st.

(** The single-slot choice; an empty tie, which no comparable scores have,
    is a division by zero. *)
Definition pick_one (c : pool_config) (score : string -> spec_float) (candidates : list string) (p : pool)
  : option string :=
  let tier := match List.filter (starved c p) candidates with [] => candidates | us => us end in
  match tier with
  | [] => None
  | u :: us =>
      let m := min_score score u us in
      let tied := sort_by str_ltb (List.filter (fun v => SFeqb (score v) m) tier) in
      tied !! Z.to_nat (p_rr_counter p mod Z.of_nat (length tied))
  end.

Definition pick_many (c : pool_config) (score : string -> spec_float) (candidates : list string) (count : Z)
  (p : pool) : list string :=
  let by_load (us : list string) := sort_by (fun a b => SFltb (score a) (score b)) us in
  let starving := by_load (List.filter (starved c p) candidates) in
  let rest := by_load (List.filter (fun u => bool_decide (u ∉ starving)) candidates) in
  take (Z.to_nat count) (starving ++ rest).

Definition _select_placements (c : pool_config) (stats : option stats_store) (now : Z)
  (healthy_urls : list string) (count : Z) (p : pool) : list string * pool :=
  match healthy_urls with
  | [] => ([], p)
  | _ =>
      let score url := load_score c stats now url p in
      if count =? 1 then
        match pick_one c score healthy_urls p with
        | Some u => ([u], with_turns (p_rr_counter p + 1) (count_skips healthy_urls [u] (p_starvation p)) p)
        | None => ([], p)
        end
      else
        let selected := pick_many c score healthy_urls count p in
        (selected, with_turns (p_rr_counter p) (count_skips healthy_urls selected (p_starvation p)) p)
  end.

Definition least_loaded (c : pool_config) (stats : option stats_store) (now : Z) (p : pool)
  : option string * pool :=
  let '(selected, p') := _select_placements c stats now (healthy_workers p) 1 p in (head selected, p').

Inductive worker_count := CountAll | Count (n : Z).

(** A validated WorkersConfig: not both fields, a positive count, distinct ids. *)
Record WorkersConfig := mkWorkers { wc_count : option worker_count; wc_worker_ids : option (list string) }.

Definition resolve (c : pool_config) (stats : option stats_store) (now : Z) (w : WorkersConfig) (p : pool)
  : list string * pool :=
  match wc_worker_ids w with
  | Some ids =>
      (omap (fun wid => match p_worker_ids p !! wid with
                        | Some url => if is_worker_healthy url p then Some url else None
                        | None => None
                        end) ids, p)
  | None =>
      let healthy := healthy_workers p in
      match wc_count w with
      | Some (Count n) => if 1 <? n then _select_placements c stats now healthy n p
                          else _select_placements c stats now healthy 1 p
      | Some CountAll => _select_placements c stats now healthy (Z.of_nat (length healthy)) p
      | None => _select_placements c stats now healthy 1 p
      end
  end.

(** ** Run bookkeeping *)

(** [pipeline_name in self._run_pipelines.values()]. *)
Definition referenced (pipeline : string) (runs : gmap string string) : bool :=
  bool_decide (pipeline ∈ (map_to_list runs).*2).

(** The locked block that records an accepted run. *)
Definition record_run (run_id pipeline url : string) (p : pool) : pool :=
  let ws := default [] (p_pipeline_workers p !! pipeline) in
  let ws' := if decide (url ∈ ws) then ws else ws ++ [url] in
  set_health url (add_runs 1)
    (with_runs (<[run_id := url]> (p_assignments p)) (<[run_id := pipeline]> (p_run_pipelines p))
       (<[pipeline := ws']> (p_pipeline_workers p)) (p_attempts_by_run p) p).

Definition adopt_stream_assignment (pipeline run_id url : string) (p : pool) : pool :=
  record_run run_id pipeline url p.

Definition register_attempt (run_id attempt_id : string) (generation : Z) (slot_id : string) (p : pool) : pool :=
  with_runs (p_assignments p) (p_run_pipelines p) (p_pipeline_workers p)
    (<[run_id := mkAttemptRef attempt_id generation slot_id]> (p_attempts_by_run p)) p.

(** [pop] of a pipeline that no run references any more. *)
Definition prune (pipeline : string) (runs : gmap string string) (ws : gmap string (list string))
  : gmap string (list string) :=
  if referenced pipeline runs then ws else delete pipeline ws.

Definition on_run_complete (run_id : string) (p : pool) : pool :=
  let runs := delete run_id (p_run_pipelines p) in
  let p1 := match p_assignments p !! run_id with
            | Some url => if String.eqb url "" then p else set_health url (drop_runs 1) p
            | None => p
            end in
  with_runs (delete run_id (p_assignments p)) runs
    (match p_run_pipelines p !! run_id with
     | Some pipeline => prune pipeline runs (p_pipeline_workers p)
     | None => p_pipeline_workers p
     end)
    (delete run_id (p_attempts_by_run p)) p1.

(** [workers.remove(url)]. *)
Fixpoint remove_first (url : string) (l : list string) : list string :=
  match l with
  | [] => []
  | x :: l' => if decide (x = url) then l' else x :: remove_first url l'
  end.

(** One reaped run. *)
Definition reap_run (url : string) (p : pool) (run_id : string) : pool :=
  let runs := delete run_id (p_run_pipelines p) in
  with_runs (delete run_id (p_assignments p)) runs
    (match p_run_pipelines p !! run_id with
     | Some pipeline =>
         prune pipeline runs
           (match p_pipeline_workers p !! pipeline with
            | Some ws => <[pipeline := remove_first url ws]> (p_pipeline_workers p)
            | None => p_pipeline_workers p
            end)
     | None => p_pipeline_workers p
     end)
    (delete run_id (p_attempts_by_run p)) p.

Definition runs_of (url : string) (p : pool) : list string :=
  (List.filter (fun ru : string * string => String.eqb ru.2 url) (map_to_list (p_assignments p))).*1.

Definition _reap_assignments_for_down_worker (url : string) (p : pool) : pool :=
  let reaped := runs_of url p in
  let p' := fold_left (reap_run url) reaped p in
  match reaped with
  | [] => p'
  | _ => set_health url (drop_runs (Z.of_nat (length reaped))) p'
  end.

(** ** Sessions *)

Definition register_worker_session (c : pool_config) (now : Z) (url session_id secret : string) (p : pool) : pool :=
  let previous :=
    match p_worker_sessions p !! url with
    | Some existing =>
        if String.eqb (ss_secret existing) secret then (None, None)
        else
          let overlap := (pc_auth_max_ttl_s c + pc_auth_clock_skew_s c) * 1000000 in
          match ss_previous_secret existing with
          | Some older =>
              if (negb (String.eqb older "") && (now <? default 0 (ss_previous_secret_until existing)))%bool
              then (Some older, ss_previous_secret_until existing)
              else (Some (ss_secret existing), Some (now + overlap))
          | None => (Some (ss_secret existing), Some (now + overlap))
          end
    | None => (None, None)
    end in
  with_sessions (<[url := mkSession session_id secret previous.1 previous.2]> (p_worker_sessions p))
    (p_session_refresh_pending p) p.

(** [_handshake_worker]; the reply is None when the exchange failed, else the
    two fields of the JSON body, stripped. *)
Definition _handshake_worker (c : pool_config) (now : Z) (url : string) (reply : option (string * string)) (p : pool)
  : bool * pool :=
  match reply with
  | None => (false, p)
  | Some (session_id, secret) =>
      if (String.eqb session_id "" || String.eqb secret "")%bool then (false, p)
      else (true, register_worker_session c now url session_id secret p)
  end.

(** ** Health polling *)

(** The result of a probe; [pr_ok = false] also when it raised. *)
Record probe := mkProbe {
  pr_ok : bool;
  pr_active_runs : Z;
  pr_running_pipelines : list string;
  pr_worker_id : string;
  pr_session_id : string }.

(** [session_refresh_pending] after a probe. *)
Definition note_session (url : string) (pr : probe) (p : pool) : gmap string string :=
  let changed := (pr_ok pr && negb (String.eqb (pr_session_id pr) "")
                  && match p_worker_sessions p !! url with
                     | Some s => negb (String.eqb (pr_session_id pr) (ss_session_id s))
                     | None => false
                     end)%bool in
  let waiting := (negb (String.eqb (pr_session_id pr) "")
                  && bool_decide (is_Some (p_session_refresh_pending p !! url)))%bool in
  if (changed || waiting)%bool then <[url := pr_session_id pr]> (p_session_refresh_pending p)
  else p_session_refresh_pending p.

Definition probed_health (c : pool_config) (initial_scan refresh : bool) (pr : probe) (h : health) : health :=
  if pr_ok pr then mkHealth (negb refresh) (pr_active_runs pr) (pr_running_pipelines pr) 0
  else
    let failures := if initial_scan then pc_health_failures_to_down c else h_failures h + 1 in
    mkHealth (if pc_health_failures_to_down c <=? failures then false else h_ok h)
      (h_active_runs h) [] failures.

Definition note_worker_id (url worker_id : string) (p : pool) : pool :=
  if String.eqb worker_id "" then p
  else
    let ids := match p_url_to_worker_id p !! url with
               | Some old => if (negb (String.eqb old "") && negb (String.eqb old worker_id))%bool
                             then delete old (p_worker_ids p) else p_worker_ids p
               | None => p_worker_ids p
               end in
    with_ids (<[worker_id := url]> ids) (<[url := worker_id]> (p_url_to_worker_id p)) p.

(** The locked block of [_poll_all] for one worker: the state, whether the
    worker was up before, and the session it waits for. *)
Definition poll_update (c : pool_config) (initial_scan : bool) (url : string) (pr : probe) (p : pool)
  : pool * bool * option string :=
  match aget url (p_health p) with
  | None => (p, false, None)
  | Some h =>
      let pending := note_session url pr p in
      let refresh := pending !! url in
      let waits := match refresh with Some s => negb (String.eqb s "") | None => false end in
      let h' := probed_health c initial_scan waits pr h in
      let p1 := with_health (aset url h') (with_sessions (p_worker_sessions p) pending p) in
      let p2 := if (h_ok h && negb (h_ok h'))%bool then _reap_assignments_for_down_worker url p1 else p1 in
      (note_worker_id url (pr_worker_id pr) p2, h_ok h, if waits then refresh else None)
  end.

(** After the handshake of a worker that waited for a session. *)
Definition poll_refresh (url session_id : string) (handshaken : bool) (p : pool) : pool :=
  let current := match p_worker_sessions p !! url with
                 | Some s => String.eqb (ss_session_id s) session_id
                 | None => false
                 end in
  let refreshed := (handshaken && current)%bool in
  let p1 := set_health url (set_ok refreshed) p in
  if refreshed then with_sessions (p_worker_sessions p1) (delete url (p_session_refresh_pending p1)) p1 else p1.

Definition poll_one (c : pool_config) (initial_scan : bool) (now : Z) (url : string) (pr : probe)
  (reply : option (string * string)) (p : pool) : pool :=
  let '(p1, prev_ok, refresh) := poll_update c initial_scan url pr p in
  if (pr_ok pr && (negb prev_ok || bool_decide (is_Some refresh)))%bool then
    let '(ok, p2) := _handshake_worker c now url reply p1 in
    match refresh with
    | Some s => poll_refresh url s ok p2
    | None => p2
    end
  else p1.

Definition _poll_all (c : pool_config) (initial_scan : bool) (now : Z) (probes : string -> probe)
  (replies : string -> option (string * string)) (p : pool) : pool :=
  fold_left (fun p url => poll_one c initial_scan now url (probes url) (replies url) p) (p_workers p) p.

(** [start]: the boot scan, then a handshake with every healthy worker. *)
Definition pool_start (c : pool_config) (now : Z) (probes : string -> probe)
  (replies : string -> option (string * string)) (p : pool) : pool :=
  let p1 := _poll_all c true now probes replies p in
  fold_left (fun p url => (_handshake_worker c now url (replies url) p).2) (healthy_workers p1) p1.

(** ** Dispatch *)

(** The body of POST /agent/run. *)
Record run_request := mkRequest {
  rq_pipeline_name : string;
  rq_yaml_text : string;
  rq_run_id : string;
  rq_schedule_type : string;
  rq_callback_url : string;
  rq_flush : bool;
  rq_attempt_id : option string;
  rq_generation : option Z;
  rq_slot_id : option string;
  rq_authorization : option string }.

(** The ledger identity of an attempt, as the callers pass it. *)
Record attempt_args := mkArgs { aa_attempt_id : option string; aa_generation : option Z; aa_slot_id : string }.

Definition _mint_authorization (c : pool_config) (now : Z) (url attempt_id run_id : string) (generation : Z)
  (slot_id : string) (p : pool) : res AuthTokens.auth_exn (option string) :=
  match p_worker_sessions p !! url with
  | None => Ok None
  | Some s =>
      let? token := AuthTokens.mint_start_authorization
        (AuthTokens.mkClaims attempt_id run_id generation slot_id (ss_session_id s) (now / 1000000)
           (pc_auth_token_ttl_s c)) (ss_secret s) in
      Ok (Some token)
  end.

Definition callback_of (c : pool_config) (callback_url : string) : string :=
  if (String.eqb callback_url "" && negb (String.eqb (pc_manager_url c) ""))%bool
  then (pc_manager_url c ++ "/api/internal/run-complete")%string else callback_url.

(** The attempt of the arguments, else the one registered for the run. *)
Definition attempt_of (run_id : string) (a : attempt_args) (p : pool) : attempt_args :=
  match aa_attempt_id a with
  | Some _ => a
  | None =>
      match p_attempts_by_run p !! run_id with
      | Some r => mkArgs (Some (ar_attempt_id r)) (Some (ar_generation r)) (ar_slot_id r)
      | None => a
      end
  end.

Definition request_of (run_id pipeline yaml schedule callback : string) (flush : bool) (a : attempt_args)
  (authorization : option string) : run_request :=
  mkRequest pipeline yaml run_id schedule callback flush (aa_attempt_id a)
    (match aa_attempt_id a with Some _ => aa_generation a | None => None end)
    (match aa_attempt_id a with
     | Some _ => if String.eqb (aa_slot_id a) "" then None else Some (aa_slot_id a)
     | None => None
     end) authorization.

(** [_dispatch_to_worker]: None on success, else the failure.  [post] answers
    the error of the POST, if any. *)
Definition _dispatch_to_worker (c : pool_config) (now : Z) (post : string -> run_request -> option string)
  (url run_id pipeline yaml schedule callback : string) (flush : bool) (a : attempt_args) (p : pool)
  : option string * pool :=
  let a := attempt_of run_id a p in
  match p_session_refresh_pending p !! url with
  | Some _ => (Some "Worker authorization session refresh pending"%string, p)
  | None =>
      let minted := match aa_attempt_id a with
                    | Some aid => _mint_authorization c now url aid run_id (default 1 (aa_generation a)) (aa_slot_id a) p
                    | None => Ok None
                    end in
      match minted with
      | Raise _ => (Some "field contains the token separator"%string, p)
      | Ok authorization =>
          match post url (request_of run_id pipeline yaml schedule (callback_of c callback) flush a authorization) with
          | Some err => (Some err, p)
          | None => (None, record_run run_id pipeline url p)
          end
      end
  end.

Record slot := mkSlot {
  sl_worker_index : nat;
  sl_worker_url : option string;
  sl_worker_id : option string;
  sl_pinned_worker_id : option string;
  sl_run_id_prefix : string;
  sl_current_run_id : option string;
  sl_running : bool;
  sl_error : option string }.

Inductive broadcast_status := BError | BRunning | BDegraded.

Record BroadcastResult := mkBroadcast {
  br_accepted : list string;
  br_run_ids : list string;
  br_rejected : list string;
  br_status : broadcast_status;
  br_slots : list slot }.

(** The worker of the [index]-th slot. *)
Definition slot_worker (w : WorkersConfig) (worker_urls : list string) (index : nat) (p : pool)
  : option string * option string :=
  match wc_worker_ids w with
  | Some ids =>
      match ids !! index with
      | Some wid =>
          (Some wid, match p_worker_ids p !! wid with
                     | Some url => if is_worker_healthy url p then Some url else None
                     | None => None
                     end)
      | None => (None, None)
      end
  | None => (None, worker_urls !! index)
  end.

Definition slot_run_id (group : string) (target_slots index : nat) : string :=
  if Nat.eqb target_slots 1 then group else (group ++ "-w" ++ py_str (Z.of_nat index))%string.

(** [or]-chain of the slot's worker id. *)
Definition slot_worker_id (pinned url : option string) (p : pool) : option string :=
  match pinned with
  | Some wid => if String.eqb wid "" then match url with Some u => p_url_to_worker_id p !! u | None => None end
                else Some wid
  | None => match url with Some u => p_url_to_worker_id p !! u | None => None end
  end.

Definition dispatch_slot (c : pool_config) (now : Z) (post : string -> run_request -> option string)
  (group pipeline yaml schedule callback : string) (w : WorkersConfig) (flush : bool) (a : attempt_args)
  (worker_urls : list string) (target_slots index : nat) (p : pool) : slot * pool :=
  let '(pinned, url) := slot_worker w worker_urls index p in
  let rid := slot_run_id group target_slots index in
  match url with
  | None => (mkSlot index None (slot_worker_id pinned None p) pinned rid None false None, p)
  | Some u =>
      let '(err, p') := _dispatch_to_worker c now post u rid pipeline yaml schedule callback flush a p in
      (mkSlot index url (slot_worker_id pinned url p') pinned rid
         (match err with None => Some rid | Some _ => None end)
         (match err with None => true | Some _ => false end) err, p')
  end.

Fixpoint dispatch_slots (c : pool_config) (now : Z) (post : string -> run_request -> option string)
  (group pipeline yaml schedule callback : string) (w : WorkersConfig) (flush : bool) (a : attempt_args)
  (worker_urls : list string) (target_slots : nat) (indices : list nat) (p : pool) : list slot * pool :=
  match indices with
  | [] => ([], p)
  | i :: indices' =>
      let '(s, p1) := dispatch_slot c now post group pipeline yaml schedule callback w flush a worker_urls
                        target_slots i p in
      let '(ss, p2) := dispatch_slots c now post group pipeline yaml schedule callback w flush a worker_urls
                         target_slots indices' p1 in
      (s :: ss, p2)
  end.

Definition target_of (w : WorkersConfig) (worker_urls : list string) : nat :=
  match wc_worker_ids w with
  | Some ids => length ids
  | None =>
      match wc_count w with
      | Some CountAll => length worker_urls
      | Some (Count n) => if n =? 0 then 1 else Z.to_nat n
      | None => 1
      end
  end.

(** What the slots add up to. *)
Definition broadcast_of (target_slots : nat) (slots : list slot) : BroadcastResult :=
  let accepted := omap (fun s => if sl_running s then sl_worker_url s else None) slots in
  let rejected := omap (fun s => match sl_error s with Some _ => sl_worker_url s | None => None end) slots in
  mkBroadcast accepted (omap sl_current_run_id slots) rejected
    (match accepted with
     | [] => BError
     | _ => if (Nat.eqb (length accepted) target_slots && Nat.eqb (length rejected) 0)%bool
            then BRunning else BDegraded
     end) slots.

Definition multi_dispatch (c : pool_config) (stats : option stats_store) (now : Z)
  (post : string -> run_request -> option string) (group pipeline yaml schedule callback : string)
  (w : WorkersConfig) (flush : bool) (a : attempt_args) (p : pool) : BroadcastResult * pool :=
  let '(worker_urls, p1) := resolve c stats now w p in
  let target_slots := target_of w worker_urls in
  match worker_urls, wc_worker_ids w with
  | [], None => (mkBroadcast [] [] [] BError [], p1)
  | _, _ =>
      let '(slots, p2) := dispatch_slots c now post group pipeline yaml schedule callback w flush a worker_urls
                            target_slots (seq 0 target_slots) p1 in
      (broadcast_of target_slots slots, p2)
  end.

Inductive dispatch_label := DISPATCH_ACCEPTED | DISPATCH_NO_CAPACITY | DISPATCH_FAILED.

Record DispatchOutcome := mkOutcome {
  do_worker_url : option string; do_outcome : dispatch_label; do_error : option string }.

Definition dispatch_with_result (c : pool_config) (stats : option stats_store) (now : Z)
  (post : string -> run_request -> option string) (run_id pipeline yaml schedule callback : string)
  (flush : bool) (a : attempt_args) (p : pool) : DispatchOutcome * pool :=
  let '(r, p') := multi_dispatch c stats now post run_id pipeline yaml schedule callback
                    (mkWorkers (Some (Count 1)) None) flush a p in
  match br_accepted r, br_rejected r with
  | u :: _, _ => (mkOutcome (Some u) DISPATCH_ACCEPTED None, p')
  | [], _ :: _ => (mkOutcome None DISPATCH_FAILED (match br_slots r with s :: _ => sl_error s | [] => None end), p')
  | [], [] => (mkOutcome None DISPATCH_NO_CAPACITY (Some "No healthy workers available for dispatch"%string), p')
  end.

Definition dispatch_to_worker (c : pool_config) (now : Z) (post : string -> run_request -> option string)
  (url run_id pipeline yaml schedule callback : string) (a : attempt_args) (p : pool) : bool * pool :=
  if is_worker_healthy url p then
    let '(err, p') := _dispatch_to_worker c now post url run_id pipeline yaml schedule callback false a p in
    (match err with None => true | Some _ => false end, p')
  else (false, p).
End WorkerPool.
