(* ===== verification/WorkerPoolLaws.v ===== *)
(** * What the worker pool guarantees

    Placement is fair while the fleet is at most one larger than the
    starvation threshold, and only then; the run bookkeeping stays consistent
    and bounded under every operation; the health debounce needs the
    configured number of failed probes; a dispatch sends a token its worker
    accepts, sends nothing while a session is being refreshed, and changes
    nothing when it fails. *)

From Stdlib Require Import ZArith Lia Ascii String SpecFloat.
From stdpp Require Import base tactics list strings gmap option.
From S2P Require Import Prelude PyStr Sha256 AuthTokens PyVal WorkerPool.
Import stdpp.list.

#[local] Open Scope Z_scope.
#[local] Open Scope list_scope.

Module WorkerPoolLaws.
Import PyVal StatsStore WorkerPool.

(** ** Sorting and choosing *)

Lemma elem_of_insert_by {A} (lt : A -> A -> bool) (x y : A) l : y ∈ insert_by lt x l <-> y = x \/ y ∈ l.
Proof.
  induction l as [|z l IH]; simpl; [rewrite list_elem_of_singleton; set_solver|].
  destruct (lt x z); rewrite !elem_of_cons; [done|]. rewrite IH. tauto.
Qed.

Lemma elem_of_sort_by {A} (lt : A -> A -> bool) (y : A) l : y ∈ sort_by lt l <-> y ∈ l.
Proof.
  unfold sort_by.
  assert (Hg : forall acc, y ∈ fold_left (fun acc x => insert_by lt x acc) l acc <-> y ∈ acc \/ y ∈ l).
  { induction l as [|x l IH]; intros acc; simpl; [set_solver|].
    rewrite IH, elem_of_insert_by, elem_of_cons. tauto. }
  rewrite Hg. set_solver.
Qed.

Lemma insert_by_perm {A} (lt : A -> A -> bool) x l : insert_by lt x l ≡ₚ x :: l.
Proof.
  induction l as [|y l IH]; simpl; [done|]. destruct (lt x y); [done|]. rewrite IH. apply Permutation_swap.
Qed.

Lemma sort_by_perm {A} (lt : A -> A -> bool) l : sort_by lt l ≡ₚ l.
Proof.
  unfold sort_by. enough (forall acc, fold_left (fun acc x => insert_by lt x acc) l acc ≡ₚ acc ++ l) as H by apply H.
  induction l as [|x l IH]; intros acc; simpl; [by rewrite app_nil_r|].
  rewrite IH, insert_by_perm. apply Permutation_middle.
Qed.

Lemma length_insert_by {A} (lt : A -> A -> bool) (x : A) l : length (insert_by lt x l) = S (length l).
Proof. induction l as [|z l IH]; simpl; [done|]. destruct (lt x z); simpl; congruence. Qed.

Lemma elem_of_lfilter {A} (f : A -> bool) l x : x ∈ List.filter f l <-> x ∈ l /\ f x = true.
Proof. by rewrite !list_elem_of_In, filter_In. Qed.

(** The minimum is the score of a member. *)
Lemma min_score_attained score u us : exists v, v ∈ u :: us /\ min_score score u us = score v.
Proof.
  unfold min_score.
  assert (Hg : forall w, w ∈ u :: us -> exists v, v ∈ u :: us /\
    fold_left (fun m v => if SFltb (score v) m then score v else m) us (score w) = score v);
    [|apply Hg; set_solver].
  assert (Hs : us ⊆ u :: us) by set_solver.
  revert Hs. generalize (u :: us). intros all.
  induction us as [|x us IH]; intros Hs w Hw; simpl; [by exists w|].
  destruct (SFltb (score x) (score w)); apply IH; set_solver.
Qed.

(** Scores that compare equal to themselves: everything but NaN. *)
Definition comparable (score : string -> spec_float) (us : list string) : Prop :=
  forall u, u ∈ us -> SFeqb (score u) (score u) = true.

Definition tier (c : pool_config) (p : pool) (us : list string) : list string :=
  match List.filter (starved c p) us with [] => us | ss => ss end.

Lemma tier_subset c p us : tier c p us ⊆ us.
Proof.
  unfold tier. intros u. destruct (List.filter _ us) eqn:E; [done|].
  rewrite <- E, elem_of_lfilter. tauto.
Qed.

Lemma tier_nonempty c p us : us <> [] -> tier c p us <> [].
Proof. unfold tier. by destruct (List.filter _ us). Qed.

Lemma tier_starved c p us u v : v ∈ us -> starved c p v = true -> u ∈ tier c p us -> starved c p u = true.
Proof.
  unfold tier. intros Hv Hs Hu.
  destruct (List.filter (starved c p) us) as [|x l] eqn:E.
  - assert (Hin : v ∈ List.filter (starved c p) us) by (rewrite elem_of_lfilter; done).
    rewrite E in Hin. set_solver.
  - rewrite <- E in Hu. apply elem_of_lfilter in Hu. tauto.
Qed.

(** A non-empty choice succeeds, inside the preferred tier. *)
Lemma pick_one_total c score us p :
  us <> [] -> comparable score us -> exists u, pick_one c score us p = Some u /\ u ∈ tier c p us.
Proof.
  intros Hne Hc. unfold pick_one. change (match List.filter (starved c p) us with
    | [] => us | s :: l => s :: l end) with (tier c p us).
  pose proof (tier_nonempty c p us Hne) as Ht. pose proof (tier_subset c p us) as Hsub.
  destruct (tier c p us) as [|u l] eqn:E; [done|].
  destruct (min_score_attained score u l) as (v & Hv & Hm).
  set (tied := sort_by str_ltb _).
  assert (Hin : v ∈ tied).
  { apply elem_of_sort_by, elem_of_lfilter. split; [done|]. rewrite Hm. apply Hc, Hsub, Hv. }
  assert (Hlen : (0 < length tied)%nat) by (destruct tied; [set_solver|simpl; lia]).
  destruct (lookup_lt_is_Some_2 tied (Z.to_nat (p_rr_counter p mod Z.of_nat (length tied)))) as [w Hw].
  { pose proof (Z.mod_pos_bound (p_rr_counter p) (Z.of_nat (length tied))). lia. }
  exists w. split; [done|].
  apply list_elem_of_lookup_2, elem_of_sort_by, elem_of_lfilter in Hw. tauto.
Qed.

(** ** Starvation counters *)

Lemma lookup_count_skips us sel st u :
  NoDup us ->
  count_skips us sel st !! u =
    if decide (u ∈ us) then Some (if decide (u ∈ sel) then 0 else default 0 (st !! u) + 1) else st !! u.
Proof.
  unfold count_skips. revert st. induction us as [|x us IH]; intros st Hnd; simpl; [done|].
  apply NoDup_cons in Hnd as [Hx Hnd]. rewrite IH by done.
  destruct (decide (u = x)) as [->|Hux].
  - rewrite decide_False by done. rewrite lookup_insert_eq.
    by rewrite (decide_True (P := x ∈ x :: us)) by set_solver.
  - rewrite lookup_insert_ne by done.
    destruct (decide (u ∈ us)) as [Hu|Hu]; [rewrite (decide_True (P := u ∈ x :: us)) by set_solver; done|].
    by rewrite (decide_False (P := u ∈ x :: us)) by set_solver.
Qed.

(** One single-slot decision over the healthy workers [us]. *)
Lemma select_one c stats now us p :
  us <> [] -> NoDup us -> comparable (fun u => load_score c stats now u p) us ->
  exists u, u ∈ tier c p us /\ _select_placements c stats now us 1 p
    = ([u], with_turns (p_rr_counter p + 1) (count_skips us [u] (p_starvation p)) p).
Proof.
  intros Hne Hnd Hc. destruct (pick_one_total c _ us p Hne Hc) as (u & Hp & Hu).
  exists u. split; [done|]. unfold _select_placements. destruct us; [done|].
  change (1 =? 1) with true. by rewrite Hp.
Qed.

Lemma starvation_after us u p rr w :
  NoDup us -> w ∈ us ->
  starvation_of (with_turns rr (count_skips us [u] (p_starvation p)) p) w
    = if decide (w = u) then 0 else starvation_of p w + 1.
Proof.
  intros Hnd Hw. unfold starvation_of. simpl. rewrite lookup_count_skips, decide_True by done. simpl.
  destruct (decide (w = u)) as [->|]; [by rewrite decide_True by set_solver|].
  by rewrite decide_False by set_solver.
Qed.

(** [placements c us ws p q]: from [p], the single-slot decisions over the
    healthy workers [us] chose [ws] in turn and led to [q].  Between two of them
    anything may happen to the pool that leaves the counters alone. *)
Inductive placements (c : pool_config) (us : list string) : list string -> pool -> pool -> Prop :=
| pl_done p : placements c us [] p p
| pl_other ws p p' q : p_starvation p' = p_starvation p -> placements c us ws p' q -> placements c us ws p q
| pl_pick stats now w ws p p' q :
    healthy_workers p = us -> comparable (fun u => load_score c stats now u p) us ->
    least_loaded c stats now p = (Some w, p') ->
    placements c us ws p' q -> placements c us (w :: ws) p q.

(** The counters of a fair fleet: a worker skipped [j] times since it was
    starved has seen each of the last [j] decisions go to a different one. *)
Definition fair (k : Z) (us : list string) (p : pool) : Prop :=
  forall w, w ∈ us -> 0 <= starvation_of p w /\
    forall j, 0 <= j -> k + j < starvation_of p w -> exists x, x ∈ us /\ x <> w /\ starvation_of p x = j.

(** [m] different counters need [m] other workers. *)
Lemma others_bound (us : list string) (w : string) (f : string -> Z) m :
  NoDup us -> w ∈ us -> (forall j, 0 <= j < Z.of_nat m -> exists x, x ∈ us /\ x <> w /\ f x = j) ->
  (m < length us)%nat.
Proof.
  intros Hnd Hw Hf. apply elem_of_Permutation in Hw as [us' Hp]. rewrite Hp in Hnd |- *. simpl.
  assert (Hsub : (Z.of_nat <$> seq 0 m) ⊆ f <$> us').
  { intros j. rewrite list_elem_of_fmap. intros (i & -> & Hi). apply elem_of_seq in Hi.
    destruct (Hf (Z.of_nat i)) as (x & Hx & Hne & <-); [lia|].
    apply list_elem_of_fmap_2. rewrite Hp in Hx. set_solver. }
  apply NoDup_submseteq in Hsub; [|apply NoDup_fmap; [intros ? ?; lia|apply NoDup_seq]].
  apply submseteq_length in Hsub. rewrite !length_fmap, length_seq in Hsub. lia.
Qed.

Lemma fair_bound k us p w :
  0 <= k -> NoDup us -> fair k us p -> w ∈ us -> starvation_of p w <= k + Z.of_nat (length us) - 1.
Proof.
  intros Hk Hnd Hf Hw. destruct (Hf w Hw) as [_ Hj].
  destruct (Z_le_gt_dec (starvation_of p w) k) as [|Hgt]; [destruct us; [set_solver|simpl; lia]|].
  pose proof (others_bound us w (starvation_of p) (Z.to_nat (starvation_of p w - k)) Hnd Hw) as Hb.
  ospecialize (Hb _); [|lia]. intros j Hjb. apply Hj; lia.
Qed.

(** A decision keeps a fleet fair that is at most one larger than the
    threshold: a worker chosen since [w] was starved is not starved yet. *)
Lemma fair_select k c us p u rr :
  pc_fair_placement_threshold c = k -> 0 <= k -> NoDup us -> Z.of_nat (length us) <= k + 1 ->
  u ∈ tier c p us -> fair k us p -> fair k us (with_turns rr (count_skips us [u] (p_starvation p)) p).
Proof.
  intros Hthr Hk Hnd Hlen Hu Hf w Hw. pose proof (tier_subset _ _ _ _ Hu) as Hus.
  rewrite starvation_after by done. pose proof (fair_bound k us p w Hk Hnd Hf Hw) as Hb.
  destruct (Hf w Hw) as [H0 Hj].
  destruct (decide (w = u)) as [->|Hwu]; [split; [lia|intros; lia]|].
  split; [lia|]. intros j Hj0 Hlt.
  destruct (decide (j = 0)) as [->|Hjp].
  { exists u. repeat split; [done|congruence|]. rewrite starvation_after, decide_True by done. done. }
  assert (Hsu : starved c p u = true).
  { apply (tier_starved c p us u w Hw); [|done]. unfold starved. apply Z.leb_le. lia. }
  destruct (Hj (j - 1)) as (x & Hx & Hne & Hxj); [lia..|].
  exists x. repeat split; [done|done|]. rewrite starvation_after by done.
  destruct (decide (x = u)) as [->|]; [|lia].
  unfold starved in Hsu. apply Z.leb_le in Hsu. lia.
Qed.

Lemma least_loaded_pick c stats now us p w p' :
  healthy_workers p = us -> NoDup us -> comparable (fun u => load_score c stats now u p) us ->
  least_loaded c stats now p = (Some w, p') ->
  w ∈ tier c p us /\ p' = with_turns (p_rr_counter p + 1) (count_skips us [w] (p_starvation p)) p.
Proof.
  unfold least_loaded. intros -> Hnd Hc. destruct us as [|x us]; [done|].
  destruct (select_one c stats now (x :: us) p) as (u & Hu & ->); [done..|]. simpl. naive_solver.
Qed.

Lemma fair_same k us p p' : p_starvation p' = p_starvation p -> fair k us p -> fair k us p'.
Proof. intros He. unfold fair, starvation_of. by rewrite He. Qed.

Lemma fair_placements k c us ws p q :
  pc_fair_placement_threshold c = k -> 0 <= k -> NoDup us -> Z.of_nat (length us) <= k + 1 ->
  fair k us p -> placements c us ws p q -> fair k us q.
Proof.
  intros Hthr Hk Hnd Hlen Hf Hp. induction Hp as [| |stats now w ws p p' q Hh Hc Hl Hp IH]; [done|..].
  - eauto using fair_same.
  - destruct (least_loaded_pick _ _ _ _ _ _ _ Hh Hnd Hc Hl) as [Hw ->]. eauto using fair_select.
Qed.

(** Decisions that never choose [w] all count against it. *)
Lemma skipped_counts c us ws p q w :
  NoDup us -> w ∈ us -> w ∉ ws -> placements c us ws p q ->
  starvation_of q w = starvation_of p w + Z.of_nat (length ws).
Proof.
  intros Hnd Hw Hws Hp. induction Hp as [p|ws p p' q He Hp IH|stats now v ws p p' q Hh Hc Hl Hp IH].
  - simpl. lia.
  - rewrite (IH Hws). unfold starvation_of. by rewrite He.
  - destruct (least_loaded_pick _ _ _ _ _ _ _ Hh Hnd Hc Hl) as [_ ->].
    rewrite IH by set_solver. rewrite starvation_after, decide_False by set_solver. simpl length. lia.
Qed.

Lemma placements_app_inv c us ws1 ws2 p q :
  placements c us (ws1 ++ ws2) p q -> exists m, placements c us ws1 p m /\ placements c us ws2 m q.
Proof.
  intros Hp. remember (ws1 ++ ws2) as ws eqn:E. revert ws1 E.
  induction Hp as [p|ws p p' q He Hp IH|stats now v ws p p' q Hh Hc Hl Hp IH]; intros ws1 E.
  - destruct ws1, ws2; try done. exists p. split; constructor.
  - destruct (IH ws1 E) as (m & H1 & H2). exists m. split; [eapply pl_other; eauto|done].
  - destruct ws1 as [|x ws1]; simpl in E.
    + exists p. split; [constructor|]. subst ws2. eapply pl_pick; eauto.
    + injection E as <- ->. destruct (IH ws1 eq_refl) as (m & H1 & H2).
      exists m. split; [eapply pl_pick; eauto|done].
Qed.

(** C27: anti-starvation of [least_loaded].  Over a fixed healthy fleet of at
    most one worker more than [fair_placement_threshold], starting from counters
    below the threshold and whatever the load scores are at each decision (they
    only have to be numbers), every window of threshold + fleet-size consecutive
    single-slot decisions chooses every worker of the fleet. *)
Theorem every_worker_placed c us before window after p q w :
  NoDup us -> Z.of_nat (length us) <= pc_fair_placement_threshold c + 1 -> 0 <= pc_fair_placement_threshold c ->
  (forall u, u ∈ us -> 0 <= starvation_of p u <= pc_fair_placement_threshold c) ->
  placements c us (before ++ window ++ after) p q ->
  pc_fair_placement_threshold c + Z.of_nat (length us) <= Z.of_nat (length window) ->
  w ∈ us -> w ∈ window.
Proof.
  intros Hnd Hlen Hk H0 Hp Hwin Hw. destruct (decide (w ∈ window)) as [|Hn]; [done|exfalso].
  apply placements_app_inv in Hp as (m & Hp1 & Hp). apply placements_app_inv in Hp as (m' & Hp2 & _).
  assert (Hf : fair (pc_fair_placement_threshold c) us p).
  { intros u Hu. specialize (H0 u Hu). split; [lia|intros; lia]. }
  eapply fair_placements in Hf; [|done..]. destruct (Hf w Hw) as [Hpos _].
  pose proof (fair_placements _ c us _ _ _ eq_refl Hk Hnd Hlen Hf Hp2) as Hf'.
  pose proof (fair_bound _ us m' w Hk Hnd Hf' Hw) as Hb.
  rewrite (skipped_counts c us window m m' w Hnd Hw Hn Hp2) in Hb. lia.
Qed.

(** A fleet with fixed loads: one active run per step down the list. *)
Definition demo_config : pool_config := mkPoolConfig "http://m" 30 2 2 600 600 5.
Definition loaded (loads : list (string * Z)) : pool :=
  let p := init_pool loads.*1 in
  with_health (fun _ => (fun ul : string * Z => (ul.1, mkHealth true ul.2 [] 0)) <$> loads) p.
Definition three : pool := loaded [("w0", 0); ("w1", 1); ("w2", 2)].
Definition four : pool := loaded [("w0", 0); ("w1", 1); ("w2", 2); ("w3", 3)].

(** [n] decisions without an event in between. *)
Fixpoint choices (c : pool_config) (now : Z) (n : nat) (p : pool) : list (option string) :=
  match n with
  | O => []
  | S n' => let '(u, p') := least_loaded c None now p in u :: choices c now n' p'
  end.

Lemma every_worker_placed_witness :
  choices demo_config 0 7 three
    = Some <$> ["w0"; "w0"; "w1"; "w2"; "w0"; "w1"; "w2"]%string
  /\ ("w2" : string) ∈ ["w0"; "w1"; "w2"; "w0"; "w1"]%string.
Proof.
  split; [vm_compute; reflexivity|].
  assert (Hp : exists q, placements demo_config ["w0"; "w1"; "w2"]%string
    (["w0"%string] ++ ["w0"; "w1"; "w2"; "w0"; "w1"]%string ++ ["w2"%string]) three q).
  { assert (Hc : forall p, p_health p = p_health three ->
      comparable (fun u => load_score demo_config None 0 u p) ["w0"; "w1"; "w2"]%string).
    { intros p Hp u Hu. unfold load_score. rewrite Hp.
      repeat (apply elem_of_cons in Hu as [->|Hu]; [vm_compute; reflexivity|]). set_solver. }
    eexists. simpl app.
    do 7 (eapply (pl_pick _ _ None 0); [vm_compute; reflexivity|apply Hc; vm_compute; reflexivity
      |vm_compute; reflexivity|]). apply pl_done. }
  destruct Hp as [q Hp].
  apply (every_worker_placed demo_config _ _ _ _ three q "w2"%string) in Hp; [done|..].
  - apply (bool_decide_unpack _). vm_compute. exact I.
  - vm_compute. discriminate.
  - vm_compute. discriminate.
  - intros u Hu. repeat (apply elem_of_cons in Hu as [->|Hu]; [vm_compute; split; discriminate|]). set_solver.
  - vm_compute. discriminate.
  - set_solver.
Defined.

(** ** One worker more than that *)

Lemma least_loaded_unique c now us p x :
  healthy_workers p = us -> us <> [] ->
  (forall u l, tier c p us = u :: l ->
     List.filter (fun v => SFeqb (load_score c None now v p)
       (min_score (fun v => load_score c None now v p) u l)) (tier c p us) = [x]) ->
  least_loaded c None now p
    = (Some x, with_turns (p_rr_counter p + 1) (count_skips us [x] (p_starvation p)) p).
Proof.
  intros Hh Hne Hx. unfold least_loaded. rewrite Hh. unfold _select_placements.
  destruct us as [|y us]; [done|]. change (1 =? 1) with true. cbv iota.
  assert (Hp : pick_one c (fun url => load_score c None now url p) (y :: us) p = Some x); [|by rewrite Hp].
  unfold pick_one. change (match List.filter (starved c p) (y :: us) with
    | [] => y :: us | s :: l => s :: l end) with (tier c p (y :: us)).
  pose proof (tier_nonempty c p (y :: us) Hne) as Ht.
  destruct (tier c p (y :: us)) as [|u l] eqn:E; [done|].
  rewrite (Hx u l eq_refl). simpl length. change (Z.of_nat 1) with 1. by rewrite Z.mod_1_r.
Qed.

(** The fleet [four] with the given counters, the last worker starved. *)
Definition turn (s0 s1 s2 : Z) (p : pool) : Prop :=
  p_health p = p_health four /\ starvation_of p "w0" = s0 /\ starvation_of p "w1" = s1 /\
  starvation_of p "w2" = s2 /\ 2 <= starvation_of p "w3".

Definition fleet4 : list string := ["w0"; "w1"; "w2"; "w3"]%string.

(** The first starved worker. *)
Definition next_turn (s0 s1 s2 : Z) : option string :=
  fst <$> head (List.filter (fun us : string * Z => 2 <=? us.2)
                  [("w0", s0); ("w1", s1); ("w2", s2); ("w3", 2)]%string).

Lemma turn_step now s0 s1 s2 p x :
  turn s0 s1 s2 p ->
  next_turn s0 s1 s2 = Some x -> x <> "w3"%string ->
  exists p', least_loaded demo_config None now p = (Some x, p') /\
    turn (if decide ("w0"%string = x) then 0 else s0 + 1) (if decide ("w1"%string = x) then 0 else s1 + 1)
      (if decide ("w2"%string = x) then 0 else s2 + 1) p'.
Proof.
  intros (Hh & H0 & H1 & H2 & H3) Hx Hne. eexists. split.
  - apply (least_loaded_unique demo_config now fleet4); [unfold healthy_workers; by rewrite Hh|done|].
    unfold tier, fleet4, load_score. rewrite Hh. unfold next_turn in Hx. simpl List.filter in *. unfold starved.
    change (pc_fair_placement_threshold demo_config) with 2.
    rewrite H0, H1, H2. rewrite (proj2 (Z.leb_le 2 (starvation_of p "w3")) H3).
    destruct (2 <=? s0), (2 <=? s1), (2 <=? s2); csimpl in Hx; injection Hx as <-; try done;
      intros u l [= <- <-]; vm_compute; reflexivity.
  - assert (Hnd : NoDup fleet4) by (apply (bool_decide_unpack _); vm_compute; exact I).
    repeat split; [exact Hh|..]; (rewrite starvation_after; [|exact Hnd|unfold fleet4; set_solver]).
    + by rewrite H0.
    + by rewrite H1.
    + by rewrite H2.
    + rewrite decide_False by congruence. lia.
Qed.

(** The three turns the fleet repeats. *)
Definition cycle (p : pool) : Prop := turn 0 2 2 p \/ turn 1 0 3 p \/ turn 2 1 0 p \/ turn 0 2 1 p \/ turn 1 0 2 p.

Lemma turns_step now p :
  cycle p -> exists x p', least_loaded demo_config None now p = (Some x, p') /\ x <> "w3"%string /\ cycle p'.
Proof.
  assert (Hgo : forall s0 s1 s2 x, turn s0 s1 s2 p -> x <> "w3"%string ->
    (forall p', turn (if decide ("w0"%string = x) then 0 else s0 + 1) (if decide ("w1"%string = x) then 0 else s1 + 1)
      (if decide ("w2"%string = x) then 0 else s2 + 1) p' -> cycle p') ->
    next_turn s0 s1 s2 = Some x ->
    exists x p', least_loaded demo_config None now p = (Some x, p') /\ x <> "w3"%string /\ cycle p').
  { intros s0 s1 s2 x Ht Hx Hc Hn. destruct (turn_step now s0 s1 s2 p x Ht Hn Hx) as (p' & Hl & Ht').
    exists x, p'. auto. }
  intros [H|[H|[H|[H|H]]]];
    (eapply Hgo; [exact H| |intros p'; unfold cycle|reflexivity]; [discriminate|simpl; tauto]).
Qed.

Lemma cycle_choices now n p : cycle p -> Some "w3"%string ∉ choices demo_config now n p.
Proof.
  revert p. induction n as [|n IH]; intros p Hc; [set_solver|].
  destruct (turns_step now p Hc) as (x & p' & Hl & Hx & Hc').
  change (choices demo_config now (S n) p)
    with (let '(u, p') := least_loaded demo_config None now p in u :: choices demo_config now n p').
  rewrite Hl. apply not_elem_of_cons. split; [congruence|by apply IH].
Qed.

(** The default threshold of two does not cover four workers.  With fixed
    loads of 0, 1, 2 and 3 active runs no number of single-slot decisions ever
    chooses the most loaded worker, however starved it gets: the three others
    become starved again in time to be promoted before it. *)
Theorem fourth_worker_never_placed now n : Some "w3"%string ∉ choices demo_config now n four.
Proof.
  destruct n as [|[|n]]; [set_solver|vm_compute; set_solver|].
  change (choices demo_config now (S (S n)) four)
    with (let '(u, p1) := least_loaded demo_config None now four in
          u :: (let '(v, p2) := least_loaded demo_config None now p1 in v :: choices demo_config now n p2)).
  set (p1 := (least_loaded demo_config None now four).2).
  set (p2 := (least_loaded demo_config None now p1).2).
  assert (H1 : least_loaded demo_config None now four = (Some "w0"%string, p1)) by (vm_compute; reflexivity).
  assert (H2 : least_loaded demo_config None now p1 = (Some "w0"%string, p2)) by (vm_compute; reflexivity).
  assert (Hc : cycle p2) by (left; vm_compute; repeat split; discriminate).
  rewrite H1, H2. clearbody p1 p2.
  do 2 (apply not_elem_of_cons; split; [discriminate|]). by apply cycle_choices.
Qed.

(** ** The run bookkeeping *)

(** Assignments and run pipelines cover the same runs; a pipeline has a worker
    list exactly while a run references it; the list names every worker that
    has a run of the pipeline. *)
Record booked (p : pool) : Prop := mkBooked {
  bk_runs : forall r, is_Some (p_assignments p !! r) <-> is_Some (p_run_pipelines p !! r);
  bk_pipelines : forall pl, is_Some (p_pipeline_workers p !! pl) <-> exists r, p_run_pipelines p !! r = Some pl;
  bk_workers : forall r u pl, p_assignments p !! r = Some u -> p_run_pipelines p !! r = Some pl ->
    exists ws, p_pipeline_workers p !! pl = Some ws /\ u ∈ ws }.

(** The same with one worker's runs left out of the last clause: the state in
    the middle of a reap. *)
Record booked_but (x : option string) (p : pool) : Prop := mkBookedBut {
  bb_runs : forall r, is_Some (p_assignments p !! r) <-> is_Some (p_run_pipelines p !! r);
  bb_pipelines : forall pl, is_Some (p_pipeline_workers p !! pl) <-> exists r, p_run_pipelines p !! r = Some pl;
  bb_workers : forall r u pl, Some u <> x -> p_assignments p !! r = Some u -> p_run_pipelines p !! r = Some pl ->
    exists ws, p_pipeline_workers p !! pl = Some ws /\ u ∈ ws }.

Lemma booked_but_none p : booked p <-> booked_but None p.
Proof. split; intros [H1 H2 H3]; split; eauto. Qed.

Lemma booked_weaken x p : booked p -> booked_but x p.
Proof. intros [H1 H2 H3]; split; eauto. Qed.

Lemma booked_init ws : booked (init_pool ws).
Proof.
  split; simpl; intros *; rewrite ?lookup_empty.
  - done.
  - split; [by intros [? ?]|]. intros [r Hr]. by rewrite lookup_empty in Hr.
  - done.
Qed.

(** Only the three maps matter. *)
Definition same_books (p p' : pool) : Prop :=
  p_assignments p' = p_assignments p /\ p_run_pipelines p' = p_run_pipelines p /\
  p_pipeline_workers p' = p_pipeline_workers p.

Lemma booked_same x p p' : same_books p p' -> booked_but x p -> booked_but x p'.
Proof. intros (Ha & Hr & Hw) [H1 H2 H3]. split; rewrite ?Ha, ?Hr, ?Hw; eauto. Qed.

Lemma same_books_trans p q r : same_books p q -> same_books q r -> same_books p r.
Proof. unfold same_books. intuition congruence. Qed.

Lemma set_health_books u f p : same_books p (set_health u f p).
Proof. unfold set_health. by destruct (aget u (p_health p)). Qed.

Lemma set_health_attempts u f p : p_attempts_by_run (set_health u f p) = p_attempts_by_run p.
Proof. unfold set_health. by destruct (aget u (p_health p)). Qed.

Lemma is_Some_insert_iff {A} (m : gmap string A) i (x : A) j :
  is_Some (<[i := x]> m !! j) <-> i = j \/ is_Some (m !! j).
Proof. apply lookup_insert_is_Some'. Qed.

(** A run id keeps its pipeline. *)
Definition keeps_pipeline (r pl : string) (p : pool) : Prop :=
  forall pl', p_run_pipelines p !! r = Some pl' -> pl' = pl.

Lemma record_run_books r pl u p :
  keeps_pipeline r pl p -> booked p -> booked (record_run r pl u p).
Proof.
  intros Hk [H1 H2 H3]. apply booked_but_none, (booked_same _ _ _ (set_health_books _ _ _)).
  split; simpl.
  - intros r'. rewrite !is_Some_insert_iff, H1. done.
  - intros pl'. rewrite is_Some_insert_iff, H2. split.
    + intros [->|[r' Hr']]; [exists r; by rewrite lookup_insert_eq|].
      destruct (decide (r = r')) as [->|Hne]; [|exists r'; by rewrite lookup_insert_ne].
      apply Hk in Hr' as ->. exists r'. by rewrite lookup_insert_eq.
    + intros [r' Hr']. apply lookup_insert_Some in Hr' as [[-> ->]|[_ Hr']]; eauto.
  - intros r' u' pl' _ Ha Hr. set (ws := default [] (p_pipeline_workers p !! pl)) in *.
    assert (Hsub : forall v, v = u \/ v ∈ ws -> v ∈ if decide (u ∈ ws) then ws else ws ++ [u]).
    { intros v [->|Hv]; case_decide; set_solver. }
    destruct (decide (pl' = pl)) as [->|Hpl].
    + rewrite lookup_insert_eq. eexists. split; [done|]. apply Hsub.
      apply lookup_insert_Some in Ha as [[<- <-]|[Hne Ha]]; [by left|].
      rewrite lookup_insert_ne in Hr by done. destruct (H3 r' u' pl Ha Hr) as (ws' & Hws & Hin).
      right. subst ws. by rewrite Hws.
    + rewrite lookup_insert_ne by done. apply lookup_insert_Some in Hr as [[-> ->]|[Hne Hr]]; [done|].
      rewrite lookup_insert_ne in Ha by done. eauto.
Qed.

Lemma referenced_spec pl m : referenced pl m = true <-> exists r, m !! r = Some pl.
Proof.
  unfold referenced. rewrite bool_decide_eq_true, list_elem_of_fmap. split.
  - intros ([r pl'] & -> & Hr). apply elem_of_map_to_list in Hr. eauto.
  - intros [r Hr]. exists (r, pl). split; [done|]. by apply elem_of_map_to_list.
Qed.

Lemma is_Some_prune pl runs ws pl' :
  is_Some (prune pl runs ws !! pl') <->
    is_Some (ws !! pl') /\ (pl' = pl -> exists r, runs !! r = Some pl).
Proof.
  unfold prune. destruct (referenced pl runs) eqn:E.
  - apply referenced_spec in E. naive_solver.
  - rewrite lookup_delete_is_Some. split; [naive_solver|]. intros [Hs Hi]. split; [|done].
    intros <-. specialize (Hi eq_refl). apply referenced_spec in Hi. congruence.
Qed.

Lemma prune_lookup pl runs ws pl' : is_Some (prune pl runs ws !! pl') -> prune pl runs ws !! pl' = ws !! pl'.
Proof.
  unfold prune. destruct (referenced pl runs); [done|]. rewrite lookup_delete_is_Some.
  intros [Hne _]. by rewrite lookup_delete_ne.
Qed.

(** Forgetting a run, its pipeline's list first changed by [f] so that only
    the excepted worker can leave it. *)
Lemma forget_run_books x r pl p p' ws0 :
  booked_but x p -> p_run_pipelines p !! r = Some pl ->
  (forall q, is_Some (ws0 !! q) <-> is_Some (p_pipeline_workers p !! q)) ->
  (forall q ws, p_pipeline_workers p !! q = Some ws -> exists ws', ws0 !! q = Some ws' /\
     forall u, Some u <> x -> u ∈ ws -> u ∈ ws') ->
  p_assignments p' = delete r (p_assignments p) -> p_run_pipelines p' = delete r (p_run_pipelines p) ->
  p_pipeline_workers p' = prune pl (delete r (p_run_pipelines p)) ws0 ->
  booked_but x p'.
Proof.
  intros [H1 H2 H3] Hr Hdom Hws Ha' Hr' Hw'. split.
  - intros r'. rewrite Ha', Hr', !lookup_delete_is_Some, H1. done.
  - intros pl'. rewrite Hw', Hr', is_Some_prune, Hdom, H2. split.
    + intros [[r' Hr1] Hi]. destruct (decide (pl' = pl)) as [->|Hne]; [by apply Hi|].
      exists r'. rewrite lookup_delete_ne; [done|]. congruence.
    + intros [r' Hr1]. split; [|intros ->; eauto].
      exists r'. apply lookup_delete_Some in Hr1. tauto.
  - intros r' u pl' Hu Ha Hrp. rewrite Ha' in Ha. rewrite Hr' in Hrp.
    assert (Hs : is_Some (p_pipeline_workers p' !! pl')).
    { rewrite Hw', is_Some_prune, Hdom, H2. split; [|intros ->; eauto].
      exists r'. apply lookup_delete_Some in Hrp. tauto. }
    rewrite Hw' in Hs |- *. rewrite (prune_lookup _ _ _ _ Hs).
    apply lookup_delete_Some in Ha as [_ Ha]. apply lookup_delete_Some in Hrp as [_ Hrp].
    destruct (H3 r' u pl' Hu Ha Hrp) as (ws & Hw & Hin). destruct (Hws _ _ Hw) as (ws' & Hw0 & Hsub). eauto.
Qed.

Lemma unknown_run_books x r p : booked_but x p -> p_run_pipelines p !! r = None ->
  delete r (p_assignments p) = p_assignments p /\ delete r (p_run_pipelines p) = p_run_pipelines p.
Proof.
  intros [H1 _ _] Hr. split; apply delete_id; [|done].
  apply eq_None_not_Some. rewrite H1, Hr. by intros [? ?].
Qed.

Lemma on_run_complete_books r p : booked p -> booked (on_run_complete r p).
Proof.
  rewrite !booked_but_none. intros Hb. destruct (p_run_pipelines p !! r) as [pl|] eqn:Hr.
  - eapply (forget_run_books None r pl p _ (p_pipeline_workers p)); try done; [naive_solver|].
    unfold on_run_complete. simpl. by rewrite Hr.
  - destruct (unknown_run_books _ _ _ Hb Hr) as [Ha Hp]. revert Hb. apply booked_same.
    unfold on_run_complete. simpl. by rewrite Hr.
Qed.

Lemma elem_of_remove_first u v ws : u <> v -> u ∈ ws -> u ∈ remove_first v ws.
Proof. induction ws as [|x ws IH]; simpl; [done|]. intros Hne. case_decide; set_solver. Qed.

Lemma reap_run_books url r p : booked_but (Some url) p -> booked_but (Some url) (reap_run url p r).
Proof.
  intros Hb. destruct (p_run_pipelines p !! r) as [pl|] eqn:Hr.
  - set (ws0 := match p_pipeline_workers p !! pl with
                | Some ws => <[pl := remove_first url ws]> (p_pipeline_workers p)
                | None => p_pipeline_workers p
                end).
    apply (forget_run_books (Some url) r pl p _ ws0); try done; subst ws0.
    + intros q. destruct (p_pipeline_workers p !! pl) eqn:E; [|done].
      rewrite is_Some_insert_iff. split; [intros [<-|]|]; eauto.
    + intros q ws Hq. destruct (p_pipeline_workers p !! pl) as [wl|] eqn:E; [|eauto].
      destruct (decide (q = pl)) as [->|]; [|rewrite lookup_insert_ne by done; eauto].
      rewrite lookup_insert_eq. eexists. split; [done|]. intros u Hu Hin.
      apply elem_of_remove_first; congruence.
    + simpl. by rewrite Hr.
  - destruct (unknown_run_books _ _ _ Hb Hr) as [Ha Hp]. revert Hb. apply booked_same.
    unfold reap_run. simpl. by rewrite Hr.
Qed.

Lemma reap_runs_books url rs p : booked_but (Some url) p -> booked_but (Some url) (fold_left (reap_run url) rs p).
Proof. revert p. induction rs as [|r rs IH]; intros p Hb; simpl; [done|]. by apply IH, reap_run_books. Qed.

Lemma reap_runs_assignments url rs p r u :
  p_assignments (fold_left (reap_run url) rs p) !! r = Some u -> r ∉ rs /\ p_assignments p !! r = Some u.
Proof.
  revert p. induction rs as [|x rs IH]; intros p Hr; simpl in *; [set_solver|].
  apply IH in Hr as [Hn Hr]. simpl in Hr. apply lookup_delete_Some in Hr as [Hne Hr]. set_solver.
Qed.

Lemma elem_of_runs_of url p r : r ∈ runs_of url p <-> p_assignments p !! r = Some url.
Proof.
  unfold runs_of. rewrite list_elem_of_fmap. split.
  - intros ([r' u] & -> & Hr). apply elem_of_lfilter in Hr as [Hr Hu]. simpl in *.
    apply String.eqb_eq in Hu as ->. by apply elem_of_map_to_list in Hr.
  - intros Hr. exists (r, url). split; [done|]. rewrite elem_of_lfilter, elem_of_map_to_list.
    simpl. by rewrite String.eqb_refl.
Qed.

Lemma reap_books url p : booked p -> booked (_reap_assignments_for_down_worker url p).
Proof.
  intros Hb. apply (booked_weaken (Some url)), (reap_runs_books url (runs_of url p)) in Hb as [H1 H2 H3].
  assert (Hq : booked (fold_left (reap_run url) (runs_of url p) p)).
  { split; [done..|]. intros r u pl Ha. refine (H3 r u pl _ Ha). intros [= ->].
    apply reap_runs_assignments in Ha as [Hn Ha]. by apply elem_of_runs_of in Ha. }
  unfold _reap_assignments_for_down_worker. destruct (runs_of url p); [done|].
  apply booked_but_none, (booked_same _ _ _ (set_health_books _ _ _)). by apply booked_but_none.
Qed.

(** ** Every operation *)

(** A state the pool can be in: the operations of the manager in any order,
    with any answers of the network. *)
Inductive reachable (c : pool_config) (workers : list string) : pool -> Prop :=
| rc_init : reachable c workers (init_pool workers)
| rc_start now probes replies p : reachable c workers p -> reachable c workers (pool_start c now probes replies p)
| rc_poll now probes replies p :
    reachable c workers p -> reachable c workers (_poll_all c false now probes replies p)
| rc_least stats now p : reachable c workers p -> reachable c workers (least_loaded c stats now p).2
| rc_resolve stats now w p : reachable c workers p -> reachable c workers (resolve c stats now w p).2
| rc_dispatch stats now post r pl yaml sched cb flush a p :
    keeps_pipeline r pl p -> reachable c workers p ->
    reachable c workers (dispatch_with_result c stats now post r pl yaml sched cb flush a p).2
| rc_multi stats now post g pl yaml sched cb w flush a p :
    (forall n i, keeps_pipeline (slot_run_id g n i) pl p) -> reachable c workers p ->
    reachable c workers (multi_dispatch c stats now post g pl yaml sched cb w flush a p).2
| rc_to_worker now post u r pl yaml sched cb a p :
    keeps_pipeline r pl p -> reachable c workers p ->
    reachable c workers (dispatch_to_worker c now post u r pl yaml sched cb a p).2
| rc_adopt pl r u p : keeps_pipeline r pl p -> reachable c workers p ->
    reachable c workers (adopt_stream_assignment pl r u p)
| rc_attempt r aid gen sl p : reachable c workers p -> reachable c workers (register_attempt r aid gen sl p)
| rc_complete r p : reachable c workers p -> reachable c workers (on_run_complete r p)
| rc_session now u sid secret p :
    reachable c workers p -> reachable c workers (register_worker_session c now u sid secret p).

Lemma same_booked p p' : same_books p p' -> booked p -> booked p'.
Proof. rewrite !booked_but_none. apply booked_same. Qed.

Lemma handshake_books c now u reply p : same_books p (_handshake_worker c now u reply p).2.
Proof.
  unfold _handshake_worker. destruct reply as [[sid sec]|]; [|done].
  by destruct (String.eqb sid "" || String.eqb sec "")%bool.
Qed.

Lemma note_worker_id_books u wid p : same_books p (note_worker_id u wid p).
Proof. unfold note_worker_id. by destruct (String.eqb wid ""). Qed.

Lemma poll_update_books c init u pr p : booked p -> booked (poll_update c init u pr p).1.1.
Proof.
  intros Hb. unfold poll_update. destruct (aget u (p_health p)) as [h|]; [|done]. simpl.
  eapply same_booked; [apply note_worker_id_books|].
  set (p1 := with_health _ _). assert (H1 : booked p1) by (revert Hb; by apply same_booked).
  case_match; [by apply reap_books|done].
Qed.

Lemma poll_refresh_books u sid ok p : same_books p (poll_refresh u sid ok p).
Proof.
  unfold poll_refresh. case_match; [|apply set_health_books].
  eapply same_books_trans; [apply set_health_books|done].
Qed.

Lemma poll_one_books c init now u pr reply p : booked p -> booked (poll_one c init now u pr reply p).
Proof.
  intros Hb. unfold poll_one. pose proof (poll_update_books c init u pr p Hb) as H1.
  destruct (poll_update c init u pr p) as [[p1 prev] refresh]. simpl in H1.
  case_match; [|done]. pose proof (handshake_books c now u reply p1) as H2.
  destruct (_handshake_worker c now u reply p1) as [ok p2]. simpl in H2.
  assert (Hb2 : booked p2) by eauto using same_booked.
  destruct refresh; [|done]. eapply same_booked; [apply poll_refresh_books|done].
Qed.

Lemma fold_left_booked {A} (f : pool -> A -> pool) l p :
  (forall p x, booked p -> booked (f p x)) -> booked p -> booked (fold_left f l p).
Proof. intros Hf. revert p. induction l as [|x l IH]; intros p Hb; simpl; [done|]. by apply IH, Hf. Qed.

Lemma poll_all_books c init now probes replies p : booked p -> booked (_poll_all c init now probes replies p).
Proof. intros Hb. apply fold_left_booked; [|done]. intros. by apply poll_one_books. Qed.

Lemma select_books c stats now us n p : same_books p (_select_placements c stats now us n p).2.
Proof.
  unfold _select_placements. destruct us; [done|]. destruct (n =? 1); [|done].
  by destruct (pick_one _ _ _ p).
Qed.

Lemma resolve_books c stats now w p : same_books p (resolve c stats now w p).2.
Proof.
  unfold resolve. destruct (wc_worker_ids w); [done|].
  destruct (wc_count w) as [[|n]|]; [|destruct (1 <? n)|]; apply select_books.
Qed.

(** A dispatch records the run or leaves the pool alone. *)
Lemma dispatch_cases c now post u r pl yaml sched cb flush a p :
  let '(err, p') := _dispatch_to_worker c now post u r pl yaml sched cb flush a p in
  (err = None /\ p' = record_run r pl u p) \/ ((exists e, err = Some e) /\ p' = p).
Proof.
  unfold _dispatch_to_worker. destruct (p_session_refresh_pending p !! u); [right; eauto|].
  destruct (match aa_attempt_id (attempt_of r a p) with Some _ => _ | None => _ end); [|right; eauto].
  destruct (post u _); [right|left]; eauto.
Qed.

Lemma record_run_pipelines r pl u p :
  p_run_pipelines (record_run r pl u p) = <[r := pl]> (p_run_pipelines p).
Proof. unfold record_run. by destruct (set_health_books u (add_runs 1) (with_runs
  (<[r := u]> (p_assignments p)) (<[r := pl]> (p_run_pipelines p))
  (<[pl := if decide (u ∈ default [] (p_pipeline_workers p !! pl)) then default [] (p_pipeline_workers p !! pl)
           else default [] (p_pipeline_workers p !! pl) ++ [u]]> (p_pipeline_workers p))
  (p_attempts_by_run p) p)) as (_ & -> & _). Qed.

Lemma keeps_pipeline_record r pl r' u p :
  keeps_pipeline r pl p -> keeps_pipeline r pl (record_run r' pl u p).
Proof.
  intros Hk q. rewrite record_run_pipelines. intros [[_ <-]|[_ Hq]]%lookup_insert_Some; auto.
Qed.

Lemma dispatch_books c now post u r pl yaml sched cb flush a p :
  keeps_pipeline r pl p -> booked p ->
  booked (_dispatch_to_worker c now post u r pl yaml sched cb flush a p).2.
Proof.
  intros Hk Hb. pose proof (dispatch_cases c now post u r pl yaml sched cb flush a p) as H.
  destruct (_dispatch_to_worker _ _ _ _ _ _ _ _ _ _ _ p) as [err p'].
  destruct H as [[_ ->]|[_ ->]]; [by apply record_run_books|done].
Qed.

Lemma dispatch_keeps c now post u r pl yaml sched cb flush a p r' :
  keeps_pipeline r' pl p ->
  keeps_pipeline r' pl (_dispatch_to_worker c now post u r pl yaml sched cb flush a p).2.
Proof.
  intros Hk. pose proof (dispatch_cases c now post u r pl yaml sched cb flush a p) as H.
  destruct (_dispatch_to_worker _ _ _ _ _ _ _ _ _ _ _ p) as [err p'].
  destruct H as [[_ ->]|[_ ->]]; [by apply keeps_pipeline_record|done].
Qed.

Lemma dispatch_slots_books c now post g pl yaml sched cb w flush a urls n is_ p :
  (forall i, keeps_pipeline (slot_run_id g n i) pl p) -> booked p ->
  booked (dispatch_slots c now post g pl yaml sched cb w flush a urls n is_ p).2.
Proof.
  revert p. induction is_ as [|i is_ IH]; intros p Hk Hb; simpl; [done|].
  assert (H1 : booked (dispatch_slot c now post g pl yaml sched cb w flush a urls n i p).2 /\
    forall j, keeps_pipeline (slot_run_id g n j) pl (dispatch_slot c now post g pl yaml sched cb w flush a urls n i p).2).
  { unfold dispatch_slot. destruct (slot_worker w urls i p) as [pin [u|]]; [|done].
    pose proof (dispatch_books c now post u (slot_run_id g n i) pl yaml sched cb flush a p (Hk i) Hb) as Hd.
    pose proof (fun j => dispatch_keeps c now post u (slot_run_id g n i) pl yaml sched cb flush a p _ (Hk j)) as Hj.
    by destruct (_dispatch_to_worker c now post u _ pl yaml sched cb flush a p). }
  destruct (dispatch_slot c now post g pl yaml sched cb w flush a urls n i p) as [sl p1]. simpl in H1.
  destruct H1 as [Hb1 Hk1]. specialize (IH p1 Hk1 Hb1).
  by destruct (dispatch_slots c now post g pl yaml sched cb w flush a urls n is_ p1).
Qed.

Lemma multi_books c stats now post g pl yaml sched cb w flush a p :
  (forall i, keeps_pipeline (slot_run_id g (target_of w (resolve c stats now w p).1) i) pl p) -> booked p ->
  booked (multi_dispatch c stats now post g pl yaml sched cb w flush a p).2.
Proof.
  intros Hk Hb. unfold multi_dispatch. pose proof (resolve_books c stats now w p) as Hr.
  destruct (resolve c stats now w p) as [urls p1]. simpl in *.
  assert (Hb1 : booked p1) by eauto using same_booked.
  pose proof (dispatch_slots_books c now post g pl yaml sched cb w flush a urls (target_of w urls)
    (seq 0 (target_of w urls)) p1) as Hs.
  ospecialize (Hs _ Hb1). { intros i q Hq. apply (Hk i). destruct Hr as (_ & <- & _). done. }
  destruct urls, (wc_worker_ids w); try done; by destruct (dispatch_slots _ _ _ _ _ _ _ _ _ _ _ _ _ _ p1).
Qed.

Lemma slot_run_id_single g i : slot_run_id g 1 i = g.
Proof. done. Qed.

Lemma dispatch_result_books c stats now post r pl yaml sched cb flush a p :
  keeps_pipeline r pl p -> booked p ->
  booked (dispatch_with_result c stats now post r pl yaml sched cb flush a p).2.
Proof.
  intros Hk Hb. unfold dispatch_with_result.
  pose proof (multi_books c stats now post r pl yaml sched cb (mkWorkers (Some (Count 1)) None) flush a p) as Hm.
  ospecialize (Hm _ Hb); [intros i; exact Hk|].
  destruct (multi_dispatch _ _ _ _ _ _ _ _ _ _ _ _ p) as [br p']. by destruct (br_accepted br), (br_rejected br).
Qed.

Lemma size_list_to_set_bound (l : list string) : (size (list_to_set l : gset string) <= length l)%nat.
Proof.
  induction l as [|x l IH]; [done|]. rewrite list_to_set_cons, size_union_alt, size_singleton. simpl.
  assert (Hsub : (list_to_set l ∖ {[x]} : gset string) ⊆ list_to_set l) by set_solver.
  apply subseteq_size in Hsub. lia.
Qed.

(** C29: the run bookkeeping of the pool.  After any sequence of the pool's
    operations (boot scan, polls, placements, dispatches, adoptions, completions,
    sessions) with any answers of the network, as long as a run id is never
    reused for another pipeline: assignments and run pipelines name the same
    runs, a pipeline has a worker list exactly while a run references it, so that
    the three maps cannot outgrow the active runs, and the list contains every
    worker with a run of the pipeline. *)
Theorem pool_bookkeeping c workers p :
  reachable c workers p ->
  dom (p_assignments p) = dom (p_run_pipelines p) /\
  (forall pl, is_Some (p_pipeline_workers p !! pl) <-> exists r, p_run_pipelines p !! r = Some pl) /\
  (size (p_pipeline_workers p) <= size (p_assignments p))%nat /\
  (forall r u pl, p_assignments p !! r = Some u -> p_run_pipelines p !! r = Some pl ->
     exists ws, p_pipeline_workers p !! pl = Some ws /\ u ∈ ws).
Proof.
  intros Hr. assert (Hb : booked p).
  { induction Hr; eauto using booked_init, poll_all_books, record_run_books, on_run_complete_books,
      dispatch_result_books, multi_books; try (by apply (same_booked p)).
    - unfold pool_start. apply fold_left_booked; [|by apply poll_all_books].
      intros q x. apply same_booked, handshake_books.
    - eapply same_booked; [|exact IHHr]. unfold least_loaded.
      pose proof (select_books c stats now (healthy_workers p) 1 p) as Hs.
      by destruct (_select_placements c stats now (healthy_workers p) 1 p).
    - eapply same_booked; [apply resolve_books|done].
    - unfold dispatch_to_worker. destruct (is_worker_healthy u p); [|done].
      pose proof (dispatch_books c now post u r pl yaml sched cb false a p) as Hd.
      destruct (_dispatch_to_worker _ _ _ _ _ _ _ _ _ _ _ p). auto. }
  assert (Hdom : dom (p_assignments p) = dom (p_run_pipelines p)).
  { apply set_eq. intros r. rewrite !elem_of_dom. apply bk_runs, Hb. }
  split; [done|]. split; [apply bk_pipelines, Hb|]. split; [|apply bk_workers, Hb].
  rewrite <- !size_dom, Hdom.
  assert (Hsub : dom (p_pipeline_workers p) ⊆ list_to_set (map_to_list (p_run_pipelines p)).*2).
  { intros pl. rewrite elem_of_dom, (bk_pipelines p Hb), elem_of_list_to_set, list_elem_of_fmap.
    intros [r Hpl]. exists (r, pl). split; [done|]. by apply elem_of_map_to_list. }
  apply subseteq_size in Hsub. etrans; [exact Hsub|]. etrans; [apply size_list_to_set_bound|].
  by rewrite length_fmap, length_map_to_list, size_dom.
Qed.

Definition accept : string -> run_request -> option string := fun _ _ => None.
Definition no_attempt : attempt_args := mkArgs None None "".

Lemma pool_bookkeeping_witness :
  let p := on_run_complete "r1" (adopt_stream_assignment "pa" "r3" "w1"
    (dispatch_with_result demo_config None 0 accept "r1" "pa" "y" "batch" "" false no_attempt
       (init_pool ["w0"; "w1"]%string)).2) in
  map_to_list (p_assignments p) = [("r3", "w1")]%string /\
  (size (p_pipeline_workers p) <= size (p_assignments p))%nat.
Proof.
  intros p. split; [vm_compute; reflexivity|].
  apply (pool_bookkeeping demo_config ["w0"; "w1"]%string).
  apply rc_complete, rc_adopt; [intros q Hq; vm_compute in Hq; discriminate|].
  apply rc_dispatch; [intros q Hq; vm_compute in Hq; discriminate|]. apply rc_init.
Defined.

(** ** Health *)

Lemma aget_set_health u v f p :
  aget u (p_health (set_health v f p)) = if decide (u = v) then f <$> aget u (p_health p) else aget u (p_health p).
Proof.
  unfold set_health. destruct (decide (u = v)) as [->|Hne].
  - destruct (aget v (p_health p)) as [h|] eqn:E; [|by rewrite E]. simpl. by rewrite aget_aset.
  - destruct (aget v (p_health p)); [|done]. simpl. by apply aget_aset_ne.
Qed.

(** What a poll of [v] leaves alone of another worker [u]: its health, its
    pending refresh and its runs. *)
Record untouched (u : string) (p p' : pool) : Prop := mkUntouched {
  ut_workers : p_workers p' = p_workers p;
  ut_health : aget u (p_health p') = aget u (p_health p);
  ut_pending : p_session_refresh_pending p' !! u = p_session_refresh_pending p !! u;
  ut_runs : forall r, p_assignments p' !! r = Some u <-> p_assignments p !! r = Some u }.

Lemma untouched_refl u p : untouched u p p.
Proof. by split. Qed.
Lemma untouched_trans u p q r : untouched u p q -> untouched u q r -> untouched u p r.
Proof. intros [H0 H1 H2 H3] [G0 G1 G2 G3]. split; [congruence..|]. intros x. by rewrite G3, H3. Qed.

Lemma reap_runs_pending url rs p :
  p_session_refresh_pending (fold_left (reap_run url) rs p) = p_session_refresh_pending p /\
  p_health (fold_left (reap_run url) rs p) = p_health p /\
  p_workers (fold_left (reap_run url) rs p) = p_workers p.
Proof.
  revert p. induction rs as [|r rs IH]; intros p; simpl; [done|].
  by destruct (IH (reap_run url p r)) as (-> & -> & ->).
Qed.

Lemma reap_runs_keep url rs p r :
  r ∉ rs -> p_assignments (fold_left (reap_run url) rs p) !! r = p_assignments p !! r.
Proof.
  revert p. induction rs as [|x rs IH]; intros p Hr; simpl; [done|].
  rewrite IH by set_solver. simpl. rewrite lookup_delete_ne; set_solver.
Qed.

Lemma reap_pending v p :
  p_session_refresh_pending (_reap_assignments_for_down_worker v p) = p_session_refresh_pending p /\
  p_workers (_reap_assignments_for_down_worker v p) = p_workers p.
Proof.
  unfold _reap_assignments_for_down_worker. destruct (reap_runs_pending v (runs_of v p) p) as (<- & _ & <-).
  destruct (runs_of v p); [done|]. unfold set_health. by case_match.
Qed.

Lemma reap_assignments v p r u :
  p_assignments (_reap_assignments_for_down_worker v p) !! r = Some u <-> p_assignments p !! r = Some u /\ u <> v.
Proof.
  assert (Hf : p_assignments (_reap_assignments_for_down_worker v p)
               = p_assignments (fold_left (reap_run v) (runs_of v p) p)).
  { unfold _reap_assignments_for_down_worker. destruct (runs_of v p) eqn:E; [done|].
    by destruct (set_health_books v (drop_runs (Z.of_nat (length (s :: l)))) (fold_left (reap_run v) (s :: l) p)). }
  rewrite Hf. split.
  - intros Hr. apply reap_runs_assignments in Hr as [Hn Hr]. split; [done|]. intros ->.
    by apply elem_of_runs_of in Hr.
  - intros [Hr Hne]. rewrite reap_runs_keep; [done|]. rewrite elem_of_runs_of. congruence.
Qed.

Lemma reap_health_ne u v p : u <> v -> aget u (p_health (_reap_assignments_for_down_worker v p)) = aget u (p_health p).
Proof.
  intros Hne. unfold _reap_assignments_for_down_worker.
  destruct (reap_runs_pending v (runs_of v p) p) as (_ & Hh & _).
  destruct (runs_of v p); [by rewrite Hh|]. by rewrite aget_set_health, decide_False, Hh.
Qed.

Lemma reap_untouched u v p : u <> v -> untouched u p (_reap_assignments_for_down_worker v p).
Proof.
  intros Hne. destruct (reap_pending v p) as [Hp Hw]. split; [done|by apply reap_health_ne|by rewrite Hp|].
  intros r. rewrite reap_assignments. naive_solver.
Qed.

Lemma note_session_ne u v pr p : u <> v -> note_session v pr p !! u = p_session_refresh_pending p !! u.
Proof. intros Hne. unfold note_session. case_match; [by rewrite lookup_insert_ne|done]. Qed.

Lemma set_health_untouched u v f p : u <> v -> untouched u p (set_health v f p).
Proof.
  intros Hne. split; [unfold set_health; by case_match|by rewrite aget_set_health, decide_False
    |unfold set_health; by case_match|].
  intros r. by destruct (set_health_books v f p) as [-> _].
Qed.

Lemma note_worker_id_untouched u v wid p : untouched u p (note_worker_id v wid p).
Proof. unfold note_worker_id. case_match; [apply untouched_refl|by split]. Qed.

Lemma poll_update_untouched c init u v pr p : u <> v -> untouched u p (poll_update c init v pr p).1.1.
Proof.
  intros Hne. unfold poll_update. destruct (aget v (p_health p)) as [h|]; [|apply untouched_refl]. simpl.
  eapply untouched_trans; [|apply note_worker_id_untouched]. set (p1 := with_health _ _).
  assert (H1 : untouched u p p1).
  { split; simpl; [done|by apply aget_aset_ne|by apply note_session_ne|done]. }
  case_match; [|done]. eapply untouched_trans; [exact H1|by apply reap_untouched].
Qed.

Lemma poll_one_untouched c init now u v pr reply p : u <> v -> untouched u p (poll_one c init now v pr reply p).
Proof.
  intros Hne. unfold poll_one. pose proof (poll_update_untouched c init u v pr p Hne) as H1.
  destruct (poll_update c init v pr p) as [[p1 prev] refresh]. simpl in H1. case_match; [|done].
  assert (H2 : untouched u p1 (_handshake_worker c now v reply p1).2).
  { unfold _handshake_worker. destruct reply as [[sid sec]|]; [|apply untouched_refl].
    case_match; [apply untouched_refl|by split]. }
  destruct (_handshake_worker c now v reply p1) as [ok p2]. simpl in H2.
  pose proof (untouched_trans _ _ _ _ H1 H2) as H3. destruct refresh as [sid|]; [|done].
  eapply untouched_trans; [exact H3|]. unfold poll_refresh. set (q := set_health _ _ _).
  assert (Hq : untouched u p2 q) by by apply set_health_untouched.
  case_match; [|done]. eapply untouched_trans; [exact Hq|]. split; simpl; [done|done|by rewrite lookup_delete_ne|done].
Qed.

(** The poll of one worker inside [_poll_all]. *)
Lemma poll_all_one c init now probes replies u p :
  NoDup (p_workers p) -> u ∈ p_workers p ->
  exists q, untouched u p q /\
    untouched u (poll_one c init now u (probes u) (replies u) q) (_poll_all c init now probes replies p).
Proof.
  unfold _poll_all. generalize (p_workers p). intros ws Hnd Hu.
  assert (Hskip : forall ws p, u ∉ ws -> untouched u p
    (fold_left (fun p url => poll_one c init now url (probes url) (replies url) p) ws p)).
  { clear. induction ws as [|v ws IH]; intros p Hu; [apply untouched_refl|]. simpl.
    eapply untouched_trans; [apply (poll_one_untouched c init now u v)|apply IH]; set_solver. }
  revert p. induction ws as [|v ws IH]; intros p; [set_solver|]. apply NoDup_cons in Hnd as [Hv Hnd]. simpl.
  destruct (decide (u = v)) as [<-|Hne].
  - exists p. split; [apply untouched_refl|]. by apply Hskip.
  - destruct (IH Hnd ltac:(set_solver) (poll_one c init now v (probes v) (replies v) p)) as (q & H1 & H2).
    exists q. split; [|done]. eapply untouched_trans; [by apply poll_one_untouched|done].
Qed.

(** A failed probe outside the boot scan. *)
Lemma poll_one_failed c now u pr reply p h :
  pr_ok pr = false -> aget u (p_health p) = Some h ->
  let q := poll_one c false now u pr reply p in
  let down := pc_health_failures_to_down c <=? h_failures h + 1 in
  p_workers q = p_workers p /\
  (exists h', aget u (p_health q) = Some h' /\ h_failures h' = h_failures h + 1 /\
     h_ok h' = (if down then false else h_ok h)) /\
  forall r, p_assignments q !! r = Some u <-> p_assignments p !! r = Some u /\ (h_ok h && down)%bool = false.
Proof.
  intros Hf Hh. unfold poll_one, poll_update. rewrite Hh. unfold probed_health. rewrite Hf. simpl.
  set (p1 := with_health _ _). set (down := pc_health_failures_to_down c <=? h_failures h + 1) in *.
  assert (H1 : aget u (p_health p1) = Some (mkHealth (if down then false else h_ok h) (h_active_runs h) []
    (h_failures h + 1))) by (simpl; by rewrite aget_aset).
  destruct (note_worker_id_untouched u u (pr_worker_id pr)
    (if (h_ok h && negb (if down then false else h_ok h))%bool
     then _reap_assignments_for_down_worker u p1 else p1)) as [Hw Hg _ Hr].
  rewrite Hw, Hg. destruct (h_ok h && negb (if down then false else h_ok h))%bool eqn:E.
  - assert (Hd : (h_ok h && down)%bool = true) by (destruct (h_ok h), down; done).
    destruct (reap_pending u p1) as [_ Hw1]. split; [by rewrite Hw1|]. split.
    + unfold _reap_assignments_for_down_worker. destruct (reap_runs_pending u (runs_of u p1) p1) as (_ & Hh1 & _).
      destruct (runs_of u p1); [rewrite Hh1; eauto|].
      rewrite aget_set_health, decide_True, Hh1, H1 by done. eauto.
    + intros r. rewrite Hr, reap_assignments, Hd. naive_solver.
  - assert (Hd : (h_ok h && down)%bool = false) by (destruct (h_ok h), down; done).
    split; [done|]. split; [eauto|]. intros r. rewrite Hr, Hd. simpl. tauto.
Qed.

(** Successive polls; each gives its time and the answers of the workers. *)
Definition polls (c : pool_config) (rounds : list (Z * (string -> probe) * (string -> option (string * string))))
  (p : pool) : pool :=
  fold_left (fun p rd => _poll_all c false rd.1.1 rd.1.2 rd.2 p) rounds p.

(** [u] after [n] failed polls since it was last seen. *)
Definition failing (c : pool_config) (u : string) (n : nat) (p0 p : pool) : Prop :=
  p_workers p = p_workers p0 /\
  (exists h, aget u (p_health p) = Some h /\ h_failures h = Z.of_nat n /\
     h_ok h = (Z.of_nat n <? pc_health_failures_to_down c)) /\
  forall r, p_assignments p !! r = Some u <->
    p_assignments p0 !! r = Some u /\ (Z.of_nat n <? pc_health_failures_to_down c) = true.

Lemma failing_step c u n p0 p now probes replies :
  NoDup (p_workers p0) -> u ∈ p_workers p0 -> pr_ok (probes u) = false ->
  failing c u n p0 p -> failing c u (S n) p0 (_poll_all c false now probes replies p).
Proof.
  intros Hnd Hu Hpr (Hw & (h & Hh & Hf & Hok) & Hr). rewrite <- Hw in Hnd, Hu.
  destruct (poll_all_one c false now probes replies u p Hnd Hu) as (q & [Q0 Q1 _ Q3] & [S0 S1 _ S3]).
  rewrite Hh in Q1. destruct (poll_one_failed c now u (probes u) (replies u) q h Hpr Q1) as (P0 & (h' & P1 & P2 & P3) & P4).
  unfold failing. set (K := pc_health_failures_to_down c) in *. split; [congruence|]. split.
  - exists h'. rewrite S1, P1, P2, P3, Hok, Hf. repeat split; [lia|].
    destruct (Z.leb_spec K (Z.of_nat n + 1)), (Z.ltb_spec (Z.of_nat n) K), (Z.ltb_spec (Z.of_nat (S n)) K);
      try reflexivity; lia.
  - intros r. rewrite S3, P4, Q3, Hr, Hok, Hf.
    destruct (Z.leb_spec K (Z.of_nat n + 1)), (Z.ltb_spec (Z.of_nat n) K), (Z.ltb_spec (Z.of_nat (S n)) K);
      simpl; try lia; naive_solver.
Qed.

(** Hysteresis of the health polls.  A worker last seen healthy that fails
    every probe is reported healthy, and keeps the bookkeeping of all its runs,
    exactly during the first [health_failures_to_down] - 1 polls; from that poll
    on it is down and no run is assigned to it, whatever the other workers answer
    in the meantime. *)
Theorem down_after_consecutive_failures c u h rounds p :
  NoDup (p_workers p) -> u ∈ p_workers p -> aget u (p_health p) = Some h ->
  h_ok h = true -> h_failures h = 0 -> 1 <= pc_health_failures_to_down c ->
  (forall rd, rd ∈ rounds -> pr_ok (rd.1.2 u) = false) ->
  let up := Z.of_nat (length rounds) <? pc_health_failures_to_down c in
  is_worker_healthy u (polls c rounds p) = up /\
  forall r, p_assignments (polls c rounds p) !! r = Some u <-> p_assignments p !! r = Some u /\ up = true.
Proof.
  intros Hnd Hu Hh Hok Hf HK Hrd.
  assert (Hg : forall rounds n q, (forall rd, rd ∈ rounds -> pr_ok (rd.1.2 u) = false) -> failing c u n p q ->
    failing c u (n + length rounds) p (polls c rounds q)).
  { clear rounds Hrd. induction rounds as [|rd rounds IH]; intros n q Hrd Hq; simpl; [by rewrite Nat.add_0_r|].
    rewrite <- Nat.add_succ_comm. apply IH; [set_solver|].
    apply failing_step; [done..| |done]. apply Hrd. set_solver. }
  specialize (Hg rounds O p Hrd). simpl in Hg. destruct Hg as (_ & (h' & Hh' & _ & Hok') & Hr).
  - split; [done|]. split; [|intros r; rewrite (proj2 (Z.ltb_lt _ _)); [tauto|lia]].
    exists h. rewrite Hok, Hf. repeat split; [done|]. symmetry. apply Z.ltb_lt. lia.
  - unfold is_worker_healthy. rewrite Hh'. split; [done|exact Hr].
Qed.

Definition silent_probe : probe := mkProbe false 0 [] "" "".
Definition answer (u : string) : probe :=
  if String.eqb u "w1" then silent_probe else mkProbe true 1 [] u "s0".

Lemma down_after_consecutive_failures_witness :
  let p := adopt_stream_assignment "pa" "r3" "w1" (init_pool ["w0"; "w1"]%string) in
  let round := (0, answer, fun _ => None) in
  is_worker_healthy "w1" (polls demo_config [round] p) = true /\
  p_assignments (polls demo_config [round] p) !! "r3"%string = Some "w1"%string /\
  is_worker_healthy "w1" (polls demo_config [round; round] p) = false.
Proof.
  intros p round.
  assert (Hall : forall rs rd, rs = [round] \/ rs = [round; round] -> rd ∈ rs -> pr_ok (rd.1.2 "w1"%string) = false).
  { intros rs rd [->| ->] Hin; repeat (apply elem_of_cons in Hin as [->|Hin]; [reflexivity|]); set_solver. }
  assert (Hnd : NoDup (p_workers p)) by (apply (bool_decide_unpack _); vm_compute; exact I).
  assert (Hin : ("w1" : string) ∈ p_workers p) by (vm_compute; set_solver).
  destruct (down_after_consecutive_failures demo_config "w1" (mkHealth true 1 [] 0) [round] p) as [H1 H2];
    [exact Hnd|exact Hin|reflexivity|reflexivity|reflexivity|simpl; lia|intros rd; apply Hall; auto|].
  destruct (down_after_consecutive_failures demo_config "w1" (mkHealth true 1 [] 0) [round; round] p) as [H3 _];
    [exact Hnd|exact Hin|reflexivity|reflexivity|reflexivity|simpl; lia|intros rd; apply Hall; auto|].
  split; [exact H1|]. split; [|exact H3]. apply H2. split; vm_compute; reflexivity.
Defined.

End WorkerPoolLaws.
