(* ===== verification/AgentServer.v ===== *)
(** * The worker's HTTP server

    src/tram/agent/server.py: the registry of active runs, the handlers of
    /agent/run, /agent/stop, /agent/drain, /agent/handshake, /agent/attempts and
    /agent/health, the run threads and the completion commit, over the journal.

    Handlers run in a thread pool and every run has a thread of its own, so a
    request and a run thread are small machines: [handler_step] and
    [thread_step] advance one of them from one shared access to the next, and
    [act] lets any of them move in any order.  A run object is shared by the
    registry and its thread, hence lives in a heap.

    Parameters: [load], the pipeline loader; [dumps], [json.dumps] of a
    completion payload; [exn_text], [str] of an exception; what the executor of a run came to and what the network
    answers, given with the action. *)

From Stdlib Require Import ZArith Lia Ascii String.
From stdpp Require Import base tactics list strings gmap option.
From S2P Require Import Prelude PyStr Sha256 AuthTokens IsoTime PyVal Journal JournalSafety JournalDelivery Accounting WorkerPool.
Import stdpp.list.

#[local] Open Scope Z_scope.
#[local] Open Scope list_scope.

Module AgentServer.
Import IsoTime Journal JournalSafety JournalDelivery Accounting WorkerPool.

(** A string attribute is true when it is not empty. *)
Definition truthy (s : string) : bool := negb (String.eqb s "").
Definition truthy_opt (s : option string) : bool := match s with Some s => truthy s | None => false end.

(** ** Active runs *)

Record ActiveRun := mkRun {
  a_run_id : string;
  a_pipeline_name : string;
  a_schedule_type : string;
  a_started_at : Z;
  a_config_sha256 : string;
  a_stats_url : string;
  a_degradation_notes : list string;
  a_attempt_id : string;
  a_generation : option Z;
  a_slot_id : string;
  a_legacy : bool;
  a_stopped : bool }.

(** [WorkerState]: [_runs] in insertion order, keys to heap objects. *)
Record WorkerState := mkState {
  ws_runs : list (string * nat);
  ws_by_run : gmap string string;
  ws_draining : bool;
  ws_drain_deadline : option Z;
  ws_drain_started_at : option Z }.

Definition init_state : WorkerState := mkState [] ∅ false None None.

Definition admission_state (w : WorkerState) : string := if ws_draining w then "draining" else "admitting".

Definition begin_drain (deadline now : Z) (w : WorkerState) : bool * WorkerState :=
  if ws_draining w then (false, w)
  else (true, mkState (ws_runs w) (ws_by_run w) true (Some deadline) (Some now)).

Definition _key (r : ActiveRun) : string := if truthy (a_attempt_id r) then a_attempt_id r else a_run_id r.

Definition with_registry (runs : list (string * nat)) (by_run : gmap string string) (w : WorkerState) : WorkerState :=
  mkState runs by_run (ws_draining w) (ws_drain_deadline w) (ws_drain_started_at w).

Definition add (r : ActiveRun) (o : nat) (w : WorkerState) : WorkerState :=
  with_registry (aset (_key r) o (ws_runs w)) (<[a_run_id r := _key r]> (ws_by_run w)) w.

(** The heap: run objects by allocation order. *)
Definition run_id_of (heap : list ActiveRun) (o : nat) : option string := a_run_id <$> heap !! o.

Definition _reindex_locked (heap : list ActiveRun) (run_id : string) (w : WorkerState) : WorkerState :=
  match List.filter (fun ko : string * nat => bool_decide (run_id_of heap ko.2 = Some run_id)) (ws_runs w) with
  | (k, _) :: _ => with_registry (ws_runs w) (<[run_id := k]> (ws_by_run w)) w
  | [] => with_registry (ws_runs w) (delete run_id (ws_by_run w)) w
  end.

Definition remove (heap : list ActiveRun) (run_id attempt_id : string) (w : WorkerState) : WorkerState :=
  let key := if truthy attempt_id then attempt_id else run_id in
  let w1 := with_registry (adel key (ws_runs w)) (ws_by_run w) w in
  if bool_decide (ws_by_run w !! run_id = Some key) then _reindex_locked heap run_id w1 else w1.

Definition get (run_id : string) (w : WorkerState) : option nat :=
  let key := match ws_by_run w !! run_id with
             | Some k => if truthy k then k else run_id
             | None => run_id
             end in
  aget key (ws_runs w).

Definition snapshot (w : WorkerState) : list nat := (ws_runs w).*2.

(** ** Completion payloads *)

(** The dict of a completion; [pl_attempt] has the keys only an authorized one
    carries: attempt_id, generation, legacy. *)
Record run_payload := mkPayload {
  pl_run_id : string;
  pl_pipeline_name : string;
  pl_worker_id : string;
  pl_attempt : option (string * option Z * bool);
  pl_status : string;
  pl_records_in : Z; pl_records_out : Z; pl_records_skipped : Z;
  pl_bytes_in : Z; pl_bytes_out : Z;
  pl_error : option string;
  pl_errors : list string;
  pl_started_at : string;
  pl_finished_at : string;
  pl_dlq_count : Z; pl_records_failed : Z; pl_dlq_succeeded : Z; pl_dlq_failed : Z;
  pl_disposition : option (list (string * list (string * Z)));
  pl_spool : option (list (string * Z)) }.

Definition status_value (s : RunStatus) : string :=
  match s with
  | PENDING => "pending" | RUNNING => "running" | SUCCESS => "success"
  | FAILED => "failed" | ABORTED => "aborted" | PARTIAL => "partial"
  end.

Definition or_none {A} (l : list A) : option (list A) := match l with [] => None | _ => Some l end.

(** What both branches of a thread hand to the commit: the counters, status
    and errors of the run. *)
Record run_figures := mkFigures {
  fg_status : string;
  fg_records_in : Z; fg_records_out : Z; fg_records_skipped : Z; fg_bytes_in : Z; fg_bytes_out : Z;
  fg_error : option string;
  fg_started_at : Z;
  fg_finished_at : Z;
  fg_dlq_count : Z; fg_records_failed : Z; fg_dlq_succeeded : Z; fg_dlq_failed : Z;
  fg_disposition : option (list (string * list (string * Z)));
  fg_spool : option (list (string * Z)) }.

Definition payload_of (run_id pipeline worker_id : string) (attempt : option (string * option Z * bool))
  (f : run_figures) (errors : list string) : run_payload :=
  mkPayload run_id pipeline worker_id attempt (fg_status f) (fg_records_in f) (fg_records_out f)
    (fg_records_skipped f) (fg_bytes_in f) (fg_bytes_out f) (fg_error f) errors
    (isoformat (fg_started_at f)) (isoformat (fg_finished_at f)) (fg_dlq_count f) (fg_records_failed f)
    (fg_dlq_succeeded f) (fg_dlq_failed f) (fg_disposition f) (fg_spool f).

(** [_run_complete_payload]: no attempt identity. *)
Definition _run_complete_payload (run_id pipeline worker_id : string) (f : run_figures) (errors : list string)
  : run_payload := payload_of run_id pipeline worker_id None f errors.

(** [_completion_result_json] before [dumps]. *)
Definition _completion_result (worker_id attempt_id : string) (r : ActiveRun) (f : run_figures)
  (errors : list string) : run_payload :=
  payload_of (a_run_id r) (a_pipeline_name r) worker_id (Some (attempt_id, a_generation r, a_legacy r)) f errors.

(** The except branch: only the error. *)
Definition error_figures (err : string) (r : ActiveRun) (now : Z) : run_figures :=
  mkFigures "error" 0 0 0 0 0 (Some err) (a_started_at r) now 0 0 0 0 None None.

(** The batch branch; a drain that stopped the run is named in the error. *)
Definition contains (sub s : string) : bool :=
  match String.index 0 sub s with Some _ => true | None => false end.

Definition drained_error : string := "drained: worker drain requested".

Definition batch_error (draining : bool) (res : RunResult) : option string :=
  if (bool_decide (rr_status res = ABORTED) && draining
      && negb (contains "drain" (default ""%string (rr_error res))))%bool
  then Some drained_error else rr_error res.

Definition batch_figures (draining : bool) (res : RunResult) (finished : Z) : run_figures :=
  mkFigures (status_value (rr_status res)) (rr_records_in res) (rr_records_out res) (rr_records_skipped res)
    (rr_bytes_in res) (rr_bytes_out res) (batch_error draining res) (rr_started_at res) finished
    (rr_dlq_count res) (rr_records_failed res) (rr_dlq_succeeded res) (rr_dlq_failed res)
    (or_none (rr_disposition res)) (or_none (rr_spool res)).

(** The stream branch: status, error and what it adds to the errors. *)
Definition stream_status (draining : bool) (res : option RunResult) : string * option string :=
  match res with
  | Some r =>
      if bool_decide (rr_status r = ABORTED \/ rr_status r = PARTIAL)
      then (status_value (rr_status r), rr_error r)
      else if draining then ("aborted"%string, Some drained_error) else ("success"%string, None)
  | None => if draining then ("aborted"%string, Some drained_error) else ("success"%string, None)
  end.

Definition stream_errors (draining : bool) (res : option RunResult) (r : ActiveRun) (st : PipelineStats) : list string :=
  ps_errors_last_window st ++ a_degradation_notes r
  ++ match (stream_status draining res).2 with
     | Some e => if truthy e then [e] else []
     | None => []
     end.

Definition stream_figures (draining : bool) (res : option RunResult) (r : ActiveRun) (st : PipelineStats)
  (now : Z) : run_figures :=
  mkFigures (stream_status draining res).1 (ps_records_in st) (ps_records_out st) (ps_records_skipped st)
    (ps_bytes_in st) (ps_bytes_out st) (stream_status draining res).2 (a_started_at r) now (ps_dlq_count st)
    (match res with Some x => rr_records_failed x | None => 0 end)
    (match res with Some x => rr_dlq_succeeded x | None => 0 end)
    (match res with Some x => rr_dlq_failed x | None => 0 end)
    (match res with Some x => or_none (rr_disposition x) | None => None end)
    (match res with Some x => or_none (rr_spool x) | None => None end).

(** ** The direct post *)

Inductive http_answer := Status (code : Z) | NoAnswer.

Definition _RUN_COMPLETE_RETRIES : nat := 3.

(** The attempts of [_post_run_complete]: how many were made and whether the
    last one was taken. *)
Fixpoint post_attempts (answer : nat -> http_answer) (n : nat) (fuel : nat) : nat * bool :=
  match fuel with
  | O => (n, false)
  | S fuel' =>
      match answer n with
      | Status code =>
          if ((400 <=? code) && (code <? 500))%bool then (S n, false)
          else if ((200 <=? code) && (code <? 300))%bool then (S n, true)
          else post_attempts answer (S n) fuel'
      | NoAnswer => post_attempts answer (S n) fuel'
      end
  end.

Definition _post_run_complete (callback_url : string) (answer : nat -> http_answer) : nat * bool :=
  if truthy callback_url then post_attempts answer O _RUN_COMPLETE_RETRIES else (O, false).

Definition _legacy_outbox_key (run_id : string) : string := ("legacy:" ++ run_id)%string.

(** ** The server *)

Inductive run_response :=
| Draining
| LegacyRejected
| AlreadyActive
| BadPipeline
| Conflict (attempt_id : string)
| AdmissionClosed
| Gone (attempt_id : option string)
| Refused (code : Z) (reason : option string)
| Repeated (attempt_id : string) (state : option string) (kind : option attempt_kind)
| Accepted (attempt_id : string) (state : option string)
| AcceptedLegacy
| ServerError.

Definition status_code (r : run_response) : Z :=
  match r with
  | Draining => 503 | LegacyRejected => 400 | AlreadyActive => 409 | BadPipeline => 422 | Conflict _ => 409
  | AdmissionClosed => 503 | Gone _ => 410 | Refused code _ => code | Repeated _ _ _ => 200
  | Accepted _ _ => 202 | AcceptedLegacy => 202 | ServerError => 500
  end.

(** The text of [reservations.state]. *)
Definition state_text (r : res_state) : string :=
  match r with
  | Reserved => "reserved" | Running => "running" | Completed => "completed" | Interrupted => "interrupted"
  end.

Definition record_state (r : AttemptRecord) : option string := state_text <$> ar_state r.

Inductive legacy_admit := LegacyAuto | LegacyOff | LegacyInvalid.

(** What the loader gives that the handler looks at. *)
Record loaded_config := mkLoaded { lc_skip_processed : bool }.

(** A request in flight. *)
Inductive pc :=
| PGate
| PLoad
| PAdmit (c : loaded_config) (token : string)
| PRepeat (attempt_id : string) (existing : option AttemptRecord)
| PStart (c : loaded_config) (attempt_id : option string)
| PMark (attempt_id : string)
| PRead (attempt_id : string)
| PDone (r : run_response).

Record handler := mkHandler { hd_req : run_request; hd_pc : pc }.

(** A run thread: executing, about to commit, about to commit the error of the
    try block, in its finally block, ended. *)
Inductive phase :=
| TRun
| TCommit (f : run_figures) (result_errors : list string) (all_errors : list string)
| TCommitError (err : string)
| TRemove
| TDead.

Record run_thread := mkThread {
  th_req : run_request;
  th_attempt : option string;
  th_callback : string;
  th_deadline : option Z;
  th_phase : phase }.

Record server := mkServer {
  sv_worker_id : string;
  sv_manager_url : string;
  sv_legacy_admit : legacy_admit;
  sv_session : string;
  sv_secrets : AuthTokens.secrets;
  sv_journal : journal;
  sv_state : WorkerState;
  sv_heap : list ActiveRun;
  sv_threads : list run_thread;   (* the thread of the object at the same index *)
  sv_handlers : list handler }.

Definition set_journal (j : journal) (s : server) : server :=
  mkServer (sv_worker_id s) (sv_manager_url s) (sv_legacy_admit s) (sv_session s) (sv_secrets s) j (sv_state s)
    (sv_heap s) (sv_threads s) (sv_handlers s).
Definition set_state (w : WorkerState) (s : server) : server :=
  mkServer (sv_worker_id s) (sv_manager_url s) (sv_legacy_admit s) (sv_session s) (sv_secrets s) (sv_journal s) w
    (sv_heap s) (sv_threads s) (sv_handlers s).
Definition set_heap (h : list ActiveRun) (s : server) : server :=
  mkServer (sv_worker_id s) (sv_manager_url s) (sv_legacy_admit s) (sv_session s) (sv_secrets s) (sv_journal s)
    (sv_state s) h (sv_threads s) (sv_handlers s).
Definition set_threads (t : list run_thread) (s : server) : server :=
  mkServer (sv_worker_id s) (sv_manager_url s) (sv_legacy_admit s) (sv_session s) (sv_secrets s) (sv_journal s)
    (sv_state s) (sv_heap s) t (sv_handlers s).
Definition set_handlers (h : list handler) (s : server) : server :=
  mkServer (sv_worker_id s) (sv_manager_url s) (sv_legacy_admit s) (sv_session s) (sv_secrets s) (sv_journal s)
    (sv_state s) (sv_heap s) (sv_threads s) h.
Definition set_secrets (k : AuthTokens.secrets) (s : server) : server :=
  mkServer (sv_worker_id s) (sv_manager_url s) (sv_legacy_admit s) (sv_session s) k (sv_journal s) (sv_state s)
    (sv_heap s) (sv_threads s) (sv_handlers s).

(** ** POST /agent/run *)

Section server.
Context (cfg : config) (load : string -> option loaded_config) (dumps : run_payload -> string).
Context (exn_text : journal_exn -> string).

Definition gate (req : run_request) (s : server) : pc :=
  if ws_draining (sv_state s) then PDone Draining
  else match rq_authorization req with
  | Some _ => PLoad
  | None =>
      match sv_legacy_admit s with
      | LegacyInvalid => PDone ServerError
      | LegacyOff => PDone LegacyRejected
      | LegacyAuto => match get (rq_run_id req) (sv_state s) with Some _ => PDone AlreadyActive | None => PLoad end
      end
  end.

Definition load_config (req : run_request) : pc :=
  match load (rq_yaml_text req) with
  | None => PDone BadPipeline
  | Some c => match rq_authorization req with Some tok => PAdmit c tok | None => PStart c None end
  end.

(** The answer to an admission. *)
Definition after_admission (c : loaded_config) (r : res journal_exn AdmissionResult) : pc :=
  match r with
  | Raise (AdmissionConflictError aid) => PDone (Conflict aid)
  | Raise AdmissionClosedError => PDone AdmissionClosed
  | Raise _ => PDone ServerError
  | Ok a =>
      match outcome a with
      | Revoked => PDone (Gone (adm_attempt_id a))
      | RefusedAuth =>
          PDone (Refused (if bool_decide (refusal_reason a ∈ [Some "old session epoch"; Some "token retired by watermark"]%string)
                          then 403 else 401) (refusal_reason a))
      | AlreadyAdmitted => PRepeat (default ""%string (adm_attempt_id a)) (existing a)
      | Admitted_ok => PStart c (adm_attempt_id a)
      end
  end.

Definition _derive_stats_url (callback_url manager_url : string) : string :=
  if truthy callback_url then
    match rsplit1 "/"%char callback_url with
    | Some (base, _) => if truthy base then (base ++ "/pipeline-stats")%string else ""
    | None => ""
    end
  else if truthy manager_url then (manager_url ++ "/api/internal/pipeline-stats")%string else "".

Definition run_callback (req : run_request) (s : server) : string :=
  if (negb (truthy (rq_callback_url req)) && truthy (sv_manager_url s))%bool
  then (sv_manager_url s ++ "/api/internal/run-complete")%string else rq_callback_url req.

Definition _SKIP_PROCESSED_DISABLED_NOTE : string :=
  "skip_processed: true requested but worker mode has no processed-file tracker (stateless worker, no per-worker DB) — already-seen files will be reprocessed on every run; duplicate records possible".

Definition new_run (req : run_request) (c : loaded_config) (attempt_id : option string) (now : Z) (s : server)
  : ActiveRun :=
  mkRun (rq_run_id req) (rq_pipeline_name req) (rq_schedule_type req) now
    (substring 0 16 (Sha256.sha256_hex (rq_yaml_text req))) (_derive_stats_url (run_callback req s) (sv_manager_url s))
    (if (lc_skip_processed c && negb (truthy (sv_manager_url s)))%bool then [_SKIP_PROCESSED_DISABLED_NOTE] else [])
    (default ""%string attempt_id) (rq_generation req) (default ""%string (rq_slot_id req))
    (match rq_authorization req with Some _ => false | None => true end) false.

Inductive event :=
| EvStarted (attempt_id : option string) (run_id : string)
| EvAnswered (r : run_response)
| EvCommitted (key : string)
| EvPosted (run_id : string) (delivered : bool)
| EvLost (run_id : string)
| EvEnded (attempt_id : option string) (run_id : string).

(** [state.add(active_run); t.start()]. *)
Definition start_run (req : run_request) (c : loaded_config) (attempt_id : option string) (now : Z) (s : server)
  : server :=
  let r := new_run req c attempt_id now s in
  let o := length (sv_heap s) in
  set_threads (sv_threads s ++ [mkThread req attempt_id (run_callback req s) (ws_drain_deadline (sv_state s)) TRun])
    (set_heap (sv_heap s ++ [r]) (set_state (add r o (sv_state s)) s)).

(** One shared access of a request. *)
Definition handler_step (e : env) (h : handler) (s : server) : pc * list event * server :=
  let req := hd_req h in
  match hd_pc h with
  | PGate => (gate req s, [], s)
  | PLoad => (load_config req, [], s)
  | PAdmit c tok =>
      let '(r, j) := validate_and_admit cfg e tok (rq_pipeline_name req) (sv_session s)
                       (AuthTokens.auth_secret (sv_secrets s)) (AuthTokens.auth_secret_previous (sv_secrets s))
                       None (sv_journal s) in
      (after_admission c r, [], set_journal j s)
  | PRepeat aid ex =>
      let '(r, j) := get_attempt e aid (sv_journal s) in
      (PDone (match r with
              | Raise _ => ServerError
              | Ok (Some rec) => Repeated aid (record_state rec) (Some (ar_kind rec))
              | Ok None => Repeated aid (match ex with Some x => record_state x | None => Some "active"%string end) None
              end), [], set_journal j s)
  | PStart c aid =>
      (match aid with
       | Some a => if truthy a then PMark a else PDone AcceptedLegacy
       | None => PDone AcceptedLegacy
       end, [EvStarted aid (rq_run_id req)], start_run req c aid (clock e) s)
  | PMark aid =>
      let '(r, j) := mark_running e aid (sv_journal s) in
      (match r with Raise _ => PDone ServerError | Ok _ => PRead aid end, [], set_journal j s)
  | PRead aid =>
      let '(r, j) := get_attempt e aid (sv_journal s) in
      (PDone (match r with
              | Raise _ => ServerError
              | Ok (Some rec) => Accepted aid (record_state rec)
              | Ok None => Accepted aid (Some "running"%string)
              end), [], set_journal j s)
  | PDone r => (PDone r, [], s)
  end.

(** A request served without interference: [n] accesses in the environment [e]. *)
Fixpoint serve (n : nat) (e : env) (h : handler) (s : server) : pc * list event * server :=
  match n with
  | O => (hd_pc h, [], s)
  | S n' =>
      let '(p, ev, s1) := handler_step e h s in
      let '(p', evs, s2) := serve n' e (mkHandler (hd_req h) p) s1 in
      (p', ev ++ evs, s2)
  end.

(** The client's view of the answer to a complete request. *)
Definition http_error (p : pc) : option string :=
  match p with
  | PDone r => if ((200 <=? status_code r) && (status_code r <? 300))%bool then None
               else Some (py_str (status_code r))
  | _ => Some "no answer"%string
  end.

(** ** Run threads *)

(** What asset sync and the executor came to: an exception, a batch result, or
    a stream result with the final statistics; and the notes the file tracker
    added meanwhile. *)
Inductive execution :=
| Raised (err : string)
| BatchDone (r : RunResult) (finished : Z)
| StreamDone (r : option RunResult) (stats : PipelineStats).

Definition add_notes (notes : list string) (r : ActiveRun) : ActiveRun :=
  mkRun (a_run_id r) (a_pipeline_name r) (a_schedule_type r) (a_started_at r) (a_config_sha256 r) (a_stats_url r)
    (a_degradation_notes r ++ notes) (a_attempt_id r) (a_generation r) (a_slot_id r) (a_legacy r) (a_stopped r).

Definition set_stop (r : ActiveRun) : ActiveRun :=
  mkRun (a_run_id r) (a_pipeline_name r) (a_schedule_type r) (a_started_at r) (a_config_sha256 r) (a_stats_url r)
    (a_degradation_notes r) (a_attempt_id r) (a_generation r) (a_slot_id r) (a_legacy r) true.

(** The end of the try block; the authorized payload of a batch run has the
    errors of its result, the legacy one the degradation notes as well. *)
Definition executed (x : execution) (r : ActiveRun) (draining : bool) (now : Z) : phase :=
  match x with
  | Raised err => TCommitError err
  | BatchDone res fin =>
      TCommit (batch_figures draining res fin) (rr_errors res) (rr_errors res ++ a_degradation_notes r)
  | StreamDone res st =>
      let errors := stream_errors draining res r st in
      TCommit (stream_figures draining res r st now) errors errors
  end.

(** A legacy run: the outbox under its synthetic key, else the direct post. *)
Definition commit_legacy (e : env) (answer : nat -> http_answer) (t : run_thread) (r : ActiveRun)
  (f : run_figures) (errors : list string) (s : server) : res journal_exn unit * list event * journal :=
  let run_id := a_run_id r in
  let payload := _run_complete_payload run_id (a_pipeline_name r) (sv_worker_id s) f errors in
  let '(x, j) := record_completion_and_enqueue e (_legacy_outbox_key run_id) (dumps payload) (Some run_id)
                   (sv_journal s) in
  match x with
  | Ok _ => (Ok tt, [EvCommitted (_legacy_outbox_key run_id)], j)
  | Raise JournalUnavailableError | Raise AdmissionClosedError =>
      (Ok tt, [EvPosted run_id (_post_run_complete (th_callback t) answer).2], j)
  | Raise x => (Raise x, [], j)
  end.

(** [_commit_completion]: the exception it raised, if any. *)
Definition _commit_completion (e : env) (answer : nat -> http_answer) (t : run_thread) (r : ActiveRun)
  (f : run_figures) (result_errors all_errors : list string) (s : server)
  : res journal_exn unit * list event * journal :=
  match th_attempt t with
  | Some aid =>
      if truthy aid then
        let '(x, j) := record_completion_and_enqueue e aid
                         (dumps (_completion_result (sv_worker_id s) aid r f result_errors)) None (sv_journal s) in
        (x, match x with Ok _ => [EvCommitted aid] | Raise _ => [] end, j)
      else commit_legacy e answer t r f all_errors s
  | None => commit_legacy e answer t r f all_errors s
  end.

Definition set_phase (ph : phase) (t : run_thread) : run_thread :=
  mkThread (th_req t) (th_attempt t) (th_callback t) (th_deadline t) ph.

(** One shared access of the thread of the run object [o]. *)
Definition thread_step (e : env) (x : execution) (notes : list string) (answer : nat -> http_answer) (o : nat)
  (t : run_thread) (r : ActiveRun) (s : server) : phase * list event * server :=
  match th_phase t with
  | TRun =>
      let r' := add_notes notes r in
      (executed x r' (ws_draining (sv_state s)) (clock e), [], set_heap (<[o := r']> (sv_heap s)) s)
  | TCommit f errs all =>
      let '(x, ev, j) := _commit_completion e answer t r f errs all s in
      (match x with Ok _ => TRemove | Raise x => TCommitError (exn_text x) end, ev, set_journal j s)
  | TCommitError err =>
      let '(x, ev, j) := _commit_completion e answer t r (error_figures err r (clock e)) [err] [] s in
      (TRemove, match x with Ok _ => ev | Raise _ => [EvLost (a_run_id r)] end, set_journal j s)
  | TRemove =>
      (TDead, [EvEnded (th_attempt t) (a_run_id r)],
       set_state (remove (sv_heap s) (rq_run_id (th_req t)) (default ""%string (th_attempt t)) (sv_state s)) s)
  | TDead => (TDead, [], s)
  end.

(** ** The other endpoints *)

Definition stop_all (os : list nat) (s : server) : server :=
  set_heap (fold_left (fun h o => alter set_stop o h) os (sv_heap s)) s.

(** POST /agent/stop: 404 when the run is not known. *)
Definition stop (run_id : string) (s : server) : bool * server :=
  match get run_id (sv_state s) with
  | None => (false, s)
  | Some o => (true, stop_all [o] s)
  end.

(** POST /agent/drain. *)
Definition drain (monotonic timeout now : Z) (s : server) : bool * server :=
  let '(first, w) := begin_drain (monotonic + timeout) now (sv_state s) in
  (first, stop_all (snapshot w) (set_state w s)).

(** [drained] of /agent/status. *)
Definition drained (monotonic : Z) (s : server) : bool :=
  let w := sv_state s in
  (ws_draining w && (Nat.eqb (length (snapshot w)) 0
     || match ws_drain_deadline w with Some d => d <=? monotonic | None => false end))%bool.

(** POST /agent/handshake: the reply's session and secret. *)
Definition handshake (new_secret : string) (s : server) : (string * string) * server :=
  ((sv_session s, new_secret), set_secrets (AuthTokens.handshake new_secret (sv_secrets s)) s).

(** GET /agent/health, as the pool reads it. *)
Definition health (ingress_alive : bool) (s : server) : probe :=
  let active := snapshot (sv_state s) in
  mkProbe ingress_alive (Z.of_nat (length active))
    (remove_dups (omap (fun o => a_pipeline_name <$> sv_heap s !! o) active)) (sv_worker_id s) (sv_session s).

(** GET /agent/attempts/{attempt_id}: 404 on an attempt without a row. *)
Definition attempt (e : env) (aid : string) (s : server) : res journal_exn (option AttemptRecord) * server :=
  let '(r, j) := get_attempt e aid (sv_journal s) in (r, set_journal j s).

(** ** The process *)

(** Start of the process on the journal file it finds, with the recovery of
    the lifespan; the old process, its threads and requests are gone. *)
Definition boot (e : env) (boot_uuid8 env_secret : string) (s : server) : server :=
  let j0 := init e (tables (sv_journal s)) (quota_bytes (sv_journal s)) (headroom_bytes (sv_journal s)) in
  let '(r, j1) := mark_interrupted_on_boot e j0 in
  let j2 := match r with Ok _ => (respool_unacked_completions e j1).2 | Raise _ => j1 end in
  mkServer (sv_worker_id s) (sv_manager_url s) (sv_legacy_admit s) (sv_worker_id s ++ "-" ++ boot_uuid8)%string
    (AuthTokens.boot_secrets env_secret) j2 init_state [] [] [].

(** The shutdown half of the lifespan after the joins: [remaining] says whether
    the deadline leaves time for the final outbox pass. *)
Definition shutdown (monotonic timeout now : Z) (remaining : bool) (post : string -> post_outcome)
  (ev : nat -> env) (s : server) : server :=
  let w := if ws_draining (sv_state s) then sv_state s else (begin_drain (monotonic + timeout) now (sv_state s)).2 in
  let s1 := stop_all (snapshot w) (set_state w s) in
  let j := if remaining then (_drain_outbox_once (truthy (sv_manager_url s)) post ev (sv_journal s1)).2
           else sv_journal s1 in
  set_journal (close j) s1.

Inductive action :=
| ARequest (req : run_request)
| AHandler (i : nat) (e : env)
| AThread (o : nat) (e : env) (x : execution) (notes : list string) (answer : nat -> http_answer)
| AStop (run_id : string)
| ADrain (monotonic timeout now : Z)
| AHandshake (new_secret : string)
| AAttempt (e : env) (aid : string)
| AOutbox (post : string -> post_outcome) (ev : nat -> env)
| AShutdown (monotonic timeout now : Z) (remaining : bool) (post : string -> post_outcome) (ev : nat -> env)
| ABoot (e : env) (boot_uuid8 env_secret : string).

Definition act (a : action) (s : server) : list event * server :=
  match a with
  | ARequest req => ([], set_handlers (sv_handlers s ++ [mkHandler req PGate]) s)
  | AHandler i e =>
      match sv_handlers s !! i with
      | None => ([], s)
      | Some h =>
          let '(p, ev, s1) := handler_step e h s in
          (ev ++ match hd_pc h, p with
                 | PDone _, _ => []
                 | _, PDone r => [EvAnswered r]
                 | _, _ => []
                 end, set_handlers (<[i := mkHandler (hd_req h) p]> (sv_handlers s1)) s1)
      end
  | AThread o e x notes answer =>
      match sv_threads s !! o, sv_heap s !! o with
      | Some t, Some r =>
          let '(ph, ev, s1) := thread_step e x notes answer o t r s in
          (ev, set_threads (<[o := set_phase ph t]> (sv_threads s1)) s1)
      | _, _ => ([], s)
      end
  | AStop run_id => ([], (stop run_id s).2)
  | ADrain m t n => ([], (drain m t n s).2)
  | AHandshake k => ([], (handshake k s).2)
  | AAttempt e aid => ([], (attempt e aid s).2)
  | AOutbox post ev =>
      ([], set_journal (_drain_outbox_once (truthy (sv_manager_url s)) post ev (sv_journal s)).2 s)
  | AShutdown m t n r post ev => ([], shutdown m t n r post ev s)
  | ABoot e u k => ([], boot e u k s)
  end.

Fixpoint acts (l : list action) (s : server) : list event * server :=
  match l with
  | [] => ([], s)
  | a :: l' =>
      let '(ev, s1) := act a s in
      let '(evs, s2) := acts l' s1 in
      (ev ++ evs, s2)
  end.

End server.
End AgentServer.
