(* ===== verification/AgentLaws.v ===== *)
(** * What a worker guarantees

    For every interleaving of requests, run threads, drains, stops, handshakes,
    outbox passes and restarts: an attempt's executor is started at most once,
    a run leaves the registry only when its result is in the journal (or the
    journal refused it), the registry finds exactly the active runs, and a
    draining worker starts nothing new.  The last section composes the worker
    pool's dispatch with the worker's admission. *)

From Stdlib Require Import ZArith Lia Ascii String.
From stdpp Require Import base tactics list strings gmap option.
From S2P Require Import Prelude PyStr Sha256 AuthTokens IsoTime PyVal Journal JournalSafety JournalAdmission JournalDelivery Accounting WorkerPool AgentServer.
Import stdpp.list.

#[local] Open Scope Z_scope.
#[local] Open Scope list_scope.

Module AgentLaws.
Import IsoTime Journal JournalSafety JournalAdmission JournalDelivery Accounting WorkerPool AgentServer.

(** ** The journal under the server *)

(** The tables only evolve, no result is ever deleted, and every result that
    waits for its acknowledgement stays queued. *)
Record persists (t t' : db) : Prop := mkPersists {
  pe_evolves : evolves t t';
  pe_results : dom (completions t) ⊆ dom (completions t');
  pe_queued : delivery_inv true t -> delivery_inv true t' }.

Lemma persists_refl t : persists t t.
Proof. split; [apply evolves_refl|done|done]. Qed.
Lemma persists_trans t1 t2 t3 : persists t1 t2 -> persists t2 t3 -> persists t1 t3.
Proof. intros [E1 C1 D1] [E2 C2 D2]. split; [by eapply evolves_trans|set_solver|auto]. Qed.
Lemma persists_dpart t t' : evolves t t' -> dpart t' = dpart t -> persists t t'.
Proof.
  intros He Hd. split; [done| |by apply delivery_inv_dpart]. unfold dpart in Hd. by injection Hd as -> _ _.
Qed.

Lemma ensure_open_persists e j : persists (tables j) (tables (_ensure_open e j).2).
Proof. apply persists_dpart; [apply ensure_open_evolves|apply ensure_open_dpart]. Qed.

Lemma txn_completions {A} e (fn : db -> res journal_exn (A * db)) j :
  (forall t a t', fn t = Ok (a, t') -> dom (completions t) ⊆ dom (completions t')) ->
  dom (completions (tables j)) ⊆ dom (completions (tables (_txn e fn j).2)).
Proof.
  intros Hfn. destruct (ensure_open_persists e j) as [_ Ho _]. unfold _txn.
  destruct (_ensure_open e j) as [[u|x] j1]; simpl in *; [|done].
  destruct (fn (tables j1)) as [[a t']|x] eqn:E; simpl; [|done]. etrans; [exact Ho|]. by eapply Hfn.
Qed.

Lemma query_persists {A} e (fn : db -> A) j : persists (tables j) (tables (_query e fn j).2).
Proof.
  pose proof (ensure_open_persists e j) as Ho. unfold _query. by destruct (_ensure_open e j) as [[u|x] j1].
Qed.

Lemma validate_persists cfg e tok p ses cur prev now j :
  persists (tables j) (tables (validate_and_admit cfg e tok p ses cur prev now j).2).
Proof.
  apply persists_dpart; [|apply validate_and_admit_dpart].
  destruct (validate_and_admit cfg e tok p ses cur prev now j) as [r j'] eqn:E.
  by apply validate_and_admit_spec in E as [H _].
Qed.

(** The other operations: [step_spec] for the evolution, the transaction for
    the results. *)
Lemma step_persists cfg e o j :
  allowed true o = true ->
  dom (completions (tables j)) ⊆ dom (completions (tables (step cfg e o j).2)) ->
  persists (tables j) (tables (step cfg e o j).2).
Proof.
  intros Ha Hc. split; [|done|by apply step_delivery].
  destruct (step cfg e o j) as [ev j'] eqn:E. by apply step_spec in E as [H _].
Qed.

Ltac same_completions := apply txn_completions; intros t ? t' E; cbv zeta in E; simplify_eq; try done.

Lemma mark_running_persists e aid j : persists (tables j) (tables (mark_running e aid j).2).
Proof.
  apply (step_persists default_config e (OMarkRunning aid)); [done|]. same_completions.
  destruct (reservations t !! aid); [|by inv_eq]. destruct (decide _); by inv_eq.
Qed.

Lemma record_persists e aid r rid j : persists (tables j) (tables (_record_completion e aid r rid true j).2).
Proof.
  apply (step_persists default_config e (OComplete aid r rid true)); [done|]. same_completions.
  apply res_bind_ok in E as (x & _ & E). cbv zeta in E. inv_eq.
  assert (Hi : forall c (m : gmap string completion), dom m ⊆ dom (insert_completion aid c m)).
  { intros c m. unfold insert_completion. destruct (m !! aid); [done|]. rewrite dom_insert_L. set_solver. }
  simpl. apply Hi.
Qed.

Lemma respool_persists e j : persists (tables j) (tables (respool_unacked_completions e j).2).
Proof. apply (step_persists default_config e ORespool); [done|]. same_completions. Qed.

Lemma mark_acked_persists e aid j : persists (tables j) (tables (mark_acked e aid j).2).
Proof.
  apply (step_persists default_config e (OAck aid)); [done|]. same_completions. simpl. by rewrite dom_alter_L.
Qed.

Lemma failure_persists e seq err j : persists (tables j) (tables (record_outbox_failure e seq err j).2).
Proof.
  apply (step_persists default_config e (OFailure seq err)); [done|]. same_completions.
  destruct (list_find _ _) as [[i row]|]; [|done]. apply res_bind_ok in E as (d & _ & E). cbv zeta in E. by inv_eq.
Qed.

Lemma interrupt_persists e j : persists (tables j) (tables (mark_interrupted_on_boot e j).2).
Proof. apply (step_persists default_config e OInterrupt); [done|]. same_completions. Qed.

Lemma init_persists e t q h : persists t (tables (init e t q h)).
Proof. apply persists_dpart; [apply init_evolves|]. unfold init. by destruct (fatal_of_sql _). Qed.

Lemma drain_rows_persists post ev rows i n j : persists (tables j) (tables (drain_rows post ev i rows n j).2).
Proof.
  revert i n j. induction rows as [|row rows IH]; intros i n j; simpl; [apply persists_refl|].
  pose proof (query_persists (ev i) (fun t => lookup_attempt t (ob_attempt_id row)) j) as Hq.
  unfold get_attempt. destruct (_query _ _ j) as [[rec|x] j1]; simpl in Hq |- *; [|done].
  destruct (already_acked rec); [by eapply persists_trans|].
  set (call := match post (ob_payload_json row) with Unparseable _ => _ | PostFailed _ => _ | Delivered => _ end).
  assert (Hc : persists (tables j1) (tables call.2)).
  { subst call. destruct (post _); [apply failure_persists..|apply mark_acked_persists]. }
  destruct call as [[u|x] j2]; simpl in Hc |- *; [|by eapply persists_trans].
  eapply persists_trans; [exact Hq|]. eapply persists_trans; [exact Hc|apply IH].
Qed.

Lemma drain_persists url post ev j : persists (tables j) (tables (_drain_outbox_once url post ev j).2).
Proof.
  unfold _drain_outbox_once. destruct (negb url); [apply persists_refl|].
  pose proof (query_persists (ev 0%nat) (fun t => take (Z.to_nat (Z.max 1 _OUTBOX_DRAIN_BATCH))
    (filter (fun o => text_leb (ob_next_attempt_at o) (isoformat (clock (ev 0%nat))) = true) (outbox t))) j) as Hq.
  unfold fetch_due_outbox. destruct (_query _ _ j) as [[rows|x] j1]; simpl in Hq |- *; [|done].
  eapply persists_trans; [exact Hq|apply drain_rows_persists].
Qed.

Section laws.
Context (cfg : config) (load : string -> option loaded_config) (dumps : run_payload -> string).
Context (exn_text : journal_exn -> string).

Notation act := (act cfg load dumps exn_text).
Notation acts := (acts cfg load dumps exn_text).
Notation handler_step := (handler_step cfg load).
Notation thread_step := (thread_step dumps exn_text).
Notation db_of s := (tables (sv_journal s)).

Lemma handler_persists e h s : persists (db_of s) (db_of (handler_step e h s).2).
Proof.
  unfold AgentServer.handler_step. destruct (hd_pc h); try apply persists_refl.
  - pose proof (validate_persists cfg e token (rq_pipeline_name (hd_req h)) (sv_session s)
      (AuthTokens.auth_secret (sv_secrets s)) (AuthTokens.auth_secret_previous (sv_secrets s)) None (sv_journal s)) as H.
    by destruct (validate_and_admit _ _ _ _ _ _ _ _ _).
  - pose proof (query_persists e (fun t => lookup_attempt t attempt_id) (sv_journal s)) as H.
    unfold get_attempt. by destruct (_query _ _ _).
  - pose proof (mark_running_persists e attempt_id (sv_journal s)) as H. by destruct (mark_running _ _ _).
  - pose proof (query_persists e (fun t => lookup_attempt t attempt_id) (sv_journal s)) as H.
    unfold get_attempt. by destruct (_query _ _ _).
Qed.

Lemma commit_legacy_persists e answer t r f errs s :
  persists (db_of s) (tables (commit_legacy dumps e answer t r f errs s).2).
Proof.
  unfold commit_legacy, record_completion_and_enqueue.
  match goal with |- context [_record_completion ?a ?b ?c ?d true ?j] =>
    pose proof (record_persists a b c d j) as H; destruct (_record_completion a b c d true j) as [[u|[]] j'] end;
    exact H.
Qed.

Lemma commit_persists e answer t r f errs all s :
  persists (db_of s) (tables (_commit_completion dumps e answer t r f errs all s).2).
Proof.
  unfold _commit_completion, record_completion_and_enqueue.
  destruct (th_attempt t) as [aid|]; [|apply commit_legacy_persists].
  destruct (truthy aid); [|apply commit_legacy_persists].
  match goal with |- context [_record_completion ?a ?b ?c ?d true ?j] =>
    pose proof (record_persists a b c d j) as H; by destruct (_record_completion a b c d true j) end.
Qed.

Lemma thread_persists e x notes answer o t r s :
  persists (db_of s) (db_of (thread_step e x notes answer o t r s).2).
Proof.
  unfold AgentServer.thread_step. destruct (th_phase t); try apply persists_refl.
  - pose proof (commit_persists e answer t r f result_errors all_errors s) as H.
    by destruct (_commit_completion _ _ _ _ _ _ _ _ _) as [[? ?] ?].
  - pose proof (commit_persists e answer t r (error_figures err r (clock e)) [err] [] s) as H.
    by destruct (_commit_completion _ _ _ _ _ _ _ _ _) as [[? ?] ?].
Qed.

Lemma boot_persists e u k s : persists (db_of s) (db_of (boot e u k s)).
Proof.
  unfold boot. set (j0 := init _ _ _ _). pose proof (interrupt_persists e j0) as H1.
  assert (H0 : persists (db_of s) (tables j0)) by apply init_persists.
  destruct (mark_interrupted_on_boot e j0) as [[z|x] j1]; simpl in *.
  - eapply persists_trans; [exact H0|]. eapply persists_trans; [exact H1|apply respool_persists].
  - by eapply persists_trans.
Qed.

Lemma act_persists a s : persists (db_of s) (db_of (act a s).2).
Proof.
  destruct a; simpl; try apply persists_refl.
  - destruct (sv_handlers s !! i) as [h|]; [|apply persists_refl].
    pose proof (handler_persists e h s) as H. by destruct (handler_step e h s) as [[p ev] s1].
  - destruct (sv_threads s !! o) as [t|], (sv_heap s !! o) as [r|]; try apply persists_refl.
    pose proof (thread_persists e x notes answer o t r s) as H.
    by destruct (thread_step e x notes answer o t r s) as [[ph ev] s1].
  - unfold stop. destruct (get run_id (sv_state s)); apply persists_refl.
  - unfold drain. destruct (begin_drain _ _ _). apply persists_refl.
  - unfold attempt. pose proof (query_persists e (fun t => lookup_attempt t aid) (sv_journal s)) as H.
    unfold get_attempt. by destruct (_query _ _ _).
  - apply drain_persists.
  - unfold shutdown. simpl. destruct remaining; [apply drain_persists|apply persists_refl].
  - apply boot_persists.
Qed.

(** ** At most one start per attempt *)

Definition started_attempt (ev : event) : option string :=
  match ev with EvStarted aid _ => aid | _ => None end.
Definition started (evs : list event) : list string := omap started_attempt evs.

(** The attempts admitted but not started yet. *)
Definition awaiting_start (h : handler) : option string :=
  match hd_pc h with PStart _ aid => aid | _ => None end.
Definition pending (s : server) : list string := omap awaiting_start (sv_handlers s).

Lemma omap_insert {A B} (f : A -> option B) (l : list A) i x y :
  l !! i = Some x ->
  exists pre post, omap f l = pre ++ option_list (f x) ++ post /\
    omap f (<[i := y]> l) = pre ++ option_list (f y) ++ post.
Proof.
  intros Hi. exists (omap f (take i l)), (omap f (drop (S i) l)). split.
  - rewrite <- (take_drop_middle l i x Hi) at 1. rewrite omap_app. simpl. by destruct (f x).
  - rewrite insert_take_drop by (by eapply lookup_lt_Some). rewrite omap_app. simpl. by destruct (f y).
Qed.

(** Every start so far, and every start to come, holds its reservation. *)
Definition held (S : list string) (s : server) : Prop :=
  inv (db_of s) /\ NoDup (S ++ pending s) /\ forall aid, aid ∈ S ++ pending s -> blocked aid (db_of s).

Lemma held_evolves S s s' :
  persists (db_of s) (db_of s') -> pending s' = pending s \/ pending s' = [] -> held S s -> held S s'.
Proof.
  intros [He _ _] Hp (Hi & Hnd & Hb).
  assert (Hsub : forall aid, aid ∈ S ++ pending s' -> aid ∈ S ++ pending s).
  { intros aid. destruct Hp as [-> | ->]; [done|]. rewrite app_nil_r. set_solver. }
  split; [by apply (ev_inv _ _ He)|]. split.
  - destruct Hp as [-> | ->]; [done|]. rewrite app_nil_r. by apply NoDup_app in Hnd as [? _].
  - intros aid Hin. apply (ev_blocked _ _ He Hi). auto.
Qed.

(** What one access of a request does to the starts. *)
Lemma handler_starts e h s p ev s1 :
  handler_step e h s = (p, ev, s1) ->
  sv_handlers s1 = sv_handlers s /\
  match awaiting_start (mkHandler (hd_req h) p) with
  | Some aid => started ev = [] /\ awaiting_start h = None /\
      ~ blocked aid (db_of s) /\ blocked aid (db_of s1)
  | None => started ev = option_list (awaiting_start h)
  end.
Proof.
  unfold AgentServer.handler_step, awaiting_start. destruct (hd_pc h) eqn:Epc; simpl.
  - intros [= <- <- <-]. split; [done|]. unfold gate.
    destruct (ws_draining _); [done|]. destruct (rq_authorization _); [done|].
    destruct (sv_legacy_admit s); [|done..]. by destruct (get _ _).
  - intros [= <- <- <-]. split; [done|]. unfold load_config. destruct (load _); [|done].
    by destruct (rq_authorization _).
  - destruct (validate_and_admit _ _ _ _ _ _ _ _ _) as [r j] eqn:Ev. intros [= <- <- <-]. split; [done|].
    apply validate_and_admit_spec in Ev as [_ Had].
    destruct r as [a|x]; simpl; [|by destruct x]. destruct (outcome a) eqn:Eo; simpl; try done.
    destruct (adm_attempt_id a) as [aid|] eqn:Ea; simpl; [|done].
    destruct (Had aid) as [Hnb Hin]; [simpl; by rewrite Eo|]. repeat split; [done|]. by right.
  - destruct (get_attempt _ _ _) as [r j]. by intros [= <- <- <-].
  - intros [= <- <- <-]. split; [done|]. destruct attempt_id as [a|]; [by destruct (truthy a)|done].
  - destruct (mark_running _ _ _) as [r j]. intros [= <- <- <-]. split; [done|]. by destruct r.
  - destruct (get_attempt _ _ _) as [r j]. by intros [= <- <- <-].
  - by intros [= <- <- <-].
Qed.

Lemma held_handler S i e h s p ev s1 :
  sv_handlers s !! i = Some h -> handler_step e h s = (p, ev, s1) -> held S s ->
  held (S ++ started ev) (set_handlers (<[i := mkHandler (hd_req h) p]> (sv_handlers s1)) s1).
Proof.
  intros Hi Hs (Hinv & Hnd & Hb). pose proof (pe_evolves _ _ (handler_persists e h s)) as He. rewrite Hs in He. simpl in He.
  destruct (handler_starts _ _ _ _ _ _ Hs) as [Hh Hst]. rewrite Hh.
  destruct (omap_insert awaiting_start (sv_handlers s) i h (mkHandler (hd_req h) p) Hi) as (pre & post & Hp & Hp').
  unfold pending in Hnd, Hb. rewrite Hp in Hnd, Hb.
  assert (Hb' : forall aid, aid ∈ S ++ pre ++ option_list (awaiting_start h) ++ post -> blocked aid (db_of s1)).
  { intros aid Hin. apply (ev_blocked _ _ He Hinv). auto. }
  split; [by apply (ev_inv _ _ He)|]. unfold pending. simpl. rewrite Hp'.
  destruct (awaiting_start (mkHandler (hd_req h) p)) as [aid|] eqn:Ea.
  - destruct Hst as (-> & Hn & Hnb & Hbl). rewrite Hn in Hnd, Hb, Hb'. simpl in *. rewrite app_nil_r. split.
    + rewrite app_assoc in Hnd |- *. change (aid :: post) with ([aid] ++ post).
      apply NoDup_app in Hnd as (Hn1 & Hd & Hn2). apply NoDup_app. split; [done|]. split.
      * intros x Hx [->%list_elem_of_singleton|Hx']%elem_of_app; [|by apply (Hd x)].
        apply Hnb, Hb. rewrite app_assoc. set_solver.
      * apply NoDup_cons. split; [|done]. intros Hin. apply Hnb, Hb. set_solver.
    + intros x Hx. destruct (decide (x = aid)) as [->|]; [done|]. apply Hb'. set_solver.
  - rewrite Hst. simpl. split.
    + rewrite <- app_assoc. by rewrite (Permutation_app_swap_app (option_list (awaiting_start h)) pre post).
    + intros x Hx. apply Hb'. set_solver.
Qed.

Lemma thread_starts e x notes answer o t r s ph ev s1 :
  thread_step e x notes answer o t r s = (ph, ev, s1) -> started ev = [] /\ pending s1 = pending s.
Proof.
  unfold AgentServer.thread_step. destruct (th_phase t); try (by intros [= <- <- <-]).
  - unfold _commit_completion, commit_legacy, record_completion_and_enqueue.
    repeat case_match; intros; simplify_eq/=; done.
  - unfold _commit_completion, commit_legacy, record_completion_and_enqueue.
    repeat case_match; intros; simplify_eq/=; done.
Qed.

Lemma held_act S a s : held S s -> held (S ++ started (act a s).1) (act a s).2.
Proof.
  intros Hh. pose proof (act_persists a s) as Hp.
  assert (Hnil : started (act a s).1 = [] ->
    pending (act a s).2 = pending s \/ pending (act a s).2 = [] -> held (S ++ started (act a s).1) (act a s).2).
  { intros -> Hpd. rewrite app_nil_r. by eapply held_evolves. }
  destruct a; try (apply Hnil; [done|]; left; done).
  - apply Hnil; [done|]. left. unfold pending. simpl. rewrite omap_app. simpl. by rewrite app_nil_r.
  - simpl in *. destruct (sv_handlers s !! i) as [h|] eqn:Hi; [|apply Hnil; auto].
    destruct (handler_step e h s) as [[p ev] s1] eqn:Hs.
    assert (Hev : started (ev ++ match hd_pc h, p with PDone _, _ => [] | _, PDone r => [EvAnswered r] | _, _ => [] end)
      = started ev).
    { unfold started. rewrite omap_app. by destruct (hd_pc h), p; rewrite app_nil_r. }
    simpl in *. rewrite Hev. by eapply held_handler.
  - simpl in *. destruct (sv_threads s !! o) as [t|], (sv_heap s !! o) as [r|]; try (apply Hnil; auto).
    + destruct (thread_step e x notes answer o t r s) as [[ph ev] s1] eqn:Hs.
      by destruct (thread_starts _ _ _ _ _ _ _ _ _ _ _ Hs) as [? _].
    + destruct (thread_step e x notes answer o t r s) as [[ph ev] s1] eqn:Hs. left.
      by destruct (thread_starts _ _ _ _ _ _ _ _ _ _ _ Hs) as [_ <-].
  - apply Hnil; [done|]. left. simpl. unfold stop. by destruct (get run_id (sv_state s)).
  - apply Hnil; [done|]. left. simpl. unfold drain. by destruct (begin_drain _ _ _).
  - apply Hnil; [done|]. left. simpl. unfold attempt. by destruct (get_attempt _ _ _).
  - apply Hnil; [done|]. right. simpl. unfold boot. by destruct (mark_interrupted_on_boot _ _).
Qed.

Lemma held_acts S l s : held S s -> held (S ++ started (acts l s).1) (acts l s).2.
Proof.
  revert S s. induction l as [|a l IH]; intros S s Hh; simpl; [by rewrite app_nil_r|].
  apply (held_act S a) in Hh. destruct (act a s) as [ev s1]. simpl in Hh. apply IH in Hh.
  destruct (acts l s1) as [evs s2]. simpl in *. unfold started in *. by rewrite omap_app, app_assoc.
Qed.

(** A worker that starts on a new journal file. *)
Definition new_worker (worker_id manager_url : string) (mode : legacy_admit) (e : env) (quota headroom : Z)
  (boot_uuid8 env_secret : string) : server :=
  boot e boot_uuid8 env_secret
    (mkServer worker_id manager_url mode "" (AuthTokens.boot_secrets env_secret) (init e fresh_db quota headroom)
       init_state [] [] []).

Lemma held_new wid url mode e q h u k : held [] (new_worker wid url mode e q h u k).
Proof.
  unfold new_worker. eapply (held_evolves []); [apply boot_persists| |].
  - right. unfold boot. by destruct (mark_interrupted_on_boot _ _).
  - split; [|split; [constructor|set_solver]]. simpl. apply (ev_inv _ _ (init_evolves e fresh_db q h)), inv_fresh.
Qed.

(** C18: a worker executes an attempt at most once.  Over any interleaving of
    dispatches (tokens repeated, forged or replayed, several requests at once),
    run threads, drains, handshakes, outbox passes, shutdowns and restarts of the
    process on its journal file, with any failures of the file, no attempt id is
    handed to an executor thread twice. *)
Theorem attempt_starts_at_most_once wid url mode e q h u k l :
  NoDup (started (acts l (new_worker wid url mode e q h u k)).1).
Proof.
  destruct (held_acts [] l _ (held_new wid url mode e q h u k)) as (_ & Hnd & _). simpl in Hnd.
  by apply NoDup_app in Hnd as [? _].
Qed.

(** ** A run ends after its result is in the journal *)

Definition result_key (attempt : option string) (run_id : string) : string :=
  match attempt with
  | Some aid => if truthy aid then aid else _legacy_outbox_key run_id
  | None => _legacy_outbox_key run_id
  end.

(** The result is recorded, or was posted directly, or the journal refused it. *)
Definition accounted (tr : list event) (t : db) (attempt : option string) (run_id : string) : Prop :=
  result_key attempt run_id ∈ dom (completions t) \/
  (attempt = None \/ attempt = Some ""%string) /\ (exists d, EvPosted run_id d ∈ tr) \/ EvLost run_id ∈ tr.

Lemma accounted_mono tr tr' t t' a r :
  (forall ev, ev ∈ tr -> ev ∈ tr') -> dom (completions t) ⊆ dom (completions t') ->
  accounted tr t a r -> accounted tr' t' a r.
Proof. intros Htr Hd [H|[[Ha [d H]]|H]]; [left; set_solver|right; left; eauto|right; right; auto]. Qed.

Lemma record_ok e aid json rid j u j' :
  record_completion_and_enqueue e aid json rid j = (Ok u, j') -> aid ∈ dom (completions (tables j')).
Proof.
  unfold record_completion_and_enqueue, _record_completion, _txn.
  destruct (_ensure_open e j) as [[v|x] j1]; [|done]. 
  match goal with |- context [res_bind ?m ?k] => destruct (res_bind m k) as [[a t']|x] eqn:E end; [|done].
  intros [= <- <-]. apply res_bind_ok in E as (x & _ & E). cbv zeta in E. injection E as <- <-. simpl.
  unfold insert_completion. destruct (completions (tables j1) !! aid) eqn:Ec; apply elem_of_dom; [by eexists|].
  rewrite lookup_insert_eq. by eexists.
Qed.

Lemma commit_ok e answer t r f errs all s u ev j' :
  _commit_completion dumps e answer t r f errs all s = (Ok u, ev, j') ->
  accounted ev (tables j') (th_attempt t) (a_run_id r).
Proof.
  assert (Hl : forall errors, commit_legacy dumps e answer t r f errors s = (Ok u, ev, j') ->
    result_key (th_attempt t) (a_run_id r) = _legacy_outbox_key (a_run_id r) ->
    th_attempt t = None \/ th_attempt t = Some ""%string -> accounted ev (tables j') (th_attempt t) (a_run_id r)).
  { intros errors. unfold commit_legacy. destruct (record_completion_and_enqueue _ _ _ _ _) as [[v|x] j1] eqn:E.
    - intros Hx Hk _. simplify_eq. left. rewrite Hk. by eapply record_ok.
    - destruct x; intros Hx Hk Ht; simplify_eq; right; left; (split; [done|]; eexists; by constructor). }
  unfold _commit_completion, result_key in *. destruct (th_attempt t) as [aid|]; [|intros H; by eapply Hl; eauto].
  destruct (truthy aid) eqn:Et; [|intros H; eapply Hl; eauto; right; f_equal].
  - destruct (record_completion_and_enqueue _ _ _ _ _) as [[v|x] j1] eqn:E; [|done]. intros Hx. simplify_eq.
    left. unfold result_key. rewrite Et. by eapply record_ok.
  - unfold truthy in Et. apply negb_false_iff, String.eqb_eq in Et. done.
Qed.

(** Run objects keep their run id. *)
Definition same_ids (h h' : list ActiveRun) : Prop :=
  forall o r', h' !! o = Some r' -> exists r, h !! o = Some r /\ a_run_id r = a_run_id r'.

Lemma same_ids_refl h : same_ids h h.
Proof. intros o r H. eauto. Qed.

Lemma same_ids_stop h os : same_ids h (fold_left (fun h o => alter set_stop o h) os h).
Proof.
  revert h. induction os as [|o os IH]; intros h; simpl; [apply same_ids_refl|].
  intros o' r' H. destruct (IH _ o' r' H) as (r1 & H1 & E1). destruct (decide (o = o')) as [->|Hne].
  - rewrite list_lookup_alter_eq in H1. destruct (h !! o') as [r0|] eqn:E0; [|done]. simpl in H1.
    injection H1 as <-. exists r0. split; [done|]. by rewrite <- E1.
  - rewrite list_lookup_alter_ne in H1 by done. eauto.
Qed.

#[local] Instance phase_remove_dec ph : Decision (ph = TRemove).
Proof. refine (match ph with TRemove => left eq_refl | _ => right _ end); abstract discriminate. Defined.

Record ends_ok (tr : list event) (s : server) : Prop := mkEnds {
  en_len : length (sv_threads s) = length (sv_heap s);
  en_ended : forall a rid, EvEnded a rid ∈ tr -> accounted tr (db_of s) a rid;
  en_leaving : forall o t r, sv_threads s !! o = Some t -> sv_heap s !! o = Some r -> th_phase t = TRemove ->
    accounted tr (db_of s) (th_attempt t) (a_run_id r) }.

(** An action without events that adds no thread. *)
Lemma ends_ok_quiet tr s s' :
  persists (db_of s) (db_of s') -> sv_threads s' = sv_threads s \/ sv_threads s' = [] ->
  same_ids (sv_heap s) (sv_heap s') -> length (sv_threads s') = length (sv_heap s') ->
  ends_ok tr s -> ends_ok tr s'.
Proof.
  intros [_ Hd _] Hth Hids Hlen [_ H1 H2]. split; [done|intros..].
  - eapply accounted_mono; [| |by apply H1]; done.
  - destruct Hth as [Hth|Hth]; rewrite Hth in *; [|done]. destruct (Hids _ _ H0) as (r0 & Hr0 & <-).
    eapply accounted_mono; [| |by eapply H2]; done.
Qed.

Lemma thread_ends e x notes answer o t r s ph ev s1 :
  thread_step e x notes answer o t r s = (ph, ev, s1) ->
  sv_threads s1 = sv_threads s /\ length (sv_heap s1) = length (sv_heap s) /\
  (forall o' r', sv_heap s1 !! o' = Some r' -> exists r0, (sv_heap s !! o' = Some r0 \/ r0 = r /\ o' = o) /\ a_run_id r0 = a_run_id r') /\
  (ph = TRemove -> th_phase t <> TRemove -> accounted ev (db_of s1) (th_attempt t) (a_run_id r)) /\
  (forall a rid, EvEnded a rid ∈ ev -> a = th_attempt t /\ rid = a_run_id r /\ th_phase t = TRemove).
Proof.
  intros Hs. unfold AgentServer.thread_step in Hs. destruct (th_phase t) eqn:Eph.
  - injection Hs as <- <- <-. split; [done|]. split; [simpl; apply length_insert|].
    split; [|split; [by destruct x|set_solver]].
    intros o' r' Hr'. simpl in Hr'. destruct (decide (o = o')) as [->|Hne].
    + apply list_lookup_insert_Some in Hr' as [(_ & <- & _)|[? _]]; [|done]. exists r. split; [by right|done].
    + rewrite list_lookup_insert_ne in Hr' by done. eauto.
  - destruct (_commit_completion _ _ _ _ _ _ _ _ _) as [[y ev1] j] eqn:Ec. injection Hs as <- <- <-.
    split; [done|]. split; [done|]. split; [simpl; eauto|]. split.
    + intros Hph _. destruct y as [u|y]; [|done]. eapply accounted_mono; [| |by eapply commit_ok]; done.
    + intros a rid Hin. exfalso. revert Ec Hin. unfold _commit_completion, commit_legacy.
      repeat case_match; intros; simplify_eq; set_solver.
  - destruct (_commit_completion _ _ _ _ _ _ _ _ _) as [[y ev1] j] eqn:Ec. injection Hs as <- <- <-.
    split; [done|]. split; [done|]. split; [simpl; eauto|]. split.
    + intros _ _. destruct y as [u|y]; [eapply accounted_mono; [| |by eapply commit_ok]; done|].
      right. right. by constructor.
    + intros a rid Hin. exfalso. revert Ec Hin. unfold _commit_completion, commit_legacy.
      repeat case_match; intros; simplify_eq; set_solver.
  - injection Hs as <- <- <-. split; [done|]. split; [done|]. split; [simpl; eauto|]. split; [done|].
    intros a rid Hin. apply list_elem_of_singleton in Hin. by injection Hin as -> ->.
  - injection Hs as <- <- <-. split; [done|]. split; [done|]. split; [eauto|]. split; [done|set_solver].
Qed.

Lemma handler_ends e h s p ev s1 :
  handler_step e h s = (p, ev, s1) ->
  (forall a rid, EvEnded a rid ∉ ev) /\
  ((sv_threads s1 = sv_threads s /\ sv_heap s1 = sv_heap s) \/
   (exists t r, sv_threads s1 = sv_threads s ++ [t] /\ sv_heap s1 = sv_heap s ++ [r] /\ th_phase t = TRun)).
Proof.
  unfold AgentServer.handler_step. destruct (hd_pc h).
  - intros [= <- <- <-]. set_solver.
  - intros [= <- <- <-]. set_solver.
  - destruct (validate_and_admit _ _ _ _ _ _ _ _ _). intros [= <- <- <-]. set_solver.
  - destruct (get_attempt _ _ _). intros [= <- <- <-]. set_solver.
  - intros [= <- <- <-]. split; [|right; by do 2 eexists]. intros a rid Hin. apply list_elem_of_singleton in Hin. done.
  - destruct (mark_running _ _ _). intros [= <- <- <-]. set_solver.
  - destruct (get_attempt _ _ _). intros [= <- <- <-]. set_solver.
  - intros [= <- <- <-]. set_solver.
Qed.

Lemma ends_ok_handler tr i e h s p ev s1 :
  sv_handlers s !! i = Some h -> handler_step e h s = (p, ev, s1) -> ends_ok tr s ->
  forall extra, (forall a rid, EvEnded a rid ∉ extra) ->
  ends_ok (tr ++ ev ++ extra) (set_handlers (<[i := mkHandler (hd_req h) p]> (sv_handlers s1)) s1).
Proof.
  intros Hi Hs [Hlen H1 H2] extra Hx. pose proof (pe_results _ _ (handler_persists e h s)) as Hd.
  rewrite Hs in Hd. simpl in Hd. destruct (handler_ends _ _ _ _ _ _ Hs) as [Hev Hth].
  assert (Hm : forall a rid, accounted tr (db_of s) a rid -> accounted (tr ++ ev ++ extra) (db_of s1) a rid).
  { intros a rid. apply accounted_mono; [set_solver|done]. }
  split; simpl.
  - destruct Hth as [[-> ->]|(t & r & -> & -> & _)]; [done|]. by rewrite !length_app, Hlen.
  - intros a rid Hin. apply Hm, H1. set_solver.
  - intros o t r Ht Hr Hph. apply Hm. destruct Hth as [[Et Er]|(t0 & r0 & Et & Er & Hrun)]; rewrite Et in Ht; rewrite Er in Hr.
    + by eapply H2.
    + apply lookup_app_Some in Ht as [Ht|[Hge Ht]].
      * apply lookup_lt_Some in Ht as Hlt. rewrite lookup_app_l in Hr by lia. by eapply H2.
      * apply list_lookup_singleton_Some in Ht as [_ <-]. congruence.
Qed.

Lemma ends_ok_thread tr e x notes answer o t r s ph ev s1 :
  sv_threads s !! o = Some t -> sv_heap s !! o = Some r ->
  thread_step e x notes answer o t r s = (ph, ev, s1) -> ends_ok tr s ->
  ends_ok (tr ++ ev) (set_threads (<[o := set_phase ph t]> (sv_threads s1)) s1).
Proof.
  intros Ht Hr Hs [Hlen H1 H2]. pose proof (pe_results _ _ (thread_persists e x notes answer o t r s)) as Hd.
  rewrite Hs in Hd. simpl in Hd. destruct (thread_ends _ _ _ _ _ _ _ _ _ _ _ Hs) as (Hth & Hhp & Hids & Hrem & Hend).
  assert (Hm : forall a rid, accounted tr (db_of s) a rid -> accounted (tr ++ ev) (db_of s1) a rid).
  { intros a rid. apply accounted_mono; [set_solver|done]. }
  split; simpl.
  - rewrite length_insert, Hth, Hhp. done.
  - intros a rid [Hin|Hin]%elem_of_app; [by apply Hm, H1|].
    destruct (Hend _ _ Hin) as (-> & -> & Hph). apply Hm. by eapply H2.
  - rewrite Hth. intros o' t' r' Ht' Hr' Hph. destruct (Hids _ _ Hr') as (r0 & Hr0 & <-).
    apply list_lookup_insert_Some in Ht' as [(<- & <- & _)|[Hne Ht']].
    + simpl in *. assert (r0 = r) as -> by (destruct Hr0 as [Hr0|[-> _]]; congruence).
      destruct (decide (th_phase t = TRemove)) as [Hp|Hp]; [apply Hm; by eapply H2|].
      eapply accounted_mono; [| |by apply Hrem]; [set_solver|done].
    + destruct Hr0 as [Hr0|[-> ->]]; [|done]. apply Hm. by eapply H2.
Qed.

Lemma ends_ok_act tr a s : ends_ok tr s -> ends_ok (tr ++ (act a s).1) (act a s).2.
Proof.
  intros Hs. pose proof (act_persists a s) as Hp.
  assert (Hq : (act a s).1 = [] -> sv_threads (act a s).2 = sv_threads s -> same_ids (sv_heap s) (sv_heap (act a s).2) ->
    length (sv_heap (act a s).2) = length (sv_heap s) -> ends_ok (tr ++ (act a s).1) (act a s).2).
  { intros -> Ht Hi Hl. rewrite app_nil_r. eapply ends_ok_quiet; [done|by left|done| |done].
    rewrite Ht, Hl. apply (en_len _ _ Hs). }
  assert (Hstop : forall os h, length (fold_left (fun h o => alter set_stop o h) os h) = length h).
  { induction os as [|o os IH]; intros h; simpl; [done|]. by rewrite IH, length_alter. }
  destruct a; try (apply Hq; [done|done|apply same_ids_refl|done]).
  - simpl. destruct (sv_handlers s !! i) as [h|] eqn:Hi; [|by rewrite app_nil_r].
    destruct (handler_step e h s) as [[p ev] s1] eqn:Hh. eapply ends_ok_handler; eauto.
    intros a rid. destruct (hd_pc h), p; try apply not_elem_of_nil;
      rewrite list_elem_of_singleton; discriminate.
  - simpl. destruct (sv_threads s !! o) as [t|] eqn:Ht, (sv_heap s !! o) as [r|] eqn:Hr; try by rewrite app_nil_r.
    destruct (thread_step e x notes answer o t r s) as [[ph ev] s1] eqn:Hh. by eapply ends_ok_thread.
  - simpl in *. unfold stop in *. destruct (get run_id (sv_state s)) as [o|].
    + apply Hq; [done|done|apply (same_ids_stop _ [o])|apply (Hstop [o])].
    + apply Hq; [done|done|apply same_ids_refl|done].
  - simpl in *. unfold drain in *. destruct (begin_drain _ _ _) as [first w].
    apply Hq; [done|done|apply same_ids_stop|apply Hstop].
  - simpl in *. unfold attempt in *. destruct (get_attempt _ _ _). apply Hq; [done|done|apply same_ids_refl|done].
  - apply Hq; [done|done|apply same_ids_stop|apply Hstop].
  - simpl in *. rewrite app_nil_r. eapply ends_ok_quiet; [done|right|intros o r|..|done];
      unfold boot; destruct (mark_interrupted_on_boot _ _); done.
Qed.

Lemma ends_ok_acts tr l s : ends_ok tr s -> ends_ok (tr ++ (acts l s).1) (acts l s).2.
Proof.
  revert tr s. induction l as [|a l IH]; intros tr s Hs; simpl; [by rewrite app_nil_r|].
  apply (ends_ok_act tr a) in Hs. destruct (act a s) as [ev s1]. simpl in Hs. apply IH in Hs.
  destruct (acts l s1) as [evs s2]. simpl in *. by rewrite app_assoc.
Qed.

Lemma acts_persists l s : persists (db_of s) (db_of (acts l s).2).
Proof.
  revert s. induction l as [|a l IH]; intros s; simpl; [apply persists_refl|].
  pose proof (act_persists a s) as H1. destruct (act a s) as [ev s1]. simpl in H1.
  specialize (IH s1). destruct (acts l s1) as [evs s2]. simpl in *. by eapply persists_trans.
Qed.

Lemma new_worker_fresh wid url mode e q h u k :
  ends_ok [] (new_worker wid url mode e q h u k) /\ delivery_inv true (db_of (new_worker wid url mode e q h u k)).
Proof.
  unfold new_worker. split.
  - unfold boot. destruct (mark_interrupted_on_boot _ _). split; simpl; [done|set_solver|done].
  - apply (pe_queued _ _ (boot_persists _ _ _ _)). simpl. apply init_delivery, delivery_inv_fresh.
Qed.

(** C19: no result is lost between the executor and the manager.  In any history
    of a worker, restarts included, once the thread of an authorized attempt has
    ended, the journal holds a result for the attempt, for good, and unless the
    manager acknowledged it the outbox has the row that delivers exactly this
    result; the one exception is a journal that refused to record even the
    error of the run. *)
Theorem ended_run_has_durable_result wid url mode e q h u k l aid rid :
  let '(tr, s) := acts l (new_worker wid url mode e q h u k) in
  EvEnded (Some aid) rid ∈ tr -> aid <> ""%string ->
  EvLost rid ∈ tr \/
  exists c, completions (db_of s) !! aid = Some c /\
    (cp_acked c = true \/ exists o, o ∈ outbox (db_of s) /\ ob_attempt_id o = aid /\ ob_kind o = run_complete /\
       ob_payload_json o = cp_result_json c).
Proof.
  destruct (new_worker_fresh wid url mode e q h u k) as [He Hq].
  pose proof (ends_ok_acts [] l _ He) as Hends. pose proof (pe_queued _ _ (acts_persists l _) Hq) as [Hc Hrow _ _ _].
  destruct (acts l (new_worker wid url mode e q h u k)) as [tr s]. simpl in *. intros Hin Hne.
  assert (Ht : truthy aid = true) by (unfold truthy; apply negb_true_iff; by apply String.eqb_neq).
  destruct (en_ended _ _ Hends _ _ Hin) as [H|[[[?|?] _]|H]]; [right|done|by simplify_eq|by left].
  simpl in H. rewrite Ht in H. apply elem_of_dom in H as [c Hcp]. exists c. split; [done|].
  destruct (cp_acked c) eqn:Ea; [by left|right].
  destruct (Hc eq_refl aid c Hcp Ea) as (o & Ho & <-). exists o.
  destruct (Hrow o Ho) as (Hk & c' & Hc' & _ & Hp). rewrite Hcp in Hc'. injection Hc' as <-. done.
Qed.

(** ** Drain *)

(** Past the drain gate, before the start. *)
Definition past_gate (h : handler) : bool :=
  match hd_pc h with PLoad | PAdmit _ _ | PStart _ _ => true | _ => false end.

Definition is_boot (a : action) : bool := match a with ABoot _ _ _ => true | _ => false end.

(** A draining worker without a request on its way to a start, and run objects
    [os] that have been told to stop. *)
Record drained_with (d : option Z) (os : list nat) (s : server) : Prop := mkDrained {
  dr_draining : ws_draining (sv_state s) = true;
  dr_deadline : ws_drain_deadline (sv_state s) = d;
  dr_handlers : Forall (fun h => past_gate h = false) (sv_handlers s);
  dr_stopped : forall o, o ∈ os -> exists r, sv_heap s !! o = Some r /\ a_stopped r = true }.

Definition keeps_stops (h h' : list ActiveRun) : Prop :=
  forall o r, h !! o = Some r -> a_stopped r = true -> exists r', h' !! o = Some r' /\ a_stopped r' = true.

Lemma keeps_stops_refl h : keeps_stops h h.
Proof. intros o r H1 H2. eauto. Qed.

Lemma stop_fold_keeps os h : keeps_stops h (fold_left (fun h o => alter set_stop o h) os h).
Proof.
  revert h. induction os as [|o os IH]; intros h; simpl; [apply keeps_stops_refl|].
  intros o' r Hr Hs. destruct (decide (o = o')) as [->|Hne].
  - apply (IH _ o' (set_stop r)); [|done]. by rewrite list_lookup_alter_eq, Hr.
  - apply (IH _ o' r); [|done]. by rewrite list_lookup_alter_ne.
Qed.

Lemma stop_fold_stops (os : list nat) (h : list ActiveRun) (o : nat) :
  o ∈ os -> is_Some (h !! o) -> exists r, fold_left (fun h o => alter set_stop o h) os h !! o = Some r /\ a_stopped r = true.
Proof.
  revert h. induction os as [|x os IH]; intros h Hin [r Hr]; simpl; [set_solver|].
  destruct (decide (o = x)) as [->|Hne].
  - apply (stop_fold_keeps os _ x (set_stop r)); [|done]. by rewrite list_lookup_alter_eq, Hr.
  - apply IH; [set_solver|]. rewrite list_lookup_alter_ne by done. by eexists.
Qed.

(** What each access keeps: the drain state, and the stops. *)
Lemma handler_drained e h s p ev s1 :
  handler_step e h s = (p, ev, s1) ->
  ws_draining (sv_state s) = true -> past_gate h = false ->
  past_gate (mkHandler (hd_req h) p) = false /\ sv_state s1 = sv_state s /\ sv_heap s1 = sv_heap s /\
  sv_handlers s1 = sv_handlers s /\ (forall a rid, EvStarted a rid ∉ ev).
Proof.
  unfold AgentServer.handler_step, past_gate. destruct (hd_pc h); simpl; intros Hs Hd Hg; try done.
  - injection Hs as <- <- <-. unfold gate. rewrite Hd. repeat split; try done. set_solver.
  - destruct (get_attempt _ _ _). injection Hs as <- <- <-. repeat split; try done. set_solver.
  - destruct (mark_running _ _ _) as [[u|x] j]; injection Hs as <- <- <-; repeat split; try done; set_solver.
  - destruct (get_attempt _ _ _). injection Hs as <- <- <-. repeat split; try done. set_solver.
  - injection Hs as <- <- <-. repeat split; try done. set_solver.
Qed.

Lemma remove_drain heap rid aid w :
  ws_draining (remove heap rid aid w) = ws_draining w /\ ws_drain_deadline (remove heap rid aid w) = ws_drain_deadline w.
Proof. unfold remove, _reindex_locked. repeat case_match; done. Qed.

Lemma thread_drained e x notes answer o t r s ph ev s1 :
  sv_heap s !! o = Some r -> thread_step e x notes answer o t r s = (ph, ev, s1) ->
  ws_draining (sv_state s1) = ws_draining (sv_state s) /\
  ws_drain_deadline (sv_state s1) = ws_drain_deadline (sv_state s) /\
  keeps_stops (sv_heap s) (sv_heap s1) /\ sv_handlers s1 = sv_handlers s /\ (forall a rid, EvStarted a rid ∉ ev).
Proof.
  intros Hr Hs. assert (Hst : started ev = []) by (by apply thread_starts in Hs as [? _]).
  assert (Hns : forall a rid, EvStarted a rid ∉ ev).
  { intros a rid Hin. unfold AgentServer.thread_step in Hs. revert Hs Hin.
    unfold _commit_completion, commit_legacy. repeat case_match; intros; simplify_eq/=; set_solver. }
  unfold AgentServer.thread_step in Hs. destruct (th_phase t).
  - injection Hs as <- <- <-. repeat split; [|done]. intros o' r' Hr' Hst'. simpl.
    destruct (decide (o = o')) as [->|Hne]; [|rewrite list_lookup_insert_ne by done; eauto].
    rewrite list_lookup_insert_eq by (by eapply lookup_lt_Some). eexists. split; [done|]. simpl. congruence.
  - destruct (_commit_completion _ _ _ _ _ _ _ _ _) as [[y ev1] j]. injection Hs as <- <- <-.
    repeat split; [apply keeps_stops_refl|done].
  - destruct (_commit_completion _ _ _ _ _ _ _ _ _) as [[y ev1] j]. injection Hs as <- <- <-.
    repeat split; [apply keeps_stops_refl|done].
  - injection Hs as <- <- <-. simpl. pose proof (remove_drain (sv_heap s) (rq_run_id (th_req t))
      (default ""%string (th_attempt t)) (sv_state s)) as [H1 H2].
    repeat split; [done|done|apply keeps_stops_refl|done].
  - injection Hs as <- <- <-. repeat split; [apply keeps_stops_refl|done].
Qed.

Lemma drained_act d os a s :
  is_boot a = false -> drained_with d os s ->
  drained_with d os (act a s).2 /\ (forall x rid, EvStarted x rid ∉ (act a s).1).
Proof.
  intros Hb [Hd Hdl Hh Hst].
  assert (Hkeep : forall s', ws_draining (sv_state s') = true -> ws_drain_deadline (sv_state s') = d ->
    Forall (fun h => past_gate h = false) (sv_handlers s') -> keeps_stops (sv_heap s) (sv_heap s') ->
    drained_with d os s').
  { intros s' H1 H2 H3 H4. split; [done..|]. intros o Ho. destruct (Hst o Ho) as (r & Hr & Hs). eauto. }
  destruct a; simpl; try done; try (split; [|set_solver]).
  - apply Hkeep; simpl; try done; [|apply keeps_stops_refl]. by apply Forall_app_2; [|constructor].
  - destruct (sv_handlers s !! i) as [h|] eqn:Hi; [|split; [by split|set_solver]].
    destruct (handler_step e h s) as [[p ev] s1] eqn:Es. simpl.
    destruct (handler_drained _ _ _ _ _ _ Es Hd) as (Hp & Hw & Hp2 & Hp3 & Hev).
    { by eapply (Forall_lookup_1 _ _ _ _ Hh). }
    split.
    + apply Hkeep; simpl; rewrite ?Hw, ?Hp2, ?Hp3; try done; [|apply keeps_stops_refl]. by apply Forall_insert.
    + intros x rid [Hin|Hin]%elem_of_app; [by eapply Hev|]. destruct (hd_pc h), p; set_solver.
  - destruct (sv_threads s !! o) as [t|], (sv_heap s !! o) as [r|] eqn:Hr; try (split; [by split|set_solver]).
    destruct (thread_step e x notes answer o t r s) as [[ph ev] s1] eqn:Es. simpl.
    destruct (thread_drained _ _ _ _ _ _ _ _ _ _ _ Hr Es) as (H1 & H2 & H3 & H4 & H5).
    split; [|done]. apply Hkeep; simpl; rewrite ?H1, ?H2, ?H4; done.
  - unfold stop. destruct (get run_id (sv_state s)) as [o|]; [|by split].
    apply Hkeep; simpl; try done. apply (stop_fold_keeps [o]).
  - unfold drain, begin_drain. rewrite Hd. apply Hkeep; simpl; try done. apply stop_fold_keeps.
  - by apply Hkeep; [..|apply keeps_stops_refl].
  - unfold attempt. destruct (get_attempt _ _ _). by apply Hkeep; [..|apply keeps_stops_refl].
  - by apply Hkeep; [..|apply keeps_stops_refl].
  - unfold shutdown. rewrite Hd. apply Hkeep; simpl; try done. apply stop_fold_keeps.
Qed.

Lemma drained_acts d os l s :
  forallb (fun a => negb (is_boot a)) l = true -> drained_with d os s ->
  drained_with d os (acts l s).2 /\ (forall x rid, EvStarted x rid ∉ (acts l s).1).
Proof.
  revert s. induction l as [|a l IH]; intros s Hl Hs; simpl; [split; [done|set_solver]|].
  simpl in Hl. apply andb_true_iff in Hl as [Ha Hl]. apply negb_true_iff in Ha.
  destruct (drained_act d os a s Ha Hs) as [H1 H2]. destruct (act a s) as [ev s1]. simpl in *.
  destruct (IH s1 Hl H1) as [H3 H4]. destruct (acts l s1) as [evs s2]. simpl in *.
  split; [done|]. intros x rid [?|?]%elem_of_app; [by eapply H2|by eapply H4].
Qed.

(** Drain.  After /agent/drain, and for the rest of the process, whatever
    arrives: no run is started that was not already past the drain gate, every
    run that was active has its stop event set and keeps it, and the first
    deadline is never moved by further drain requests or by the shutdown. *)
Theorem drain_closes_admission m tmo now l s :
  ws_draining (sv_state s) = false ->
  Forall (fun h => past_gate h = false) (sv_handlers s) ->
  (forall o, o ∈ snapshot (sv_state s) -> is_Some (sv_heap s !! o)) ->
  forallb (fun a => negb (is_boot a)) l = true ->
  let '(evs, s') := acts l (drain m tmo now s).2 in
  (forall a rid, EvStarted a rid ∉ evs) /\
  ws_draining (sv_state s') = true /\ ws_drain_deadline (sv_state s') = Some (m + tmo) /\
  (forall o, o ∈ snapshot (sv_state s) -> exists r, sv_heap s' !! o = Some r /\ a_stopped r = true).
Proof.
  intros Hd Hh Hobj Hl.
  assert (H0 : drained_with (Some (m + tmo)) (snapshot (sv_state s)) (drain m tmo now s).2).
  { unfold drain, begin_drain. rewrite Hd. split; simpl; try done.
    intros o Ho. apply stop_fold_stops; [done|by apply Hobj]. }
  destruct (drained_acts _ _ l _ Hl H0) as [[H1 H2 _ H3] H4].
  destruct (acts l (drain m tmo now s).2) as [evs s']. done.
Qed.

(** ** From the pool to the worker *)

(** The worker as the pool's POST sees it. *)
Definition worker_post (e : env) (s : server) (rq : run_request) : option string :=
  http_error (serve cfg load 6 e (mkHandler rq PGate) s).1.1.

(** Nothing in the journal speaks against the first start of [aid]. *)
Definition ready_for (e : env) (c : AuthTokens.claims) (tok : string) (j : journal) : Prop :=
  inv (tables j) /\ is_Some (session_epoch_meta (tables j)) /\
  h_state (_health_locked e j).1 = HOk /\ 0 <= auth_clock_skew_s cfg /\
  clock_sane cfg (clock e) (tables j) /\ not_retired cfg c tok (tables j) /\
  ~ blocked (AuthTokens.attempt_id c) (tables j) /\
  ~ map_Exists (fun _ x => au_token_hash x = Sha256.sha256_hex tok) (authorizations (tables j)).

Lemma admit_ready e c tok p cur prev j :
  ready_for e c tok j ->
  AuthTokens.validate_start_authorization (AuthTokens.worker_session c) cur prev (auth_max_ttl_s cfg)
    (auth_clock_skew_s cfg) (timestamp_s (clock e)) tok = Ok (AuthTokens.accepted c) ->
  exists j', validate_and_admit cfg e tok p (AuthTokens.worker_session c) cur prev None j
      = (Ok (mkAdmission Admitted_ok (Some (AuthTokens.attempt_id c)) None None None None), j') /\
    live j' /\ reservations (tables j') !! AuthTokens.attempt_id c = Some (reserved_row c p (clock e)).
Proof.
  intros (Hinv & Hm & Hh & Hsk & Hc & Hnr & Hb & Hth) Hv.
  pose proof (validate_and_admit_reaches cfg e tok p c cur prev j Hm Hv Hh Hnr) as Hreach.
  destruct (admit_txn_fresh cfg (clock e) (decision_of c tok (_session_epoch_locked (tables j))) p
    (tables j) Hsk Hc Hinv Hb Hth) as (t' & Etx & _ & _ & _ & _ & Hres & _).
  rewrite Etx in Hreach. simpl in Hreach. destruct (health_ok_inv e j Hm Hh) as (Ho & Hf & _).
  eexists. split; [exact Hreach|]. split; [by split|]. simpl. rewrite Hres. by rewrite lookup_insert_eq.
Qed.

Lemma mark_running_live e aid j r :
  live j -> reservations (tables j) !! aid = Some r -> rs_state r = Reserved ->
  exists j', mark_running e aid j = (Ok true, j') /\ live j' /\
    reservations (tables j') !! aid = Some (mkReservation (rs_run_id r) (rs_pipeline_name r) (rs_generation r)
      (rs_slot_id r) (rs_worker_session r) (rs_reserved_at r) Running true).
Proof.
  intros Hl Hr Hs. unfold mark_running. rewrite txn_live by done. rewrite Hr, decide_True by done.
  eexists. split; [done|]. split; [by destruct Hl; split|]. simpl. by rewrite lookup_insert_eq.
Qed.

(** An admissible request, served alone. *)
Lemma serve_admissible e c tok lc rq s :
  ws_draining (sv_state s) = false -> rq_authorization rq = Some tok -> load (rq_yaml_text rq) = Some lc ->
  ready_for e c tok (sv_journal s) -> sv_session s = AuthTokens.worker_session c ->
  truthy (AuthTokens.attempt_id c) = true ->
  AuthTokens.validate_start_authorization (sv_session s) (AuthTokens.auth_secret (sv_secrets s))
    (AuthTokens.auth_secret_previous (sv_secrets s)) (auth_max_ttl_s cfg)
    (auth_clock_skew_s cfg) (timestamp_s (clock e)) tok = Ok (AuthTokens.accepted c) ->
  exists st s', serve cfg load 6 e (mkHandler rq PGate) s
      = (PDone (Accepted (AuthTokens.attempt_id c) st),
         [EvStarted (Some (AuthTokens.attempt_id c)) (rq_run_id rq)], s') /\
    (exists row, reservations (db_of s') !! AuthTokens.attempt_id c = Some row /\ rs_state row = Running /\
       rs_run_id row = AuthTokens.run_id c /\ rs_generation row = AuthTokens.generation c).
Proof.
  intros Hd Ha Hl Hr Hses Ht Hv. rewrite Hses in Hv.
  destruct (admit_ready e c tok (rq_pipeline_name rq) _ _ _ Hr Hv) as (j1 & Hadm & Hl1 & Hres1).
  destruct (mark_running_live e (AuthTokens.attempt_id c) j1 _ Hl1 Hres1 eq_refl) as (j2 & Hmark & Hl2 & Hres2).
  assert (S1 : handler_step e (mkHandler rq PGate) s = (PLoad, [], s)).
  { unfold AgentServer.handler_step, gate. simpl. by rewrite Hd, Ha. }
  assert (S2 : handler_step e (mkHandler rq PLoad) s = (PAdmit lc tok, [], s)).
  { unfold AgentServer.handler_step, load_config. simpl. by rewrite Hl, Ha. }
  assert (S3 : handler_step e (mkHandler rq (PAdmit lc tok)) s
    = (PStart lc (Some (AuthTokens.attempt_id c)), [], set_journal j1 s)).
  { unfold AgentServer.handler_step. simpl. by rewrite Hses, Hadm. }
  set (s2 := start_run rq lc (Some (AuthTokens.attempt_id c)) (clock e) (set_journal j1 s)).
  assert (S4 : handler_step e (mkHandler rq (PStart lc (Some (AuthTokens.attempt_id c)))) (set_journal j1 s)
    = (PMark (AuthTokens.attempt_id c), [EvStarted (Some (AuthTokens.attempt_id c)) (rq_run_id rq)], s2)).
  { unfold AgentServer.handler_step. simpl. by rewrite Ht. }
  assert (S5 : handler_step e (mkHandler rq (PMark (AuthTokens.attempt_id c))) s2
    = (PRead (AuthTokens.attempt_id c), [], set_journal j2 s2)).
  { unfold AgentServer.handler_step. simpl. by rewrite Hmark. }
  cbn [serve]. rewrite S1. cbn [hd_req]. rewrite S2. cbn [hd_req]. rewrite S3. cbn [hd_req]. rewrite S4. cbn [hd_req]. rewrite S5.
  unfold AgentServer.handler_step. cbn [hd_req hd_pc]. simpl sv_journal. rewrite (get_attempt_live e _ j2 Hl2).
  destruct (lookup_attempt (tables j2) (AuthTokens.attempt_id c)) as [rec|]; do 2 eexists; (split; [done|]);
    exists (mkReservation (AuthTokens.run_id c) (rq_pipeline_name rq) (AuthTokens.generation c)
      (AuthTokens.slot_id c) (AuthTokens.worker_session c) (isoformat (clock e)) Running true);
    simpl; (split; [exact Hres2|done]).
Qed.


End laws.

(** ** A concrete worker *)

Definition demo_load (yaml : string) : option loaded_config :=
  if String.eqb yaml "" then None else Some (mkLoaded false).
(** The errors of a payload, enough to tell payloads apart. *)
Definition demo_dumps (p : run_payload) : string := py_join "," (pl_errors p).
Definition demo_text (x : journal_exn) : string := "journal".
Definition at_s (t : Z) : env := mkEnv (t * 1000000) 0 SqlOk SqlOk.

Definition demo_token : string :=
  match AuthTokens.mint_start_authorization AuthTokens.demo_claims "k" with Ok t => t | Raise _ => ""%string end.
Definition demo_req : run_request :=
  mkRequest "p" "y" "r1" "batch" "" false (Some "r1-a1"%string) (Some 3) None (Some demo_token).
Definition demo_result : RunResult :=
  mkResult "r1" "p" SUCCESS 1010000000 5 5 0 10 10 None 0 ["late file"%string] 0 0 0 [] [].
Definition boot_worker : server := new_worker "w0" "http://m" LegacyAuto (at_s 1000) 0 0 "ab12cd34" "".

Notation demo_act := (act default_config demo_load demo_dumps demo_text).
Notation demo_acts := (acts default_config demo_load demo_dumps demo_text).

(** The dispatch arrives twice; the second is a repeat.  Then the run ends, its
    file tracker having reported a degradation. *)
Definition starting : list action :=
  [AHandshake "k"; ARequest demo_req] ++ replicate 6 (AHandler 0 (at_s 1010))
  ++ [ARequest demo_req] ++ replicate 4 (AHandler 1 (at_s 1011)).
Definition ending : list action :=
  replicate 3 (AThread 0 (at_s 1020) (BatchDone demo_result 1019000000) ["tracker down"%string] (fun _ => NoAnswer)).
Definition demo_trace : list event :=
  [EvStarted (Some "r1-a1"%string) "r1"; EvAnswered (Accepted "r1-a1" (Some "running"%string));
   EvAnswered (Repeated "r1-a1" (Some "running"%string) (Some KActive));
   EvCommitted "r1-a1"; EvEnded (Some "r1-a1"%string) "r1"].

Lemma ended_run_has_durable_result_witness :
  let '(tr, s) := demo_acts (starting ++ ending) boot_worker in
  tr = demo_trace /\
  (EvLost "r1" ∈ tr \/
   exists c, completions (tables (sv_journal s)) !! "r1-a1"%string = Some c /\
    (cp_acked c = true \/ exists o, o ∈ outbox (tables (sv_journal s)) /\ ob_attempt_id o = "r1-a1"%string /\
       ob_kind o = run_complete /\ ob_payload_json o = cp_result_json c)).
Proof.
  pose proof (ended_run_has_durable_result default_config demo_load demo_dumps demo_text "w0" "http://m" LegacyAuto
    (at_s 1000) 0 0 "ab12cd34" "" (starting ++ ending) "r1-a1" "r1") as H.
  assert (Ht : (demo_acts (starting ++ ending) boot_worker).1 = demo_trace) by (vm_compute; reflexivity).
  unfold boot_worker in *. destruct (demo_acts (starting ++ ending) _) as [tr s]. simpl in Ht. subst tr.
  split; [reflexivity|]. apply H; [|discriminate].
  apply list_elem_of_In. vm_compute. tauto.
Defined.

Lemma drain_closes_admission_witness :
  let s := (demo_acts starting boot_worker).2 in
  snapshot (sv_state s) = [0%nat] /\
  let '(evs, s') := demo_acts ([ARequest (mkRequest "q" "y" "r2" "batch" "" false None None None None);
     AHandler 2 (at_s 1012); ADrain 900 60 1013000000] ++ ending) (drain 500 60 1012000000 s).2 in
  (forall a rid, EvStarted a rid ∉ evs) /\ ws_draining (sv_state s') = true /\
  ws_drain_deadline (sv_state s') = Some 560 /\
  (forall o, o ∈ snapshot (sv_state s) -> exists r, sv_heap s' !! o = Some r /\ a_stopped r = true).
Proof.
  intros s. split; [vm_compute; reflexivity|].
  apply (drain_closes_admission default_config demo_load demo_dumps demo_text 500 60 1012000000).
  - vm_compute. reflexivity.
  - vm_compute. repeat constructor.
  - intros o Ho. vm_compute in Ho. apply list_elem_of_singleton in Ho as ->. vm_compute. by eexists.
  - reflexivity.
Defined.

Definition demo_pool : pool :=
  register_worker_session (mkPoolConfig "http://m" 30 2 2 60 600 5) 0 "http://w0" "w0-ab12cd34" "k"
    (init_pool ["http://w0"%string]).


Definition legacy_req : run_request := mkRequest "p" "y" "r1" "batch" "" false None None None None.

(** The degradation notes of a run are lost on the authorized path.  Two
    equal batch runs whose file tracker reported a degradation end with the same
    result; the one dispatched without a token journals the note among the errors
    of its completion, the authorized one only the errors of the executor, so the
    manager's run history never shows why files were reprocessed. *)
Theorem authorized_batch_drops_notes :
  let authorized := (demo_acts (starting ++ ending) boot_worker).2 in
  let legacy := (demo_acts ([ARequest legacy_req] ++ replicate 3 (AHandler 0 (at_s 1010)) ++ ending) boot_worker).2 in
  let notes s := a_degradation_notes <$> sv_heap s !! 0%nat in
  let result s key := cp_result_json <$> completions (tables (sv_journal s)) !! key in
  notes authorized = notes legacy /\ notes legacy = Some ["tracker down"%string] /\
  result legacy "legacy:r1"%string = Some "late file,tracker down"%string /\
  result authorized "r1-a1"%string = Some "late file"%string.
Proof. vm_compute. repeat split. Qed.

End AgentLaws.
