(* ===== verification/CtlMonad.v ===== *)
(** * Methods that mutate an object and may raise

    A method of the manager process is a function of the object's state that
    returns or raises and keeps the state also when it raises.  [keeps R m]
    says that every run of [m] relates the state before to the state after;
    it follows the structure of a program for every preorder [R]. *)

From Stdlib Require Import ZArith.
From stdpp Require Import base tactics list option.
From S2P Require Import Prelude.
Import stdpp.list.

Module CtlMonad.

Definition M (S E A : Type) : Type := S -> res E A * S.

Section monad.
Context {S E : Type}.

Definition ret {A} (a : A) : M S E A := fun s => (Ok a, s).
Definition throw {A} (e : E) : M S E A := fun s => (Raise e, s).
Definition bind {A B} (m : M S E A) (k : A -> M S E B) : M S E B :=
  fun s => match m s with
           | (Ok a, s') => k a s'
           | (Raise e, s') => (Raise e, s')
           end.

(** [try: m  except ...: h]. *)
Definition catch {A} (m : M S E A) (h : E -> M S E A) : M S E A :=
  fun s => match m s with
           | (Raise e, s') => h e s'
           | r => r
           end.

Definition gets {A} (f : S -> A) : M S E A := fun s => (Ok (f s), s).
Definition modify (f : S -> S) : M S E unit := fun s => (Ok tt, f s).
Definition lift {A} (r : res E A) : M S E A := fun s => (r, s).

(** A function of the state that returns a value beside the new state. *)
Definition state {A} (f : S -> A * S) : M S E A := fun s => let '(a, s') := f s in (Ok a, s').

Definition when (b : bool) (m : M S E unit) : M S E unit := if b then m else ret tt.

Fixpoint iterM {A} (f : A -> M S E unit) (l : list A) : M S E unit :=
  match l with
  | [] => ret tt
  | a :: l' => bind (f a) (fun _ => iterM f l')
  end.

Fixpoint foldM {A B} (f : B -> A -> M S E B) (l : list A) (b : B) : M S E B :=
  match l with
  | [] => ret b
  | a :: l' => bind (f b a) (foldM f l')
  end.
End monad.

(** A method of a part of the object. *)
Definition within {S T E A} (get : S -> T) (set : T -> S -> S) (m : M T E A) : M S E A :=
  fun s => let '(r, t) := m (get s) in (r, set t s).

Notation "'let*' x ':=' m 'in' k" := (bind m (fun x => k))
  (at level 10, x pattern, m at level 100, k at level 200) : tram_scope.
Notation "'do*' m 'in' k" := (bind m (fun _ => k))
  (at level 10, m at level 100, k at level 200) : tram_scope.

(** ** Relations every run respects *)

Section keeps.
Context {S E : Type} (R : S -> S -> Prop) {HR : PreOrder R}.

Definition keeps {A} (m : M S E A) : Prop := forall s, R s (m s).2.

Lemma ck_ret {A} (a : A) : keeps (ret a).
Proof. intros s. reflexivity. Qed.

Lemma ck_throw {A} e : keeps (throw (A := A) e).
Proof. intros s. reflexivity. Qed.

Lemma ck_gets {A} (f : S -> A) : keeps (gets f).
Proof. intros s. reflexivity. Qed.

Lemma ck_lift {A} (r : res E A) : keeps (lift r).
Proof. intros s. reflexivity. Qed.

Lemma ck_bind {A B} (m : M S E A) (k : A -> M S E B) :
  keeps m -> (forall a, keeps (k a)) -> keeps (bind m k).
Proof.
  intros Hm Hk s. unfold bind. specialize (Hm s). destruct (m s) as [[a|e] s']; simpl in *; [|done].
  etrans; [exact Hm|apply Hk].
Qed.

Lemma ck_catch {A} (m : M S E A) (h : E -> M S E A) :
  keeps m -> (forall e, keeps (h e)) -> keeps (catch m h).
Proof.
  intros Hm Hh s. unfold catch. specialize (Hm s). destruct (m s) as [[a|e] s']; simpl in *; [done|].
  etrans; [exact Hm|apply Hh].
Qed.

Lemma ck_modify f : (forall s, R s (f s)) -> keeps (modify f).
Proof. intros Hf s. apply Hf. Qed.

Lemma ck_state {A} (f : S -> A * S) : (forall s, R s (f s).2) -> keeps (state f).
Proof. intros Hf s. unfold state. specialize (Hf s). by destruct (f s). Qed.

Lemma ck_when b (m : M S E unit) : keeps m -> keeps (when b m).
Proof. destruct b; [done|]. intros _. apply ck_ret. Qed.

Lemma ck_iterM {A} (f : A -> M S E unit) l : (forall a, keeps (f a)) -> keeps (iterM f l).
Proof. intros Hf. induction l as [|a l IH]; simpl; [apply ck_ret|]. by apply ck_bind. Qed.

Lemma ck_foldM {A B} (f : B -> A -> M S E B) l b : (forall b a, keeps (f b a)) -> keeps (foldM f l b).
Proof.
  intros Hf. revert b; induction l as [|a l IH]; intros b; simpl; [apply ck_ret|]. by apply ck_bind.
Qed.
End keeps.

(** Preservation of a predicate, as a preorder. *)
Definition preserves {S} (P : S -> Prop) (s t : S) : Prop := P s -> P t.

#[global] Instance preserves_preorder {S} (P : S -> Prop) : PreOrder (preserves P).
Proof. split; unfold preserves; auto. Qed.

Lemma ck_within {S T E A} (get : S -> T) (set : T -> S -> S) (R : S -> S -> Prop) (Q : T -> T -> Prop)
  (m : M T E A) :
  (forall s t, Q (get s) t -> R s (set t s)) -> keeps Q m -> keeps R (within get set m).
Proof. intros H Hm s. unfold within. specialize (Hm (get s)). destruct (m (get s)). by apply H. Qed.

(** ** Programs that return *)

Section returns.
Context {S E : Type}.

Lemma bind_ok_inv {A B} (m : M S E A) (k : A -> M S E B) s b t :
  bind m k s = (Ok b, t) -> exists a u, m s = (Ok a, u) /\ k a u = (Ok b, t).
Proof. unfold bind. destruct (m s) as [[a|e] u]; [eauto|done]. Qed.

Lemma bind_returns {A B} (m : M S E A) (k : A -> M S E B) s a u :
  m s = (Ok a, u) -> bind m k s = k a u.
Proof. unfold bind. by intros ->. Qed.
End returns.

(** One step along the structure of a program; what is not structure is left
    to the caller. *)
Ltac keeps_step :=
  lazymatch goal with
  | |- keeps _ (ret _) => apply ck_ret; apply _
  | |- keeps _ (throw _) => apply ck_throw; apply _
  | |- keeps _ (gets _) => apply ck_gets; apply _
  | |- keeps _ (lift _) => apply ck_lift; apply _
  | |- keeps _ (bind _ _) => apply ck_bind; [apply _| |intros ?]
  | |- keeps _ (catch _ _) => apply ck_catch; [apply _| |intros ?]
  | |- keeps _ (when _ _) => apply ck_when; [apply _|]
  | |- keeps _ (iterM _ _) => apply ck_iterM; [apply _|intros ?]
  | |- keeps _ (foldM _ _ _) => apply ck_foldM; [apply _|intros ? ?]
  | |- keeps _ (match ?x with _ => _ end) => destruct x
  end.
End CtlMonad.
