(* ===== verification/Manager.v ===== *)
(** * The pipeline manager and its tables

    src/tram/pipeline/manager.py: the in-memory registry of pipelines
    (PipelineManager, PipelineState), over the tables of
    src/tram/persistence/db.py it reads and writes: the run history, the
    registered pipelines, their versions, and those the controller adds
    (lifecycle operations, stream placements, transform state) beside the
    ledger and the queue of [LedgerLane].

    A persistence layer is configured.  Times are the ISO texts the tables
    hold.  Two registrations of a configuration are told apart by the identity
    of the configuration object, a number; the alert evaluator is absent. *)

From Stdlib Require Import ZArith Lia Ascii String.
From stdpp Require Import base tactics list strings gmap option.
From S2P Require Import Prelude CtlMonad PyStr IsoTime Ledger LedgerLane Accounting WorkerPool.
Import stdpp.list.

#[local] Open Scope Z_scope.
#[local] Open Scope list_scope.

Module Manager.
Import CtlMonad IsoTime Ledger LedgerLane Accounting WorkerPool.

(** ** Configurations *)

Inductive schedule_kind := StreamSchedule | IntervalSchedule | CronSchedule | ManualSchedule.

#[global] Instance schedule_kind_eq_dec : EqDecision schedule_kind.
Proof. solve_decision. Defined.

Definition schedule_text (k : schedule_kind) : string :=
  match k with
  | StreamSchedule => "stream" | IntervalSchedule => "interval" | CronSchedule => "cron"
  | ManualSchedule => "manual"
  end.

(** The fields of a validated PipelineConfig the manager reads. *)
Record PipelineConfig := mkConfig {
  cf_name : string;
  cf_enabled : bool;
  cf_schedule : schedule_kind;
  cf_workers : WorkersConfig;
  cf_transforms : list string }.

(** ** Results and states *)

(** A RunResult, with its times as the history stores them. *)
Record run_result := mkRunResult {
  rn_run_id : string;
  rn_pipeline_name : string;
  rn_status : RunStatus;
  rn_started_at : string;
  rn_finished_at : string;
  rn_records_in : Z;
  rn_records_out : Z;
  rn_records_skipped : Z;
  rn_bytes_in : Z;
  rn_bytes_out : Z;
  rn_error : option string;
  rn_dlq_count : Z;
  rn_node_id : string;
  rn_errors : list string;
  rn_records_failed : Z;
  rn_dlq_succeeded : Z;
  rn_dlq_failed : Z;
  rn_disposition : list (string * list (string * Z));
  rn_spool : list (string * Z) }.

(** A failed run that wrote nothing. *)
Definition failed_result (run_id pipeline started finished error node_id : string) : run_result :=
  mkRunResult run_id pipeline FAILED started finished 0 0 0 0 0 (Some error) 0 node_id [] 0 0 0 [] [].

Inductive pipeline_status := Stopped | Running | Error | Scheduled | Queued | Reconciling | Degraded.

#[global] Instance pipeline_status_eq_dec : EqDecision pipeline_status.
Proof. solve_decision. Defined.

Definition status_text (s : pipeline_status) : string :=
  match s with
  | Stopped => "stopped" | Running => "running" | Error => "error" | Scheduled => "scheduled"
  | Queued => "queued" | Reconciling => "reconciling" | Degraded => "degraded"
  end.

Record PipelineState := mkPState {
  ps_config : PipelineConfig;
  ps_config_id : nat;
  ps_yaml_text : option string;
  ps_status : pipeline_status;
  ps_registered_at : string;
  ps_last_run : option string;
  ps_last_run_status : option RunStatus;
  ps_run_history : list run_result }.

Definition with_status (st : pipeline_status) (p : PipelineState) : PipelineState :=
  mkPState (ps_config p) (ps_config_id p) (ps_yaml_text p) st (ps_registered_at p) (ps_last_run p)
    (ps_last_run_status p) (ps_run_history p).

Definition with_last_run (at_ : option string) (st : option RunStatus) (h : list run_result) (p : PipelineState)
  : PipelineState :=
  mkPState (ps_config p) (ps_config_id p) (ps_yaml_text p) (ps_status p) (ps_registered_at p) at_ st h.

Definition _MAX_RUN_HISTORY : nat := 500.

(** [record_run] of a state: the deque drops its oldest entry. *)
Definition note_run (r : run_result) (p : PipelineState) : PipelineState :=
  with_last_run (Some (rn_finished_at r)) (Some (rn_status r))
    (take _MAX_RUN_HISTORY (r :: ps_run_history p)) p.

(** ** Tables *)

(** A row of [run_history], with the columns boot adoption fills. *)
Record history_row := mkHistory {
  hr_result : run_result;
  hr_attempt_id : option string;
  hr_generation : option Z;
  hr_outcome : option final_outcome }.

(** A row of [registered_pipelines]. *)
Record registered_row := mkRegistered {
  rg_yaml_text : string;
  rg_created_at : string;
  rg_updated_at : string;
  rg_deleted : bool;
  rg_source : string;
  rg_stopped : bool }.

(** A row of [pipeline_versions]; (name, version) is unique. *)
Record version_row := mkVersion {
  vr_name : string;
  vr_version : Z;
  vr_yaml_content : string;
  vr_created_at : string;
  vr_is_active : bool }.

Inductive operation_state := OpPending | OpComplete | OpFailed.

(** A row of [lifecycle_operations]. *)
Record operation_row := mkOperation {
  lo_pipeline : string;
  lo_kind : string;
  lo_state : operation_state;
  lo_attempt_id : option string;
  lo_detail : option string;
  lo_created_at : string;
  lo_updated_at : string }.

Inductive slot_status := SlotRunning | SlotStale.

#[global] Instance slot_status_eq_dec : EqDecision slot_status.
Proof. solve_decision. Defined.

(** A slot of a placement. *)
Record placed_slot := mkPlaced {
  pt_worker_index : Z;
  pt_worker_url : option string;
  pt_worker_id : string;
  pt_pinned_worker_id : option string;
  pt_run_id_prefix : string;
  pt_current_run_id : option string;
  pt_dispatched_at : string;
  pt_status : slot_status;
  pt_restart_count : Z }.

(** A row of [broadcast_placements]; a stopped row has [stopped_at]. *)
Record placement_row := mkPlacement {
  pr_pipeline_name : string;
  pr_slots : list placed_slot;
  pr_target_count : worker_count;
  pr_started_at : string;
  pr_status : pipeline_status;
  pr_stopped_at : option string }.

Record database := mkDatabase {
  d_node_id : string;
  d_lane : mdb;
  d_history : gmap string history_row;
  d_registered : gmap string registered_row;
  d_versions : list version_row;
  d_operations : gmap string operation_row;
  d_placements : gmap string placement_row;
  d_transform_state : gmap string string }.

Definition with_lane (f : mdb -> mdb) (d : database) : database :=
  mkDatabase (d_node_id d) (f (d_lane d)) (d_history d) (d_registered d) (d_versions d) (d_operations d)
    (d_placements d) (d_transform_state d).
Definition with_history (f : gmap string history_row -> gmap string history_row) (d : database) : database :=
  mkDatabase (d_node_id d) (d_lane d) (f (d_history d)) (d_registered d) (d_versions d) (d_operations d)
    (d_placements d) (d_transform_state d).
Definition with_registered (f : gmap string registered_row -> gmap string registered_row) (d : database)
  : database :=
  mkDatabase (d_node_id d) (d_lane d) (d_history d) (f (d_registered d)) (d_versions d) (d_operations d)
    (d_placements d) (d_transform_state d).
Definition with_versions (f : list version_row -> list version_row) (d : database) : database :=
  mkDatabase (d_node_id d) (d_lane d) (d_history d) (d_registered d) (f (d_versions d)) (d_operations d)
    (d_placements d) (d_transform_state d).
Definition with_operations (f : gmap string operation_row -> gmap string operation_row) (d : database) : database :=
  mkDatabase (d_node_id d) (d_lane d) (d_history d) (d_registered d) (d_versions d) (f (d_operations d))
    (d_placements d) (d_transform_state d).
Definition with_placements (f : gmap string placement_row -> gmap string placement_row) (d : database) : database :=
  mkDatabase (d_node_id d) (d_lane d) (d_history d) (d_registered d) (d_versions d) (d_operations d)
    (f (d_placements d)) (d_transform_state d).
Definition with_transform_state (f : gmap string string -> gmap string string) (d : database) : database :=
  mkDatabase (d_node_id d) (d_lane d) (d_history d) (d_registered d) (d_versions d) (d_operations d)
    (d_placements d) (f (d_transform_state d)).

Definition empty_database (node_id : string) : database := mkDatabase node_id empty_mdb ∅ ∅ [] ∅ ∅ ∅.

(** ** Run history *)

Definition with_node (node_id : string) (r : run_result) : run_result :=
  mkRunResult (rn_run_id r) (rn_pipeline_name r) (rn_status r) (rn_started_at r) (rn_finished_at r)
    (rn_records_in r) (rn_records_out r) (rn_records_skipped r) (rn_bytes_in r) (rn_bytes_out r) (rn_error r)
    (rn_dlq_count r) node_id (rn_errors r) (rn_records_failed r) (rn_dlq_succeeded r) (rn_dlq_failed r)
    (rn_disposition r) (rn_spool r).

(** [save_run]: a run id that is already there is skipped. *)
Definition save_run (r : run_result) (d : database) : database :=
  match d_history d !! rn_run_id r with
  | Some _ => d
  | None =>
      let r := if String.eqb (rn_node_id r) "" then with_node (d_node_id d) r else r in
      with_history (<[rn_run_id r := mkHistory r None None None]>) d
  end.

Definition get_run (run_id : string) (d : database) : option run_result := hr_result <$> d_history d !! run_id.

(** [get_runs]: newest first; the filters that are given apply. *)
Definition get_runs (pipeline : option string) (status : option RunStatus) (limit offset : nat)
  (from_dt : option string) (d : database) : list run_result :=
  let keep (r : run_result) :=
    (match pipeline with Some p => String.eqb p "" || String.eqb (rn_pipeline_name r) p | None => true end
     && match status with Some s => bool_decide (rn_status r = s) | None => true end
     && match from_dt with Some t => text_leb t (rn_started_at r) | None => true end)%bool in
  take limit (drop offset
    (sort_by (fun a b => str_ltb (rn_finished_at b) (rn_finished_at a))
       (List.filter keep (hr_result <$> (map_to_list (d_history d)).*2)))).

(** ** Registered pipelines *)

Definition set_stopped (stopped : bool) (name now : string) (d : database) : database :=
  with_registered (alter (fun r => mkRegistered (rg_yaml_text r) (rg_created_at r) now (rg_deleted r)
                                     (rg_source r) stopped) name) d.

Definition db_stop_pipeline (name now : string) (d : database) : database := set_stopped true name now d.
Definition start_pipeline_flag (name now : string) (d : database) : database := set_stopped false name now d.

Definition is_pipeline_stopped (name : string) (d : database) : bool :=
  match d_registered d !! name with
  | Some r => (negb (rg_deleted r) && rg_stopped r)%bool
  | None => false
  end.

Definition get_stopped_pipeline_names (d : database) : list string :=
  (List.filter (fun kv : string * registered_row => negb (rg_deleted kv.2) && rg_stopped kv.2)%bool
     (map_to_list (d_registered d))).*1.

(** [save_pipeline]: an upsert that keeps [created_at] and [stopped]. *)
Definition save_pipeline (name yaml source now : string) (d : database) : database :=
  with_registered (fun m =>
    <[name := match m !! name with
              | Some r => mkRegistered yaml (rg_created_at r) now false source (rg_stopped r)
              | None => mkRegistered yaml now now false source false
              end]> m) d.

Definition delete_pipeline (name now : string) (d : database) : database :=
  with_registered (alter (fun r => mkRegistered (rg_yaml_text r) (rg_created_at r) now true (rg_source r)
                                     (rg_stopped r)) name) d.

(** [get_all_pipelines], ordered by name. *)
Definition get_all_pipelines (d : database) : list (string * string) :=
  (fun kv : string * registered_row => (kv.1, rg_yaml_text kv.2)) <$>
    sort_by (fun a b => str_ltb a.1 b.1)
      (List.filter (fun kv : string * registered_row => negb (rg_deleted kv.2)) (map_to_list (d_registered d))).

(** ** Versions *)

Definition deactivate (name : string) (v : version_row) : version_row :=
  if String.eqb (vr_name v) name
  then mkVersion (vr_name v) (vr_version v) (vr_yaml_content v) (vr_created_at v) false else v.

Definition of_name (name : string) (d : database) : list version_row :=
  List.filter (fun v => String.eqb (vr_name v) name) (d_versions d).

(** [COALESCE(MAX(version), 0)]. *)
Definition max_version (vs : list version_row) : Z :=
  match vr_version <$> vs with [] => 0 | v :: rest => foldr Z.max v rest end.

(** The active version with the highest number. *)
Definition active_version (name : string) (d : database) : option version_row :=
  match List.filter vr_is_active (of_name name d) with
  | [] => None
  | v :: vs => Some (foldr (fun a b => if vr_version b <? vr_version a then a else b) v vs)
  end.

Definition save_pipeline_version (name yaml now : string) (d : database) : Z * database :=
  let next := max_version (of_name name d) + 1 in
  let insert := with_versions (fun vs => (deactivate name <$> vs) ++ [mkVersion name next yaml now true]) d in
  match active_version name d with
  | Some v => if String.eqb (vr_yaml_content v) yaml then (vr_version v, d) else (next, insert)
  | None => (next, insert)
  end.

Definition get_pipeline_version (name : string) (version : Z) (d : database) : option string :=
  vr_yaml_content <$>
    List.find (fun v => String.eqb (vr_name v) name && (vr_version v =? version))%bool (d_versions d).

(** [activate_pipeline_version]; None is its KeyError. *)
Definition activate_pipeline_version (name : string) (version : Z) (d : database) : option (string * database) :=
  match get_pipeline_version name version d with
  | None => None
  | Some yaml =>
      Some (yaml, with_versions (fmap (fun v =>
        if String.eqb (vr_name v) name
        then mkVersion (vr_name v) (vr_version v) (vr_yaml_content v) (vr_created_at v) (vr_version v =? version)
        else v)) d)
  end.

(** ** Placements *)

Definition save_broadcast_placement (group : string) (r : placement_row) (d : database) : database :=
  with_placements (<[group := r]>) d.

Definition active_placement (r : placement_row) : bool :=
  (bool_decide (pr_stopped_at r = None) && negb (bool_decide (pr_status r = Stopped)))%bool.

Definition get_active_broadcast_placements (d : database) : list (string * placement_row) :=
  sort_by (fun a b => str_ltb (pr_started_at a.2) (pr_started_at b.2))
    (List.filter (fun kv => active_placement kv.2) (map_to_list (d_placements d))).

Definition update_broadcast_placement_status (group : string) (st : pipeline_status) (slots : list placed_slot)
  (now : string) (d : database) : database :=
  with_placements (alter (fun r =>
    mkPlacement (pr_pipeline_name r) slots (pr_target_count r) (pr_started_at r) st
      (if bool_decide (st = Stopped) then Some now else None)) group) d.

Definition deactivate_other_placements (pipeline keep now : string) (d : database) : database :=
  with_placements (tbl_update (fun k r =>
    bool_decide (pr_pipeline_name r = pipeline) && active_placement r && negb (String.eqb k keep))%bool
    (fun r => mkPlacement (pr_pipeline_name r) (pr_slots r) (pr_target_count r) (pr_started_at r) Stopped
                (Some now))) d.

Definition set_slot_run (run_id : string) (st : slot_status) (restarts : Z) (s : placed_slot) : placed_slot :=
  mkPlaced (pt_worker_index s) (pt_worker_url s) (pt_worker_id s) (pt_pinned_worker_id s) (pt_run_id_prefix s)
    (Some run_id) (pt_dispatched_at s) st restarts.

(** The first slot of a worker index is changed. *)
Fixpoint update_slot (index : Z) (f : placed_slot -> placed_slot) (l : list placed_slot) : list placed_slot :=
  match l with
  | [] => []
  | s :: l' => if pt_worker_index s =? index then f s :: l' else s :: update_slot index f l'
  end.

Definition find_slot (index : Z) (l : list placed_slot) : option placed_slot :=
  List.find (fun s => pt_worker_index s =? index) l.

(** [str(slot.get("current_run_id", ""))]. *)
Definition run_id_text (s : placed_slot) : string :=
  match pt_current_run_id s with Some r => r | None => "None" end.

(** [update_slot_run_id] with an expected run id: the rows updated.  The guard
    of the UPDATE compares the stored JSON value, where null equals nothing. *)
Definition update_slot_run_id (group : string) (index : Z) (run_id : string) (restarts : Z) (expected : string)
  (d : database) : nat * database :=
  match d_placements d !! group with
  | None => (0%nat, d)
  | Some r =>
      if negb (active_placement r) then (0%nat, d)
      else match find_slot index (pr_slots r) with
           | None => (0%nat, d)
           | Some s =>
               if negb (String.eqb (run_id_text s) expected) then (0%nat, d)
               else if negb (existsb (fun s => (pt_worker_index s =? index)
                                              && bool_decide (pt_current_run_id s = Some expected))%bool (pr_slots r))
               then (0%nat, d)
               else (1%nat, with_placements (<[group :=
                       mkPlacement (pr_pipeline_name r)
                         (update_slot index (set_slot_run run_id SlotRunning restarts) (pr_slots r))
                         (pr_target_count r) (pr_started_at r) (pr_status r) (pr_stopped_at r)]>) d)
           end
  end.

(** ** Lifecycle operations *)

Definition insert_operation (id : string) (r : operation_row) (d : database) : database :=
  with_operations (<[id := r]>) d.

Definition complete_operation (id : string) (st : operation_state) (detail : option string) (now : string)
  (d : database) : database :=
  with_operations (alter (fun r => mkOperation (lo_pipeline r) (lo_kind r) st (lo_attempt_id r) detail
                                     (lo_created_at r) now) id) d.

(** ** The registry *)

Inductive ctl_exn :=
| PipelineAlreadyExistsError
| PipelineNotFoundError
| ValueError (what : string)
| QueueCapacityError (reason : string)
| ExecutorOverloadError
| ConfigError
| KeyError
| DatabaseError.

(** [m_next] numbers the configuration objects. *)
Record manager := mkManager {
  m_pipelines : list (string * PipelineState);
  m_next : nat;
  m_db : database }.

Definition with_pipelines (f : list (string * PipelineState) -> list (string * PipelineState)) (m : manager)
  : manager := mkManager (f (m_pipelines m)) (m_next m) (m_db m).
Definition with_db (f : database -> database) (m : manager) : manager :=
  mkManager (m_pipelines m) (m_next m) (f (m_db m)).

Definition exists_ (name : string) (m : manager) : bool :=
  match aget name (m_pipelines m) with Some _ => true | None => false end.

Definition get_ (name : string) : M manager ctl_exn PipelineState :=
  fun m => (of_option PipelineNotFoundError (aget name (m_pipelines m)), m).

Definition list_all (m : manager) : list PipelineState := (m_pipelines m).*2.

(** The state object of [name] is changed in place. *)
Definition change (name : string) (f : PipelineState -> PipelineState) (m : manager) : manager :=
  match aget name (m_pipelines m) with
  | Some p => with_pipelines (aset name (f p)) m
  | None => m
  end.

Definition set_status (name : string) (st : pipeline_status) : M manager ctl_exn unit :=
  do* get_ name in modify (change name (with_status st)).

Definition record_run (name : string) (r : run_result) : M manager ctl_exn unit :=
  do* get_ name in
  do* modify (change name (note_run r)) in
  modify (with_db (save_run r)).

Definition hydrate (recent : list run_result) (p : PipelineState) : PipelineState :=
  match recent with
  | r :: _ => with_last_run (Some (rn_finished_at r)) (Some (rn_status r)) (ps_run_history p) p
  | [] => p
  end.

Definition register (config : PipelineConfig) (replace : bool) (yaml : option string) (save_version : bool)
  (now : string) : M manager ctl_exn unit :=
  fun m =>
    let name := cf_name config in
    if (exists_ name m && negb replace)%bool then (Raise PipelineAlreadyExistsError, m)
    else
      let p := mkPState config (m_next m) yaml Stopped now None None [] in
      let recent := get_runs (Some name) None 1 0 None (m_db m) in
      let m1 := mkManager (aset name (hydrate recent p) (m_pipelines m)) (S (m_next m)) (m_db m) in
      (Ok tt,
       match yaml with
       | Some y => if (negb (String.eqb y "") && save_version)%bool
                   then with_db (fun d => (save_pipeline_version name y now d).2) m1 else m1
       | None => m1
       end).

Definition deregister (name : string) : M manager ctl_exn unit :=
  do* get_ name in modify (with_pipelines (adel name)).

(** [rollback]: [load] is the YAML loader. *)
Definition rollback (load : string -> option PipelineConfig) (name : string) (version : Z) (now : string)
  : M manager ctl_exn PipelineConfig :=
  let* yaml := (fun m => (of_option KeyError (get_pipeline_version name version (m_db m)), m)) in
  let* config := lift (of_option ConfigError (load yaml)) in
  do* (fun m => match activate_pipeline_version name version (m_db m) with
                | None => (Raise KeyError, m)
                | Some (_, d) => (Ok tt, with_db (fun _ => d) m)
                end) in
  do* modify (with_db (save_pipeline name yaml "api" now)) in
  do* register config true (Some yaml) false now in
  ret config.
End Manager.
