(* ===== verification/Controller.v ===== *)
(** * The pipeline controller: state, scheduling, streams, lifecycle

    src/tram/pipeline/controller.py in manager+worker mode: a database and a
    worker pool are configured, no Kubernetes service manager.  The state of
    PipelineController is the record [ctl]; a method is a program of
    [CtlMonad.M].  This file holds the state, the wiring to the ledger, the
    scheduling gate, stream placements and the lifecycle operations.

    What a call reads from outside (clock, uuids, answers of workers) is in
    the record [io]; the clock is read once per call.  The YAML loader and the
    settings are parameters.  Scheduler jobs are named by their pipeline.
    Metrics and logs are left out; the stop commands sent to workers are
    recorded in [ct_log]. *)

From Stdlib Require Import ZArith Lia Ascii String.
From stdpp Require Import base tactics list strings gmap option.
From S2P Require Import Prelude CtlMonad PyStr IsoTime Ledger LedgerLane Accounting WorkerPool Manager.
Import stdpp.list.

#[local] Open Scope Z_scope.
#[local] Open Scope list_scope.

Module Controller.
Import CtlMonad IsoTime Ledger LedgerLane Accounting StatsStore WorkerPool Manager.

(** ** Settings and inputs *)

Record settings := mkSettings {
  se_manager_url : string;
  se_node_id : string;
  se_queue_manual_runs : bool;
  se_queue_ttl_seconds : Z;
  se_queue_max_count : Z;
  se_queue_max_bytes : Z;
  se_queue_ceiling : Z;
  se_single_stream_placements : bool;
  se_stateful_transforms : bool;
  se_audit_retention_days : Z;
  se_pool : pool_config }.

(** A worker's answer to GET /agent/status: the runs it executes, as
    (pipeline, run id, started_at), batch runs and streams. *)
Record worker_status := mkWorkerStatus {
  wk_running : list (string * string * string);
  wk_streams : list (string * string * string) }.

(** The payload of a completion, decoded. *)
Record completion := mkCompletion {
  cm_status : string;
  cm_records_in : Z; cm_records_out : Z; cm_records_skipped : Z; cm_bytes_in : Z; cm_bytes_out : Z;
  cm_error : option string;
  cm_errors : list string;
  cm_started_at : option string;
  cm_finished_at : option string;
  cm_dlq_count : Z; cm_records_failed : Z; cm_dlq_succeeded : Z; cm_dlq_failed : Z;
  cm_disposition : list (string * list (string * Z));
  cm_spool : list (string * Z) }.

Record io := mkIo {
  io_now : Z;
  io_uuid : nat -> string;
  io_hex6 : string;
  io_fence : string;
  io_post : string -> run_request -> option string;
  io_status : string -> option worker_status }.

Definition now_text (e : io) : string := isoformat (io_now e).

(** ** State *)

(** An [_ActiveBatchRun]; [ls_object] is its identity. *)
Record lease := mkLease {
  ls_object : nat;
  ls_run_id : string;
  ls_pipeline_name : string;
  ls_worker_url : string;
  ls_schedule_type : string;
  ls_started_at : string;
  ls_attempt_id : option string;
  ls_generation : option Z }.

Inductive sent := SentStopRun (run_id pipeline : string) | SentStopPipeline (pipeline : string).

Record ctl := mkCtl {
  ct_manager : manager;
  ct_next : nat;
  ct_jobs : gset string;
  ct_stream_run_ids : gmap string (list string);
  ct_placements : list (string * placement_row);
  ct_active_group : gmap string string;
  ct_leases : list (string * lease);
  ct_dispatching : gmap string nat;
  ct_pending : Z;
  ct_pool : pool;
  ct_stats : stats_store;
  ct_log : list sent }.

Definition with_manager (f : manager -> manager) (c : ctl) : ctl :=
  mkCtl (f (ct_manager c)) (ct_next c) (ct_jobs c) (ct_stream_run_ids c) (ct_placements c) (ct_active_group c)
    (ct_leases c) (ct_dispatching c) (ct_pending c) (ct_pool c) (ct_stats c) (ct_log c).
Definition with_jobs (f : gset string -> gset string) (c : ctl) : ctl :=
  mkCtl (ct_manager c) (ct_next c) (f (ct_jobs c)) (ct_stream_run_ids c) (ct_placements c) (ct_active_group c)
    (ct_leases c) (ct_dispatching c) (ct_pending c) (ct_pool c) (ct_stats c) (ct_log c).
Definition with_streams (ids : gmap string (list string)) (ps : list (string * placement_row))
  (groups : gmap string string) (c : ctl) : ctl :=
  mkCtl (ct_manager c) (ct_next c) (ct_jobs c) ids ps groups
    (ct_leases c) (ct_dispatching c) (ct_pending c) (ct_pool c) (ct_stats c) (ct_log c).
Definition with_leases (f : list (string * lease) -> list (string * lease)) (c : ctl) : ctl :=
  mkCtl (ct_manager c) (ct_next c) (ct_jobs c) (ct_stream_run_ids c) (ct_placements c) (ct_active_group c)
    (f (ct_leases c)) (ct_dispatching c) (ct_pending c) (ct_pool c) (ct_stats c) (ct_log c).
Definition with_dispatching (f : gmap string nat -> gmap string nat) (c : ctl) : ctl :=
  mkCtl (ct_manager c) (ct_next c) (ct_jobs c) (ct_stream_run_ids c) (ct_placements c) (ct_active_group c)
    (ct_leases c) (f (ct_dispatching c)) (ct_pending c) (ct_pool c) (ct_stats c) (ct_log c).
Definition with_pending (f : Z -> Z) (c : ctl) : ctl :=
  mkCtl (ct_manager c) (ct_next c) (ct_jobs c) (ct_stream_run_ids c) (ct_placements c) (ct_active_group c)
    (ct_leases c) (ct_dispatching c) (f (ct_pending c)) (ct_pool c) (ct_stats c) (ct_log c).
Definition with_pool (f : pool -> pool) (c : ctl) : ctl :=
  mkCtl (ct_manager c) (ct_next c) (ct_jobs c) (ct_stream_run_ids c) (ct_placements c) (ct_active_group c)
    (ct_leases c) (ct_dispatching c) (ct_pending c) (f (ct_pool c)) (ct_stats c) (ct_log c).
Definition with_stats (f : stats_store -> stats_store) (c : ctl) : ctl :=
  mkCtl (ct_manager c) (ct_next c) (ct_jobs c) (ct_stream_run_ids c) (ct_placements c) (ct_active_group c)
    (ct_leases c) (ct_dispatching c) (ct_pending c) (ct_pool c) (f (ct_stats c)) (ct_log c).
Definition send (ev : sent) (c : ctl) : ctl :=
  mkCtl (ct_manager c) (ct_next c) (ct_jobs c) (ct_stream_run_ids c) (ct_placements c) (ct_active_group c)
    (ct_leases c) (ct_dispatching c) (ct_pending c) (ct_pool c) (ct_stats c) (ct_log c ++ [ev]).

(** A new lease object in the map of active batch runs. *)
Definition record_lease (l : nat -> lease) (c : ctl) : ctl :=
  let x := l (ct_next c) in
  mkCtl (ct_manager c) (S (ct_next c)) (ct_jobs c) (ct_stream_run_ids c) (ct_placements c) (ct_active_group c)
    (aset (ls_pipeline_name x) x (ct_leases c)) (ct_dispatching c) (ct_pending c) (ct_pool c) (ct_stats c)
    (ct_log c).

Notation C A := (M ctl ctl_exn A).

Definition db (c : ctl) : database := m_db (ct_manager c).
Definition lane (c : ctl) : mdb := d_lane (db c).

Definition on_manager {A} (m : M manager ctl_exn A) : C A := within ct_manager (fun x => with_manager (fun _ => x)) m.
Definition on_db (f : database -> database) : C unit := modify (with_manager (with_db f)).
Definition on_lane (f : mdb -> mdb) : C unit := on_db (with_lane f).
Definition on_ledger (f : ledger -> ledger) : C unit := on_lane (set_led f).

(** A statement whose row count is used. *)
Definition lane_count (f : mdb -> nat * mdb) : C nat :=
  let* n := gets (fun c => (f (lane c)).1) in
  do* on_lane (fun d => (f d).2) in ret n.

Definition exists_c (name : string) : C bool := gets (fun c => exists_ name (ct_manager c)).
Definition get_c (name : string) : C PipelineState := on_manager (get_ name).
Definition set_status_c (name : string) (st : pipeline_status) : C unit := on_manager (set_status name st).

(** ** Lifecycle operation records *)

Definition _record_lifecycle_operation (e : io) (id name kind : string) (attempt detail : option string) : C unit :=
  on_db (insert_operation id (mkOperation name kind OpPending attempt detail (now_text e) (now_text e))).

Definition _complete_lifecycle_operation (e : io) (id : string) (st : operation_state) (detail : option string)
  : C unit := on_db (complete_operation id st detail (now_text e)).

Definition record_completed_lifecycle_operation (e : io) (id name kind : string) (attempt detail : option string)
  : C unit :=
  do* _record_lifecycle_operation e id name kind attempt detail in
  _complete_lifecycle_operation e id OpComplete detail.

Section controller.
Context (cfg : settings) (load : string -> option PipelineConfig).

Definition callback_url : string :=
  if String.eqb (se_manager_url cfg) "" then "" else (se_manager_url cfg ++ "/api/internal/run-complete")%string.

(** ** The scheduling gate *)

Definition _may_schedule (name : string) : C bool :=
  gets (fun c => match aget name (m_pipelines (ct_manager c)) with
                 | None => false
                 | Some p => (negb (is_pipeline_stopped name (db c)) && cf_enabled (ps_config p))%bool
                 end).

Definition remove_job (name : string) : C unit := modify (with_jobs (fun j => j ∖ {[name]})).

Definition _add_job (name : string) : C unit :=
  do* modify (with_jobs (fun j => {[name]} ∪ j)) in set_status_c name Scheduled.

(** ** Stream placements *)

Definition _is_broadcast_workers (w : WorkersConfig) : bool :=
  match wc_worker_ids w with
  | Some _ => true
  | None => match wc_count w with
            | Some CountAll => true
            | Some (Count n) => 1 <? n
            | None => false
            end
  end.

Definition _STATEFUL_TRANSFORM_TYPES : list string := ["counter_delta"; "window_aggregate"]%string.

Definition status_of (b : broadcast_status) : pipeline_status :=
  match b with BError => Error | BRunning => Running | BDegraded => Degraded end.

(** strftime("%Y%m%d%H%M%S"). *)
Definition stamp (t : Z) : string :=
  let '(y, m, d) := ymd_of_days (t / us_per_day) in
  let r := t mod us_per_day in
  (zpad 4 y ++ zpad 2 m ++ zpad 2 d ++ zpad 2 (r / 3600000000) ++ zpad 2 ((r / 60000000) mod 60)
   ++ zpad 2 ((r / 1000000) mod 60))%string.

Definition _make_placement_group_id (e : io) (name : string) : string :=
  (name ++ "-" ++ stamp (io_now e) ++ "-" ++ io_hex6 e)%string.

Definition run_ids_of (slots : list placed_slot) : list string :=
  List.filter (fun r => negb (String.eqb r "")) (omap pt_current_run_id slots).

Definition _sync_stream_run_ids_from_slots (name : string) (slots : list placed_slot) (c : ctl) : ctl :=
  with_streams (match run_ids_of slots with
                | [] => delete name (ct_stream_run_ids c)
                | ids => <[name := ids]> (ct_stream_run_ids c)
                end) (ct_placements c) (ct_active_group c) c.

Definition worker_id_for_url (url : string) (p : pool) : string := default ""%string (p_url_to_worker_id p !! url).

(** A slot of a dispatch result as a slot of a placement; an unknown worker id
    is the empty text. *)
Definition placed_of (e : io) (p : pool) (s : slot) : placed_slot :=
  mkPlaced (Z.of_nat (sl_worker_index s)) (sl_worker_url s)
    (match sl_worker_id s with
     | Some w => if String.eqb w "" then match sl_worker_url s with Some u => worker_id_for_url u p | None => "" end
                 else w
     | None => match sl_worker_url s with Some u => worker_id_for_url u p | None => "" end
     end)
    (sl_pinned_worker_id s) (sl_run_id_prefix s) (sl_current_run_id s) (now_text e)
    (if sl_running s then SlotRunning else SlotStale) 0.

Definition target_count (w : WorkersConfig) : worker_count :=
  match wc_worker_ids w with
  | Some ids => Count (Z.of_nat (length ids))
  | None => default (Count 1) (wc_count w)
  end.

(** The placement enters the memory and the table; every other active row of
    the pipeline is closed. *)
Definition store_placement (e : io) (name group : string) (r : placement_row) : C unit :=
  do* modify (fun c => with_streams (ct_stream_run_ids c) (aset group r (ct_placements c))
                         (<[name := group]> (ct_active_group c)) c) in
  do* modify (_sync_stream_run_ids_from_slots name (pr_slots r)) in
  do* on_db (deactivate_other_placements name group (now_text e)) in
  on_db (save_broadcast_placement group r).

Definition _record_broadcast_placement (e : io) (name group : string) (res : BroadcastResult) (w : WorkersConfig)
  : C unit :=
  let* p := gets ct_pool in
  store_placement e name group
    (mkPlacement name (placed_of e p <$> br_slots res) (target_count w) (now_text e) (status_of (br_status res)) None).

Definition no_attempt : attempt_args := mkArgs None None "".

Definition dispatch_stream (e : io) (config : PipelineConfig) (yaml : string) : C unit :=
  let name := cf_name config in
  let group := _make_placement_group_id e name in
  let* res := (fun c =>
    let '(r, p) := multi_dispatch (se_pool cfg) (Some (ct_stats c)) (io_now e) (io_post e) group name yaml
                     "stream" callback_url (cf_workers config) false no_attempt (ct_pool c) in
    (Ok r, with_pool (fun _ => p) c)) in
  match br_accepted res with
  | [] => set_status_c name Error
  | _ =>
      do* _record_broadcast_placement e name group res (cf_workers config) in
      set_status_c name (status_of (br_status res))
  end.

Definition dispatch_run (e : io) (run_id name yaml schedule : string) (flush : bool) (a : attempt_args)
  : C DispatchOutcome :=
  fun c =>
    let '(o, p) := dispatch_with_result (se_pool cfg) (Some (ct_stats c)) (io_now e) (io_post e) run_id name yaml
                     schedule callback_url flush a (ct_pool c) in
    (Ok o, with_pool (fun _ => p) c).

Definition set_stream_runs (name : string) (ids : list string) (c : ctl) : ctl :=
  with_streams (<[name := ids]> (ct_stream_run_ids c)) (ct_placements c) (ct_active_group c) c.

Definition _start_stream (e : io) (config : PipelineConfig) : C unit :=
  let name := cf_name config in
  if (se_stateful_transforms cfg && _is_broadcast_workers (cf_workers config)
      && existsb (fun t => bool_decide (t ∈ _STATEFUL_TRANSFORM_TYPES)) (cf_transforms config))%bool
  then set_status_c name Error
  else
    let* c := gets id in
    if bool_decide (is_Some (ct_stream_run_ids c !! name)) then ret tt
    else
      let* state := get_c name in
      let yaml := default ""%string (ps_yaml_text state) in
      if se_single_stream_placements cfg then
        if bool_decide (is_Some (ct_active_group c !! name)) then ret tt else dispatch_stream e config yaml
      else if _is_broadcast_workers (cf_workers config) then dispatch_stream e config yaml
      else
        let run_id := io_uuid e 0 in
        let* o := dispatch_run e run_id name yaml "stream" false no_attempt in
        match do_outcome o with
        | DISPATCH_NO_CAPACITY | DISPATCH_FAILED => set_status_c name Error
        | DISPATCH_ACCEPTED => do* modify (set_stream_runs name [run_id]) in set_status_c name Running
        end.

Definition _stop_stream (e : io) (name : string) : C unit :=
  let* c := gets id in
  do* modify (fun c => with_streams (delete name (ct_stream_run_ids c)) (ct_placements c) (ct_active_group c) c) in
  do* iterM (fun r => modify (send (SentStopRun r name))) (default [] (ct_stream_run_ids c !! name)) in
  match ct_active_group c !! name with
  | None => ret tt
  | Some group =>
      do* modify (fun c => with_streams (ct_stream_run_ids c) (ct_placements c) (delete name (ct_active_group c)) c) in
      do* modify (send (SentStopPipeline name)) in
      match aget group (ct_placements c) with
      | None => ret tt
      | Some r =>
          do* modify (fun c => with_streams (ct_stream_run_ids c) (adel group (ct_placements c)) (ct_active_group c) c) in
          on_db (update_broadcast_placement_status group Stopped (pr_slots r) (now_text e))
      end
  end.

(** ** Scheduling *)

Definition _do_schedule (e : io) (name : string) : C unit :=
  let* state := get_c name in
  match cf_schedule (ps_config state) with
  | StreamSchedule => _start_stream e (ps_config state)
  | IntervalSchedule | CronSchedule => _add_job (cf_name (ps_config state))
  | ManualSchedule => set_status_c name Stopped
  end.

Definition _stop_execution (e : io) (name : string) : C unit :=
  let* there := exists_c name in
  if negb there then ret tt
  else
    let* state := get_c name in
    do* (if bool_decide (cf_schedule (ps_config state) = StreamSchedule) then _stop_stream e name
         else remove_job name) in
    set_status_c name Stopped.

(** ** Lifecycle operations *)

Definition register_pipeline (e : io) (config : PipelineConfig) (yaml source : string) : C unit :=
  let name := cf_name config in
  do* on_manager (register config false (Some yaml) true (now_text e)) in
  do* on_db (save_pipeline name yaml source (now_text e)) in
  do* on_lane (_ensure_desired_state name (cf_enabled config) (now_text e)) in
  when (cf_enabled config) (_do_schedule e name).

(** [try: body  except Exception as exc: record the failure; raise]; the text
    of the exception is left out of the detail. *)
Definition recorded (e : io) (name kind doing done failed : string) (body : C unit) : C unit :=
  let op := io_uuid e 1 in
  do* _record_lifecycle_operation e op name kind None (Some doing) in
  catch (do* body in _complete_lifecycle_operation e op OpComplete (Some done))
    (fun exc => do* _complete_lifecycle_operation e op OpFailed (Some failed) in throw exc).

Definition cancel_queued (e : io) (name why : string) : C unit :=
  on_lane (fun d => (_terminal_cancel_pipeline_queued name why (now_text e) d).2).

Definition bump (e : io) (name : string) (deleted : bool) : C unit :=
  on_lane (fun d => (_bump_pipeline_generation name deleted (now_text e) d).2).

Definition drop_transform_state (name : string) : C unit := on_db (with_transform_state (delete name)).

Definition update (e : io) (name yaml : string) : C unit :=
  let* state := get_c name in
  if bool_decide (ps_yaml_text state = Some yaml) then on_db (save_pipeline name yaml "api" (now_text e))
  else
    let* config := lift (of_option ConfigError (load yaml)) in
    let was_active := bool_decide (ps_status state = Scheduled \/ ps_status state = Running) in
    recorded e name "update" "updating pipeline" "pipeline updated" "update failed"
      (do* _stop_execution e name in
       do* on_manager (deregister name) in
       do* on_manager (register config false (Some yaml) true (now_text e)) in
       do* on_db (save_pipeline name yaml "api" (now_text e)) in
       do* bump e name false in
       do* cancel_queued e name "pipeline_updated" in
       do* drop_transform_state name in
       let* may := _may_schedule name in
       when (was_active && cf_enabled config && may)%bool (_do_schedule e name)).

Definition pop_lease (name : string) : C unit := modify (with_leases (adel name)).

Definition delete_ (e : io) (name : string) : C unit :=
  recorded e name "delete" "deleting pipeline" "pipeline deleted" "delete failed"
    (do* _stop_execution e name in
     do* pop_lease name in
     do* cancel_queued e name "pipeline_deleted" in
     do* on_ledger (fun l => (_prune_orphaned_run_intents name (now_text e) l).2) in
     do* on_manager (deregister name) in
     do* on_db (delete_pipeline name (now_text e)) in
     do* bump e name true in
     drop_transform_state name).

Inductive start_answer := Started | AlreadyRunning | Disabled | Manual.

Definition start_pipeline (e : io) (name : string) : C start_answer :=
  let* state := get_c name in
  if bool_decide (ps_status state = Running \/ ps_status state = Scheduled) then ret AlreadyRunning
  else
    do* on_db (start_pipeline_flag name (now_text e)) in
    do* on_lane (_set_desired_status name true (now_text e)) in
    if negb (cf_enabled (ps_config state)) then do* set_status_c name Stopped in ret Disabled
    else if bool_decide (cf_schedule (ps_config state) = ManualSchedule)
    then do* set_status_c name Stopped in ret Manual
    else do* _do_schedule e name in ret Started.

Definition stop_pipeline (e : io) (name : string) : C unit :=
  recorded e name "stop" "stopping pipeline" "pipeline stopped" "stop failed"
    (do* _stop_execution e name in
     do* on_db (db_stop_pipeline name (now_text e)) in
     do* on_lane (_set_desired_status name false (now_text e)) in
     do* cancel_queued e name "pipeline_stopped" in
     set_status_c name Stopped).

Definition restart_pipeline (e : io) (name : string) : C unit :=
  let* state := get_c name in
  recorded e name "restart" "restarting pipeline" "pipeline restarted" "restart failed"
    (do* when (bool_decide (ps_status state = Running \/ ps_status state = Scheduled))
           (do* (if bool_decide (cf_schedule (ps_config state) = StreamSchedule) then _stop_stream e name
                 else remove_job name) in
            set_status_c name Stopped) in
     do* on_db (start_pipeline_flag name (now_text e)) in
     do* cancel_queued e name "pipeline_restarted" in
     let* may := _may_schedule name in
     if (cf_enabled (ps_config state) && may)%bool then _do_schedule e name else set_status_c name Stopped).

Definition rollback_pipeline (e : io) (name : string) (version : Z) : C PipelineConfig :=
  on_manager (rollback load name version (now_text e)).
End controller.
End Controller.
