(* ===== verification/BatchLane.v ===== *)
(** * The controller: batch runs, queued runs, completions

    src/tram/pipeline/controller.py, continued: the manual trigger and the
    bounded executor, the queue of manual runs (enqueue with its budgets,
    claim, commit, revert, expiry), one batch execution as the program of a
    thread, the completion callbacks and the reaping of lost runs.

    A section of code that holds the lifecycle lock is one program; a thread
    is a program counter between such sections, so that the network calls in
    between interleave with everything else. *)

From Stdlib Require Import ZArith Lia Ascii String.
From stdpp Require Import base tactics list strings gmap option.
From S2P Require Import Prelude CtlMonad PyStr IsoTime Ledger LedgerLane Accounting WorkerPool Manager Controller.
Import stdpp.list.

#[local] Open Scope Z_scope.
#[local] Open Scope list_scope.

Module BatchLane.
Import CtlMonad IsoTime Ledger LedgerLane Accounting StatsStore WorkerPool Manager Controller.

(** ** Queries of the queue *)

Definition queue_rows (p : string -> queued_run -> bool) (d : mdb) : list (string * queued_run) :=
  sort_by (fun a b => str_ltb (q_requested_at a.2) (q_requested_at b.2))
    (List.filter (fun kv => p kv.1 kv.2) (map_to_list (queue d))).

Definition get_active_queued_runs (d : mdb) : list (string * queued_run) :=
  queue_rows (fun _ r => bool_decide (q_status r = QQueued)) d.

Definition get_queued_run_view (d : mdb) : list (string * queued_run) := queue_rows (fun _ r => q_open r) d.

Definition get_active_queued_run_for_pipeline (name : string) (d : mdb) : option (string * queued_run) :=
  head (queue_rows (fun _ r => String.eqb (q_pipeline r) name && q_open r)%bool d).

(** ** Post-run transitions *)

Section batch.
Context (cfg : settings).

Definition _on_run_complete (e : io) (name : string) (status : RunStatus) : C unit :=
  let* state := get_c name in
  if bool_decide (ps_status state = Stopped) then ret tt
  else if bool_decide (status = SUCCESS) then
    let* jobs := gets ct_jobs in
    if bool_decide (name ∈ jobs) then set_status_c name Scheduled
    else if (bool_decide (cf_schedule (ps_config state) = IntervalSchedule
                          \/ cf_schedule (ps_config state) = CronSchedule) && cf_enabled (ps_config state))%bool
    then
      let* may := _may_schedule name in
      if may then _do_schedule cfg e name else set_status_c name Stopped
    else set_status_c name Stopped
  else set_status_c name Error.

Definition _finalize_batch_result (e : io) (name : string) (r : run_result) : C unit :=
  let* there := exists_c name in
  if negb there then ret tt
  else
    do* on_manager (record_run name r) in
    _on_run_complete e name (rn_status r).

Definition _record_skipped_manual_run (e : io) (name run_id reason : string) : C unit :=
  on_manager (record_run name (failed_result run_id name (now_text e) (now_text e) reason (se_node_id cfg))).

Definition terminalize (e : io) (aid rid pipeline : string) (gen : Z) (o : option final_outcome)
  (why : option string) : C unit :=
  on_ledger (_terminalize_attempt aid rid pipeline gen o why (now_text e)).

(** The active attempt of the run, if any, becomes terminal. *)
Definition terminalize_active (e : io) (run_id : string) (o : option final_outcome) (why : option string) : C unit :=
  let* c := gets id in
  match _active_attempt_for_run run_id (led (lane c)) with
  | None => ret tt
  | Some (aid, x) => terminalize e aid run_id (at_pipeline x) (at_generation x) o why
  end.

(** ** Admission of queued runs *)

Definition queued_bytes (rows : list (string * queued_run)) : Z :=
  foldr (fun kv n => Z.of_nat (String.length (q_yaml_snapshot kv.2)) + n) 0 rows.

Definition _reject_queue_over_capacity (yaml : string) : C unit :=
  let max_count := se_queue_max_count cfg in
  let max_bytes := se_queue_max_bytes cfg in
  if ((max_count <=? 0) && (max_bytes <=? 0))%bool then ret tt
  else
    let* active := gets (fun c => get_active_queued_runs (lane c)) in
    if ((0 <? max_count) && (max_count <=? Z.of_nat (length active)))%bool
    then throw (QueueCapacityError ("queued-run admission rejected: " ++ py_str (Z.of_nat (length active))
                 ++ " active queued runs at the " ++ py_str max_count ++ " cap (TRAM_QUEUE_MAX_COUNT)")%string)
    else if ((0 <? max_bytes) && (max_bytes <? queued_bytes active + Z.of_nat (String.length yaml)))%bool
    then throw (QueueCapacityError ("queued-run admission rejected: "
                 ++ py_str (queued_bytes active + Z.of_nat (String.length yaml)) ++ " bytes of queued YAML over the "
                 ++ py_str max_bytes ++ " cap (TRAM_QUEUE_MAX_BYTES)")%string)
    else ret tt.

Definition set_queued (name : string) : C unit :=
  let* there := exists_c name in when there (set_status_c name Queued).

Definition _enqueue_manual_run (e : io) (name run_id yaml : string) : C bool :=
  let* active := gets (fun c => get_active_queued_run_for_pipeline name (lane c)) in
  match active with
  | Some _ => do* set_queued name in ret false
  | None =>
      do* _reject_queue_over_capacity yaml in
      let expires := isoformat (io_now e + se_queue_ttl_seconds cfg * 1000000) in
      do* on_lane (save_queued_run run_id name yaml (now_text e) expires) in
      let* state := gets (fun c => aget name (m_pipelines (ct_manager c))) in
      let schedule := match state with Some p => schedule_text (cf_schedule (ps_config p)) | None => "manual"%string end in
      let* gen := gets (fun c => _pipeline_generation name (lane c)) in
      do* on_ledger (_ensure_run_intent (mkIntentArgs run_id name "queued" false (now_text e) gen (Some yaml)
                                           schedule (Some expires))) in
      do* set_queued name in
      ret true
  end.

(** ** The bounded executor *)

(** [_BoundedExecutor.submit], before the pool: False is a rejection. *)
Definition submit : C bool :=
  let* n := gets ct_pending in
  if Z.max 1 (se_queue_ceiling cfg) <=? n then ret false
  else do* modify (with_pending (fun n => n + 1)) in ret true.

Definition tracked_end : C unit := modify (with_pending (fun n => Z.max 0 (n - 1))).

Inductive TriggerResult := Dispatched (run_id : string) | QueuedAs (run_id : string).

Definition trigger_run (e : io) (name : string) : C TriggerResult :=
  let* state := get_c name in
  if bool_decide (cf_schedule (ps_config state) = StreamSchedule) then throw (ValueError "stream pipeline")
  else if bool_decide (ps_status state = Running) then throw (ValueError "already running")
  else
    let run_id := io_uuid e 0 in
    let go :=
      let* ok := submit in
      if ok then ret (Dispatched run_id) else throw ExecutorOverloadError in
    if negb (se_queue_manual_runs cfg) then go
    else
      let* c := gets id in
      match get_active_queued_run_for_pipeline name (lane c) with
      | Some (rid, _) => do* set_queued name in ret (QueuedAs rid)
      | None =>
          match healthy_workers (ct_pool c) with
          | [] =>
              let* ok := _enqueue_manual_run e name run_id (default ""%string (ps_yaml_text state)) in
              if ok then ret (QueuedAs run_id)
              else
                let* again := gets (fun c => get_active_queued_run_for_pipeline name (lane c)) in
                match again with
                | Some (rid, _) => ret (QueuedAs rid)
                | None => throw (ValueError "no queued run")
                end
          | _ => go
          end
      end.

(** ** Claims *)

(** [_claim_for_dispatch]; a violated key of the ledger raises. *)
Definition claim (a : dispatch_args) : C (option dispatch_claim) :=
  fun c =>
    let '(r, d) := _claim_for_dispatch a (lane c) in
    (match r with Ok x => Ok x | Raise _ => Raise DatabaseError end, (on_lane (fun _ => d) c).2).

(** ** The queue's transitions *)

Definition drainable (c : ctl) (r : queued_run) : bool :=
  match aget (q_pipeline r) (m_pipelines (ct_manager c)) with
  | None => false
  | Some p =>
      (match aget (q_pipeline r) (ct_leases c) with Some _ => false | None => true end
       && negb (bool_decide (ps_status p = Running)))%bool
  end.

Definition drainable_queued_runs (c : ctl) : list (string * queued_run) :=
  List.filter (fun kv => drainable c kv.2) (get_active_queued_runs (lane c)).

(** What the drain needs of a claimed run. *)
Record queue_claim := mkQueueClaim {
  qc_run_id : string;
  qc_pipeline_name : string;
  qc_yaml_snapshot : string;
  qc_schedule_type : string }.

Definition queued_row (run_id : string) (c : ctl) : option queued_run :=
  match queue (lane c) !! run_id with
  | Some r => if bool_decide (q_status r = QQueued) then Some r else None
  | None => None
  end.

Definition claim_queued_run (e : io) (run_id : string) : C (option queue_claim) :=
  let* c := gets id in
  match queued_row run_id c with
  | None => ret None
  | Some row =>
      let name := q_pipeline row in
      if negb (drainable c row) then ret None
      else
        let* state := get_c name in
        let schedule := schedule_text (cf_schedule (ps_config state)) in
        let* n := lane_count (claim_queued_run_row run_id) in
        if negb (n =? 1)%nat then ret None
        else
          let* ordinal := gets (fun c => _next_attempt_ordinal run_id (led (lane c))) in
          let* attempt := claim (mkDispatchArgs name run_id "queued" false (q_yaml_snapshot row) schedule ordinal
                                   (now_text e) (io_fence e)) in
          match attempt with
          | None => do* lane_count (revert_queued_run_row run_id) in ret None
          | Some a =>
              do* modify (with_pool (register_attempt run_id (dc_attempt_id a) (dc_generation a) "")) in
              ret (Some (mkQueueClaim run_id name (q_yaml_snapshot row) schedule))
          end
  end.

(** The acceptance advances the attempt and names its worker. *)
Definition accept (e : io) (aid rid : string) (gen : Z) (worker_url : string) : C unit :=
  do* on_ledger (_mark_attempt_running aid rid gen (now_text e)) in
  let* p := gets ct_pool in
  on_ledger (_record_attempt_worker aid rid gen (worker_id_for_url worker_url p)).

Definition commit_queued_dispatch (e : io) (run_id worker_url : string) : C bool :=
  let* c := gets id in
  match queue (lane c) !! run_id with
  | Some row =>
      if negb (bool_decide (q_status row = QDispatching)) then ret false
      else
        let name := q_pipeline row in
        let* there := exists_c name in
        if negb there then ret false
        else
          let* state := get_c name in
          do* (match get_run run_id (db c) with
               | Some _ => ret tt
               | None =>
                   do* modify (record_lease (fun o =>
                         mkLease o run_id name worker_url (schedule_text (cf_schedule (ps_config state)))
                           (now_text e) None None)) in
                   set_status_c name Running
               end) in
          do* on_lane (fun d => (mark_queued_run_dispatched run_id (now_text e) d).2) in
          let* active := gets (fun c => _active_attempt_for_run run_id (led (lane c))) in
          do* (match active with
               | Some (aid, x) => accept e aid run_id (at_generation x) worker_url
               | None => ret tt
               end) in
          ret true
  | None => ret false
  end.

Definition _retire_cancelled_claim_attempt (e : io) (run_id : string) : C unit :=
  let* c := gets id in
  match queue (lane c) !! run_id with
  | Some row =>
      if bool_decide (q_status row = QCancelled)
      then terminalize_active e run_id (Some OAborted) (Some "dispatch_reverted_after_cancel"%string)
      else ret tt
  | None => ret tt
  end.

Definition revert_queued_claim (e : io) (run_id : string) : C bool :=
  let* c := gets id in
  let open := match queue (lane c) !! run_id with Some row => q_open row | None => false end in
  if negb open then do* _retire_cancelled_claim_attempt e run_id in ret false
  else
    let* n := lane_count (revert_queued_run_row run_id) in
    if negb (n =? 1)%nat then ret false
    else do* terminalize_active e run_id None None in ret true.

Definition expired_error : string :=
  ("no worker capacity within " ++ py_str (Z.max 1 (se_queue_ttl_seconds cfg / 60))
   ++ " minutes — queued run expired")%string.

Definition expire_queued_run (e : io) (run_id : string) : C bool :=
  let* c := gets id in
  match queued_row run_id c with
  | None => ret false
  | Some row =>
      let* n := lane_count (expire_queued_run_row run_id) in
      if negb (n =? 1)%nat then ret false
      else
        let aid := match _active_attempt_for_run run_id (led (lane c)) with Some (aid, _) => aid | None => ""%string end in
        do* on_ledger (fun l => (resolve_intent run_id OExpired aid (now_text e) l).2) in
        let name := q_pipeline row in
        let* there := exists_c name in
        if negb there then ret true
        else
          do* _finalize_batch_result e name
                (failed_result run_id name (q_requested_at row) (now_text e) expired_error (se_node_id cfg)) in
          ret true
  end.

(** ** One batch execution *)

(** What the claim phase snapshots. *)
Record batch_run := mkBatch {
  bt_pipeline : string;
  bt_run_id : string;
  bt_config_id : nat;
  bt_yaml : string;
  bt_schedule : string;
  bt_manual : bool;
  bt_flush : bool;
  bt_attempt : dispatch_claim }.

Inductive batch_pc :=
| BClaim (name : string) (run_id : option string) (manual flush : bool)
| BDispatch (b : batch_run)
| BOutcome (b : batch_run) (o : DispatchOutcome)
| BEnqueue (b : batch_run)
| BSkipped (b : batch_run) (reason : string)
| BFinalize (name : string) (r : run_result)
| BFinally (name : string)
| BDone.

Definition batch_claim (e : io) (tid : nat) (name : string) (run_id : option string) (manual flush : bool)
  : C batch_pc :=
  let* there := exists_c name in
  if negb there then do* remove_job name in ret (BFinally name)
  else
    let* state := get_c name in
    if bool_decide (ps_status state = Running \/ ps_status state = Queued) then
      do* (match run_id with
           | Some rid => when manual (_record_skipped_manual_run e name rid
                                        ("Manual run skipped: previous run still active or queued (status="
                                         ++ status_text (ps_status state) ++ ")")%string)
           | None => ret tt
           end) in
      ret (BFinally name)
    else
      do* set_status_c name Running in
      let rid := default (io_uuid e 0) run_id in
      let yaml := default ""%string (ps_yaml_text state) in
      let schedule := schedule_text (cf_schedule (ps_config state)) in
      let* attempt := claim (mkDispatchArgs name rid (if manual then "manual" else "scheduled") flush yaml schedule 1
                               (now_text e) (io_fence e)) in
      match attempt with
      | None =>
          do* when manual (_record_skipped_manual_run e name rid
                             "Manual run skipped: another attempt holds the run guard") in
          ret (BFinally name)
      | Some a =>
          do* modify (with_dispatching (<[name := tid]>)) in
          ret (BDispatch (mkBatch name rid (ps_config_id state) yaml schedule manual flush a))
      end.

Definition end_attempt (e : io) (b : batch_run) (o : option final_outcome) : C unit :=
  terminalize e (dc_attempt_id (bt_attempt b)) (bt_run_id b) (bt_pipeline b) (dc_generation (bt_attempt b)) o None.

Definition dispatch_failure (e : io) (b : batch_run) (error : string) : batch_pc :=
  BFinalize (bt_pipeline b)
    (failed_result (bt_run_id b) (bt_pipeline b) (now_text e) (now_text e) error (se_node_id cfg)).

(** The accepted dispatch, re-checked under the lock. *)
Definition batch_commit (e : io) (b : batch_run) (worker_url : string) : C unit :=
  let* c := gets id in
  match aget (bt_pipeline b) (m_pipelines (ct_manager c)) with
  | None => end_attempt e b (Some OAborted)
  | Some p =>
      if negb (ps_config_id p =? bt_config_id b)%nat then end_attempt e b None
      else match get_run (bt_run_id b) (db c) with
           | Some _ => ret tt
           | None =>
               do* accept e (dc_attempt_id (bt_attempt b)) (bt_run_id b) (dc_generation (bt_attempt b)) worker_url in
               modify (record_lease (fun o =>
                 mkLease o (bt_run_id b) (bt_pipeline b) worker_url (bt_schedule b) (now_text e)
                   (Some (dc_attempt_id (bt_attempt b))) (Some (dc_generation (bt_attempt b)))))
           end
  end.

Definition batch_outcome (e : io) (b : batch_run) (o : DispatchOutcome) : C batch_pc :=
  match do_outcome o with
  | DISPATCH_NO_CAPACITY =>
      if (bt_manual b && se_queue_manual_runs cfg)%bool then do* end_attempt e b None in ret (BEnqueue b)
      else
        do* end_attempt e b (Some OFailed) in
        ret (dispatch_failure e b "No healthy workers available for dispatch")
  | DISPATCH_FAILED =>
      do* end_attempt e b (Some OFailed) in
      ret (dispatch_failure e b ("Worker dispatch failed: " ++ default "unknown error" (do_error o))%string)
  | DISPATCH_ACCEPTED =>
      do* batch_commit e b (default ""%string (do_worker_url o)) in ret (BFinally (bt_pipeline b))
  end.

Definition batch_enqueue (e : io) (b : batch_run) : C batch_pc :=
  catch (do* _enqueue_manual_run e (bt_pipeline b) (bt_run_id b) (bt_yaml b) in ret (BFinally (bt_pipeline b)))
    (fun x => match x with
              | QueueCapacityError reason => ret (BSkipped b reason)
              | _ => throw x
              end).

Definition batch_finally (tid : nat) (name : string) : C unit :=
  modify (with_dispatching (fun m => if bool_decide (m !! name = Some tid) then delete name m else m)).

Definition pc_pipeline (pc : batch_pc) : string :=
  match pc with
  | BClaim name _ _ _ | BFinalize name _ | BFinally name => name
  | BDispatch b | BOutcome b _ | BEnqueue b | BSkipped b _ => bt_pipeline b
  | BDone => ""
  end.

(** [_run_batch]: one section of the thread [tid]; whatever is raised goes to
    the finally block. *)
Definition batch_step (e : io) (tid : nat) (pc : batch_pc) : C batch_pc :=
  catch
    (match pc with
     | BClaim name rid manual flush => batch_claim e tid name rid manual flush
     | BDispatch b =>
         let* o := dispatch_run cfg e (bt_run_id b) (bt_pipeline b) (bt_yaml b) (bt_schedule b) (bt_flush b)
                     (mkArgs (Some (dc_attempt_id (bt_attempt b))) (Some (dc_generation (bt_attempt b))) "") in
         ret (BOutcome b o)
     | BOutcome b o => batch_outcome e b o
     | BEnqueue b => batch_enqueue e b
     | BSkipped b reason =>
         do* _record_skipped_manual_run e (bt_pipeline b) (bt_run_id b) reason in ret (BFinally (bt_pipeline b))
     | BFinalize name r => do* _finalize_batch_result e name r in ret (BFinally name)
     | BFinally name => do* batch_finally tid name in ret BDone
     | BDone => ret BDone
     end)
    (fun _ => ret (BFinally (pc_pipeline pc))).

(** ** Completions *)

Definition run_status_of (s : string) : option RunStatus :=
  List.find (fun x => String.eqb (match x with
    | PENDING => "pending" | RUNNING => "running" | SUCCESS => "success" | FAILED => "failed"
    | ABORTED => "aborted" | PARTIAL => "partial" end) s) [PENDING; RUNNING; SUCCESS; FAILED; ABORTED; PARTIAL].

Definition _intent_outcome (s : RunStatus) : final_outcome :=
  match s with SUCCESS => OSuccess | PARTIAL => OPartial | ABORTED => OAborted | _ => OFailed end.

Definition _pop_batch_lease_for_run (name run_id : string) (c : ctl) : ctl :=
  match aget name (ct_leases c) with
  | Some l => if String.eqb (ls_run_id l) run_id then with_leases (adel name) c else c
  | None => c
  end.

Definition _remove_stream_run_id (name run_id : string) (c : ctl) : ctl :=
  match ct_stream_run_ids c !! name with
  | None | Some [] => c
  | Some ids =>
      with_streams (match List.filter (fun r => negb (String.eqb r run_id)) ids with
                    | [] => delete name (ct_stream_run_ids c)
                    | rest => <[name := rest]> (ct_stream_run_ids c)
                    end) (ct_placements c) (ct_active_group c) c
  end.

Definition result_of (e : io) (run_id name : string) (worker_id : option string) (m : completion) : run_result :=
  mkRunResult run_id name (default FAILED (run_status_of (cm_status m)))
    (default (now_text e) (cm_started_at m)) (default (now_text e) (cm_finished_at m))
    (cm_records_in m) (cm_records_out m) (cm_records_skipped m) (cm_bytes_in m) (cm_bytes_out m) (cm_error m)
    (cm_dlq_count m)
    (match worker_id with Some w => if String.eqb w "" then se_node_id cfg else w | None => se_node_id cfg end)
    (cm_errors m) (cm_records_failed m) (cm_dlq_succeeded m) (cm_dlq_failed m) (cm_disposition m) (cm_spool m).

Definition on_worker_run_complete (e : io) (run_id name : string) (worker_id : option string) (m : completion)
  : C unit :=
  let* existing := gets (fun c => get_run run_id (db c)) in
  do* modify (with_pool (on_run_complete run_id)) in
  do* modify (_pop_batch_lease_for_run name run_id) in
  do* modify (_remove_stream_run_id name run_id) in
  match existing with
  | Some _ => ret tt
  | None =>
      let* c := gets id in
      match ct_stream_run_ids c !! name with
      | Some (_ :: _) => ret tt
      | _ =>
          do* modify (with_stats (store_remove run_id)) in
          let r := result_of e run_id name worker_id m in
          do* terminalize_active e run_id (Some (_intent_outcome (rn_status r))) None in
          _finalize_batch_result e name r
      end
  end.

Inductive callback_answer := CallbackOk | Ignored (reason : string).

Definition on_attempt_run_complete (e : io) (aid : string) (gen : Z) (run_id name : string)
  (worker_id : option string) (m : completion) : C callback_answer :=
  let* c := gets id in
  match get_attempt (led (lane c)) aid with
  | None => ret (Ignored "unknown_attempt")
  | Some x =>
      if negb (bool_decide (at_run_id x = run_id /\ at_pipeline x = name /\ at_generation x = gen))
      then ret (Ignored "identity_mismatch")
      else
        do* terminalize e aid run_id name gen
              (Some (_intent_outcome (default FAILED (run_status_of (cm_status m))))) None in
        do* on_worker_run_complete e run_id name worker_id m in
        ret CallbackOk
  end.
End batch.
End BatchLane.
