(* ===== verification/BootLane.v ===== *)
(** * The controller: boot

    src/tram/pipeline/controller.py, [_boot_load]: the desired state is read,
    every attempt that is not terminal is resolved (locally, or by asking the
    journal of its worker), then the registered pipelines are loaded, stopped
    ones left alone, stream placements restored, live streams adopted and the
    rest scheduled.

    [query] is what GET /agent/attempts/{id} of a worker answers, [None] when
    it does not answer 200. *)

From Stdlib Require Import ZArith Lia Ascii String.
From stdpp Require Import base tactics list strings gmap option.
From S2P Require Import Prelude CtlMonad PyStr IsoTime Ledger LedgerLane Accounting WorkerPool Manager Controller BatchLane.
Import stdpp.list.

#[local] Open Scope Z_scope.
#[local] Open Scope list_scope.

Module BootLane.
Import CtlMonad IsoTime Ledger LedgerLane Accounting StatsStore WorkerPool Manager Controller BatchLane.

(** ** Answers of the worker journal *)

(** A key of a JSON object. *)
Inductive key (A : Type) := Absent | Null | Given (a : A).
Arguments Absent {A}. Arguments Null {A}. Arguments Given {A} a.

Record reply_ids := mkIds {
  ri_attempt_id : key string; ri_run_id : key string; ri_pipeline_name : key string; ri_generation : key Z }.

(** The result of a completion that decodes to an object; [jp_counts] says
    that the keys records_in and records_out are there. *)
Record journal_payload := mkJournalPayload {
  jp_ids : reply_ids;
  jp_worker_id : option string;
  jp_status : option string;
  jp_counts : bool;
  jp_body : completion }.

(** [rp_kind] is the first non-empty of kind, status and state, in lower case;
    [rp_result] is the result, if there is one, and its decoded object, if it
    is one. *)
Record attempt_reply := mkReply {
  rp_kind : string;
  rp_ids : reply_ids;
  rp_result : option (option journal_payload);
  rp_tombstone : bool }.

Inductive reply_kind :=
| ReplyCompleted (p : option journal_payload)
| ReplyInterrupted | ReplyTombstone | ReplyActive | ReplyUnknown.

Definition is_kind (k : string) (names : list string) : bool := bool_decide (k ∈ names).

Definition _classify_attempt_query (r : attempt_reply) : reply_kind :=
  match rp_result r with
  | Some p => ReplyCompleted p
  | None =>
      if is_kind (rp_kind r) ["completed"; "completion"]%string then ReplyCompleted None
      else if is_kind (rp_kind r) ["interrupted"; "interrupted_reservation"]%string then ReplyInterrupted
      else if (String.eqb (rp_kind r) "tombstone" || rp_tombstone r)%bool then ReplyTombstone
      else if is_kind (rp_kind r) ["active"; "running"; "reserved"]%string then ReplyActive
      else ReplyUnknown
  end.

Definition _completion_outcome (p : option journal_payload) : final_outcome :=
  match p ≫= fun j => jp_status j ≫= run_status_of with
  | Some s => _intent_outcome s
  | None => OAborted
  end.

Definition _status_from_intent_outcome (o : final_outcome) : RunStatus :=
  match o with OSuccess => SUCCESS | OPartial => PARTIAL | OAborted => ABORTED | _ => FAILED end.

Definition live_run : Type := string * string * string. (* worker url, run id, started_at *)

(** [find_pipeline_runs]: the batch runs or streams of a pipeline. *)
Definition find_pipeline_runs (e : io) (stream : bool) (name : string) (p : pool) : list live_run :=
  concat ((fun url => match io_status e url with
    | None => []
    | Some st =>
        (fun it : string * string * string => (url, it.1.2, it.2)) <$>
          List.filter (fun it => String.eqb it.1.1 name && negb (String.eqb it.1.2 ""))%bool
            (if stream then wk_streams st else wk_running st)
    end) <$> p_workers p).

(** [min(matches, key=started_at)]: the first of the earliest. *)
Fixpoint earliest (best : live_run) (l : list live_run) : live_run :=
  match l with
  | [] => best
  | x :: l' => earliest (if str_ltb x.2 best.2 then x else best) l'
  end.

Section boot.
Context (cfg : settings) (load : string -> option PipelineConfig).
Context (query : string -> string -> option attempt_reply).

(** ** Adoption of attempts *)

Definition _query_attempt_from_worker (aid : string) (worker_id : option string) (p : pool)
  : option attempt_reply * option string :=
  let owner := match worker_id with
               | Some w => if String.eqb w "" then None else p_worker_ids p !! w
               | None => None
               end in
  let first := owner ≫= fun u => query u aid in
  match first with
  | Some r => (Some r, owner)
  | None =>
      match omap (fun u => if bool_decide (Some u = owner) then None
                           else (fun r => (r, u)) <$> query u aid) (p_workers p) with
      | (r, u) :: _ => (Some r, Some u)
      | [] => (None, owner)
      end
  end.

Definition with_accounting (j : journal_payload) (r : run_result) : run_result :=
  mkRunResult (rn_run_id r) (rn_pipeline_name r) (rn_status r) (rn_started_at r) (rn_finished_at r)
    (rn_records_in r) (rn_records_out r) (rn_records_skipped r) (rn_bytes_in r) (rn_bytes_out r) (rn_error r)
    (rn_dlq_count r) (rn_node_id r) (rn_errors r) (cm_records_failed (jp_body j)) (cm_dlq_succeeded (jp_body j))
    (cm_dlq_failed (jp_body j)) (cm_disposition (jp_body j)) (cm_spool (jp_body j)).

Definition empty_payload : journal_payload :=
  mkJournalPayload (mkIds Absent Absent Absent Absent) None None false
    (mkCompletion "" 0 0 0 0 0 None [] None None 0 0 0 0 [] []).

Definition truthy_or (a b : option string) (c : string) : string :=
  match a with
  | Some x => if String.eqb x "" then match b with Some y => if String.eqb y "" then c else y | None => c end else x
  | None => match b with Some y => if String.eqb y "" then c else y | None => c end
  end.

(** The history row of a completion found at boot. *)
Definition adopted_result (e : io) (x : attempt) (j : journal_payload) (o : final_outcome) : run_result :=
  let b := jp_body j in
  mkRunResult (at_run_id x) (at_pipeline x) (_status_from_intent_outcome o)
    (default (now_text e) (cm_started_at b)) (default (now_text e) (cm_finished_at b))
    (cm_records_in b) (cm_records_out b) (cm_records_skipped b) (cm_bytes_in b) (cm_bytes_out b) (cm_error b)
    (cm_dlq_count b) (truthy_or (jp_worker_id j) (at_worker_id x) (se_node_id cfg)) (cm_errors b)
    (cm_records_failed b) (cm_dlq_succeeded b) (cm_dlq_failed b) [] [].

Definition _record_adoption_completion_history (e : io) (aid : string) (x : attempt) (p : option journal_payload)
  (o : final_outcome) : C unit :=
  let j := default empty_payload p in
  do* on_db (save_run (adopted_result e x j o)) in
  on_db (with_history (alter (fun h => mkHistory (with_accounting j (hr_result h)) (Some aid)
                                         (Some (at_generation x)) (Some o)) (at_run_id x))).

Definition _adopt_active_attempt_lease (e : io) (aid : string) (x : attempt) (worker_url : string) : C unit :=
  do* modify (record_lease (fun o =>
        mkLease o (at_run_id x) (at_pipeline x) worker_url "batch" (now_text e) (Some aid)
          (Some (at_generation x)))) in
  let* there := exists_c (at_pipeline x) in
  when there (set_status_c (at_pipeline x) Running).

(** The resolution of one attempt; [op] is the id of its operation record. *)
Definition _resolve_attempt_at_boot (e : io) (op aid : string) (x : attempt) : C unit :=
  let rid := at_run_id x in
  let name := at_pipeline x in
  let gen := at_generation x in
  let note detail := record_completed_lifecycle_operation e op name "boot_adopt" (Some aid) (Some detail) in
  let unknown why := on_ledger (_mark_attempt_unknown aid rid gen why) in
  if bool_decide (at_state x = SClaimed /\ at_dispatch_sent_at x = None) then
    do* terminalize e aid rid name gen (Some OAborted) (Some "manager_lost_before_dispatch"%string) in
    do* on_lane (_terminal_cancel_queued_run rid "manager_lost_before_dispatch") in
    note "boot adoption: claimed attempt aborted (manager_lost_before_dispatch)"%string
  else
    let* p := gets ct_pool in
    match _query_attempt_from_worker aid (at_worker_id x) p with
    | (None, _) =>
        do* unknown "boot_adoption_no_journal_evidence"%string in
        note "boot adoption: attempt unresolved (unknown) — no journal evidence, guard retained"%string
    | (Some r, url) =>
        match _classify_attempt_query r with
        | ReplyCompleted payload =>
            let o := _completion_outcome payload in
            do* terminalize e aid rid name gen (Some o) None in
            do* _record_adoption_completion_history e aid x payload o in
            do* on_lane (_terminal_cancel_queued_run rid "boot_adoption_completed") in
            note "boot adoption: attempt resolved from journal completion record"%string
        | ReplyInterrupted =>
            do* terminalize e aid rid name gen (Some OAborted) (Some "boot_adoption_interrupted"%string) in
            do* on_lane (_terminal_cancel_queued_run rid "boot_adoption_interrupted") in
            note "boot adoption: attempt terminal (interrupted) — revoked/aborted"%string
        | ReplyTombstone =>
            do* terminalize e aid rid name gen (Some OAborted) (Some "boot_adoption_tombstone"%string) in
            do* on_lane (_terminal_cancel_queued_run rid "boot_adoption_tombstone") in
            note "boot adoption: attempt terminal (tombstone) — revoked/aborted"%string
        | ReplyActive => _adopt_active_attempt_lease e aid x (default ""%string url)
        | ReplyUnknown =>
            do* unknown "boot_adoption_unrecognized_journal_reply"%string in
            note "boot adoption: attempt unresolved (unknown) — unrecognized journal reply, guard retained"%string
        end
    end.

(** [ORDER BY run_id, ordinal]. *)
Definition attempt_lt (a b : string * attempt) : bool :=
  match String.compare (at_run_id a.2) (at_run_id b.2) with
  | Lt => true
  | Eq => at_ordinal a.2 <? at_ordinal b.2
  | Gt => false
  end.

Definition _get_non_terminal_attempts (l : ledger) : list (string * attempt) :=
  sort_by attempt_lt
    (List.filter (fun kv : string * attempt => bool_decide (at_state kv.2 ∈ [SClaimed; SDispatching; SRunning]))
       (map_to_list (attempts l))).

Fixpoint resolve_all (e : io) (i : nat) (l : list (string * attempt)) : C unit :=
  match l with
  | [] => ret tt
  | (aid, x) :: l' =>
      do* catch (_resolve_attempt_at_boot e (io_uuid e i) aid x) (fun _ => ret tt) in
      resolve_all e (S i) l'
  end.

Definition _resolve_non_terminal_attempts_at_boot (e : io) : C unit :=
  do* on_lane _reset_orphan_dispatching_queued_runs in
  let* l := gets (fun c => _get_non_terminal_attempts (led (lane c))) in
  resolve_all e 0 l.

(** ** Streams *)

Definition adopt_slot (name : string) (s : placed_slot) : C unit :=
  match pt_current_run_id s, pt_worker_url s with
  | Some r, Some u =>
      if (String.eqb r "" || String.eqb u "")%bool then ret tt
      else modify (with_pool (adopt_stream_assignment name r u))
  | _, _ => ret tt
  end.

Definition _restore_broadcast_placement (e : io) (group : string) (r : placement_row) : C unit :=
  let name := pr_pipeline_name r in
  let r' := mkPlacement name (pr_slots r) (pr_target_count r) (pr_started_at r) Reconciling (pr_stopped_at r) in
  do* modify (fun c => with_streams (ct_stream_run_ids c) (aset group r' (ct_placements c))
                         (<[name := group]> (ct_active_group c)) c) in
  do* modify (_sync_stream_run_ids_from_slots name (pr_slots r)) in
  do* iterM (adopt_slot name) (pr_slots r) in
  on_db (update_broadcast_placement_status group Reconciling (pr_slots r) (now_text e)).

Definition _materialize_placement_from_adoption (e : io) (config : PipelineConfig) (live : live_run) : C unit :=
  let name := cf_name config in
  let '(url, run_id, started) := live in
  let* p := gets ct_pool in
  let slot := mkPlaced 0 (Some url) (worker_id_for_url url p) None run_id (Some run_id) (now_text e) SlotRunning 0 in
  let started := if String.eqb started "" then now_text e else started in
  do* store_placement e name (_make_placement_group_id e name)
        (mkPlacement name [slot] (Count 1) started Running None) in
  modify (with_pool (adopt_stream_assignment name run_id url)).

Definition _adopt_live_stream_if_any (e : io) (config : PipelineConfig) : C bool :=
  if negb (bool_decide (cf_schedule config = StreamSchedule)) then ret false
  else if _is_broadcast_workers (cf_workers config) then ret false
  else
    let name := cf_name config in
    let* p := gets ct_pool in
    match find_pipeline_runs e true name p with
    | [] => ret false
    | x :: rest =>
        let live := earliest x rest in
        do* (if se_single_stream_placements cfg then _materialize_placement_from_adoption e config live
             else
               do* modify (set_stream_runs name [live.1.2]) in
               modify (with_pool (adopt_stream_assignment name live.1.2 live.1.1))) in
        do* set_status_c name Running in
        ret true
    end.

(** ** The boot sequence *)

(** The pipelines that are stopped or deleted in the desired state. *)
Definition stopped_in (desired_rows : gmap string desired_state) : list string :=
  (List.filter (fun kv : string * desired_state => ds_deleted kv.2 || negb (ds_running kv.2))%bool
     (map_to_list desired_rows)).*1.

(** The last active placement of the pipeline. *)
Definition placement_of (name : string) (d : database) : option (string * placement_row) :=
  list.last (List.filter (fun kv : string * placement_row => String.eqb (pr_pipeline_name kv.2) name)
               (get_active_broadcast_placements d)).

Definition boot_pipeline (e : io) (stopped : list string) (name yaml : string)
  (placement : option (string * placement_row)) : C unit :=
  let* config := lift (of_option ConfigError (load yaml)) in
  do* on_manager (register config false (Some yaml) false (now_text e)) in
  if bool_decide (name ∈ stopped) then set_status_c name Stopped
  else match placement with
       | Some (group, r) => do* _restore_broadcast_placement e group r in set_status_c name Reconciling
       | None =>
           when (cf_enabled config)
             (let* adopted := _adopt_live_stream_if_any e config in
              if adopted then ret tt else _do_schedule cfg e name)
       end.

Definition _boot_load (e : io) : C unit :=
  let* c := gets id in
  do* _resolve_non_terminal_attempts_at_boot e in
  let* d := gets db in
  let stopped := get_stopped_pipeline_names d ++ stopped_in (desired (lane c)) in
  iterM (fun ny : string * string =>
    catch (boot_pipeline e stopped ny.1 ny.2 (placement_of ny.1 d)) (fun _ => ret tt)) (get_all_pipelines d).

(** A new manager process over the database, with a pool of its own. *)
Definition fresh_ctl (d : database) (p : pool) (interval : Z) : ctl :=
  mkCtl (mkManager [] 0 d) 0 ∅ ∅ [] ∅ [] ∅ 0 p (mkStore interval []) [].

Definition boot (e : io) (p : pool) (c : ctl) : ctl :=
  (_boot_load e (fresh_ctl (db c) p (st_interval (ct_stats c)))).2.
End boot.
End BootLane.
