(* ===== verification/Reconciler.v ===== *)
(** * The batch reconciler

    src/tram/agent/reconciler.py, BatchReconciler, with the methods of
    src/tram/pipeline/controller.py it calls: leases whose run has left its
    worker are reaped or completed, pipelines marked running without a lease
    are adopted or cleared, queued runs are expired and drained.

    The loop is a program counter; each step is one section under the
    controller's lock or one network call, so a pass interleaves with
    callbacks, triggers and lifecycle operations. *)

From Stdlib Require Import ZArith Lia Ascii String.
From stdpp Require Import base tactics list strings gmap option.
From S2P Require Import Prelude CtlMonad PyStr IsoTime Ledger LedgerLane Accounting WorkerPool Manager Controller BatchLane BootLane.
Import stdpp.list.

#[local] Open Scope Z_scope.
#[local] Open Scope list_scope.

Module Reconciler.
Import CtlMonad IsoTime Ledger LedgerLane Accounting StatsStore WorkerPool Manager Controller BatchLane BootLane.

Section reconciler.
Context (cfg : settings) (query : string -> string -> option attempt_reply).

(** ** Leases *)

Definition get_active_batch_runs (c : ctl) : list lease := (ct_leases c).*2.

Definition adopt_active_batch_run (e : io) (name run_id worker_url started : string) : C bool :=
  let* there := exists_c name in
  if negb there then ret false
  else
    let* state := get_c name in
    if bool_decide (cf_schedule (ps_config state) = StreamSchedule) then ret false
    else
      do* modify (record_lease (fun o =>
            mkLease o run_id name worker_url (schedule_text (cf_schedule (ps_config state)))
              (if String.eqb started "" then now_text e else started) None None)) in
      do* set_status_c name Running in
      ret true.

(** ** Lost runs *)

Inductive lost_start :=
| LostAnswer (b : bool)
| LostProbe (l : option lease) (attempt : option (string * attempt)).

(** The first locked section of [mark_active_batch_run_lost]. *)
Definition lost_begin (name : string) (run_id : option string) (c : ctl) : lost_start :=
  if bool_decide (is_Some (ct_dispatching c !! name)) then LostAnswer false
  else
    let l := aget name (ct_leases c) in
    let other := match run_id with
                 | Some r => match l with Some l => negb (String.eqb (ls_run_id l) r) | None => true end
                 | None => false
                 end in
    if other then
      LostAnswer (match l, run_id with
                  | None, Some r => match get_run r (db c) with Some _ => true | None => false end
                  | _, _ => false
                  end)
    else LostProbe l (l ≫= fun l => _active_attempt_for_run (ls_run_id l) (led (lane c))).

Definition mismatch {A} `{EqDecision A} (k : key A) (v : A) : bool :=
  match k with Absent => false | Null => true | Given a => negb (bool_decide (a = v)) end.

(** The identity of a completion agrees with the lease and its attempt. *)
Definition ids_ok (name : string) (l : lease) (attempt : option (string * attempt)) (legacy : bool) (ids : reply_ids)
  : bool :=
  negb (mismatch (ri_run_id ids) (ls_run_id l) || mismatch (ri_pipeline_name ids) name
        || match attempt with
           | Some (aid, x) =>
               if legacy then false
               else mismatch (ri_attempt_id ids) aid || mismatch (ri_generation ids) (at_generation x)
           | None => false
           end)%bool.

Inductive verdict :=
| Leave
| Reap
| Complete (legacy : bool) (p : journal_payload).

Definition legacy_key (run_id : string) : string := ("legacy:" ++ run_id)%string.

Definition judge (name : string) (l : lease) (attempt : option (string * attempt)) (legacy : bool)
  (query_id : string) (r : attempt_reply) : verdict :=
  match _classify_attempt_query r with
  | ReplyActive => Leave
  | ReplyCompleted None => Leave
  | ReplyCompleted (Some p) =>
      if (mismatch (ri_attempt_id (rp_ids r)) query_id
          || negb (ids_ok name l attempt legacy (rp_ids r)) || negb (ids_ok name l attempt legacy (jp_ids p))
          || (legacy && match ri_attempt_id (jp_ids p) with
                        | Given a => negb (String.eqb a "") && negb (String.eqb a query_id)
                        | _ => false
                        end)
          || negb (bool_decide (is_Some (jp_status p)) && jp_counts p))%bool
      then Leave else Complete legacy p
  | _ => Reap
  end.

(** The network section: the worker's journal is asked for the attempt, then
    under the synthetic key of a legacy dispatch. *)
Definition lost_probe (name : string) (l : option lease) (attempt : option (string * attempt)) : verdict :=
  match l with
  | None => Reap
  | Some l =>
      let legacy_reply :=
        match query (ls_worker_url l) (legacy_key (ls_run_id l)) with
        | Some r => judge name l attempt true (legacy_key (ls_run_id l)) r
        | None => Reap
        end in
      match attempt with
      | None => legacy_reply
      | Some (aid, _) =>
          match query (ls_worker_url l) aid with
          | None => legacy_reply
          | Some r => match _classify_attempt_query r with
                      | ReplyUnknown => legacy_reply
                      | _ => judge name l attempt false aid r
                      end
          end
      end
  end.

Definition same_lease (a b : option lease) : bool :=
  match a, b with
  | None, None => true
  | Some x, Some y => (ls_object x =? ls_object y)%nat
  | _, _ => false
  end.

(** A completion the journal had: the callback, when the lease is still the
    one that was probed. *)
Definition lost_complete (e : io) (name : string) (l : lease) (attempt : option (string * attempt)) (legacy : bool)
  (p : journal_payload) : C unit :=
  let* c := gets id in
  if negb (same_lease (aget name (ct_leases c)) (Some l)) then ret tt
  else match attempt, legacy with
       | Some (aid, x), false =>
           do* on_attempt_run_complete cfg e aid (at_generation x) (ls_run_id l) name (jp_worker_id p) (jp_body p) in
           ret tt
       | _, _ => on_worker_run_complete cfg e (ls_run_id l) name (jp_worker_id p) (jp_body p)
       end.

(** The last locked section. *)
Definition lost_end (e : io) (name : string) (run_id : option string) (l : option lease) (error : string) : C bool :=
  let* c := gets id in
  let state := aget name (m_pipelines (ct_manager c)) in
  if bool_decide (is_Some (ct_dispatching c !! name)) then ret false
  else if negb (same_lease (aget name (ct_leases c)) l) then ret false
  else
    let idle := match l, state with
                | None, Some p => negb (bool_decide (ps_status p = Running))
                | None, None => true
                | Some _, _ => false
                end in
    if idle then ret false
    else
      do* pop_lease name in
      match state with
      | None => ret false
      | Some p =>
          let rid := match run_id with
                     | Some r => r
                     | None => match l with Some l => ls_run_id l | None => io_uuid e 0 end
                     end in
          do* modify (with_pool (on_run_complete rid)) in
          do* terminalize_active e rid (Some OFailed) (Some "worker_lost"%string) in
          let* recorded := gets (fun c => get_run rid (db c)) in
          match recorded with
          | Some _ => ret true
          | None =>
              let* pl := gets ct_pool in
              let started := match l with
                             | Some l => ls_started_at l
                             | None => default (now_text e) (ps_last_run p)
                             end in
              let node := match l with
                          | Some l => let w := worker_id_for_url (ls_worker_url l) pl in
                                      if String.eqb w "" then se_node_id cfg else w
                          | None => se_node_id cfg
                          end in
              do* _finalize_batch_result cfg e name (failed_result rid name started (now_text e) error node) in
              ret true
          end
      end.

(** ** The loop *)

Definition is_run_active (e : io) (run_id url : string) : bool :=
  match io_status e url with
  | None => false
  | Some st => existsb (fun it => String.eqb it.1.2 run_id) (wk_running st ++ wk_streams st)
  end.

Definition disappeared (run_id : string) : string :=
  ("Worker-owned batch run disappeared before callback: " ++ run_id)%string.

Definition recovered_none : string :=
  "Manager recovered no active worker batch run for pipeline marked running".

Inductive recon_pc :=
| RIdle
| RTracked (todo : list lease) (cleared : list string)
| RLost (l : lease) (attempt : option (string * attempt)) (v : verdict) (todo : list lease) (cleared : list string)
| RUntracked (todo : list (string * nat)) (tracked cleared : list string)
| RUntrackedLost (name : string) (l : option lease) (attempt : option (string * attempt)) (v : verdict)
    (todo : list (string * nat)) (tracked cleared : list string)
| RExpire (todo : list (string * queued_run))
| RDrain (todo : list (string * queued_run))
| RDispatch (q : queue_claim) (todo : list (string * queued_run))
| RSettle (q : queue_claim) (o : DispatchOutcome) (todo : list (string * queued_run)).

Definition untracked_start (cleared : list string) (c : ctl) : recon_pc :=
  RUntracked ((fun p => (cf_name (ps_config p), ps_config_id p)) <$> list_all (ct_manager c))
    (ls_pipeline_name <$> get_active_batch_runs c) cleared.

Definition drain_start (c : ctl) : recon_pc :=
  match healthy_workers (ct_pool c) with
  | [] => RIdle
  | _ => RDrain (drainable_queued_runs c)
  end.

(** A pipeline that is marked running, is not a stream and has no lease. *)
Definition untracked (name : string) (config_id : nat) (tracked cleared : list string) (c : ctl) : bool :=
  match aget name (m_pipelines (ct_manager c)) with
  | None => false
  | Some p =>
      ((ps_config_id p =? config_id)%nat && negb (bool_decide (cf_schedule (ps_config p) = StreamSchedule))
       && bool_decide (ps_status p = Running) && negb (bool_decide (name ∈ cleared))
       && negb (bool_decide (name ∈ tracked)))%bool
  end.

Definition recon_step (e : io) (pc : recon_pc) : C recon_pc :=
  let* c := gets id in
  match pc with
  | RIdle => ret (RTracked (get_active_batch_runs c) [])
  | RTracked [] cleared => ret (untracked_start cleared c)
  | RTracked (l :: todo) cleared =>
      if is_run_active e (ls_run_id l) (ls_worker_url l) then ret (RTracked todo cleared)
      else match lost_begin (ls_pipeline_name l) (Some (ls_run_id l)) c with
           | LostAnswer b => ret (RTracked todo (if b then ls_pipeline_name l :: cleared else cleared))
           | LostProbe None _ => ret (RTracked todo cleared)
           | LostProbe (Some l') a => ret (RLost l' a (lost_probe (ls_pipeline_name l) (Some l') a) todo cleared)
           end
  | RLost l a v todo cleared =>
      let name := ls_pipeline_name l in
      match v with
      | Leave => ret (RTracked todo cleared)
      | Complete legacy p => do* lost_complete e name l a legacy p in ret (RTracked todo cleared)
      | Reap =>
          let* b := lost_end e name (Some (ls_run_id l)) (Some l) (disappeared (ls_run_id l)) in
          ret (RTracked todo (if b then name :: cleared else cleared))
      end
  | RUntracked [] _ _ => ret (RExpire (drainable_queued_runs c))
  | RUntracked ((name, cid) :: todo) tracked cleared =>
      if negb (untracked name cid tracked cleared c) then ret (RUntracked todo tracked cleared)
      else match find_pipeline_runs e false name (ct_pool c) with
           | x :: rest =>
               let live := earliest x rest in
               do* adopt_active_batch_run e name live.1.2 live.1.1 live.2 in
               ret (RUntracked todo tracked cleared)
           | [] =>
               match lost_begin name None c with
               | LostAnswer _ => ret (RUntracked todo tracked cleared)
               | LostProbe l a => ret (RUntrackedLost name l a (lost_probe name l a) todo tracked cleared)
               end
           end
  | RUntrackedLost name l a v todo tracked cleared =>
      do* (match v, l with
           | Leave, _ => ret tt
           | Complete legacy p, Some l => lost_complete e name l a legacy p
           | Complete _ _, None => ret tt
           | Reap, _ => do* lost_end e name None l recovered_none in ret tt
           end) in
      ret (RUntracked todo tracked cleared)
  | RExpire [] => ret (drain_start c)
  | RExpire ((rid, row) :: todo) =>
      if text_leb (q_expires_at row) (now_text e) then do* expire_queued_run cfg e rid in ret (RExpire todo)
      else ret (RExpire todo)
  | RDrain [] => ret RIdle
  | RDrain ((rid, _) :: todo) =>
      let* claimed := claim_queued_run e rid in
      match claimed with
      | None => ret (RDrain todo)
      | Some q => ret (RDispatch q todo)
      end
  | RDispatch q todo =>
      let* o := dispatch_run cfg e (qc_run_id q) (qc_pipeline_name q) (qc_yaml_snapshot q) (qc_schedule_type q)
                  false no_attempt in
      ret (RSettle q o todo)
  | RSettle q o todo =>
      do* (match do_outcome o with
           | DISPATCH_ACCEPTED => commit_queued_dispatch e (qc_run_id q) (default ""%string (do_worker_url o))
           | _ => revert_queued_claim e (qc_run_id q)
           end) in
      ret (RDrain todo)
  end.

(** One step of the loop; what a pass raises ends the pass. *)
Definition reconcile (e : io) (pc : recon_pc) : C recon_pc := catch (recon_step e pc) (fun _ => ret RIdle).
End reconciler.
End Reconciler.
