(* ===== verification/Placements.v ===== *)
(** * Stream placements

    The slots of stream placements in pipeline/controller.py (reports of
    workers, slot updates, redispatch, configuration drift, unplaced streams)
    and the PlacementReconciler of agent/reconciler.py, one section under the
    controller's lock or one network call per step. *)

From Stdlib Require Import ZArith Lia Ascii String SpecFloat.
From stdpp Require Import base tactics list strings gmap option.
From S2P Require Import Prelude CtlMonad PyStr Sha256 IsoTime PyVal Ledger LedgerLane Accounting WorkerPool Manager Controller BatchLane BootLane.
Import stdpp.list.

#[local] Open Scope Z_scope.
#[local] Open Scope list_scope.
#[local] Open Scope tram_scope.

Module Placements.
Import CtlMonad Sha256 IsoTime PyVal Accounting StatsStore WorkerPool Manager Controller BootLane.

(** ** Run ids of a slot *)

Definition restart_suffix (s : string) : option Z :=
  match s with
  | String a (String b ds) =>
      if (Ascii.eqb a "-" && Ascii.eqb b "r" && negb (String.eqb ds "") && all_digits ds)%bool then py_uint ds else None
  | _ => None
  end.

(** [re.search(r"-r(\d+)$", run_id)], for a run id without line feeds. *)
Fixpoint _run_restart_count (run_id : string) : Z :=
  match run_id with
  | EmptyString => 0
  | String _ rest => match restart_suffix run_id with Some n => n | None => _run_restart_count rest end
  end.

(** ** Rows in memory *)

Definition set_row (group : string) (r : placement_row) (c : ctl) : ctl :=
  with_streams (ct_stream_run_ids c) (aset group r (ct_placements c)) (ct_active_group c) c.

Definition with_row_slots (slots : list placed_slot) (r : placement_row) : placement_row :=
  mkPlacement (pr_pipeline_name r) slots (pr_target_count r) (pr_started_at r) (pr_status r) (pr_stopped_at r).

Definition with_row_status (st : pipeline_status) (r : placement_row) : placement_row :=
  mkPlacement (pr_pipeline_name r) (pr_slots r) (pr_target_count r) (pr_started_at r) st (pr_stopped_at r).

Definition with_slot_status (st : slot_status) (s : placed_slot) : placed_slot :=
  mkPlaced (pt_worker_index s) (pt_worker_url s) (pt_worker_id s) (pt_pinned_worker_id s) (pt_run_id_prefix s)
    (pt_current_run_id s) (pt_dispatched_at s) st (pt_restart_count s).

Definition persist (e : io) (group : string) (r : placement_row) : C unit :=
  on_db (update_broadcast_placement_status group (pr_status r) (pr_slots r) (now_text e)).

Definition _update_broadcast_placement_status (e : io) (group : string) (st : pipeline_status) : C unit :=
  let* c := gets id in
  match aget group (ct_placements c) with
  | None => ret tt
  | Some r =>
      let r' := with_row_status st r in
      do* modify (set_row group r') in
      let* there := exists_c (pr_pipeline_name r) in
      do* when there (set_status_c (pr_pipeline_name r) st) in
      persist e group r'
  end.

(** The fields a caller gives to [update_placement_slot]. *)
Record slot_update := mkUpdate {
  su_run_id : option string;
  su_worker_url : option string;
  su_worker_id : option string;
  su_status : option slot_status }.

Definition apply_update (u : slot_update) (s : placed_slot) : placed_slot :=
  mkPlaced (pt_worker_index s)
    (match su_worker_url u with Some x => Some x | None => pt_worker_url s end)
    (default (pt_worker_id s) (su_worker_id u)) (pt_pinned_worker_id s) (pt_run_id_prefix s)
    (match su_run_id u with Some x => Some x | None => pt_current_run_id s end)
    (pt_dispatched_at s) (default (pt_status s) (su_status u)) (pt_restart_count s).

Definition status_only (st : slot_status) : slot_update := mkUpdate None None None (Some st).

Definition update_placement_slot (e : io) (group : string) (index : Z) (u : slot_update) : C bool :=
  let* c := gets id in
  match aget group (ct_placements c) with
  | None => ret false
  | Some r =>
      match find_slot index (pr_slots r) with
      | None => ret false
      | Some _ =>
          let r' := with_row_slots (update_slot index (apply_update u) (pr_slots r)) r in
          do* modify (set_row group r') in
          do* modify (_sync_stream_run_ids_from_slots (pr_pipeline_name r) (pr_slots r')) in
          do* persist e group r' in
          ret true
      end
  end.

(** ** Reports of workers *)

(** A statement whose row count is used. *)
Definition db_count (f : database -> nat * database) : C nat :=
  let* n := gets (fun c => (f (db c)).1) in
  do* on_db (fun d => (f d).2) in ret n.

(** One slot of the report's placement: the slot after it, whether its status
    changed, and whether the run id lost a race. *)
Definition stats_slot (group run_id : string) (s : placed_slot) : C (placed_slot * bool * bool) :=
  let run (s : placed_slot) : C (placed_slot * bool * bool) :=
    match pt_status s with
    | SlotRunning => ret (s, false, false)
    | SlotStale => ret (with_slot_status SlotRunning s, true, false)
    end in
  let same := bool_decide (pt_current_run_id s = Some run_id) in
  if negb (same || starts_with (pt_run_id_prefix s) run_id) then ret (s, false, false)
  else if same then run s
  else
    let recorded := run_id_text s in
    if _run_restart_count run_id <? _run_restart_count recorded then ret (s, false, false)
    else
      let* n := db_count (update_slot_run_id group (pt_worker_index s) run_id (pt_restart_count s) recorded) in
      if (n =? 0)%nat then ret (s, false, true)
      else run (mkPlaced (pt_worker_index s) (pt_worker_url s) (pt_worker_id s) (pt_pinned_worker_id s)
                  (pt_run_id_prefix s) (Some run_id) (pt_dispatched_at s) (pt_status s) (pt_restart_count s)).

Fixpoint stats_slots (group run_id : string) (l : list placed_slot) : C (list placed_slot * bool * bool) :=
  match l with
  | [] => ret ([], false, false)
  | s :: l' =>
      let* (s', ch, lost) := stats_slot group run_id s in
      let* (rest, ch', lost') := stats_slots group run_id l' in
      ret (s' :: rest, ch || ch', lost || lost')%bool
  end.

Definition slot_runs (s : placed_slot) : bool := bool_decide (pt_status s = SlotRunning).

Definition on_pipeline_stats (e : io) (p : PipelineStatsPayload) : C unit :=
  let name := sp_pipeline_name p in
  let* c := gets id in
  match ct_active_group c !! name with
  | None => ret tt
  | Some group =>
      match aget group (ct_placements c) with
      | None => ret tt
      | Some r =>
          if negb (bool_decide (pr_status r = Reconciling)) then ret tt
          else
            let* (slots, changed, lost) := stats_slots group (sp_run_id p) (pr_slots r) in
            do* modify (set_row group (with_row_slots slots r)) in
            do* modify (_sync_stream_run_ids_from_slots name slots) in
            if lost then ret tt
            else if forallb slot_runs slots then _update_broadcast_placement_status e group Running
            else when changed (persist e group (with_row_slots slots r))
      end
  end.

(** A report of a worker: a final one only leaves the store. *)
Definition report (e : io) (final : bool) (p : PipelineStatsPayload) : C unit :=
  if final then modify (with_stats (store_remove (sp_run_id p)))
  else do* modify (with_stats (store_update p)) in on_pipeline_stats e p.

(** ** Redispatch of a slot *)

Record redispatch := mkRedispatch {
  rd_group : string;
  rd_index : Z;
  rd_run_id : string;
  rd_worker_url : string;
  rd_pinned : option string;
  rd_pipeline : string;
  rd_yaml : string;
  rd_restarts : Z }.

Definition truthy_text (o : option string) : option string :=
  match o with Some x => if String.eqb x "" then None else Some x | None => None end.

Definition redispatch_claim (group : string) (index : Z) (replacement : option string) : C (option redispatch) :=
  let* c := gets id in
  match aget group (ct_placements c) with
  | None => ret None
  | Some r =>
      match find_slot index (pr_slots r) with
      | None => ret None
      | Some s =>
          let name := pr_pipeline_name r in
          let* there := exists_c name in
          if negb there then ret None
          else
            let* state := get_c name in
            let restarts := pt_restart_count s + 1 in
            let pinned := match truthy_text (pt_pinned_worker_id s) with
                          | Some w => p_worker_ids (ct_pool c) !! w
                          | None => None
                          end in
            let url := match replacement with
                       | Some u => Some u
                       | None => match pinned with Some u => Some u | None => pt_worker_url s end
                       end in
            match truthy_text url with
            | None => ret None
            | Some u =>
                ret (Some (mkRedispatch group index (pt_run_id_prefix s ++ "-r" ++ py_str restarts)%string u
                             (truthy_text (pt_pinned_worker_id s)) name (default ""%string (ps_yaml_text state)) restarts))
            end
      end
  end.

Section redispatch.
Context (cfg : settings).

(** The network call, with the lock released. *)
Definition redispatch_send (e : io) (q : redispatch) : C bool :=
  fun c =>
    let '(ok, p) := dispatch_to_worker (se_pool cfg) (io_now e) (io_post e) (rd_worker_url q) (rd_run_id q)
                      (rd_pipeline q) (rd_yaml q) "stream" (callback_url cfg) no_attempt (ct_pool c) in
    (Ok ok, with_pool (fun _ => p) c).

Definition redispatched (e : io) (q : redispatch) (p : pool) (s : placed_slot) : placed_slot :=
  mkPlaced (pt_worker_index s) (Some (rd_worker_url q))
    (match rd_pinned q with Some w => w | None => worker_id_for_url (rd_worker_url q) p end)
    (pt_pinned_worker_id s) (pt_run_id_prefix s) (Some (rd_run_id q)) (now_text e) SlotRunning (rd_restarts q).

Definition redispatch_commit (e : io) (q : redispatch) : C bool :=
  let* c := gets id in
  match aget (rd_group q) (ct_placements c) with
  | None => ret false
  | Some r =>
      match find_slot (rd_index q) (pr_slots r) with
      | None => ret false
      | Some _ =>
          let r' := with_row_slots (update_slot (rd_index q) (redispatched e q (ct_pool c)) (pr_slots r)) r in
          do* modify (set_row (rd_group q) r') in
          do* modify (_sync_stream_run_ids_from_slots (rd_pipeline q) (pr_slots r')) in
          do* persist e (rd_group q) r' in
          ret true
      end
  end.

(** ** Streams without a placement *)

Definition stream_liveness_candidates (c : ctl) : list (string * bool) :=
  (fun st => (cf_name (ps_config st), bool_decide (is_Some (ct_active_group c !! cf_name (ps_config st))))) <$>
    List.filter (fun st => bool_decide (cf_schedule (ps_config st) = StreamSchedule)
                           && bool_decide (ps_status st = Running)
                           && negb (_is_broadcast_workers (cf_workers (ps_config st))))%bool
      (list_all (ct_manager c)).

Definition adopt_unplaced_stream_bookkeeping (e : io) (name run_id worker_url started : string) : C bool :=
  let* c := gets id in
  match aget name (m_pipelines (ct_manager c)) with
  | None => ret false
  | Some state =>
      if bool_decide (is_Some (ct_active_group c !! name)) then ret false
      else if _is_broadcast_workers (cf_workers (ps_config state)) then ret false
      else if (se_single_stream_placements cfg && bool_decide (cf_schedule (ps_config state) = StreamSchedule))%bool
      then
        do* _materialize_placement_from_adoption e (ps_config state) (worker_url, run_id, started) in
        ret true
      else
        do* modify (fun c =>
              let ids := default [] (ct_stream_run_ids c !! name) in
              if bool_decide (run_id ∈ ids) then c else set_stream_runs name (ids ++ [run_id]) c) in
        do* modify (with_pool (fun p =>
              match p_assignments p !! run_id with
              | Some _ => p
              | None => adopt_stream_assignment name run_id worker_url p
              end)) in
        do* when (negb (bool_decide (ps_status state = Running))) (set_status_c name Running) in
        ret true
  end.

Definition recover_unplaced_stream (e : io) (name : string) : C unit :=
  let* c := gets id in
  match aget name (m_pipelines (ct_manager c)) with
  | None => ret tt
  | Some state =>
      if negb (bool_decide (cf_schedule (ps_config state) = StreamSchedule)) then ret tt
      else if bool_decide (is_Some (ct_active_group c !! name)) then ret tt
      else
        do* modify (fun c => with_streams (delete name (ct_stream_run_ids c)) (ct_placements c) (ct_active_group c) c) in
        let* may := _may_schedule name in
        if may then _do_schedule cfg e name else set_status_c name Stopped
  end.

(** ** Configuration drift *)

Definition pipeline_config_sha (name : string) : C string :=
  let* c := gets id in
  match aget name (m_pipelines (ct_manager c)) with
  | None => ret ""%string
  | Some state =>
      match ps_yaml_text state with
      | None => throw (ValueError "no configuration text")
      | Some y => ret (String.substring 0 16 (sha256_hex y))
      end
  end.

(** The locked part of [reconcile_placement_config_drift], and the stop that
    follows it: the indices to redispatch, if any. *)
Definition drift_begin (e : io) (group : string) : C (list Z) :=
  let* c := gets id in
  match aget group (ct_placements c) with
  | None => ret []
  | Some r =>
      let name := pr_pipeline_name r in
      let* there := exists_c name in
      if negb there then ret []
      else
        let* may := _may_schedule name in
        if negb may then ret []
        else
          let r' := with_row_slots (with_slot_status SlotStale <$> pr_slots r) r in
          do* modify (set_row group r') in
          do* persist e group r' in
          do* modify (send (SentStopPipeline name)) in
          ret (pt_worker_index <$> pr_slots r)
  end.

(** ** The placement reconciler *)

(** An entry of [live_streams]; an unknown worker id is the empty text. *)
Record live_stream := mkLive {
  lv_worker_url : string;
  lv_worker_id : string;
  lv_pipeline_name : string;
  lv_run_id : string;
  lv_started_at : string;
  lv_config_sha : option string }.

(** The last entry, as a dict built from the list keeps it. *)
Definition find_last {A} (f : A -> bool) (l : list A) : option A := List.find f (rev l).

Definition _live_worker_key (i : live_stream) : string :=
  if String.eqb (lv_worker_id i) "" then lv_worker_url i else lv_worker_id i.

Definition slot_worker_key (s : placed_slot) : string :=
  if String.eqb (pt_worker_id s) "" then default ""%string (pt_worker_url s) else pt_worker_id s.

Definition _find_live_slot (live : list live_stream) (name : string) (s : placed_slot) : option live_stream :=
  let by_run := match truthy_text (pt_current_run_id s) with
                | Some r => find_last (fun i => String.eqb (lv_run_id i) r) live
                | None => None
                end in
  match by_run with
  | Some i => Some i
  | None =>
      let key := slot_worker_key s in
      if String.eqb key "" then None
      else find_last (fun i => negb (String.eqb (lv_pipeline_name i) "") && String.eqb (lv_pipeline_name i) name
                               && String.eqb (_live_worker_key i) key)%bool live
  end.

(** What a live run changes of its slot. *)
Definition live_update (i : live_stream) (s : placed_slot) : slot_update :=
  mkUpdate
    (if (negb (String.eqb (lv_run_id i) "") && negb (bool_decide (pt_current_run_id s = Some (lv_run_id i))))%bool
     then Some (lv_run_id i) else None)
    (if (negb (String.eqb (lv_worker_url i) "") && negb (bool_decide (pt_worker_url s = Some (lv_worker_url i))))%bool
     then Some (lv_worker_url i) else None)
    (if (negb (String.eqb (lv_worker_id i) "") && negb (String.eqb (pt_worker_id s) (lv_worker_id i)))%bool
     then Some (lv_worker_id i) else None)
    (match pt_status s with SlotRunning => None | SlotStale => Some SlotRunning end).

Definition no_update (u : slot_update) : bool :=
  match u with mkUpdate None None None None => true | _ => false end.

Definition _slot_dispatch_time (r : placement_row) (s : placed_slot) : string :=
  if String.eqb (pt_dispatched_at s) "" then pr_started_at r else pt_dispatched_at s.

Definition _awaiting_first_stats (now : Z) (interval : Z) (r : placement_row) (s : placed_slot)
  (stats : option PipelineStatsPayload) : bool :=
  match stats with
  | Some _ => false
  | None => negb (text_leb (_slot_dispatch_time r s) (isoformat (now - (interval + 5) * 1000000)))
  end.

Definition _select_replacement_worker (now : Z) (stats : stats_store) (r : placement_row) (i : nat) (s : placed_slot)
  (p : pool) : option string :=
  match truthy_text (pt_pinned_worker_id s) with
  | Some w =>
      match truthy_text (p_worker_ids p !! w) with
      | Some u => if is_worker_healthy u p then Some u else None
      | None => None
      end
  | None =>
      let current := match truthy_text (pt_worker_url s) with
                     | Some u => if is_worker_healthy u p then Some u else None
                     | None => None
                     end in
      match current, pr_target_count r with
      | Some u, _ => Some u
      | None, CountAll => None
      | None, Count _ =>
          let excluded := omap (fun o => truthy_text (pt_worker_url o)) (delete i (pr_slots r)) in
          let candidates := List.filter (fun u => negb (bool_decide (u ∈ excluded))) (healthy_workers p) in
          let score u := load_score (se_pool cfg) (Some stats) now u p in
          head (sort_by (fun a b => SFltb (score a) (score b)) candidates)
      end
  end.

(** A pass: the clock and the live streams it started with, the copy of the
    placement it is at, its next slot and the placements after it. *)
Record pass := mkPassAt {
  pa_now : Z;
  pa_live : list live_stream;
  pa_group : string;
  pa_row : placement_row;
  pa_next : nat;
  pa_rest : list (string * placement_row) }.

Inductive place_pc :=
| PIdle
| PSlot (a : pass)
| PReplace (a : pass)
| PSend (a : pass) (q : redispatch)
| PCommit (a : pass) (q : redispatch)
| PDrift (a : pass) (todo : list Z)
| PDriftSend (a : pass) (q : redispatch) (todo : list Z)
| PDriftCommit (a : pass) (q : redispatch) (todo : list Z)
| PStatus (a : pass)
| PUnplaced (live : list live_stream) (todo : list (string * bool)).

(** [pl_misses] are the passes in a row without a sign of life. *)
Record placer := mkPlacer { pl_misses : gmap string Z; pl_pc : place_pc }.

Definition next_slot (a : pass) : pass :=
  mkPassAt (pa_now a) (pa_live a) (pa_group a) (pa_row a) (S (pa_next a)) (pa_rest a).

(** The slot of the copy, changed. *)
Definition note_slot (f : placed_slot -> placed_slot) (a : pass) : pass :=
  mkPassAt (pa_now a) (pa_live a) (pa_group a)
    (with_row_slots (alter f (pa_next a) (pr_slots (pa_row a))) (pa_row a)) (pa_next a) (pa_rest a).

(** The next placement of a pass; after the last one the unplaced streams. *)
Definition next_placement (now : Z) (live : list live_stream) (rest : list (string * placement_row)) (m : placer) (c : ctl)
  : placer :=
  match rest with
  | (group, r) :: rest' => mkPlacer (pl_misses m) (PSlot (mkPassAt now live group r 0 rest'))
  | [] =>
      match stream_liveness_candidates c with
      | [] => mkPlacer ∅ PIdle
      | cs => mkPlacer (filter (fun kv => kv.1 ∈ cs.*1) (pl_misses m)) (PUnplaced live cs)
      end
  end.

Definition after_placement (a : pass) (m : placer) (c : ctl) : placer :=
  next_placement (pa_now a) (pa_live a) (pa_rest a) m c.

Definition at_pc (pc : place_pc) (m : placer) : placer := mkPlacer (pl_misses m) pc.

Definition slot_counts (s : placed_slot) : bool :=
  (slot_runs s && bool_decide (is_Some (truthy_text (pt_current_run_id s))))%bool.

(** The status of a placement from the copy of its slots. *)
Definition next_status (interval now : Z) (r : placement_row) : pipeline_status :=
  let all_running := forallb slot_counts (pr_slots r) in
  let by_slots := if all_running then Running else Degraded in
  let st := if bool_decide (pr_status r = Reconciling)
            then if negb (text_leb (isoformat (now - interval * 2 * 1000000)) (pr_started_at r)) then by_slots
                 else pr_status r
            else by_slots in
  match pr_target_count r with
  | CountAll => st
  | Count n => if Z.of_nat (length (List.filter slot_counts (pr_slots r))) <? n then Degraded else st
  end.

(** One slot that is live. *)
Definition live_slot (e : io) (a : pass) (m : placer) (s : placed_slot) (i : live_stream) : C placer :=
  let* drifted := (match lv_config_sha i with
                   | Some h =>
                       if (String.eqb h "" || String.eqb h "unknown")%bool then ret false
                       else
                         let* expected := pipeline_config_sha (pr_pipeline_name (pa_row a)) in
                         ret (negb (String.eqb expected "") && negb (String.eqb h expected))%bool
                   | None => ret false
                   end) in
  if drifted then let* todo := drift_begin e (pa_group a) in ret (at_pc (PDrift a todo) m)
  else
    let u := live_update i s in
    let* ok := (if no_update u then ret false else update_placement_slot e (pa_group a) (pt_worker_index s) u) in
    ret (at_pc (PSlot (next_slot (if ok then note_slot (apply_update u) a else a))) m).

(** One slot without a live run. *)
Definition quiet_slot (e : io) (a : pass) (m : placer) (s : placed_slot) : C placer :=
  let* c := gets id in
  let stats := if String.eqb (run_id_text s) "" then None else get_by_run_id (run_id_text s) (ct_stats c) in
  if _awaiting_first_stats (pa_now a) (st_interval (ct_stats c)) (pa_row a) s stats
  then ret (at_pc (PSlot (next_slot a)) m)
  else
    let stale := match stats with Some p => is_stale (io_now e) None (ct_stats c) p | None => true end in
    let set st := update_placement_slot e (pa_group a) (pt_worker_index s) (status_only st) in
    match stale, pt_status s with
    | true, SlotStale => ret (at_pc (PReplace a) m)
    | true, SlotRunning =>
        let* ok := set SlotStale in
        ret (at_pc (PReplace (if ok then note_slot (with_slot_status SlotStale) a else a)) m)
    | false, SlotStale =>
        let* ok := set SlotRunning in
        ret (at_pc (PSlot (next_slot (if ok then note_slot (with_slot_status SlotRunning) a else a))) m)
    | false, SlotRunning => ret (at_pc (PSlot (next_slot a)) m)
    end.

(** One stream without a placement. *)
Definition unplaced_step (e : io) (live : list live_stream) (name : string) (placed : bool)
  (todo : list (string * bool)) (m : placer) : C placer :=
  let* c := gets id in
  let go misses := ret (mkPlacer misses (PUnplaced live todo)) in
  if placed then go (delete name (pl_misses m))
  else
    let sightings := List.filter (fun i => String.eqb (lv_pipeline_name i) name) live in
    match sort_by (fun a b => str_ltb (lv_started_at a) (lv_started_at b)) sightings with
    | first :: extra =>
        do* adopt_unplaced_stream_bookkeeping e name (lv_run_id first) (lv_worker_url first) (lv_started_at first) in
        do* iterM (fun i => when (negb (String.eqb (lv_run_id i) ""))
                              (modify (send (SentStopRun (lv_run_id i) name)))) extra in
        go (delete name (pl_misses m))
    | [] =>
        match for_pipeline (io_now e) name (ct_stats c) with
        | _ :: _ => go (delete name (pl_misses m))
        | [] =>
            let n := default 0 (pl_misses m !! name) + 1 in
            if 2 <=? n then do* recover_unplaced_stream e name in go (<[name := 0]> (pl_misses m))
            else go (<[name := n]> (pl_misses m))
        end
    end.

(** One step of the loop; [live] is what the workers answer when a pass
    starts, and what a pass raises ends the pass. *)
Definition place_step (e : io) (live : list live_stream) (m : placer) : C placer :=
  let* c := gets id in
  match pl_pc m with
  | PIdle => ret (next_placement (io_now e) live (ct_placements c) m c)
  | PSlot a =>
      match pr_slots (pa_row a) !! pa_next a with
      | None => ret (at_pc (PStatus a) m)
      | Some s =>
          match _find_live_slot (pa_live a) (pr_pipeline_name (pa_row a)) s with
          | Some i => live_slot e a m s i
          | None => quiet_slot e a m s
          end
      end
  | PReplace a =>
      match pr_slots (pa_row a) !! pa_next a with
      | None => ret (at_pc (PStatus a) m)
      | Some s =>
          match _select_replacement_worker (io_now e) (ct_stats c) (pa_row a) (pa_next a) s (ct_pool c) with
          | None => ret (at_pc (PSlot (next_slot a)) m)
          | Some u =>
              let* q := redispatch_claim (pa_group a) (pt_worker_index s) (Some u) in
              ret (at_pc (match q with Some q => PSend a q | None => PSlot (next_slot a) end) m)
          end
      end
  | PSend a q =>
      let* ok := redispatch_send e q in
      ret (at_pc (if ok then PCommit a q else PSlot (next_slot a)) m)
  | PCommit a q =>
      let* ok := redispatch_commit e q in
      ret (at_pc (PSlot (next_slot (if ok then note_slot (with_slot_status SlotRunning) a else a))) m)
  | PDrift a [] => ret (after_placement a m c)
  | PDrift a (index :: todo) =>
      let* q := redispatch_claim (pa_group a) index None in
      ret (at_pc (match q with Some q => PDriftSend a q todo | None => PDrift a todo end) m)
  | PDriftSend a q todo =>
      let* ok := redispatch_send e q in
      ret (at_pc (if ok then PDriftCommit a q todo else PDrift a todo) m)
  | PDriftCommit a q todo => do* redispatch_commit e q in ret (at_pc (PDrift a todo) m)
  | PStatus a =>
      let st := next_status (st_interval (ct_stats c)) (pa_now a) (pa_row a) in
      do* when (negb (bool_decide (st = pr_status (pa_row a))))
            (_update_broadcast_placement_status e (pa_group a) st) in
      ret (after_placement a m c)
  | PUnplaced live [] => ret (at_pc PIdle m)
  | PUnplaced live ((name, placed) :: todo) => unplaced_step e live name placed todo m
  end.

Definition reconcile_placements (e : io) (live : list live_stream) (m : placer) : C placer :=
  catch (place_step e live m) (fun _ => ret (at_pc PIdle m)).
End redispatch.
End Placements.
