(* ===== verification/ManagerSystem.v ===== *)
(** * The manager as a whole

    The controller with its batch threads, the loops of the two reconcilers
    and the callbacks and reports of workers, as one transition system: an action is one section
    under the controller's lock or one network call, and any interleaving is a
    run.  Run ids minted by uuid4 are new.

    Against it stands what the database may go through, [dstep]: the ledger
    operations of [LedgerSafety], a terminal transition under the attempt's
    own identity, an enqueue only for a pipeline without an open queued run,
    for a new run id and within the budgets, claims only of runs that are
    queued or were just minted, and an append-only history. *)

From Stdlib Require Import ZArith Lia Ascii String.
From stdpp Require Import base tactics list strings gmap option relations.
From S2P Require Import Prelude CtlMonad PyStr IsoTime Ledger LedgerLane LedgerSafety Accounting WorkerPool Manager Controller BatchLane BootLane Reconciler Placements.
Import stdpp.list.

#[local] Open Scope Z_scope.
#[local] Open Scope list_scope.

Module ManagerSystem.
Import CtlMonad IsoTime Ledger LedgerLane LedgerSafety Accounting StatsStore WorkerPool Manager Controller.
Import BatchLane BootLane Reconciler Placements.

(** ** The system *)

(** A thread of the batch executor, or one the scheduler started. *)
Record thread := mkThread { th_submitted : bool; th_pc : batch_pc }.

Record sys := mkSys { sy_ctl : ctl; sy_threads : list thread; sy_recon : recon_pc; sy_placer : placer }.

(** The placement reconciler when the process starts. *)
Definition new_placer : placer := mkPlacer ∅ PIdle.

(** A completion as the callback route receives it; the identity of the
    attempt is there for an authorized run. *)
Record callback := mkCallback {
  cb_attempt : option (string * Z);
  cb_run_id : string;
  cb_pipeline : string;
  cb_worker_id : option string;
  cb_body : completion }.

Inductive action :=
| ARegister (config : PipelineConfig) (yaml source : string)
| AUpdate (name yaml : string)
| ADelete (name : string)
| AStart (name : string)
| AStop (name : string)
| ARestart (name : string)
| ARollback (name : string) (version : Z)
| ATrigger (name : string) (flush : bool)
| AFire (name : string)
| AThread (tid : nat)
| AReconcile (query : string -> string -> option attempt_reply)
| ACallback (m : callback)
| APool (f : pool -> pool)
| AReport (final : bool) (p : PipelineStatsPayload)
| APlacement (seen : list live_stream)
| AAudit
| ABoot (query : string -> string -> option attempt_reply) (p : pool).

Section system.
Context (cfg : settings) (load : string -> option PipelineConfig).

Definition run_ctl {A} (m : C A) (s : sys) : sys := mkSys (m (sy_ctl s)).2 (sy_threads s) (sy_recon s) (sy_placer s).

(** The cutoff of the audit retention: attempts, intents and operations. *)
Definition audit (e : io) : C unit :=
  let cutoff := isoformat (io_now e - Z.max 1 (se_audit_retention_days cfg) * us_per_day) in
  do* on_ledger (_prune_ledger_audit cutoff) in
  on_db (with_operations (tbl_delete (fun _ r =>
    match lo_state r with OpPending => false | _ => older cutoff (Some (lo_updated_at r)) end))).

Definition deliver (e : io) (m : callback) : C unit :=
  match cb_attempt m with
  | Some (aid, gen) =>
      do* on_attempt_run_complete cfg e aid gen (cb_run_id m) (cb_pipeline m) (cb_worker_id m) (cb_body m) in ret tt
  | None => on_worker_run_complete cfg e (cb_run_id m) (cb_pipeline m) (cb_worker_id m) (cb_body m)
  end.

Definition trigger (e : io) (name : string) (flush : bool) (s : sys) : sys :=
  let '(r, c) := trigger_run cfg e name (sy_ctl s) in
  mkSys c (match r with
           | Ok (Dispatched rid) => sy_threads s ++ [mkThread true (BClaim name (Some rid) true flush)]
           | _ => sy_threads s
           end) (sy_recon s) (sy_placer s).

(** One section of the thread [tid]; the executor's count goes down with the
    finally block of a submitted one. *)
Definition run_thread (e : io) (tid : nat) (s : sys) : sys :=
  match sy_threads s !! tid with
  | None => s
  | Some t =>
      let '(r, c) := batch_step cfg e tid (th_pc t) (sy_ctl s) in
      let pc := match r with Ok pc => pc | Raise _ => BDone end in
      let c := match th_pc t with
               | BFinally _ => if th_submitted t then (tracked_end c).2 else c
               | _ => c
               end in
      mkSys c (<[tid := mkThread (th_submitted t) pc]> (sy_threads s)) (sy_recon s) (sy_placer s)
  end.

Definition run_recon (e : io) (query : string -> string -> option attempt_reply) (s : sys) : sys :=
  let '(r, c) := reconcile cfg query e (sy_recon s) (sy_ctl s) in
  mkSys c (sy_threads s) (match r with Ok pc => pc | Raise _ => RIdle end) (sy_placer s).

Definition run_placer (e : io) (live : list live_stream) (s : sys) : sys :=
  let '(r, c) := reconcile_placements cfg e live (sy_placer s) (sy_ctl s) in
  mkSys c (sy_threads s) (sy_recon s) (match r with Ok m => m | Raise _ => at_pc PIdle (sy_placer s) end).

Definition step (e : io) (a : action) (s : sys) : sys :=
  match a with
  | ARegister config yaml source => run_ctl (register_pipeline cfg e config yaml source) s
  | AUpdate name yaml => run_ctl (update cfg load e name yaml) s
  | ADelete name => run_ctl (delete_ e name) s
  | AStart name => run_ctl (start_pipeline cfg e name) s
  | AStop name => run_ctl (stop_pipeline e name) s
  | ARestart name => run_ctl (restart_pipeline cfg e name) s
  | ARollback name v => run_ctl (rollback_pipeline load e name v) s
  | ATrigger name flush => trigger e name flush s
  | AFire name =>
      if bool_decide (name ∈ ct_jobs (sy_ctl s))
      then mkSys (sy_ctl s) (sy_threads s ++ [mkThread false (BClaim name None false false)]) (sy_recon s) (sy_placer s)
      else s
  | AThread tid => run_thread e tid s
  | AReconcile query => run_recon e query s
  | ACallback m => run_ctl (deliver e m) s
  | APool f => run_ctl (modify (with_pool f)) s
  | AReport final p => run_ctl (report e final p) s
  | APlacement seen => run_placer e seen s
  | AAudit => run_ctl (audit e) s
  | ABoot query p => mkSys (boot cfg load query e p (sy_ctl s)) [] RIdle new_placer
  end.

(** The run id a thread works for. *)
Definition pc_run (pc : batch_pc) : option string :=
  match pc with
  | BClaim _ rid _ _ => rid
  | BDispatch b | BOutcome b _ | BEnqueue b => Some (bt_run_id b)
  | _ => None
  end.

(** An id the manager has never used. *)
Definition unused (rid : string) (s : sys) : Prop :=
  queue (lane (sy_ctl s)) !! rid = None /\
  (forall aid x, attempts (led (lane (sy_ctl s))) !! aid = Some x -> at_run_id x <> rid) /\
  Forall (fun t => pc_run (th_pc t) <> Some rid) (sy_threads s).

Definition initial (node_id : string) (p : pool) (interval : Z) : sys :=
  mkSys (fresh_ctl (empty_database node_id) p interval) [] RIdle new_placer.

Inductive reach : sys -> Prop :=
| reach_init node_id p interval : reach (initial node_id p interval)
| reach_step e a s : reach s -> unused (io_uuid e 0) s -> reach (step e a s).
End system.

(** ** What the database may go through *)

Definition ids (x : attempt) : string * string * Z := (at_run_id x, at_pipeline x, at_generation x).

(** An attempt row of that id, if there is one, has that identity. *)
Definition ids_match (aid rid name : string) (gen : Z) (l : ledger) : Prop :=
  forall x, attempts l !! aid = Some x -> ids x = (rid, name, gen).

Definition no_open_run (name : string) (d : mdb) : Prop :=
  forall rid r, queue d !! rid = Some r -> q_pipeline r = name -> q_open r = false.

Definition within_budget (cfg : settings) (yaml : string) (d : mdb) : Prop :=
  let active := get_active_queued_runs d in
  (0 < se_queue_max_count cfg -> Z.of_nat (length active) < se_queue_max_count cfg) /\
  (0 < se_queue_max_bytes cfg ->
   queued_bytes active + Z.of_nat (String.length yaml) <= se_queue_max_bytes cfg).

Definition plain_op (o : lop) : bool :=
  match o with LEnqueue _ _ _ _ _ | LClaim _ | LTerminal _ _ _ _ | LQRefresh _ _ => false | _ => true end.

(** One change of the database; [T] are the run ids just minted. *)
Inductive dstep (cfg : settings) (T : string -> Prop) : database -> database -> Prop :=
| DLane o d : plain_op o = true -> dstep cfg T d (with_lane (lstep o) d)
| DClaim a d :
    (T (da_run_id a) \/ is_Some (queue (d_lane d) !! da_run_id a)) ->
    dstep cfg T d (with_lane (lstep (LClaim a)) d)
| DTerminal aid rid name gen o why now d :
    ids_match aid rid name gen (led (d_lane d)) ->
    dstep cfg T d (with_lane (set_led (_terminalize_attempt aid rid name gen o why now)) d)
| DEnqueue rid name yaml now expires d :
    T rid -> queue (d_lane d) !! rid = None -> no_open_run name (d_lane d) ->
    within_budget cfg yaml (d_lane d) ->
    dstep cfg T d (with_lane (save_queued_run rid name yaml now expires) d)
| DRecord r d : dstep cfg T d (save_run r d)
| DAdopted rid aid gen o j d :
    dstep cfg T d (with_history (alter (fun h => mkHistory (with_accounting j (hr_result h)) (Some aid) (Some gen)
                                                   (Some o)) rid) d)
| DRegistered f d : dstep cfg T d (with_registered f d)
| DVersions f d : dstep cfg T d (with_versions f d)
| DOperations f d : dstep cfg T d (with_operations f d)
| DPlacements f d : dstep cfg T d (with_placements f d)
| DTransforms f d : dstep cfg T d (with_transform_state f d).

Definition drun (cfg : settings) (T : string -> Prop) (c c' : ctl) : Prop := rtc (dstep cfg T) (db c) (db c').

#[global] Instance drun_preorder cfg T : PreOrder (drun cfg T).
Proof. split; unfold drun; [intros c; reflexivity|intros a b c ? ?; by etrans]. Qed.
End ManagerSystem.
