(* ===== verification/ManagerRel.v ===== *)
(** * The controller keeps to the database's rules

    Every program of the controller changes the database by steps of
    [ManagerSystem.dstep] only: once for the shared statements, then along the
    structure of each program. *)

From Stdlib Require Import ZArith Lia Ascii String.
From stdpp Require Import base tactics list strings gmap option relations.
From S2P Require Import Prelude CtlMonad PyStr IsoTime Ledger LedgerLane LedgerSafety Accounting WorkerPool WorkerPoolLaws Manager Controller BatchLane BootLane Reconciler Placements ManagerSystem.
Import stdpp.list.

#[local] Open Scope Z_scope.
#[local] Open Scope list_scope.

Module ManagerRel.
Import CtlMonad IsoTime Ledger LedgerLane LedgerSafety Accounting StatsStore WorkerPool Manager Controller.
Import WorkerPoolLaws BatchLane BootLane Reconciler Placements ManagerSystem.

Create HintDb ctl.

Section rel.
Context (cfg : settings) (T : string -> Prop) (load : string -> option PipelineConfig).
Notation R := (drun cfg T).

(** ** Statements *)

Lemma drun_db c c' : db c' = db c -> R c c'.
Proof. unfold drun. by intros ->. Qed.

Lemma keeps_silent (f : ctl -> ctl) : (forall c, db (f c) = db c) -> keeps R (E := ctl_exn) (modify f).
Proof. intros H. apply ck_modify. intros c. apply drun_db, H. Qed.

Lemma keeps_on_db f : (forall d, rtc (dstep cfg T) d (f d)) -> keeps R (on_db f).
Proof. intros H. apply ck_modify. intros c. apply H. Qed.

Lemma keeps_db_step f : (forall d, dstep cfg T d (f d)) -> keeps R (on_db f).
Proof. intros H. apply keeps_on_db. intros d. by apply rtc_once. Qed.

Lemma keeps_lane o : plain_op o = true -> keeps R (on_lane (lstep o)).
Proof. intros H. apply keeps_db_step. intros d. by apply DLane. Qed.

Lemma keeps_lane_count (f : mdb -> nat * mdb) o :
  plain_op o = true -> (forall d, (f d).2 = lstep o d) -> keeps R (lane_count f).
Proof.
  intros Ho Hf. unfold lane_count. apply ck_bind; [apply _|apply ck_gets, _|intros n].
  apply ck_bind; [apply _| |intros _; apply ck_ret, _].
  apply keeps_db_step. intros d.
  replace (with_lane (fun d0 => (f d0).2) d) with (with_lane (lstep o) d); [by apply DLane|].
  unfold with_lane. by rewrite Hf.
Qed.

Lemma keeps_on_manager {A} (m : M manager ctl_exn A) :
  keeps (fun x y => rtc (dstep cfg T) (m_db x) (m_db y)) m -> keeps R (on_manager m).
Proof. apply ck_within. intros c x H. exact H. Qed.

Lemma change_db name f m : m_db (change name f m) = m_db m.
Proof. unfold change. by destruct (aget _ _). Qed.

Lemma keeps_get_c name : keeps R (get_c name).
Proof. apply keeps_on_manager. intros m. simpl. reflexivity. Qed.

Lemma keeps_exists name : keeps R (exists_c name).
Proof. apply ck_gets, _. Qed.

Lemma keeps_set_status name st : keeps R (set_status_c name st).
Proof.
  apply keeps_on_manager. intros m. unfold set_status, bind, get_, modify. simpl.
  destruct (aget name (m_pipelines m)); simpl; [by rewrite change_db|reflexivity].
Qed.

Lemma keeps_record_run name r : keeps R (on_manager (record_run name r)).
Proof.
  apply keeps_on_manager. intros m. unfold record_run, bind, get_, modify. simpl.
  destruct (aget name (m_pipelines m)); simpl; [|reflexivity].
  rewrite change_db. apply rtc_once, DRecord.
Qed.

Lemma save_version_step name y now d : rtc (dstep cfg T) d (save_pipeline_version name y now d).2.
Proof.
  unfold save_pipeline_version. repeat (split_match; simpl); try reflexivity; apply rtc_once, DVersions.
Qed.

Lemma register_step config replace yaml save now m :
  rtc (dstep cfg T) (m_db m) (m_db (register config replace yaml save now m).2).
Proof.
  unfold register. destruct (_ && _)%bool; simpl; [reflexivity|].
  destruct yaml as [y|]; simpl; [|reflexivity]. destruct (_ && _)%bool; simpl; [|reflexivity].
  apply save_version_step.
Qed.

Lemma keeps_register config replace yaml save now : keeps R (on_manager (register config replace yaml save now)).
Proof. apply keeps_on_manager. intros m. apply register_step. Qed.

Lemma keeps_deregister name : keeps R (on_manager (deregister name)).
Proof.
  apply keeps_on_manager. intros m. unfold deregister, bind, get_, modify. simpl.
  by destruct (aget name (m_pipelines m)).
Qed.

Lemma keeps_rollback e name v : keeps R (rollback_pipeline load e name v).
Proof.
  apply keeps_on_manager. intros m. unfold rollback, bind, lift, modify, ret.
  destruct (get_pipeline_version name v (m_db m)) as [y|]; simpl; [|reflexivity].
  destruct (load y) as [config|]; simpl; [|reflexivity].
  destruct (activate_pipeline_version name v (m_db m)) as [[y' d]|] eqn:E; simpl; [|reflexivity].
  assert (dstep cfg T (m_db m) d) as Hd.
  { revert E. unfold activate_pipeline_version. destruct (get_pipeline_version _ _ _); [|done].
    intros [= _ <-]. apply DVersions. }
  eapply rtc_l; [exact Hd|]. eapply rtc_l; [apply DRegistered|].
  match goal with |- context [register ?a ?b ?c ?d ?f ?m'] =>
    pose proof (register_step a b c d f m') as Hr; destruct (register a b c d f m') as [[]]; exact Hr end.
Qed.

Lemma keeps_dispatch e rid name yaml sch fl a : keeps R (dispatch_run cfg e rid name yaml sch fl a).
Proof. intros c. unfold dispatch_run. destruct (dispatch_with_result _ _ _ _ _ _ _ _ _ _ _ _). by apply drun_db. Qed.
End rel.

#[export] Hint Resolve keeps_get_c keeps_exists keeps_set_status keeps_record_run keeps_register keeps_deregister
  keeps_rollback keeps_dispatch : ctl.

(** A statement of a table whose content the rules leave free. *)
Ltac free_table :=
  solve [ apply keeps_db_step; intros ?;
          first [apply DRegistered | apply DVersions | apply DOperations | apply DPlacements | apply DTransforms] ].

Ltac silent := solve [ apply keeps_silent; intros ?; repeat (simpl; try done; split_match) ].

Ltac prog :=
  repeat first
    [ keeps_step
    | solve [eauto with ctl]
    | free_table
    | silent ].

Section programs.
Context (cfg : settings) (T : string -> Prop) (load : string -> option PipelineConfig).
Notation R := (drun cfg T).

(** ** Scheduling, streams *)

Lemma keeps_may name : keeps R (_may_schedule name).
Proof. apply ck_gets, _. Qed.

Lemma keeps_remove_job name : keeps R (remove_job name).
Proof. unfold remove_job. prog. Qed.

Lemma keeps_store_placement e name group r : keeps R (store_placement e name group r).
Proof. unfold store_placement. prog. Qed.

Lemma keeps_dispatch_stream e config yaml : keeps R (dispatch_stream cfg e config yaml).
Proof.
  unfold dispatch_stream, _record_broadcast_placement. prog; try apply keeps_store_placement.
  intros c. destruct (multi_dispatch _ _ _ _ _ _ _ _ _ _ _ _ _). by apply drun_db.
Qed.

Lemma keeps_start_stream e config : keeps R (_start_stream cfg e config).
Proof. unfold _start_stream. prog; apply keeps_dispatch_stream. Qed.

Lemma keeps_stop_stream e name : keeps R (_stop_stream e name).
Proof. unfold _stop_stream. prog. Qed.

Lemma keeps_schedule e name : keeps R (_do_schedule cfg e name).
Proof. unfold _do_schedule, _add_job. prog. apply keeps_start_stream. Qed.

Lemma keeps_stop_execution e name : keeps R (_stop_execution e name).
Proof. unfold _stop_execution. prog; try apply keeps_stop_stream; apply keeps_remove_job. Qed.
End programs.

#[export] Hint Resolve keeps_may keeps_remove_job keeps_stop_stream keeps_schedule keeps_stop_execution
  keeps_store_placement : ctl.

Section lifecycle.
Context (cfg : settings) (T : string -> Prop) (load : string -> option PipelineConfig).
Notation R := (drun cfg T).

(** ** Lifecycle operations *)

Lemma keeps_recorded e name kind doing done failed body :
  keeps R body -> keeps R (recorded e name kind doing done failed body).
Proof.
  intros H. unfold recorded, _record_lifecycle_operation, _complete_lifecycle_operation. prog.
Qed.

Lemma keeps_cancel_queued e name why : keeps R (cancel_queued e name why).
Proof. by apply (keeps_lane cfg T (LCancelPipeline name why (now_text e))). Qed.

Lemma keeps_bump e name del : keeps R (bump e name del).
Proof. by apply (keeps_lane cfg T (LBump name del (now_text e))). Qed.

Lemma keeps_drop_state name : keeps R (drop_transform_state name).
Proof. unfold drop_transform_state. prog. Qed.

Lemma keeps_pop_lease name : keeps R (pop_lease name).
Proof. unfold pop_lease. prog. Qed.

Lemma keeps_set_desired name b now : keeps R (on_lane (_set_desired_status name b now)).
Proof. by apply (keeps_lane cfg T (LSetDesired name b now)). Qed.

Lemma keeps_ensure_desired name b now : keeps R (on_lane (_ensure_desired_state name b now)).
Proof. by apply (keeps_lane cfg T (LEnsureDesired name b now)). Qed.

Lemma keeps_prune_intents name now : keeps R (on_ledger (fun l => (_prune_orphaned_run_intents name now l).2)).
Proof. by apply (keeps_lane cfg T (LPruneIntents name now)). Qed.

#[local] Hint Resolve keeps_cancel_queued keeps_bump keeps_drop_state keeps_pop_lease keeps_set_desired
  keeps_ensure_desired keeps_prune_intents : ctl.

Lemma keeps_register_pipeline e config yaml source : keeps R (register_pipeline cfg e config yaml source).
Proof. unfold register_pipeline. prog. Qed.

Lemma keeps_update e name yaml : keeps R (update cfg load e name yaml).
Proof. unfold update. prog. apply keeps_recorded. prog. Qed.

Lemma keeps_delete e name : keeps R (delete_ e name).
Proof. apply keeps_recorded. prog. Qed.

Lemma keeps_start e name : keeps R (start_pipeline cfg e name).
Proof. unfold start_pipeline. prog. Qed.

Lemma keeps_stop e name : keeps R (stop_pipeline e name).
Proof. apply keeps_recorded. prog. Qed.

Lemma keeps_restart e name : keeps R (restart_pipeline cfg e name).
Proof. unfold restart_pipeline. prog. apply keeps_recorded. prog. Qed.
End lifecycle.

#[export] Hint Resolve keeps_pop_lease : ctl.

(** ** Programs under a condition the rules preserve *)

Definition under {S E A} (P : S -> Prop) (R : S -> S -> Prop) (m : M S E A) : Prop := forall s, P s -> R s (m s).2.

Lemma under_keeps {S E A} (P : S -> Prop) R (m : M S E A) : keeps R m -> under P R m.
Proof. intros H s _. apply H. Qed.

Lemma under_bind {S E A B} (P : S -> Prop) (R : S -> S -> Prop) `{PreOrder S R} (m : M S E A) (k : A -> M S E B) :
  (forall s t, R s t -> P s -> P t) -> under P R m -> (forall a, under P R (k a)) -> under P R (bind m k).
Proof.
  intros Hp Hm Hk s Hs. unfold bind. specialize (Hm s Hs). destruct (m s) as [[a|e] s1]; simpl in *; [|done].
  etrans; [exact Hm|]. apply Hk. eauto.
Qed.

Lemma run_bind cfg T {A B} (m : C A) (k : A -> C B) c :
  drun cfg T c (m c).2 -> (forall a, keeps (drun cfg T) (k a)) -> drun cfg T c (bind m k c).2.
Proof.
  intros Hm Hk. unfold bind. destruct (m c) as [[a|e] c1]; simpl in *; [|done]. etrans; [exact Hm|apply Hk].
Qed.

(** ** The queue only grows *)

Lemma claim_queue a d : queue (_claim_for_dispatch a d).2 = queue d.
Proof. unfold _claim_for_dispatch. destruct (claim_run _ _) as [[c|x] l]; simpl; [destruct (decide _)|]; done. Qed.

Lemma dom_cancel_pipeline name why now d : dom (queue (_terminal_cancel_pipeline_queued name why now d).2) = dom (queue d).
Proof. unfold _terminal_cancel_pipeline_queued. simpl. apply dom_tbl_update. Qed.

Lemma plain_dom_queue o d : plain_op o = true -> dom (queue (lstep o d)) = dom (queue d).
Proof. destruct o; try done; intros _; simpl; try apply dom_tbl_update. Qed.

Lemma dstep_queue_grows cfg T d d' rid :
  dstep cfg T d d' -> is_Some (queue (d_lane d) !! rid) -> is_Some (queue (d_lane d') !! rid).
Proof.
  intros Hd. rewrite <- !elem_of_dom. destruct Hd; try done.
  - simpl. by rewrite plain_dom_queue.
  - simpl. by rewrite claim_queue.
  - simpl. set_solver.
  - unfold save_run. by destruct (d_history d !! rn_run_id r).
Qed.

Lemma drun_queue_grows cfg T c c' rid :
  drun cfg T c c' -> is_Some (queue (lane c) !! rid) -> is_Some (queue (lane c') !! rid).
Proof.
  unfold drun, lane. intros H. remember (db c) as d eqn:Ed. remember (db c') as d' eqn:Ed'. clear Ed Ed'.
  induction H as [|d1 d2 d3 H1 _ IH]; [done|]. intros Hq. apply IH. by eapply dstep_queue_grows.
Qed.

(** ** Batch runs and completions *)

Lemma active_attempt_row rid l aid x :
  _active_attempt_for_run rid l = Some (aid, x) -> attempts l !! aid = Some x /\ at_run_id x = rid.
Proof.
  unfold _active_attempt_for_run, attempts_of.
  set (rows := filter _ (map_to_list _)). intros H.
  assert (Hin : (aid, x) ∈ rows).
  { destruct rows as [|r rs]; [done|]. injection H as H. rewrite <- H. clear H.
    induction rs as [|r' rs IH]; simpl; [left|]. unfold newest at 1.
    destruct (_ <? _); [|right; left].
    apply elem_of_cons in IH as [->|IH]; [left|right; by right]. }
  subst rows. apply list_elem_of_filter in Hin as [_ Hin]. apply elem_of_map_to_list in Hin.
  by apply map_lookup_filter_Some in Hin.
Qed.

Section batch.
Context (cfg : settings) (T : string -> Prop) (load : string -> option PipelineConfig).
Notation R := (drun cfg T).

Lemma terminalize_run e aid rid name gen o why c :
  ids_match aid rid name gen (led (lane c)) -> R c (terminalize e aid rid name gen o why c).2.
Proof. intros H. apply rtc_once. simpl. by apply DTerminal. Qed.

Lemma keeps_terminalize_active e rid o why : keeps R (terminalize_active e rid o why).
Proof.
  intros c. unfold terminalize_active, bind, gets. simpl.
  destruct (_active_attempt_for_run rid (led (lane c))) as [[aid x]|] eqn:E; [|reflexivity].
  apply active_attempt_row in E as [Hx Hr]. apply terminalize_run. intros y Hy. unfold ids. congruence.
Qed.

Lemma keeps_finish e name st : keeps R (_on_run_complete cfg e name st).
Proof. unfold _on_run_complete. prog. Qed.

Lemma keeps_finalize e name r : keeps R (_finalize_batch_result cfg e name r).
Proof. unfold _finalize_batch_result. prog. apply keeps_finish. Qed.

Lemma keeps_skipped e name rid why : keeps R (_record_skipped_manual_run cfg e name rid why).
Proof. unfold _record_skipped_manual_run. prog. Qed.

Lemma keeps_set_queued name : keeps R (set_queued name).
Proof. unfold set_queued. prog. Qed.

Lemma keeps_resolve rid o aid now : keeps R (on_ledger (fun l => (resolve_intent rid o aid now l).2)).
Proof. by apply (keeps_lane cfg T (LResolve rid o aid now)). Qed.

Lemma keeps_intent a : keeps R (on_ledger (_ensure_run_intent a)).
Proof. by apply (keeps_lane cfg T (LReserve a)). Qed.

Lemma keeps_accept e aid rid gen url : keeps R (accept e aid rid gen url).
Proof.
  unfold accept. prog.
  - by apply (keeps_lane cfg T (LRunning aid rid gen (now_text e))).
  - by apply (keeps_lane cfg T (LWorker aid rid gen (worker_id_for_url url a0))).
Qed.
End batch.

#[export] Hint Resolve keeps_terminalize_active keeps_finalize keeps_skipped keeps_set_queued keeps_resolve
  keeps_intent keeps_accept : ctl.

Section queue.
Context (cfg : settings) (T : string -> Prop) (load : string -> option PipelineConfig).
Notation R := (drun cfg T).

(** ** The queue *)

Lemma head_sorted {A} lt (l : list A) : head (sort_by lt l) = None -> l = [].
Proof.
  intros H. destruct l as [|a l]; [done|].
  assert (a ∈ sort_by lt (a :: l)) as Ha by (apply elem_of_sort_by; left).
  destruct (sort_by lt (a :: l)); [by apply elem_of_nil in Ha|done].
Qed.

Lemma no_active_run name d : get_active_queued_run_for_pipeline name d = None -> no_open_run name d.
Proof.
  intros H rid r Hr Hp. apply head_sorted in H.
  destruct (q_open r) eqn:E; [exfalso|done].
  assert (Hin : (rid, r) ∈ List.filter (fun kv : string * queued_run => String.eqb (q_pipeline kv.2) name && q_open kv.2)%bool
                  (map_to_list (queue d))).
  { apply elem_of_lfilter. split; [by apply elem_of_map_to_list|]. simpl. by rewrite Hp, String.eqb_refl, E. }
  rewrite H in Hin. by apply elem_of_nil in Hin.
Qed.

Lemma reject_spec yaml c :
  (exists x, _reject_queue_over_capacity cfg yaml c = (Raise x, c)) \/
  (_reject_queue_over_capacity cfg yaml c = (Ok tt, c) /\ within_budget cfg yaml (lane c)).
Proof.
  unfold _reject_queue_over_capacity, bind, gets, throw, ret, within_budget.
  destruct (_ && _)%bool eqn:E1; bool_to_prop; [right; split; [done|lia]|].
  destruct ((0 <? se_queue_max_count cfg) && _)%bool eqn:E2; [left; by eexists|].
  destruct ((0 <? se_queue_max_bytes cfg) && _)%bool eqn:E3; [left; by eexists|].
  right. split; [done|]. split; intros H; [apply andb_false_iff in E2|apply andb_false_iff in E3]; lia.
Qed.

Lemma enqueue_run e name rid yaml c :
  T rid -> queue (lane c) !! rid = None -> R c (_enqueue_manual_run cfg e name rid yaml c).2.
Proof.
  intros HT Hq. unfold _enqueue_manual_run. unfold bind at 1. unfold gets at 1.
  destruct (get_active_queued_run_for_pipeline name (lane c)) eqn:E.
  { assert (keeps R (do* set_queued name in ret false)) as H by prog. apply H. }
  unfold bind at 1. destruct (reject_spec yaml c) as [[x ->]|[-> Hb]]; [reflexivity|].
  cbv zeta. apply run_bind; [|intros ?; prog].
  apply rtc_once. apply DEnqueue; [exact HT|exact Hq|by apply no_active_run|exact Hb].
Qed.

Lemma trigger_run_step e name c :
  T (io_uuid e 0) -> queue (lane c) !! io_uuid e 0 = None -> R c (trigger_run cfg e name c).2.
Proof.
  intros HT Hq. unfold trigger_run. unfold bind at 1.
  pose proof (keeps_get_c cfg T name c) as Hg. unfold get_c, on_manager, within, get_ in *. simpl in *.
  destruct (aget name (m_pipelines (ct_manager c))) as [p|]; simpl; [|exact Hg].
  set (c1 := with_manager _ c) in *. assert (queue (lane c1) !! io_uuid e 0 = None) as Hq1 by exact Hq.
  etrans; [exact Hg|]. clear Hg.
  repeat match goal with |- drun _ _ _ (match ?x with _ => _ end _).2 => destruct x; try reflexivity end.
  - assert (keeps R (submit cfg)) as H by (unfold submit; prog).
    apply run_bind; [apply H|intros ?; prog].
  - unfold bind at 1, gets at 1. cbn [id].
    destruct (get_active_queued_run_for_pipeline name (lane c1)) as [[rid row]|].
    { apply run_bind; [apply keeps_set_queued|intros ?; prog]. }
    destruct (healthy_workers (ct_pool c1)).
    + apply run_bind; [by apply enqueue_run|intros ?; prog].
    + assert (keeps R (submit cfg)) as H by (unfold submit; prog).
      apply run_bind; [apply H|intros ?; prog].
Qed.

(** ** Claims *)

Lemma claim_step a c :
  T (da_run_id a) \/ is_Some (queue (lane c) !! da_run_id a) -> R c (claim a c).2.
Proof.
  intros H. unfold claim. destruct (_claim_for_dispatch a (lane c)) as [r d] eqn:E. cbn [snd].
  assert (d = lstep (LClaim a) (lane c)) as -> by (cbn [lstep]; by rewrite E).
  apply rtc_once. by apply (DClaim cfg T a (db c)).
Qed.

Lemma keeps_claim a : T (da_run_id a) -> keeps R (claim a).
Proof. intros H c. apply claim_step. by left. Qed.

Lemma keeps_claim_queued e rid : keeps R (claim_queued_run e rid).
Proof.
  intros c. unfold claim_queued_run. unfold bind at 1, gets at 1. simpl.
  destruct (queued_row rid c) as [row|] eqn:E; [|reflexivity].
  assert (is_Some (queue (lane c) !! rid)) as Hrid.
  { unfold queued_row in E. destruct (queue (lane c) !! rid); [by eexists|done]. }
  destruct (negb (drainable c row)); [reflexivity|].
  revert c E Hrid. intros c _.
  match goal with |- _ -> drun _ _ _ (?m _).2 => enough (under (fun c => is_Some (queue (lane c) !! rid)) R m) as H by apply (H c) end.
  pose proof (drun_queue_grows cfg T) as Hgrow.
  apply under_bind; [apply _|eauto|apply under_keeps, keeps_get_c|intros state].
  apply under_bind; [apply _|eauto|apply under_keeps, (keeps_lane_count cfg T _ (LQClaim rid)); done|intros n].
  destruct (negb _); [apply under_keeps; prog|].
  apply under_bind; [apply _|eauto|apply under_keeps; prog|intros ordinal].
  apply under_bind; [apply _|eauto|intros s Hs; apply claim_step; by right|intros attempt].
  apply under_keeps. prog. by apply (keeps_lane_count cfg T _ (LQRevert rid)).
Qed.

Lemma keeps_commit_queued e rid url : keeps R (commit_queued_dispatch e rid url).
Proof.
  unfold commit_queued_dispatch. prog.
  by apply (keeps_lane cfg T (LQDispatched rid (now_text e))).
Qed.

Lemma keeps_retire e rid : keeps R (_retire_cancelled_claim_attempt e rid).
Proof. unfold _retire_cancelled_claim_attempt. prog. Qed.

Lemma keeps_revert_queued e rid : keeps R (revert_queued_claim e rid).
Proof.
  unfold revert_queued_claim. prog; try apply keeps_retire.
  all: by apply (keeps_lane_count cfg T _ (LQRevert rid)).
Qed.

Lemma keeps_expire e rid : keeps R (expire_queued_run cfg e rid).
Proof.
  unfold expire_queued_run. prog. by apply (keeps_lane_count cfg T _ (LQExpire rid)).
Qed.

(** ** Threads *)

Lemma batch_claim_step e tid name rid manual flush c :
  T (default (io_uuid e 0) rid) -> R c (batch_claim cfg e tid name rid manual flush c).2.
Proof.
  intros HT. assert (keeps R (batch_claim cfg e tid name rid manual flush)) as H; [|apply H].
  unfold batch_claim. prog. by apply keeps_claim.
Qed.

(** The attempt a thread claimed still has the identity of the claim. *)
Definition own_attempt (b : batch_run) (c : ctl) : Prop :=
  ids_match (dc_attempt_id (bt_attempt b)) (bt_run_id b) (bt_pipeline b) (dc_generation (bt_attempt b))
    (led (lane c)).

Lemma end_attempt_step e b o c : own_attempt b c -> R c (end_attempt e b o c).2.
Proof. apply terminalize_run. Qed.

Lemma batch_commit_step e b url c : own_attempt b c -> R c (batch_commit e b url c).2.
Proof.
  intros H. unfold batch_commit. unfold bind at 1, gets at 1. cbn [id].
  destruct (aget _ _); [|by apply end_attempt_step].
  destruct (negb _); [by apply end_attempt_step|].
  destruct (get_run _ _); [reflexivity|].
  apply run_bind; [apply keeps_accept|intros ?; prog].
Qed.

Lemma batch_outcome_step e b o c : own_attempt b c -> R c (batch_outcome cfg e b o c).2.
Proof.
  intros H. unfold batch_outcome.
  destruct (do_outcome o); [|destruct (_ && _)%bool|]; (apply run_bind; [|intros ?; prog]);
    try by apply end_attempt_step.
  by apply batch_commit_step.
Qed.

(** What a thread's next section needs. *)
Definition pc_ready (e : io) (pc : batch_pc) (c : ctl) : Prop :=
  match pc with
  | BClaim _ rid _ _ => T (default (io_uuid e 0) rid)
  | BOutcome b _ => own_attempt b c
  | BEnqueue b => T (bt_run_id b) /\ queue (lane c) !! bt_run_id b = None
  | _ => True
  end.

Lemma run_catch {A} (m : C A) (h : ctl_exn -> C A) c :
  R c (m c).2 -> (forall x, keeps R (h x)) -> R c (catch m h c).2.
Proof.
  intros Hm Hh. unfold catch. destruct (m c) as [[a|x] c1]; simpl in *; [done|]. etrans; [exact Hm|apply Hh].
Qed.

Lemma batch_step_run e tid pc c : pc_ready e pc c -> R c (batch_step cfg e tid pc c).2.
Proof.
  intros H. unfold batch_step. apply run_catch; [|intros ?; prog]. destruct pc; simpl in H.
  - by apply batch_claim_step.
  - apply run_bind; [apply keeps_dispatch|intros ?; prog].
  - by apply batch_outcome_step.
  - apply run_catch; [|intros x; destruct x; prog].
    apply run_bind; [apply enqueue_run; tauto|intros ?; prog].
  - apply run_bind; [apply keeps_skipped|intros ?; prog].
  - apply run_bind; [apply keeps_finalize|intros ?; prog].
  - assert (keeps R (do* batch_finally tid name in ret BDone)) as Hk by (unfold batch_finally; prog). apply Hk.
  - reflexivity.
Qed.

(** ** Completions *)

Lemma keeps_worker_complete e rid name w m : keeps R (on_worker_run_complete cfg e rid name w m).
Proof.
  unfold on_worker_run_complete. prog;
    apply keeps_silent; intros c; unfold _pop_batch_lease_for_run, _remove_stream_run_id;
    repeat (simpl; try done; split_match).
Qed.

Lemma keeps_attempt_complete e aid gen rid name w m : keeps R (on_attempt_run_complete cfg e aid gen rid name w m).
Proof.
  intros c. unfold on_attempt_run_complete. unfold bind at 1, gets at 1. cbn [id].
  destruct (get_attempt (led (lane c)) aid) as [x|] eqn:E; [|reflexivity].
  case_bool_decide as Hid; simpl; [|reflexivity]. destruct Hid as (H1 & H2 & H3).
  apply run_bind; [|intros ?; prog; apply keeps_worker_complete].
  apply terminalize_run. intros y Hy. unfold get_attempt in E. unfold ids. congruence.
Qed.

Lemma keeps_deliver e m : keeps R (deliver cfg e m).
Proof.
  unfold deliver. prog; [apply keeps_attempt_complete|apply keeps_worker_complete].
Qed.
End queue.

#[export] Hint Resolve keeps_claim_queued keeps_commit_queued keeps_revert_queued keeps_expire
  keeps_worker_complete keeps_attempt_complete : ctl.

Section recon.
Context (cfg : settings) (T : string -> Prop) (load : string -> option PipelineConfig).
Context (query : string -> string -> option attempt_reply).
Notation R := (drun cfg T).

(** ** The reconciler *)

Lemma keeps_adopt e name rid url st : keeps R (adopt_active_batch_run e name rid url st).
Proof. unfold adopt_active_batch_run. prog. Qed.

Lemma keeps_lost_complete e name l a legacy p : keeps R (lost_complete cfg e name l a legacy p).
Proof. unfold lost_complete. prog. Qed.

Lemma keeps_lost_end e name rid l err : keeps R (lost_end cfg e name rid l err).
Proof. unfold lost_end. prog. Qed.

Lemma keeps_reconcile e pc : keeps R (reconcile cfg query e pc).
Proof.
  unfold reconcile, recon_step. prog; try apply keeps_adopt; try apply keeps_lost_complete; apply keeps_lost_end.
Qed.

Lemma keeps_audit e : keeps R (audit cfg e).
Proof. unfold audit. prog. by eapply (keeps_lane cfg T (LAudit _)). Qed.
End recon.

(** ** Identities of attempts *)

Definition ids_kept (l l' : ledger) : Prop :=
  forall aid x', attempts l' !! aid = Some x' -> exists x, attempts l !! aid = Some x /\ ids x = ids x'.

#[global] Instance ids_kept_preorder : PreOrder ids_kept.
Proof.
  split; [intros l aid x H; eauto|]. intros l1 l2 l3 H1 H2 aid x H.
  destruct (H2 _ _ H) as (x2 & Hx2 & E2). destruct (H1 _ _ Hx2) as (x1 & ? & E1). exists x1. split; congruence.
Qed.

Lemma ids_kept_same l l' : attempts l' = attempts l -> ids_kept l l'.
Proof. intros E aid x H. rewrite E in H. eauto. Qed.

Lemma ids_kept_update p f l : (forall x, ids (f x) = ids x) -> ids_kept l (set_attempts (tbl_update p f) l).
Proof.
  intros Hf aid x. simpl. rewrite lookup_tbl_update. destruct (attempts l !! aid) as [y|]; [|done].
  simpl. intros [= <-]. exists y. split; [done|]. destruct (p aid y); by rewrite ?Hf.
Qed.

Lemma ids_kept_terminalize aid rid name gen o why now l :
  ids_kept l (_terminalize_attempt aid rid name gen o why now l).
Proof.
  intros k x. rewrite terminalize_attempts. intros H.
  by apply (ids_kept_update (fenced aid rid gen [SClaimed; SDispatching; SRunning]) (terminal_attempt now why) l) in H.
Qed.

Lemma ids_kept_plain o d : plain_op o = true -> ids_kept (led d) (led (lstep o d)).
Proof.
  destruct o; try done; intros _; simpl; try (by apply ids_kept_same).
  - by apply ids_kept_update.
  - by apply ids_kept_update.
  - by apply ids_kept_update.
  - intros aid x. simpl. rewrite lookup_tbl_delete_Some. intros [H _]. eauto.
  - apply ids_kept_same. unfold commit_checkpoint, upsert_checkpoint.
    by repeat (split_match; simpl); inv_eq.
Qed.

Definition idrun (c c' : ctl) : Prop := ids_kept (led (lane c)) (led (lane c')).

#[global] Instance idrun_preorder : PreOrder idrun.
Proof. split; unfold idrun; [intros c; reflexivity|intros a b c ? ?; by etrans]. Qed.

Lemma idrun_same c c' : lane c' = lane c -> idrun c c'.
Proof. unfold idrun. by intros ->. Qed.

Lemma keeps_id_db f : (forall d, d_lane (f d) = d_lane d) -> keeps idrun (on_db f).
Proof. intros H. apply ck_modify. intros c. apply idrun_same. unfold lane, db. simpl. apply H. Qed.

Lemma save_run_lane r d : d_lane (save_run r d) = d_lane d.
Proof. unfold save_run. by destruct (d_history d !! rn_run_id r). Qed.

Section boot.
Context (cfg : settings) (T : string -> Prop) (load : string -> option PipelineConfig).
Context (query : string -> string -> option attempt_reply).
Notation R := (drun cfg T).

(** ** Boot *)

Lemma ids_resolve e op aid x : keeps idrun (_resolve_attempt_at_boot cfg query e op aid x).
Proof.
  assert (forall f, (forall l, ids_kept l (f l)) -> keeps idrun (on_ledger f)) as Hled.
  { intros f Hf. apply ck_modify. intros c. apply Hf. }
  assert (forall rid why, keeps idrun (on_lane (_terminal_cancel_queued_run rid why))) as Hq.
  { intros rid why. apply ck_modify. intros c. by apply ids_kept_same. }
  assert (forall a b u g o w, keeps idrun (terminalize e a b u g o w)) as Ht.
  { intros. apply Hled. intros l. apply ids_kept_terminalize. }
  assert (forall a b g w, keeps idrun (on_ledger (_mark_attempt_unknown a b g w))) as Hu.
  { intros. apply Hled. intros l. by apply ids_kept_update. }
  assert (forall name st, keeps idrun (set_status_c name st)) as Hs.
  { intros name st c. apply idrun_same. unfold set_status_c, on_manager, within, set_status, bind, get_, modify.
    destruct (aget name (m_pipelines (ct_manager c))); simpl; [|done]. unfold lane, db. simpl. by rewrite change_db. }
  unfold _resolve_attempt_at_boot, record_completed_lifecycle_operation, _record_lifecycle_operation,
    _complete_lifecycle_operation, _record_adoption_completion_history, _adopt_active_attempt_lease, exists_c.
  repeat first [keeps_step | apply Hq | apply Ht | apply Hu | apply Hs
    | apply keeps_id_db; intros ?; rewrite ?save_run_lane; reflexivity
    | apply ck_modify; intros ?; by apply idrun_same].
Qed.

Lemma resolve_step e op aid x c :
  ids_match aid (at_run_id x) (at_pipeline x) (at_generation x) (led (lane c)) ->
  R c (_resolve_attempt_at_boot cfg query e op aid x c).2.
Proof.
  intros H. unfold _resolve_attempt_at_boot.
  assert (forall rid why, keeps R (on_lane (_terminal_cancel_queued_run rid why))) as Hq.
  { intros rid why. by apply (keeps_lane cfg T (LQCancel rid why)). }
  assert (forall aid rid gen why, keeps R (on_ledger (_mark_attempt_unknown aid rid gen why))) as Hu.
  { intros. by apply (keeps_lane cfg T (LUnknown aid0 rid gen why)). }
  assert (forall detail, keeps R (record_completed_lifecycle_operation e op (at_pipeline x) "boot_adopt" (Some aid)
                                    (Some detail))) as Hn.
  { intros. unfold record_completed_lifecycle_operation, _record_lifecycle_operation, _complete_lifecycle_operation. prog. }
  case_bool_decide.
  { apply run_bind; [by apply terminalize_run|intros ?; prog]. }
  unfold bind at 1, gets at 1. destruct (_query_attempt_from_worker _ _ _ _) as [[r|] url].
  - destruct (_classify_attempt_query r); try (apply run_bind; [by apply terminalize_run|intros ?; prog]).
    + unfold _record_adoption_completion_history. prog; apply keeps_db_step; intros d;
        [apply DRecord|apply DAdopted].
    + unfold _adopt_active_attempt_lease.
      match goal with |- drun _ _ _ (?m _).2 => assert (keeps R m) as Hm by prog; apply Hm end.
    + apply run_bind; [apply Hu|intros ?; prog].
  - apply run_bind; [apply Hu|intros ?; prog].
Qed.

Lemma resolve_all_step e l : forall i c,
  (forall aid x, (aid, x) ∈ l -> ids_match aid (at_run_id x) (at_pipeline x) (at_generation x) (led (lane c))) ->
  R c (resolve_all cfg query e i l c).2.
Proof.
  induction l as [|[aid x] l IH]; intros i c H; simpl; [reflexivity|].
  unfold bind at 1. set (m := catch _ _).
  assert (R c (m c).2) as H1. { apply run_catch; [apply resolve_step, H; left|intros ?; prog]. }
  assert (keeps idrun m) as H2. { unfold m. keeps_step; [apply ids_resolve|keeps_step]. }
  specialize (H2 c). destruct (m c) as [[[]|] c1]; simpl in *; [|done].
  etrans; [exact H1|]. apply IH. intros k y Hin z Hz.
  destruct (H2 _ _ Hz) as (z0 & Hz0 & E). rewrite <- E. apply (H k y); [by right|done].
Qed.

Lemma keeps_resolve_boot e : keeps R (_resolve_non_terminal_attempts_at_boot cfg query e).
Proof.
  unfold _resolve_non_terminal_attempts_at_boot. keeps_step; [by apply (keeps_lane cfg T LQReset)|].
  intros c. unfold bind, gets. apply resolve_all_step. intros aid x Hin y Hy.
  unfold _get_non_terminal_attempts in Hin. apply elem_of_sort_by, elem_of_lfilter in Hin as [Hin _].
  apply elem_of_map_to_list in Hin. unfold ids. congruence.
Qed.

Lemma keeps_materialize e config live : keeps R (_materialize_placement_from_adoption e config live).
Proof. unfold _materialize_placement_from_adoption. destruct live as [[url rid] st]. prog. Qed.

Lemma keeps_adopt_live e config : keeps R (_adopt_live_stream_if_any cfg e config).
Proof. unfold _adopt_live_stream_if_any. prog. apply keeps_materialize. Qed.

Lemma keeps_restore_placement e group r : keeps R (_restore_broadcast_placement e group r).
Proof. unfold _restore_broadcast_placement, adopt_slot. prog. Qed.

Lemma keeps_boot_load e : keeps R (_boot_load cfg load query e).
Proof.
  unfold _boot_load, boot_pipeline. prog; [apply keeps_resolve_boot|apply keeps_restore_placement|apply keeps_adopt_live].
Qed.

Lemma boot_step e p c : R c (boot cfg load query e p c).
Proof. unfold boot. exact (keeps_boot_load e (fresh_ctl (db c) p (st_interval (ct_stats c)))). Qed.
End boot.

Section placements.
Context (cfg : settings) (T : string -> Prop).
Notation R := (drun cfg T).

(** ** Placements *)

Lemma keeps_row_persist e group r : keeps R (persist e group r).
Proof. unfold persist. prog. Qed.

Lemma slot_run_step group i rid n x d : rtc (dstep cfg T) d (update_slot_run_id group i rid n x d).2.
Proof.
  unfold update_slot_run_id. repeat (split_match; simpl); try reflexivity. apply rtc_once, DPlacements.
Qed.

Lemma keeps_db_count f : (forall d, rtc (dstep cfg T) d (f d).2) -> keeps R (db_count f).
Proof. intros H. unfold db_count. repeat keeps_step. by apply keeps_on_db. Qed.

Lemma keeps_stats_slots group rid l : keeps R (stats_slots group rid l).
Proof.
  induction l as [|s l IH]; simpl; [keeps_step|]. keeps_step; [|prog].
  unfold stats_slot. prog. apply keeps_db_count. intros d. apply slot_run_step.
Qed.

Lemma keeps_placement_status e group st : keeps R (_update_broadcast_placement_status e group st).
Proof. unfold _update_broadcast_placement_status. prog. Qed.

Lemma keeps_update_slot e group i u : keeps R (update_placement_slot e group i u).
Proof. unfold update_placement_slot. prog. Qed.

Lemma keeps_report e final p : keeps R (report e final p).
Proof.
  unfold report, on_pipeline_stats. prog; first
    [apply keeps_stats_slots|apply keeps_placement_status|apply keeps_row_persist].
Qed.

#[local] Hint Resolve keeps_row_persist keeps_placement_status keeps_update_slot keeps_materialize : ctl.

Lemma keeps_redispatch_claim group i u : keeps R (redispatch_claim group i u).
Proof. unfold redispatch_claim. prog. Qed.

Lemma keeps_redispatch_send e q : keeps R (redispatch_send cfg e q).
Proof. intros c. unfold redispatch_send. destruct (dispatch_to_worker _ _ _ _ _ _ _ _ _ _ _). by apply drun_db. Qed.

Lemma keeps_redispatch_commit e q : keeps R (redispatch_commit e q).
Proof. unfold redispatch_commit. prog. Qed.

Lemma keeps_drift e group : keeps R (drift_begin e group).
Proof. unfold drift_begin. prog. Qed.

#[local] Hint Resolve keeps_redispatch_claim keeps_redispatch_send keeps_redispatch_commit keeps_drift : ctl.

Lemma keeps_unplaced e live name placed todo m : keeps R (unplaced_step cfg e live name placed todo m).
Proof. unfold unplaced_step, adopt_unplaced_stream_bookkeeping, recover_unplaced_stream. prog. Qed.

Lemma keeps_placements e live m : keeps R (reconcile_placements cfg e live m).
Proof.
  unfold reconcile_placements, place_step, live_slot, quiet_slot, pipeline_config_sha. prog; apply keeps_unplaced.
Qed.
End placements.
End ManagerRel.
