(* ===== verification/ManagerSafety.v ===== *)
(** * Safety of the manager

    What holds in every reachable state of [ManagerSystem]: the database went
    through steps of its rules only, so the ledger invariant holds with all
    threads, callbacks, reconciler passes, operators and restarts interleaved;
    a pipeline has at most one open queued run; a queued run moves along its
    life cycle and its end is final; a recorded result never changes. *)

From Stdlib Require Import ZArith Lia Ascii String.
From stdpp Require Import base tactics list strings gmap option relations.
From S2P Require Import Prelude CtlMonad PyStr IsoTime Ledger LedgerLane LedgerSafety Accounting WorkerPool WorkerPoolLaws Manager Controller BatchLane BootLane Reconciler Placements ManagerSystem ManagerRel.
Import stdpp.list.

#[local] Open Scope Z_scope.
#[local] Open Scope list_scope.

Module ManagerSafety.
Import CtlMonad IsoTime Ledger LedgerLane LedgerSafety Accounting StatsStore WorkerPool Manager Controller.
Import WorkerPoolLaws BatchLane BootLane Reconciler Placements ManagerSystem ManagerRel.

(** ** One step of the rules *)

(** The attempts a claim leaves: those that were there, and perhaps its own. *)
Lemma claim_attempts a d aid x' :
  attempts (led (_claim_for_dispatch a d).2) !! aid = Some x' ->
  (exists x, attempts (led d) !! aid = Some x /\ ids x = ids x') \/
  (aid = mint_attempt_id (da_run_id a) (da_ordinal a) /\
   ids x' = (da_run_id a, da_pipeline a, _pipeline_generation (da_pipeline a) d)).
Proof.
  destruct (claim_for_dispatch_led a d) as (l & Hl & Heq). intros H.
  assert (exists x, attempts l !! aid = Some x /\ ids x = ids x') as (x & Hx & Ei).
  { destruct Heq as [->| ->] in H; [eauto|]. revert H. by apply ids_kept_update. }
  rewrite <- Ei. destruct Hl as [->| ->]; [eauto|]. revert Hx.
  match goal with |- context [claim_run ?ca ?l1] => destruct (claim_run_cases ca l1) as [->|(-> & _ & _)] end.
  - simpl. eauto.
  - simpl. unfold claimed_ledger. simpl. unfold ca_attempt_id. simpl.
    rewrite lookup_insert_Some. intros [[<- <-]|[_ H']]; [by right|eauto].
Qed.

Lemma dstep_linv cfg T d d' : dstep cfg T d d' -> linv (led (d_lane d)) -> linv (led (d_lane d')).
Proof.
  intros Hd Hi. destruct Hd; try exact Hi.
  - by apply lstep_linv.
  - by apply (lstep_linv (LClaim a)).
  - simpl. destruct (attempts (led (d_lane d)) !! aid) as [x|] eqn:E.
    + specialize (H _ E). unfold ids in H. simplify_eq.
      pose proof (linv_terminalize_own aid o why now (led (d_lane d)) Hi) as Ht.
      unfold terminalize_own in Ht. by rewrite E in Ht.
    + destruct Hi as [H1 H2 H3].
      assert (guards (_terminalize_attempt aid rid name gen o why now (led (d_lane d))) = guards (led (d_lane d))) as Eg.
      { rewrite terminalize_guards. apply map_eq. intros k. rewrite lookup_tbl_update.
        destruct (guards (led (d_lane d)) !! k) as [g|] eqn:Eg; simpl; [|done].
        destruct (held_by name aid rid k g) eqn:Eh; [|done]. apply held_by_true in Eh as (_ & Ha & _).
        destruct (H3 _ _ _ Eg Ha) as (x & Hx & _). congruence. }
      apply (linv_same (led (d_lane d))); [|exact Eg|by split].
      rewrite terminalize_attempts. apply map_eq. intros k. rewrite lookup_tbl_update.
      destruct (attempts (led (d_lane d)) !! k) as [y|] eqn:Ek; simpl; [|done].
      destruct (fenced _ _ _ _ k y) eqn:Ef; [|done]. apply fenced_true in Ef as [-> _]. congruence.
  - by rewrite save_run_lane.
Qed.

(** A run id that is neither minted by the action nor queued stays out of the
    queue, and its attempts keep their identities. *)
Lemma dstep_frame cfg T d d' rid :
  dstep cfg T d d' -> ~ T rid -> queue (d_lane d) !! rid = None ->
  queue (d_lane d') !! rid = None /\
  forall aid x', attempts (led (d_lane d')) !! aid = Some x' -> at_run_id x' = rid ->
    exists x, attempts (led (d_lane d)) !! aid = Some x /\ ids x = ids x'.
Proof.
  intros Hd HT Hq. destruct Hd; try by (split; [done|]; intros aid' x' Hx _; exists x').
  - split.
    + apply not_elem_of_dom. cbn [d_lane with_lane]. rewrite plain_dom_queue by done. by apply not_elem_of_dom.
    + intros aid x' Hx _. by apply (ids_kept_plain o (d_lane d)).
  - cbn [d_lane with_lane lstep]. rewrite claim_queue. split; [done|]. intros aid x' Hx Hr.
    destruct (claim_attempts _ _ _ _ Hx) as [?|[_ Ei]]; [done|].
    assert (da_run_id a = rid) as <- by (unfold ids in Ei; congruence).
    destruct H as [?|[? ?]]; [by destruct HT|]. congruence.
  - split; [done|]. intros k x' Hx _. simpl in Hx. by apply ids_kept_terminalize in Hx.
  - split; [|eauto]. simpl. rewrite lookup_insert_ne; [done|]. intros ->. done.
  - rewrite save_run_lane. split; [done|eauto].
Qed.

Lemma run_frame cfg T d d' rid :
  rtc (dstep cfg T) d d' -> ~ T rid -> queue (d_lane d) !! rid = None ->
  queue (d_lane d') !! rid = None /\
  forall aid x', attempts (led (d_lane d')) !! aid = Some x' -> at_run_id x' = rid ->
    exists x, attempts (led (d_lane d)) !! aid = Some x /\ ids x = ids x'.
Proof.
  intros H HT. induction H as [|d1 d2 d3 H1 _ IH]; intros Hq; [eauto|].
  destruct (dstep_frame _ _ _ _ _ H1 HT Hq) as [Hq2 H12]. destruct (IH Hq2) as [Hq3 H23].
  split; [done|]. intros aid x' Hx Hr. destruct (H23 _ _ Hx Hr) as (x2 & Hx2 & E2).
  assert (at_run_id x2 = rid) as Hr2 by (unfold ids in E2; congruence).
  destruct (H12 _ _ Hx2 Hr2) as (x1 & Hx1 & E1). exists x1. split; congruence.
Qed.

Lemma run_linv cfg T d d' : rtc (dstep cfg T) d d' -> linv (led (d_lane d)) -> linv (led (d_lane d')).
Proof. induction 1 as [|d1 d2 d3 H _ IH]; [done|]. intros Hi. by apply IH, (dstep_linv cfg T d1). Qed.

(** ** What the threads hold *)

Definition fresh_run (rid : string) (d : mdb) : Prop :=
  queue d !! rid = None /\ forall aid x, attempts (led d) !! aid = Some x -> at_run_id x <> rid.

(** The run of a thread is not queued; before its claim it has no attempt, and
    from the claim on its attempt is the run's first. *)
Definition holds (pc : batch_pc) (c : ctl) : Prop :=
  match pc with
  | BClaim _ (Some rid) _ _ => fresh_run rid (lane c)
  | BDispatch b | BOutcome b _ =>
      queue (lane c) !! bt_run_id b = None /\ dc_attempt_id (bt_attempt b) = mint_attempt_id (bt_run_id b) 1 /\
      own_attempt b c
  | BEnqueue b => queue (lane c) !! bt_run_id b = None
  | _ => True
  end.

Definition distinct_runs (ts : list thread) : Prop :=
  forall i j t u rid, ts !! i = Some t -> ts !! j = Some u ->
    pc_run (th_pc t) = Some rid -> pc_run (th_pc u) = Some rid -> i = j.

Record sinv (s : sys) : Prop := mkSinv {
  si_ledger : linv (led (lane (sy_ctl s)));
  si_threads : forall i t, sy_threads s !! i = Some t -> holds (th_pc t) (sy_ctl s);
  si_distinct : distinct_runs (sy_threads s) }.

(** The run ids an action may enter: the uuid it mints and the run of the
    thread that moves. *)
Definition minted (e : io) (a : action) (s : sys) (rid : string) : Prop :=
  rid = io_uuid e 0 \/
  exists tid t, a = AThread tid /\ sy_threads s !! tid = Some t /\ pc_run (th_pc t) = Some rid.

(** Any run that is not minted by a step is left alone by it. *)
Lemma attempt_frame cfg T c c' b :
  drun cfg T c c' -> linv (led (lane c')) -> (forall rid, Some (bt_run_id b) = Some rid -> ~ T rid) ->
  queue (lane c) !! bt_run_id b = None -> dc_attempt_id (bt_attempt b) = mint_attempt_id (bt_run_id b) 1 ->
  own_attempt b c ->
  queue (lane c') !! bt_run_id b = None /\ dc_attempt_id (bt_attempt b) = mint_attempt_id (bt_run_id b) 1 /\
  own_attempt b c'.
Proof.
  intros Hr Hi HT Hq Hid Ho. destruct (run_frame _ _ _ _ (bt_run_id b) Hr (HT _ eq_refl) Hq) as [Hq' Ha'].
  split_and!; [done|done|]. intros x Hx. pose proof (li_id _ Hi _ _ Hx) as Hm. rewrite Hid in Hm.
  apply mint_inj in Hm as [Hrun _]. destruct (Ha' _ _ Hx (eq_sym Hrun)) as (y & Hy & <-). by apply Ho.
Qed.

Lemma holds_frame cfg T c c' pc :
  drun cfg T c c' -> linv (led (lane c')) -> (forall rid, pc_run pc = Some rid -> ~ T rid) ->
  holds pc c -> holds pc c'.
Proof.
  intros Hr Hi HT H. destruct pc as [name [rid|] ? ?|b|b o|b| | | |]; simpl in *; try done.
  - destruct H as [Hq Ha]. destruct (run_frame _ _ _ _ rid Hr (HT _ eq_refl) Hq) as [Hq' Ha'].
    split; [done|]. intros aid x Hx Hrun. destruct (Ha' _ _ Hx Hrun) as (y & Hy & E).
    apply (Ha _ _ Hy). unfold ids in E. congruence.
  - destruct H as (Hq & Hid & Ho). by eapply attempt_frame.
  - destruct H as (Hq & Hid & Ho). by eapply attempt_frame.
  - by destruct (run_frame _ _ _ _ (bt_run_id b) Hr (HT _ eq_refl) H) as [Hq' _].
Qed.

(** The queue is as it was. *)
Definition same_queue (c c' : ctl) : Prop := queue (lane c') = queue (lane c).

#[global] Instance same_queue_preorder : PreOrder same_queue.
Proof. split; unfold same_queue; [done|congruence]. Qed.

Lemma keeps_q_db f : (forall d, queue (d_lane (f d)) = queue (d_lane d)) -> keeps same_queue (on_db f).
Proof. intros H. apply ck_modify. intros c. apply H. Qed.

Lemma keeps_q_manager {A} (m : M manager ctl_exn A) :
  (forall x, queue (d_lane (m_db (m x).2)) = queue (d_lane (m_db x))) -> keeps same_queue (on_manager m).
Proof. intros H. apply (ck_within _ _ _ (fun x y => queue (d_lane (m_db y)) = queue (d_lane (m_db x)))); [done|exact H]. Qed.

Lemma keeps_q_get name : keeps same_queue (get_c name).
Proof. by apply keeps_q_manager. Qed.

Lemma keeps_q_status name st : keeps same_queue (set_status_c name st).
Proof.
  apply keeps_q_manager. intros x. unfold set_status, bind, get_, modify.
  destruct (aget name (m_pipelines x)); simpl; by rewrite ?change_db.
Qed.

Lemma keeps_q_record name r : keeps same_queue (on_manager (record_run name r)).
Proof.
  apply keeps_q_manager. intros x. unfold record_run, bind, get_, modify.
  destruct (aget name (m_pipelines x)); simpl; by rewrite ?save_run_lane, ?change_db.
Qed.

Lemma keeps_q_claim a : keeps same_queue (claim a).
Proof.
  intros c. unfold claim. pose proof (claim_queue a (lane c)) as H.
  destruct (_claim_for_dispatch a (lane c)) as [r d]. exact H.
Qed.

Lemma keeps_q_ledger f : keeps same_queue (on_ledger f).
Proof. by apply keeps_q_db. Qed.

#[local] Hint Resolve keeps_q_get keeps_q_status keeps_q_record keeps_q_claim keeps_q_ledger : ctl.

Ltac same_q :=
  repeat first [ keeps_step | solve [eauto with ctl] | solve [apply ck_modify; intros ?; reflexivity] ].

Lemma batch_claim_queue cfg e tid name rid manual flush :
  keeps same_queue (batch_claim cfg e tid name rid manual flush).
Proof. unfold batch_claim, exists_c, remove_job, _record_skipped_manual_run. same_q. Qed.

Lemma batch_outcome_queue cfg e b o : keeps same_queue (batch_outcome cfg e b o).
Proof. unfold batch_outcome, batch_commit, end_attempt, terminalize, accept. same_q. Qed.

(** ** The claim of a thread *)

(** A claim that succeeds names the run's attempt of that ordinal, and whatever
    is under that id has the identity of the claim. *)
Lemma claim_spec a c c' x :
  claim a c = (Ok (Some x), c') -> linv (led (lane c)) ->
  (forall aid y, attempts (led (lane c)) !! aid = Some y -> at_run_id y <> da_run_id a) ->
  dc_attempt_id x = mint_attempt_id (da_run_id a) (da_ordinal a) /\
  ids_match (dc_attempt_id x) (da_run_id a) (da_pipeline a) (dc_generation x) (led (lane c')).
Proof.
  unfold claim. intros H Hi Hn. pose proof (claim_attempts a (lane c)) as Ha.
  assert (dc_attempt_id x = mint_attempt_id (da_run_id a) (da_ordinal a) /\
          dc_generation x = _pipeline_generation (da_pipeline a) (lane c)) as [Ex Eg].
  { revert H. unfold _claim_for_dispatch. destruct (claim_run _ _) as [[y|z] l]; [destruct (decide _)|];
      by intros; simplify_eq. }
  destruct (_claim_for_dispatch a (lane c)) as [r d]. simplify_eq/=. split; [done|]. rewrite Ex, Eg.
  intros y Hy. destruct (Ha _ _ Hy) as [(y0 & Hy0 & _)|[_ E]]; [|done].
  pose proof (li_id _ Hi _ _ Hy0) as Hm. apply mint_inj in Hm as [Hm _]. by destruct (Hn _ _ Hy0).
Qed.

Lemma set_status_lane name st c : lane (set_status_c name st c).2 = lane c.
Proof.
  unfold set_status_c, on_manager, within, set_status, bind, get_, modify, lane, db.
  destruct (aget name (m_pipelines (ct_manager c))); simpl; by rewrite ?change_db.
Qed.

Lemma get_c_state name c p c' : get_c name c = (Ok p, c') -> lane c' = lane c.
Proof. unfold get_c, on_manager, within, get_. by intros; simplify_eq/=. Qed.

(** The run of a claim section. *)
Definition claimed_run (e : io) (pc : batch_pc) : option string :=
  match pc with BClaim _ rid _ _ => Some (default (io_uuid e 0) rid) | _ => pc_run pc end.

Lemma batch_claim_holds cfg e tid name rid manual flush c pc c' :
  batch_claim cfg e tid name rid manual flush c = (Ok pc, c') ->
  linv (led (lane c)) -> fresh_run (default (io_uuid e 0) rid) (lane c) ->
  holds pc c' /\ (pc_run pc = None \/ pc_run pc = Some (default (io_uuid e 0) rid)).
Proof.
  intros H Hi [Hq Hn].
  assert (queue (lane c') !! default (io_uuid e 0) rid = None) as Hq'.
  { pose proof (batch_claim_queue cfg e tid name rid manual flush c) as E. rewrite H in E.
    unfold same_queue in E. simpl in E. by rewrite E. }
  revert H. unfold batch_claim. unfold bind at 1, exists_c at 1, gets at 1. destruct (exists_ _ _); simpl.
  2: { unfold bind, remove_job, modify, ret. intros. by simplify_eq/=; auto. }
  intros H. apply bind_ok_inv in H as (p & c1 & E1 & H). apply get_c_state in E1.
  case_bool_decide.
  { apply bind_ok_inv in H as (u & c2 & _ & H). unfold ret in H. by simplify_eq/=; auto. }
  apply bind_ok_inv in H as (u & c2 & E2 & H).
  assert (lane c2 = lane c) as Hl.
  { rewrite <- E1, <- (set_status_lane name Running c1), E2. done. }
  apply bind_ok_inv in H as ([x|] & c3 & E3 & H).
  - apply bind_ok_inv in H as (v & c4 & E4 & H). unfold ret, modify in *. simplify_eq/=.
    apply claim_spec in E3; [|by rewrite Hl|by rewrite Hl]. by auto.
  - apply bind_ok_inv in H as (v & c4 & _ & H). unfold ret in H. by simplify_eq/=; auto.
Qed.

(** A section of a thread leaves what the thread's next section needs. *)
Lemma batch_step_holds cfg e tid pc c pc' c' :
  batch_step cfg e tid pc c = (Ok pc', c') ->
  linv (led (lane c)) -> (forall name m f, pc = BClaim name None m f -> fresh_run (io_uuid e 0) (lane c)) ->
  holds pc c -> drun cfg (fun rid => claimed_run e pc = Some rid) c c' -> linv (led (lane c')) ->
  holds pc' c' /\ (pc_run pc' = None \/ pc_run pc' = claimed_run e pc).
Proof.
  intros H Hi Hf Hh Hr Hi'. unfold batch_step, catch in H. revert H.
  destruct pc as [name rid m f|b|b o|b|b why|name r|name|]; simpl in *.
  - destruct (batch_claim cfg e tid name rid m f c) as [[p|x] c1] eqn:E; unfold ret; intros; simplify_eq/=;
      [|by auto]. eapply batch_claim_holds; [exact E|done|]. destruct rid; [done|]. by eapply Hf.
  - unfold dispatch_run, bind. destruct (dispatch_with_result _ _ _ _ _ _ _ _ _ _ _ _) as [o q].
    unfold ret. intros. simplify_eq/=. by auto.
  - destruct Hh as (Hq & Hid & Ho). pose proof (batch_outcome_queue cfg e b o c) as Eq.
    destruct (batch_outcome cfg e b o c) as [[p|x] c1] eqn:E; unfold ret; intros; simplify_eq/=; [|by auto].
    revert E. unfold batch_outcome, same_queue in *.
    destruct (do_outcome o); [|destruct (_ && _)%bool|]; intros E; apply bind_ok_inv in E as (v & c2 & _ & E);
      unfold ret, dispatch_failure in E; simplify_eq/=; try by auto. split; [by rewrite Eq|by auto].
  - unfold batch_enqueue, catch. destruct (bind _ _ c) as [[p|x] c1] eqn:E; unfold ret.
    + apply bind_ok_inv in E as (v & c2 & _ & E). unfold ret in E. intros. by simplify_eq/=; auto.
    + destruct x; intros; by simplify_eq/=; auto.
  - destruct (bind _ _ c) as [[p|x] c1] eqn:E; unfold ret; intros; simplify_eq/=; [|by auto].
    apply bind_ok_inv in E as (v & c2 & _ & E). unfold ret in E. by simplify_eq/=; auto.
  - destruct (bind _ _ c) as [[p|x] c1] eqn:E; unfold ret; intros; simplify_eq/=; [|by auto].
    apply bind_ok_inv in E as (v & c2 & _ & E). unfold ret in E. by simplify_eq/=; auto.
  - unfold batch_finally, bind, modify, ret. intros. by simplify_eq/=; auto.
  - unfold ret. intros. by simplify_eq/=; auto.
Qed.

(** ** Every action *)

Lemma dstep_mono cfg (T T' : string -> Prop) d d' : (forall r, T r -> T' r) -> dstep cfg T d d' -> dstep cfg T' d d'.
Proof.
  intros HT [o x Ho|a x [Hx|Hx]|aid rid name gen o why now x Hx|rid name yaml now expires x H1 H2 H3 H4|r x
    |rid aid gen o j x|f x|f x|f x|f x|f x].
  - by apply DLane.
  - apply DClaim. auto.
  - apply DClaim. auto.
  - by apply DTerminal.
  - apply DEnqueue; auto.
  - apply DRecord.
  - apply DAdopted.
  - apply DRegistered.
  - apply DVersions.
  - apply DOperations.
  - apply DPlacements.
  - apply DTransforms.
Qed.

Lemma drun_mono cfg (T T' : string -> Prop) c c' : (forall r, T r -> T' r) -> drun cfg T c c' -> drun cfg T' c c'.
Proof. intros HT. unfold drun. apply rtc_subrel. intros d d'. by apply dstep_mono. Qed.

Section system.
Context (cfg : settings) (load : string -> option PipelineConfig).
Notation fresh e := (fun rid => rid = io_uuid e 0).

(** Programs of the controller that are no thread of their own. *)
Lemma sinv_ctl T s c r m :
  sinv s -> drun cfg T (sy_ctl s) c ->
  (forall i t rid, sy_threads s !! i = Some t -> pc_run (th_pc t) = Some rid -> ~ T rid) ->
  sinv (mkSys c (sy_threads s) r m).
Proof.
  intros [Hl Ht Hd] Hr HT. assert (linv (led (lane c))) as Hl' by (eapply run_linv; [exact Hr|exact Hl]).
  split; simpl; [done| |done]. intros i t Hi. eapply holds_frame; [exact Hr|done| |by eapply Ht].
  intros rid Hrid. by eapply HT.
Qed.

Lemma unused_thread rid s i t r : unused rid s -> sy_threads s !! i = Some t -> pc_run (th_pc t) = Some r -> r <> rid.
Proof. intros (_ & _ & H) Hi Hr ->. rewrite Forall_lookup in H. by apply (H _ _ Hi). Qed.

Lemma unused_fresh rid s : unused rid s -> fresh_run rid (lane (sy_ctl s)).
Proof. intros (H1 & H2 & _). by split. Qed.

Lemma trigger_dispatched e name c r c' :
  trigger_run cfg e name c = (Ok (Dispatched r), c') -> r = io_uuid e 0 /\ lane c' = lane c.
Proof.
  unfold trigger_run. intros H. apply bind_ok_inv in H as (p & c1 & E1 & H). apply get_c_state in E1.
  assert (forall c1 c', (let* ok := submit cfg in if ok then ret (Dispatched (io_uuid e 0))
                         else throw ExecutorOverloadError) c1 = (Ok (Dispatched r), c') ->
          r = io_uuid e 0 /\ lane c' = lane c1) as Hgo.
  { clear. intros c1 c'. unfold submit, bind, gets, modify, ret, throw.
    destruct (Z.max 1 (se_queue_ceiling cfg) <=? ct_pending c1); intros; by simplify_eq/=. }
  revert H. rewrite <- E1. repeat case_bool_decide; try done. destruct (negb _); [apply Hgo|].
  unfold bind at 1, gets at 1. destruct (get_active_queued_run_for_pipeline name (lane (id c1))) as [[q row]|].
  { intros H'. apply bind_ok_inv in H' as (u & c2 & _ & H'). unfold ret in H'. by simplify_eq. }
  destruct (healthy_workers _); [|apply Hgo].
  intros H'. apply bind_ok_inv in H' as ([] & c2 & _ & H'); unfold ret in H'; [by simplify_eq|].
  apply bind_ok_inv in H' as ([[q row]|] & c3 & _ & H'); unfold ret, throw in H'; by simplify_eq.
Qed.

Lemma trigger_sinv e name flush s :
  sinv s -> unused (io_uuid e 0) s ->
  drun cfg (fresh e) (sy_ctl s) (sy_ctl (trigger cfg e name flush s)) /\ sinv (trigger cfg e name flush s).
Proof.
  intros Hs Hu. unfold trigger. destruct (trigger_run cfg e name (sy_ctl s)) as [r c] eqn:E.
  assert (drun cfg (fresh e) (sy_ctl s) c) as Hr.
  { pose proof (trigger_run_step cfg (fresh e) e name (sy_ctl s) eq_refl (proj1 Hu)) as H. by rewrite E in H. }
  split; [exact Hr|].
  assert (sinv (mkSys c (sy_threads s) (sy_recon s) (sy_placer s))) as Hs'.
  { eapply sinv_ctl; [done|exact Hr|]. intros i t rid Hi Hrid. by eapply unused_thread. }
  destruct r as [[rid|rid]|x]; try exact Hs'. apply trigger_dispatched in E as [-> El].
  destruct Hs' as [H1 H2 H3]. split; [exact H1| |].
  - intros i t Hi. simpl in Hi. apply lookup_app_Some in Hi as [Hi|[_ Hi]]; [by eapply H2|].
    apply list_lookup_singleton_Some in Hi as [_ <-]. simpl. rewrite El. by apply unused_fresh.
  - intros i j t u rid Hi Hj Ht Hu'. simpl in Hi, Hj.
    apply lookup_app_Some in Hi as [Hi|[Hi1 Hi]]; apply lookup_app_Some in Hj as [Hj|[Hj1 Hj]].
    + by eapply H3.
    + apply list_lookup_singleton_Some in Hj as [_ <-]. simplify_eq/=.
      by destruct (unused_thread _ _ _ _ _ Hu Hi Ht).
    + apply list_lookup_singleton_Some in Hi as [_ <-]. simplify_eq/=.
      by destruct (unused_thread _ _ _ _ _ Hu Hj Hu').
    + apply list_lookup_singleton_Some in Hi as [? _]. apply list_lookup_singleton_Some in Hj as [? _]. lia.
Qed.

Lemma thread_ready e s tid t :
  sinv s -> unused (io_uuid e 0) s -> sy_threads s !! tid = Some t ->
  pc_ready (fun rid => claimed_run e (th_pc t) = Some rid) e (th_pc t) (sy_ctl s).
Proof.
  intros Hs Hu Ht. pose proof (si_threads _ Hs _ _ Ht) as Hh. destruct (th_pc t) as [? [?|] ? ?| | | | | | |];
    simpl in *; tauto.
Qed.

Lemma batch_step_returns e tid pc c : exists pc' c', batch_step cfg e tid pc c = (Ok pc', c').
Proof.
  unfold batch_step, catch. match goal with |- context [?m c] => destruct (m c) as [[?|?] ?] end; by eexists _, _.
Qed.

Lemma thread_sinv e tid s :
  sinv s -> unused (io_uuid e 0) s ->
  drun cfg (minted e (AThread tid) s) (sy_ctl s) (sy_ctl (run_thread cfg e tid s)) /\ sinv (run_thread cfg e tid s).
Proof.
  intros Hs Hu. unfold run_thread. destruct (sy_threads s !! tid) as [t|] eqn:Ht; [|by split; [reflexivity|]].
  pose proof (batch_step_run cfg _ e tid (th_pc t) (sy_ctl s) (thread_ready e s tid t Hs Hu Ht)) as Hr.
  destruct (batch_step_returns e tid (th_pc t) (sy_ctl s)) as (pc' & c' & E). rewrite E in *. cbn [snd] in Hr.
  set (c2 := match th_pc t with BFinally _ => _ | _ => _ end).
  assert (lane c2 = lane c' /\ db c2 = db c') as [El Ed].
  { subst c2. destruct (th_pc t); try done. by destruct (th_submitted t). }
  assert (linv (led (lane c'))) as Hl' by (eapply run_linv; [exact Hr|apply Hs]).
  assert (forall i u rid, i <> tid -> sy_threads s !! i = Some u -> pc_run (th_pc u) = Some rid ->
            claimed_run e (th_pc t) <> Some rid) as Hother.
  { intros i u rid Hne Hi Hrid Hc. apply Hne. destruct (th_pc t) as [? [?|] ? ?| | | | | | |] eqn:Et; simplify_eq/=;
      try (eapply (si_distinct _ Hs); [exact Hi|exact Ht|exact Hrid|by rewrite Et]).
    by destruct (unused_thread _ _ _ _ _ Hu Hi Hrid). }
  destruct (batch_step_holds cfg e tid (th_pc t) (sy_ctl s) pc' c' E) as [Hh Hrun];
    [apply Hs|intros; by apply unused_fresh|by eapply (si_threads _ Hs)|exact Hr|done|].
  split.
  { etrans; [|by apply drun_db]. eapply drun_mono; [|exact Hr]. intros rid Hrid. unfold minted.
    destruct (th_pc t) as [? [?|] ? ?| | | | | | |] eqn:Et; simplify_eq/=;
      try (right; exists tid, t; by rewrite Et). by left. }
  assert (forall pc, holds pc c' -> holds pc c2) as Hc2.
  { intros pc. unfold holds, own_attempt. by rewrite El. }
  split; cbn [sy_ctl sy_threads].
  - by rewrite El.
  - intros i u Hi. apply Hc2. apply list_lookup_insert_Some in Hi as [(-> & <- & _)|[Hne Hi]]; [done|].
    eapply holds_frame; [exact Hr|done| |by eapply (si_threads _ Hs)]. intros rid Hrid. by eapply Hother.
  - intros i j u v rid Hi Hj Hui Hvj.
    apply list_lookup_insert_Some in Hi as [(-> & <- & _)|[Hne Hi]];
      apply list_lookup_insert_Some in Hj as [(-> & <- & _)|[Hne' Hj]]; [done| | |by eapply (si_distinct _ Hs)];
      simpl in *; destruct Hrun as [Hrun|Hrun]; try congruence; exfalso.
    + eapply Hother; [|exact Hj|exact Hvj|]; congruence.
    + eapply Hother; [|exact Hi|exact Hui|]; congruence.
Qed.

Lemma ctl_sinv {A} (m : C A) e a s :
  (forall T, keeps (drun cfg T) m) -> sinv s -> unused (io_uuid e 0) s ->
  drun cfg (minted e a s) (sy_ctl s) (sy_ctl (run_ctl m s)) /\ sinv (run_ctl m s).
Proof.
  intros Hm Hs Hu. split; [apply Hm|]. apply (sinv_ctl (fresh e) s); [done|apply Hm|].
  intros i t rid Hi Hrid. by eapply unused_thread.
Qed.

Lemma step_sinv e a s :
  sinv s -> unused (io_uuid e 0) s ->
  drun cfg (minted e a s) (sy_ctl s) (sy_ctl (step cfg load e a s)) /\ sinv (step cfg load e a s).
Proof.
  intros Hs Hu. destruct a; cbn [step];
    try (apply ctl_sinv; [|done|done]; intros T;
      first [apply keeps_register_pipeline|apply keeps_update|apply keeps_delete|apply keeps_start|apply keeps_stop
            |apply keeps_restart|apply keeps_rollback|apply keeps_deliver|apply keeps_audit|apply keeps_report
            |apply keeps_silent; done]).
  - destruct (trigger_sinv e name flush s Hs Hu) as [Hr Hs']. split; [|done].
    eapply drun_mono; [|exact Hr]. intros r ->. by left.
  - case_bool_decide; [|by split; [reflexivity|]]. split; [reflexivity|]. destruct Hs as [H1 H2 H3].
    assert (forall i t, (sy_threads s ++ [mkThread false (BClaim name None false false)]) !! i = Some t ->
              sy_threads s !! i = Some t \/ pc_run (th_pc t) = None) as Hcase.
    { intros i t Hi. apply lookup_app_Some in Hi as [Hi|[_ Hi]]; [by left|].
      apply list_lookup_singleton_Some in Hi as [_ <-]. by right. }
    split; [exact H1| |].
    + intros i t Hi. apply lookup_app_Some in Hi as [Hi|[_ Hi]]; [by eapply H2|].
      by apply list_lookup_singleton_Some in Hi as [_ <-].
    + intros i j t u rid Hi Hj Ht Hu'. destruct (Hcase _ _ Hi) as [?|?]; [|simpl in *; congruence].
      destruct (Hcase _ _ Hj) as [?|?]; [by eapply H3|simpl in *; congruence].
  - by apply thread_sinv.
  - unfold run_recon. pose proof (fun T => keeps_reconcile cfg T query e (sy_recon s) (sy_ctl s)) as Hk.
    destruct (reconcile cfg query e (sy_recon s) (sy_ctl s)) as [r c]. simpl in Hk. split; [apply Hk|].
    apply (sinv_ctl (fresh e) s); [done|apply Hk|]. intros i t rid Hi Hrid. by eapply unused_thread.
  - unfold run_placer. pose proof (fun T => keeps_placements cfg T e seen (sy_placer s) (sy_ctl s)) as Hk.
    destruct (reconcile_placements cfg e seen (sy_placer s) (sy_ctl s)) as [r c]. simpl in Hk. split; [apply Hk|].
    apply (sinv_ctl (fresh e) s); [done|apply Hk|]. intros i t rid Hi Hrid. by eapply unused_thread.
  - pose proof (fun T => boot_step cfg T load query e p (sy_ctl s)) as Hk. split; [apply Hk|].
    split; simpl; [eapply run_linv; [apply (Hk (fun _ => False))|apply Hs]| |]; [by intros ? ? ?|by intros ? ? ? ? ? ?].
Qed.

Lemma reach_sinv s : reach cfg load s -> sinv s.
Proof.
  induction 1 as [node p interval|e a s _ IH Hu]; [|by apply step_sinv].
  split; simpl; [apply linv_empty| |]; [by intros ? ? ?|by intros ? ? ? ? ? ?].
Qed.
End system.
End ManagerSafety.
