(* ===== verification/ManagerDemo.v ===== *)
(** * Runs of the manager on concrete inputs

    One or two workers, a manual pipeline p, an interval pipeline q and a
    stream s; a run is a list of actions with the inputs of each. *)

From Stdlib Require Import ZArith Lia Ascii String.
From stdpp Require Import base tactics list strings gmap option relations.
From S2P Require Import Prelude CtlMonad PyStr IsoTime Ledger LedgerLane LedgerSafety Accounting WorkerPool Manager Controller BatchLane BootLane Reconciler ManagerSystem.
Import stdpp.list.

#[local] Open Scope Z_scope.
#[local] Open Scope list_scope.

Module ManagerDemo.
Import CtlMonad IsoTime Ledger LedgerLane LedgerSafety Accounting StatsStore WorkerPool Manager Controller.
Import BatchLane BootLane Reconciler ManagerSystem.

(** ** Reachable states by evaluation *)

Definition unusedb (rid : string) (s : sys) : bool :=
  (match queue (lane (sy_ctl s)) !! rid with Some _ => false | None => true end
   && forallb (fun kv : string * attempt => negb (String.eqb (at_run_id kv.2) rid))
        (map_to_list (attempts (led (lane (sy_ctl s)))))
   && forallb (fun t => negb (bool_decide (pc_run (th_pc t) = Some rid))) (sy_threads s))%bool.

Lemma unusedb_spec rid s : unusedb rid s = true -> unused rid s.
Proof.
  unfold unusedb. rewrite !andb_true_iff, !forallb_forall. intros [[Hq Ha] Ht]. split_and!.
  - by destruct (queue _ !! rid).
  - intros aid x Hx Hr. assert ((aid, x) ∈ map_to_list (attempts (led (lane (sy_ctl s))))) as Hin
      by by apply elem_of_map_to_list.
    apply list_elem_of_In, Ha in Hin. simpl in Hin. by rewrite Hr, String.eqb_refl in Hin.
  - apply Forall_forall. intros t Hin Hr. apply list_elem_of_In, Ht in Hin.
    by rewrite bool_decide_true in Hin.
Qed.

Fixpoint trace (cfg : settings) (load : string -> option PipelineConfig) (l : list (io * action)) (s : sys) : sys :=
  match l with
  | [] => s
  | (e, a) :: l' => trace cfg load l' (step cfg load e a s)
  end.

Fixpoint trace_ok (cfg : settings) (load : string -> option PipelineConfig) (l : list (io * action)) (s : sys) : bool :=
  match l with
  | [] => true
  | (e, a) :: l' => (unusedb (io_uuid e 0) s && trace_ok cfg load l' (step cfg load e a s))%bool
  end.

Lemma trace_reach cfg load l : forall s,
  reach cfg load s -> trace_ok cfg load l s = true -> reach cfg load (trace cfg load l s).
Proof.
  induction l as [|[e a] l IH]; intros s Hs; simpl; [done|]. intros [Hu Hl]%andb_true_iff.
  apply IH; [|done]. by apply reach_step; [|apply unusedb_spec].
Qed.

(** ** The inputs *)

Definition demo_pool : pool_config := mkPoolConfig "http://m" 30 2 2 600 600 5.
Definition demo_cfg : settings := mkSettings "http://m" "mgr" true 900 1 100 2 true true 30 demo_pool.

Definition one : WorkersConfig := mkWorkers (Some (Count 1)) None.

Definition demo_load (yaml : string) : option PipelineConfig :=
  match yaml with
  | "p" | "p2" => Some (mkConfig "p" true ManualSchedule one [])
  | "q" | "q2" => Some (mkConfig "q" true IntervalSchedule one [])
  | "s" => Some (mkConfig "s" true StreamSchedule one [])
  | _ => None
  end%string.

Definition demo_config (yaml : string) : PipelineConfig :=
  default (mkConfig "" false ManualSchedule one []) (demo_load yaml).

(** A pool of healthy workers and one without any. *)
Definition workers (urls : list string) (up : bool) : pool :=
  mkPool urls ((fun u => (u, mkHealth up 0 [] 0)) <$> urls) ∅ ∅ ∅ ∅ ∅ ∅ ∅ ∅ 0 ∅.

Definition up : pool := workers ["http://w1"; "http://w2"]%string true.
Definition down : pool := workers ["http://w1"; "http://w2"]%string false.

(** The inputs of the [k]-th action: every worker accepts, none reports a run. *)
Definition at_ (k : Z) : io :=
  mkIo (k * 1000000) (fun i => ("run" ++ py_str k ++ "." ++ py_str (Z.of_nat i))%string) "abcdef" "fence"
    (fun _ _ => None) (fun _ => Some (mkWorkerStatus [] [])).

Definition no_reply (url aid : string) : option attempt_reply := None.

Definition demo_init (p : pool) : sys := initial "mgr" p 30.

Fixpoint timed (k : Z) (l : list action) : list (io * action) :=
  match l with [] => [] | a :: l' => (at_ k, a) :: timed (k + 1) l' end.

Definition demo_run (p : pool) (l : list action) : sys := trace demo_cfg demo_load (timed 1 l) (demo_init p).
Definition demo_ok (p : pool) (l : list action) : bool := trace_ok demo_cfg demo_load (timed 1 l) (demo_init p).

Lemma demo_reach p l : demo_ok p l = true -> reach demo_cfg demo_load (demo_run p l).
Proof. apply trace_reach, reach_init. Qed.

Definition register_p : action := ARegister (demo_config "p") "p" "api".
Definition register_q : action := ARegister (demo_config "q") "q" "api".

(** The body of a completion. *)
Definition body (status : string) : completion :=
  mkCompletion status 3 3 0 10 10 None [] None None 0 0 0 0 [] [].

Definition status_of_p (name : string) (s : sys) : option pipeline_status :=
  ps_status <$> aget name (m_pipelines (ct_manager (sy_ctl s))).
End ManagerDemo.
