(* ===== verification/ManagerLaws.v ===== *)
(** * What the manager guarantees

    The properties of every reachable state of [ManagerSystem]: the refinement
    of the database's rules, one live attempt and one open queued run per
    pipeline, the life cycle of queued runs, final results and the bound of
    the executor. *)

From Stdlib Require Import ZArith Lia Ascii String.
From stdpp Require Import base tactics list strings gmap option relations.
From S2P Require Import Prelude CtlMonad PyStr IsoTime Ledger LedgerLane LedgerSafety Accounting WorkerPool WorkerPoolLaws Manager Controller BatchLane BootLane Reconciler Placements ManagerSystem ManagerRel ManagerSafety ManagerDemo.
Import stdpp.list.

#[local] Open Scope Z_scope.
#[local] Open Scope list_scope.

Module ManagerLaws.
Import CtlMonad IsoTime Ledger LedgerLane LedgerSafety Accounting StatsStore WorkerPool Manager Controller.
Import BatchLane BootLane Reconciler Placements ManagerSystem ManagerRel ManagerSafety ManagerDemo.

(** ** The life cycle of a queued run *)

Inductive qstep : queued_run -> queued_run -> Prop :=
| QClaims r : q_status r = QQueued -> qstep r (set_q_status QDispatching r)
| QReverts r : q_status r = QDispatching -> qstep r (set_q_status QQueued r)
| QExpires r : q_status r = QQueued -> qstep r (set_q_status QExpired r)
| QDispatches now r : q_status r = QDispatching ->
    qstep r (mkQueued (q_pipeline r) (q_yaml_snapshot r) QDispatched (q_requested_at r) (q_expires_at r) (Some now)
               (q_terminal_reason r))
| QCancels why r : q_open r = true -> qstep r (cancel_row why r).

(** What was asked for. *)
Definition asked (r : queued_run) : string * string * string * string :=
  (q_pipeline r, q_yaml_snapshot r, q_requested_at r, q_expires_at r).

Lemma qstep_asked r r' : qstep r r' -> asked r' = asked r /\ q_open r = true.
Proof. destruct 1 as [r H|r H|r H|now r H|why r H]; (split; [done|]); try exact H; unfold q_open; by rewrite H. Qed.

Lemma qsteps_asked r r' : rtc qstep r r' -> asked r' = asked r /\ (q_open r = false -> r' = r).
Proof.
  induction 1 as [|x y z H _ [IH1 IH2]]; [done|]. apply qstep_asked in H as [E Ho].
  split; [by rewrite IH1|by rewrite Ho].
Qed.

Lemma qsteps_open r r' : rtc qstep r r' -> q_open r' = true -> q_open r = true.
Proof.
  intros H Ho. destruct (q_open r) eqn:E; [done|]. apply qsteps_asked in H as [_ H]. by rewrite <- E, <- H.
Qed.

(** A table update by a step of the life cycle. *)
Lemma tbl_update_qstep p f (m : gmap string queued_run) rid r :
  (forall k x, p k x = true -> qstep x (f x)) -> m !! rid = Some r ->
  exists r', tbl_update p f m !! rid = Some r' /\ rtc qstep r r'.
Proof.
  intros Hf Hr. rewrite lookup_tbl_update, Hr. simpl. eexists. split; [done|].
  destruct (p rid r) eqn:E; [by eapply rtc_once, Hf|done].
Qed.

Lemma q_is_true rid st k r : q_is rid st k r = true -> q_status r = st.
Proof. unfold q_is. intros [_ H]%andb_true_iff. by apply bool_decide_eq_true in H. Qed.

Lemma plain_queue_step o d rid r :
  plain_op o = true -> queue d !! rid = Some r ->
  exists r', queue (lstep o d) !! rid = Some r' /\ rtc qstep r r'.
Proof.
  intros Ho Hr. destruct o; try done; try (exists r; by split); simpl in *;
    apply tbl_update_qstep; try done; intros k x Hp.
  - apply QCancels. by apply andb_true_iff in Hp as [_ Hp].
  - apply QClaims. by eapply q_is_true.
  - apply QReverts. by eapply q_is_true.
  - apply QExpires. by eapply q_is_true.
  - apply QDispatches. by eapply q_is_true.
  - apply QCancels. by apply andb_true_iff in Hp as [_ Hp].
  - apply QReverts. apply andb_true_iff in Hp as [Hp _]. by apply bool_decide_eq_true in Hp.
Qed.

Lemma dstep_queue cfg T d d' rid r :
  dstep cfg T d d' -> queue (d_lane d) !! rid = Some r ->
  exists r', queue (d_lane d') !! rid = Some r' /\ rtc qstep r r'.
Proof.
  intros Hd Hr. destruct Hd; try (exists r; by split).
  - by apply plain_queue_step.
  - exists r. cbn [d_lane with_lane lstep]. by rewrite claim_queue.
  - exists r. simpl. rewrite lookup_insert_ne; [done|]. intros ->. congruence.
  - exists r. by rewrite save_run_lane.
Qed.

Lemma dsteps_queue cfg T d d' rid r :
  rtc (dstep cfg T) d d' -> queue (d_lane d) !! rid = Some r ->
  exists r', queue (d_lane d') !! rid = Some r' /\ rtc qstep r r'.
Proof.
  intros H. revert r. induction H as [|d1 d2 d3 H _ IH]; intros r Hr; [exists r; by split|].
  destruct (dstep_queue _ _ _ _ _ _ H Hr) as (r2 & Hr2 & H12). destruct (IH _ Hr2) as (r3 & Hr3 & H23).
  exists r3. split; [done|]. by etrans.
Qed.

(** A row that was not there was enqueued for a pipeline without an open run. *)
Lemma dstep_new_row cfg T d d' rid r :
  dstep cfg T d d' -> queue (d_lane d) !! rid = None -> queue (d_lane d') !! rid = Some r ->
  T rid /\ q_status r = QQueued /\ no_open_run (q_pipeline r) (d_lane d) /\
  within_budget cfg (q_yaml_snapshot r) (d_lane d) /\
  forall k, k <> rid -> queue (d_lane d') !! k = queue (d_lane d) !! k.
Proof.
  intros Hd Hn Hr. assert (queue (d_lane d') = queue (d_lane d) -> False) as Hne by congruence.
  destruct Hd as [o d Ho| | |rid' name yaml now expires d HT Hq Hop Hb|r0 d| | | | | |];
    try (exfalso; by apply Hne).
  - apply not_elem_of_dom in Hn. apply elem_of_dom_2 in Hr. cbn [d_lane with_lane] in Hr.
    by rewrite plain_dom_queue in Hr.
  - exfalso. apply Hne. cbn [d_lane with_lane lstep]. apply claim_queue.
  - simpl in Hr. destruct (decide (rid' = rid)) as [->|Hk]; [|by rewrite lookup_insert_ne in Hr; congruence].
    rewrite lookup_insert_eq in Hr. simplify_eq/=. split_and!; try done. intros k Hk. by apply lookup_insert_ne.
  - exfalso. apply Hne. by rewrite save_run_lane.
Qed.

Definition one_open (d : mdb) : Prop :=
  forall rid1 r1 rid2 r2, queue d !! rid1 = Some r1 -> queue d !! rid2 = Some r2 ->
    q_open r1 = true -> q_open r2 = true -> q_pipeline r1 = q_pipeline r2 -> rid1 = rid2.

(** An open row of the next state: open before, or new. *)
Lemma dstep_open_row cfg T d d' rid r' :
  dstep cfg T d d' -> queue (d_lane d') !! rid = Some r' -> q_open r' = true ->
  (exists r, queue (d_lane d) !! rid = Some r /\ q_open r = true /\ q_pipeline r = q_pipeline r') \/
  (queue (d_lane d) !! rid = None /\ no_open_run (q_pipeline r') (d_lane d) /\
   forall k, k <> rid -> queue (d_lane d') !! k = queue (d_lane d) !! k).
Proof.
  intros Hd Hr Ho. destruct (queue (d_lane d) !! rid) as [r|] eqn:E.
  - left. destruct (dstep_queue _ _ _ _ _ _ Hd E) as (r2 & Hr2 & Hs). rewrite Hr in Hr2. simplify_eq.
    exists r. split_and!; [done|by eapply qsteps_open|]. apply qsteps_asked in Hs as [Ha _].
    unfold asked in Ha. congruence.
  - right. destruct (dstep_new_row _ _ _ _ _ _ Hd E Hr) as (_ & _ & Hno & _ & Hk). by split_and!.
Qed.

Lemma dstep_one_open cfg T d d' : dstep cfg T d d' -> one_open (d_lane d) -> one_open (d_lane d').
Proof.
  intros Hd Hi rid1 r1 rid2 r2 H1 H2 O1 O2 Hp.
  destruct (dstep_open_row _ _ _ _ _ _ Hd H1 O1) as [(x1 & Hx1 & Ox1 & Px1)|(Hn1 & No1 & Hk1)];
    destruct (dstep_open_row _ _ _ _ _ _ Hd H2 O2) as [(x2 & Hx2 & Ox2 & Px2)|(Hn2 & No2 & Hk2)].
  - eapply Hi; [exact Hx1|exact Hx2|done|done|congruence].
  - specialize (No2 _ _ Hx1). rewrite No2 in Ox1; congruence.
  - specialize (No1 _ _ Hx2). rewrite No1 in Ox2; congruence.
  - destruct (decide (rid1 = rid2)) as [|Hne]; [done|]. rewrite (Hk1 rid2) in H2 by done. congruence.
Qed.

(** ** The history *)

(** What a recorded result says of the run. *)
Definition settled (r : run_result) :=
  (rn_run_id r, rn_pipeline_name r, rn_status r, rn_started_at r, rn_finished_at r,
   (rn_records_in r, rn_records_out r, rn_records_skipped r, rn_bytes_in r, rn_bytes_out r),
   (rn_error r, rn_errors r, rn_dlq_count r, rn_node_id r)).

Lemma dstep_history cfg T d d' rid r :
  dstep cfg T d d' -> get_run rid d = Some r -> exists r', get_run rid d' = Some r' /\ settled r' = settled r.
Proof.
  unfold get_run. intros Hd Hr. destruct Hd; try (exists r; by split).
  - unfold save_run. destruct (d_history d !! rn_run_id r0) eqn:E; [exists r; by split|].
    exists r. split; [|done]. simpl. rewrite lookup_insert_ne; [done|]. intros <-.
    destruct (String.eqb _ _) in Hr; simpl in Hr; by rewrite E in Hr.
  - simpl. destruct (d_history d !! rid) as [h|] eqn:E; [|done]. simplify_eq/=.
    destruct (decide (rid0 = rid)) as [->|Hne].
    + eexists. rewrite lookup_alter_eq, E. simpl. split; [done|]. done.
    + exists (hr_result h). rewrite lookup_alter_ne by done. by rewrite E.
Qed.

Lemma dsteps_history cfg T d d' rid r :
  rtc (dstep cfg T) d d' -> get_run rid d = Some r -> exists r', get_run rid d' = Some r' /\ settled r' = settled r.
Proof.
  intros H. revert r. induction H as [|d1 d2 d3 H _ IH]; intros r Hr; [by exists r|].
  destruct (dstep_history _ _ _ _ _ _ H Hr) as (r2 & Hr2 & E2). destruct (IH _ Hr2) as (r3 & Hr3 & E3).
  exists r3. split; [done|congruence].
Qed.

(** ** The executor *)

Definition same_pending (c c' : ctl) : Prop := ct_pending c' = ct_pending c.

#[global] Instance same_pending_preorder : PreOrder same_pending.
Proof. split; unfold same_pending; [done|congruence]. Qed.

Lemma pending_modify (f : ctl -> ctl) : (forall c, ct_pending (f c) = ct_pending c) -> keeps same_pending (E := ctl_exn) (modify f).
Proof. intros H. apply ck_modify. exact H. Qed.

Lemma pending_manager {A} (m : M manager ctl_exn A) : keeps same_pending (on_manager m).
Proof. intros c. unfold on_manager, within. by destruct (m (ct_manager c)). Qed.

Lemma pending_db f : keeps same_pending (on_db f).
Proof. by apply pending_modify. Qed.

Lemma pending_claim a : keeps same_pending (claim a).
Proof. intros c. unfold claim. by destruct (_claim_for_dispatch a (lane c)). Qed.

Lemma pending_dispatch cfg e rid name yaml sch fl a : keeps same_pending (dispatch_run cfg e rid name yaml sch fl a).
Proof. intros c. unfold dispatch_run. by destruct (dispatch_with_result _ _ _ _ _ _ _ _ _ _ _ _). Qed.

Lemma pending_count f : keeps same_pending (lane_count f).
Proof. unfold lane_count. repeat keeps_step. apply pending_db. Qed.

#[local] Hint Resolve pending_manager pending_db pending_claim pending_dispatch pending_count : pend.

Ltac pend :=
  repeat first
    [ keeps_step
    | solve [eauto with pend nocore]
    | solve [apply pending_modify; intros ?; repeat (simpl; try done; split_match)] ].

Lemma pending_stream cfg e config : keeps same_pending (_start_stream cfg e config).
Proof.
  unfold _start_stream, dispatch_stream, _record_broadcast_placement, store_placement, set_status_c, get_c. pend.
  all: intros c; by destruct (multi_dispatch _ _ _ _ _ _ _ _ _ _ _ _ _).
Qed.

Lemma pending_stop_stream e name : keeps same_pending (_stop_stream e name).
Proof. unfold _stop_stream. pend. Qed.

#[local] Hint Resolve pending_stream pending_stop_stream : pend.

Lemma pending_schedule cfg e name : keeps same_pending (_do_schedule cfg e name).
Proof. unfold _do_schedule, _add_job, set_status_c, get_c. pend. Qed.

Lemma pending_stop e name : keeps same_pending (_stop_execution e name).
Proof. unfold _stop_execution, exists_c, get_c, remove_job, set_status_c. pend. Qed.

Lemma pending_recorded e name kind doing done_ failed body :
  keeps same_pending body -> keeps same_pending (recorded e name kind doing done_ failed body).
Proof. intros H. unfold recorded, _record_lifecycle_operation, _complete_lifecycle_operation. pend. Qed.

Lemma pending_lane f : keeps same_pending (on_lane f).
Proof. apply pending_db. Qed.

Lemma pending_ledger f : keeps same_pending (on_ledger f).
Proof. apply pending_db. Qed.

#[local] Hint Resolve pending_schedule pending_stop pending_lane pending_ledger : pend.

Lemma pending_finalize cfg e name r : keeps same_pending (_finalize_batch_result cfg e name r).
Proof.
  unfold _finalize_batch_result, _on_run_complete, exists_c, get_c, set_status_c, _may_schedule. pend.
Qed.

Lemma pending_terminalize e rid o why : keeps same_pending (terminalize_active e rid o why).
Proof. unfold terminalize_active, terminalize. pend. Qed.

#[local] Hint Resolve pending_finalize pending_terminalize : pend.

Lemma pending_worker_complete cfg e rid name w m : keeps same_pending (on_worker_run_complete cfg e rid name w m).
Proof.
  unfold on_worker_run_complete. pend;
    apply pending_modify; intros c; unfold _pop_batch_lease_for_run, _remove_stream_run_id;
    repeat (simpl; try done; split_match).
Qed.

#[local] Hint Resolve pending_worker_complete : pend.

Lemma pending_attempt_complete cfg e aid gen rid name w m :
  keeps same_pending (on_attempt_run_complete cfg e aid gen rid name w m).
Proof. unfold on_attempt_run_complete, terminalize. pend. Qed.

Lemma pending_enqueue cfg e name rid yaml : keeps same_pending (_enqueue_manual_run cfg e name rid yaml).
Proof.
  unfold _enqueue_manual_run, _reject_queue_over_capacity, set_queued, exists_c, set_status_c. cbv zeta. pend.
Qed.

#[local] Hint Resolve pending_attempt_complete pending_enqueue : pend.

Lemma pending_batch_step cfg e tid pc : keeps same_pending (batch_step cfg e tid pc).
Proof.
  unfold batch_step, batch_claim, batch_outcome, batch_commit, end_attempt, terminalize, accept, batch_enqueue,
    batch_finally, exists_c, get_c, remove_job, set_status_c, _record_skipped_manual_run. pend.
Qed.

Lemma pending_recon cfg query e pc : keeps same_pending (reconcile cfg query e pc).
Proof.
  unfold reconcile, recon_step, adopt_active_batch_run, lost_complete, lost_end, expire_queued_run, claim_queued_run,
    commit_queued_dispatch, revert_queued_claim, _retire_cancelled_claim_attempt, accept, pop_lease, exists_c, get_c,
    set_status_c. cbv zeta. pend.
Qed.

Lemma pending_adopt_slot name x : keeps same_pending (adopt_slot name x).
Proof. unfold adopt_slot. pend. Qed.

#[local] Hint Resolve pending_adopt_slot : pend.

Lemma pending_resolve cfg query e op aid x : keeps same_pending (_resolve_attempt_at_boot cfg query e op aid x).
Proof.
  unfold _resolve_attempt_at_boot, record_completed_lifecycle_operation, _record_lifecycle_operation,
    _complete_lifecycle_operation, _record_adoption_completion_history, _adopt_active_attempt_lease, terminalize,
    exists_c, set_status_c. cbv zeta. pend.
Qed.

Lemma pending_boot cfg load query e : keeps same_pending (_boot_load cfg load query e).
Proof.
  assert (forall l i, keeps same_pending (resolve_all cfg query e i l)) as Hall.
  { induction l as [|[aid x] l IH]; intros i; simpl; [pend|]. keeps_step; [|apply IH].
    keeps_step; [apply pending_resolve|pend]. }
  unfold _boot_load, _resolve_non_terminal_attempts_at_boot, boot_pipeline, _restore_broadcast_placement,
    _adopt_live_stream_if_any, _materialize_placement_from_adoption, store_placement, set_status_c. pend; apply Hall.
Qed.

Lemma pending_stats e p : keeps same_pending (on_pipeline_stats e p).
Proof.
  assert (forall group rid l, keeps same_pending (stats_slots group rid l)) as Hs.
  { intros group rid l. induction l as [|x l IH]; simpl; [pend|]. unfold stats_slot, db_count. pend; exact IH. }
  unfold on_pipeline_stats, _update_broadcast_placement_status, persist, exists_c, set_status_c. pend; apply Hs.
Qed.

#[local] Hint Resolve pending_stats : pend.

Lemma pending_placements cfg e seen m : keeps same_pending (reconcile_placements cfg e seen m).
Proof.
  unfold reconcile_placements, place_step, live_slot, quiet_slot, unplaced_step, pipeline_config_sha, drift_begin,
    update_placement_slot, redispatch_claim, redispatch_commit, _update_broadcast_placement_status,
    adopt_unplaced_stream_bookkeeping, recover_unplaced_stream, _materialize_placement_from_adoption, store_placement,
    persist, exists_c, get_c, set_status_c, _may_schedule. cbv zeta. pend.
  all: intros c; unfold redispatch_send; by destruct (dispatch_to_worker _ _ _ _ _ _ _ _ _ _ _).
Qed.

(** The programs that run whole under the lock. *)
Definition locked (cfg : settings) (load : string -> option PipelineConfig) (e : io) (a : action) : option (C unit) :=
  match a with
  | ARegister config yaml source => Some (register_pipeline cfg e config yaml source)
  | AUpdate name yaml => Some (update cfg load e name yaml)
  | ADelete name => Some (delete_ e name)
  | AStart name => Some (do* start_pipeline cfg e name in ret tt)
  | AStop name => Some (stop_pipeline e name)
  | ARestart name => Some (restart_pipeline cfg e name)
  | ARollback name v => Some (do* rollback_pipeline load e name v in ret tt)
  | ACallback m => Some (deliver cfg e m)
  | APool f => Some (modify (with_pool f))
  | AReport final p => Some (report e final p)
  | AAudit => Some (audit cfg e)
  | _ => None
  end.

Lemma void_state {A} (m : C A) c : ((do* m in ret tt) c).2 = (m c).2.
Proof. unfold bind, ret. by destruct (m c) as [[a|x] c']. Qed.

Lemma step_locked cfg load e a m s :
  locked cfg load e a = Some m -> step cfg load e a s = mkSys (m (sy_ctl s)).2 (sy_threads s) (sy_recon s) (sy_placer s).
Proof. destruct a; intros; simplify_eq/=; unfold run_ctl; by rewrite ?void_state. Qed.

Lemma pending_locked cfg load e a m : locked cfg load e a = Some m -> keeps same_pending m.
Proof.
  destruct a; intros; simplify_eq/=;
    unfold register_pipeline, update, delete_, start_pipeline, stop_pipeline, restart_pipeline, rollback_pipeline,
      deliver, audit, report, cancel_queued, bump, drop_transform_state, pop_lease, remove_job, get_c, set_status_c, _may_schedule;
    pend; apply pending_recorded; pend.
Qed.

(** The submitted tasks that have not ended. *)
Definition pending_task (t : thread) : bool :=
  (th_submitted t && match th_pc t with BDone => false | _ => true end)%bool.

Definition tasks (ts : list thread) : Z := Z.of_nat (length (List.filter pending_task ts)).

Lemma tasks_app ts t : tasks (ts ++ [t]) = tasks ts + (if pending_task t then 1 else 0).
Proof. unfold tasks. rewrite List.filter_app, length_app. simpl. destruct (pending_task t); simpl; lia. Qed.

Lemma tasks_insert ts tid t u :
  ts !! tid = Some t ->
  tasks (<[tid := u]> ts) + (if pending_task t then 1 else 0) = tasks ts + (if pending_task u then 1 else 0).
Proof.
  unfold tasks. revert tid. induction ts as [|x ts IH]; intros [|tid] H; simplify_eq/=.
  - destruct (pending_task t), (pending_task u); simpl; lia.
  - specialize (IH _ H). destruct (pending_task x); simpl; lia.
Qed.

Lemma tasks_pending ts tid t : ts !! tid = Some t -> pending_task t = true -> 1 <= tasks ts.
Proof.
  unfold tasks. revert tid. induction ts as [|x ts IH]; intros [|tid] H Ht; simplify_eq/=.
  - rewrite Ht. simpl. lia.
  - specialize (IH _ H Ht). destruct (pending_task x); simpl; lia.
Qed.

(** A thread ends in its finally block only. *)
Lemma batch_step_done cfg e tid pc c pc' c' :
  batch_step cfg e tid pc c = (Ok pc', c') ->
  match pc with BFinally _ | BDone => pc' = BDone | _ => pc' <> BDone end.
Proof.
  assert (forall (A : Type) (m : C A) k p c c', bind m k c = (Ok p, c') -> (forall a c c', k a c <> (Ok BDone, c')) -> p <> BDone) as Hb.
  { intros A m k p c0 c1 H Hk ->. apply bind_ok_inv in H as (a & u & _ & H). by eapply Hk. }
  unfold batch_step, catch. intros H.
  destruct pc as [name rid m f|b|b o|b|b why|name r|name|]; cbn [pc_pipeline] in H;
    try (unfold batch_finally, bind, modify, ret in H; by simplify_eq/=).
  all: match type of H with context [match ?m ?c0 with _ => _ end] =>
         destruct (m c0) as [[p|x] c1] eqn:E end; unfold ret in H; simplify_eq/=; try done.
  - intros ->. apply (f_equal fst) in E. revert E. unfold batch_claim.
    unfold bind at 1, exists_c at 1, gets at 1. destruct (exists_ _ _); simpl; [|done].
    unfold bind, ret. repeat (simpl; try done; split_match).
  - eapply Hb; [exact E|]. by intros a ? ?.
  - revert E. unfold batch_outcome.
    destruct (do_outcome o); [|destruct (_ && _)%bool|]; intros E; (eapply Hb; [exact E|]; by intros ? ? ?).
  - revert E. unfold batch_enqueue, catch.
    destruct (bind _ _ c) as [[p|x] c2] eqn:E2; unfold ret, throw; intros; simplify_eq.
    + eapply Hb; [exact E2|]. by intros ? ? ?.
    + by destruct x; simplify_eq.
  - eapply Hb; [exact E|]. by intros ? ? ?.
  - eapply Hb; [exact E|]. by intros ? ? ?.
Qed.

Definition executor_ok (cfg : settings) (s : sys) : Prop :=
  ct_pending (sy_ctl s) = tasks (sy_threads s) /\ ct_pending (sy_ctl s) <= Z.max 1 (se_queue_ceiling cfg).

Lemma trigger_pending cfg e name c r c' :
  trigger_run cfg e name c = (r, c') ->
  match r with
  | Ok (Dispatched _) => ct_pending c' = ct_pending c + 1 /\ ct_pending c < Z.max 1 (se_queue_ceiling cfg)
  | _ => ct_pending c' = ct_pending c
  end.
Proof.
  assert (forall rid c c' r, (let* ok := submit cfg in if ok then ret (Dispatched rid) else throw ExecutorOverloadError) c
            = (r, c') -> match r with
                         | Ok (Dispatched _) => ct_pending c' = ct_pending c + 1 /\ ct_pending c < Z.max 1 (se_queue_ceiling cfg)
                         | _ => ct_pending c' = ct_pending c end) as Hgo.
  { clear. intros rid c c' r. unfold submit, bind, gets, modify, ret, throw.
    destruct (Z.max 1 (se_queue_ceiling cfg) <=? ct_pending c) eqn:E; intros; simplify_eq/=; [done|lia]. }
  unfold trigger_run, get_c. unfold bind at 1. pose proof (pending_manager (get_ name) c) as Hp.
  destruct (on_manager (get_ name) c) as [[p|x] c1]; unfold same_pending in Hp; simpl in Hp; [|intros; by simplify_eq].
  rewrite <- Hp. case_bool_decide; [unfold throw; intros; by simplify_eq|].
  case_bool_decide; [unfold throw; intros; by simplify_eq|]. destruct (negb _); [apply Hgo|].
  unfold bind at 1, gets at 1. destruct (get_active_queued_run_for_pipeline name (lane (id c1))) as [[q row]|].
  { intros E. assert (keeps same_pending (do* set_queued name in ret (QueuedAs q))) as Hk
      by (unfold set_queued, exists_c, set_status_c; pend).
    specialize (Hk c1). unfold bind, ret in *. destruct (set_queued name c1) as [[u|x] c2]; by simplify_eq/=. }
  destruct (healthy_workers _); [|apply Hgo]. intros E. unfold bind at 1 in E.
  pose proof (pending_enqueue cfg e name (io_uuid e 0) (default ""%string (ps_yaml_text p)) (id c1)) as Hk.
  destruct (_enqueue_manual_run _ _ _ _ _ _) as [[[]|x] c2]; unfold ret in E; simplify_eq/=; try exact Hk.
  unfold bind, gets, ret, throw in E. destruct (get_active_queued_run_for_pipeline name (lane c2)) as [[q row]|];
    by simplify_eq/=.
Qed.

Lemma executor_step cfg load e a s : executor_ok cfg s -> executor_ok cfg (step cfg load e a s).
Proof.
  intros [He Hb]. destruct (locked cfg load e a) as [m|] eqn:El.
  { rewrite (step_locked _ _ _ _ _ _ El). pose proof (pending_locked _ _ _ _ _ El (sy_ctl s)) as Hm.
    unfold executor_ok, same_pending in *. simpl. by rewrite Hm. }
  destruct a; try done; cbn [step].
  - unfold trigger. destruct (trigger_run cfg e name (sy_ctl s)) as [r c] eqn:E. apply trigger_pending in E.
    unfold executor_ok. destruct r as [[rid|rid]|x]; simpl; rewrite ?tasks_app; simpl; lia.
  - case_bool_decide; [|done]. unfold executor_ok. simpl. rewrite tasks_app. simpl. lia.
  - unfold run_thread. destruct (sy_threads s !! tid) as [t|] eqn:Ht; [|done].
    pose proof (pending_batch_step cfg e tid (th_pc t) (sy_ctl s)) as Hp.
    destruct (batch_step_returns cfg e tid (th_pc t) (sy_ctl s)) as (pc' & c' & E). rewrite E in Hp |- *.
    apply batch_step_done in E. unfold executor_ok, same_pending in *. cbn [sy_ctl sy_threads snd] in *.
    pose proof (tasks_insert _ _ _ (mkThread (th_submitted t) pc') Ht) as Hi.
    pose proof (tasks_pending _ _ _ Ht) as Hpos. unfold pending_task in Hi, Hpos. simpl in Hi.
    destruct (th_pc t), (th_submitted t); simpl in *; subst; try destruct pc'; simpl in *; try done; lia.
  - unfold run_recon. pose proof (pending_recon cfg query e (sy_recon s) (sy_ctl s)) as Hp.
    destruct (reconcile cfg query e (sy_recon s) (sy_ctl s)) as [r c]. unfold executor_ok, same_pending in *.
    simpl in *. by rewrite Hp.
  - unfold run_placer. pose proof (pending_placements cfg e seen (sy_placer s) (sy_ctl s)) as Hp.
    destruct (reconcile_placements cfg e seen (sy_placer s) (sy_ctl s)) as [r c]. unfold executor_ok, same_pending in *.
    simpl in *. by rewrite Hp.
  - pose proof (pending_boot cfg load query e (fresh_ctl (db (sy_ctl s)) p (st_interval (ct_stats (sy_ctl s))))) as Hp.
    unfold executor_ok, same_pending in *. cbn [sy_ctl sy_threads]. unfold boot. rewrite Hp. unfold tasks. simpl. lia.
Qed.

(** ** Properties *)

Section properties.
Context (cfg : settings) (load : string -> option PipelineConfig).

Lemma step_run e a s :
  reach cfg load s -> unused (io_uuid e 0) s -> drun cfg (minted e a s) (sy_ctl s) (sy_ctl (step cfg load e a s)).
Proof. intros Hs Hu. apply (step_sinv cfg load e a s (reach_sinv cfg load s Hs) Hu). Qed.


Lemma reach_one_open s : reach cfg load s -> one_open (lane (sy_ctl s)).
Proof.
  induction 1 as [node p interval|e a s Hs IH Hu]; [by intros ? ? ? ? ?|].
  pose proof (step_run e a s Hs Hu) as Hr. unfold drun, lane in *.
  induction Hr as [|d1 d2 d3 H _ IHr]; [done|]. by apply IHr, (dstep_one_open _ _ _ _ H).
Qed.

(** C17: every reachable state is well formed.  Each attempt row is filed under
    the id minted from its run and ordinal, a live attempt holds its pipeline's
    guard and a guard's holder is an attempt of that pipeline that has not
    ended; the run of a batch thread is in no queued row, has no attempt before
    its claim, and from the claim on the row under its attempt id, if any, is
    its own; no two threads work for the same run. *)
Theorem system_well_formed s : reach cfg load s -> sinv s.
Proof. apply reach_sinv. Qed.

(** C6: with batch threads, the reconciler, callbacks, operators and restarts
    interleaved in any order, two attempts of the same pipeline that are both
    claimed, dispatching or running are the same attempt, and the pipeline's
    guard is held by it. *)
Theorem manager_single_live_attempt s aid1 x1 aid2 x2 :
  reach cfg load s ->
  let l := led (lane (sy_ctl s)) in
  attempts l !! aid1 = Some x1 -> live x1 -> attempts l !! aid2 = Some x2 -> live x2 ->
  at_pipeline x1 = at_pipeline x2 ->
  aid1 = aid2 /\ exists g, guards l !! at_pipeline x1 = Some g /\ g_attempt_id g = Some aid1.
Proof.
  intros Hs l H1 L1 H2 L2 Hp. pose proof (li_live _ (si_ledger _ (reach_sinv cfg load s Hs))) as Hlive. fold l in Hlive.
  destruct (Hlive _ _ H1 L1) as (g1 & Hg1 & Ha1 & _). destruct (Hlive _ _ H2 L2) as (g2 & Hg2 & Ha2 & _).
  split; [|by exists g1]. rewrite Hp, Hg2 in Hg1. congruence.
Qed.

(** C11: a pipeline has at most one queued run that is still open (queued or
    being dispatched), in every reachable state. *)
Theorem one_open_queued_run s rid1 r1 rid2 r2 :
  reach cfg load s ->
  queue (lane (sy_ctl s)) !! rid1 = Some r1 -> queue (lane (sy_ctl s)) !! rid2 = Some r2 ->
  q_open r1 = true -> q_open r2 = true -> q_pipeline r1 = q_pipeline r2 -> rid1 = rid2.
Proof. intros Hs. apply (reach_one_open s Hs). Qed.

(** C10: a queued run is never lost or rewritten.  Whatever action follows, its
    row is there with the pipeline, configuration text and times it was asked
    for with, its status has moved along the life cycle only (queued and
    dispatching alternate; dispatched, expired and cancelled are ends), and a
    row at an end does not change at all. *)
Theorem queued_run_life_cycle e a s rid r :
  reach cfg load s -> unused (io_uuid e 0) s -> queue (lane (sy_ctl s)) !! rid = Some r ->
  exists r', queue (lane (sy_ctl (step cfg load e a s))) !! rid = Some r' /\ rtc qstep r r' /\ asked r' = asked r /\
    (q_open r = false -> r' = r).
Proof.
  intros Hs Hu Hr. destruct (dsteps_queue _ _ _ _ _ _ (step_run e a s Hs Hu) Hr) as (r' & Hr' & Hq).
  exists r'. split; [done|]. split; [done|]. by apply qsteps_asked.
Qed.


(** The batch executor is bounded: in every reachable state its count is
    the number of submitted tasks that have not ended, and at most the ceiling
    (at least 1). *)
Theorem executor_bounded s :
  reach cfg load s ->
  ct_pending (sy_ctl s) = tasks (sy_threads s) /\ tasks (sy_threads s) <= Z.max 1 (se_queue_ceiling cfg).
Proof.
  intros Hs. assert (executor_ok cfg s) as [H1 H2]; [|by rewrite <- H1].
  induction Hs as [node p interval|e a s _ IH _]; [|by apply executor_step].
  split; [done|]. simpl. lia.
Qed.
End properties.

(** ** Concrete runs *)

(** A run of p is queued while no worker is up, then drained to a worker. *)
Definition queued_p : list action := [register_p; ATrigger "p" false].
Definition passes (n : nat) : list action := replicate n (AReconcile no_reply).
Definition drained_p : list action := queued_p ++ APool (fun _ => up) :: passes 8.


Definition claiming_p : list action := [register_p; ATrigger "p" false; AThread 0].

Lemma system_well_formed_witness : sinv (demo_run up claiming_p).
Proof. apply (system_well_formed demo_cfg demo_load). apply demo_reach. vm_compute. reflexivity. Defined.

Definition started_p : list action := [register_p; ATrigger "p" false; AThread 0; AThread 0; AThread 0].

Definition running_attempt : attempt :=
  mkAttempt "run2.0" "p" 1 1 "" (Some ""%string) "fence" SRunning (Some "1970-01-01T00:00:03+00:00"%string)
    (Some "1970-01-01T00:00:05+00:00"%string) None None None.

Lemma manager_single_live_attempt_witness :
  let l := led (lane (sy_ctl (demo_run up started_p))) in
  "run2.0-a1"%string = "run2.0-a1"%string /\
  exists g, guards l !! "p"%string = Some g /\ g_attempt_id g = Some "run2.0-a1"%string.
Proof.
  apply (manager_single_live_attempt demo_cfg demo_load (demo_run up started_p) "run2.0-a1" running_attempt
           "run2.0-a1" running_attempt).
  - apply demo_reach. vm_compute. reflexivity.
  - vm_compute. reflexivity.
  - right; right; left.
  - vm_compute. reflexivity.
  - right; right; left.
  - reflexivity.
Defined.

Definition waiting_row : queued_run :=
  mkQueued "p" "p" QQueued "1970-01-01T00:00:02+00:00" "1970-01-01T00:15:02+00:00" None None.

Lemma one_open_queued_run_witness : "run2.0"%string = "run2.0"%string.
Proof.
  apply (one_open_queued_run demo_cfg demo_load (demo_run down queued_p) "run2.0" waiting_row "run2.0" waiting_row);
    try reflexivity; [|vm_compute; reflexivity..].
  apply demo_reach. vm_compute. reflexivity.
Defined.

Lemma queued_run_life_cycle_witness :
  exists r', queue (lane (sy_ctl (step demo_cfg demo_load (at_ 20) (AStop "p") (demo_run down queued_p)))) !! "run2.0"%string
      = Some r' /\ rtc qstep waiting_row r' /\ asked r' = asked waiting_row /\ (q_open waiting_row = false -> r' = waiting_row).
Proof.
  apply queued_run_life_cycle.
  - apply demo_reach. vm_compute. reflexivity.
  - apply unusedb_spec. vm_compute. reflexivity.
  - vm_compute. reflexivity.
Defined.

(** The run of [started_p] ends; its callback is delivered twice. *)
Definition callback_p (status : string) : action :=
  ACallback (mkCallback (Some ("run2.0-a1"%string, 1)) "run2.0" "p" None (body status)).
Definition ended_p : list action := started_p ++ [callback_p "success"].

Definition ended_result : run_result :=
  mkRunResult "run2.0" "p" SUCCESS "1970-01-01T00:00:06+00:00" "1970-01-01T00:00:06+00:00" 3 3 0 10 10 None 0 "mgr"
    [] 0 0 0 [] [].


Lemma executor_bounded_witness :
  let s := demo_run up started_p in
  ct_pending (sy_ctl s) = tasks (sy_threads s) /\ tasks (sy_threads s) <= 2.
Proof. apply (executor_bounded demo_cfg demo_load (demo_run up started_p)). apply demo_reach. vm_compute. reflexivity. Defined.
End ManagerLaws.
