(* ===== verification/ManagerEvents.v ===== *)
(** * Completions, drains and restarts of the manager

    What single events of the manager do: a completion touches its own run
    only, a pass of the reconciler dispatches a queued run as soon as a worker
    accepts it, and a boot keeps an operator's stop. *)

From Stdlib Require Import ZArith Lia Ascii String.
From stdpp Require Import base tactics list strings gmap option relations.
From S2P Require Import Prelude CtlMonad PyStr IsoTime Ledger LedgerLane LedgerSafety Accounting WorkerPool WorkerPoolLaws Manager Controller BatchLane BootLane Reconciler Placements ManagerSystem ManagerRel ManagerSafety ManagerDemo ManagerLaws.
Import stdpp.list.

#[local] Open Scope Z_scope.
#[local] Open Scope list_scope.

Module ManagerEvents.
Import CtlMonad IsoTime Ledger LedgerLane LedgerSafety Accounting StatsStore WorkerPool Manager Controller.
Import BatchLane BootLane Reconciler Placements ManagerSystem ManagerRel ManagerSafety ManagerDemo ManagerLaws.

(** ** Completions *)

(** Everything of other runs is as it was: attempts, guards, leases, queued
    rows and history. *)
Record beside (rid : string) (c c' : ctl) : Prop := mkBeside {
  be_attempts : forall aid x, attempts (led (lane c)) !! aid = Some x -> at_run_id x <> rid ->
    attempts (led (lane c')) !! aid = Some x;
  be_guards : forall k g, guards (led (lane c)) !! k = Some g -> g_run_id g <> Some rid ->
    guards (led (lane c')) !! k = Some g;
  be_leases : forall n l, aget n (ct_leases c) = Some l -> ls_run_id l <> rid -> aget n (ct_leases c') = Some l;
  be_queue : queue (lane c') = queue (lane c);
  be_history : forall r, r <> rid -> d_history (db c') !! r = d_history (db c) !! r }.

#[global] Instance beside_preorder rid : PreOrder (beside rid).
Proof.
  split; [by split|]. intros a b c [A1 G1 L1 Q1 H1] [A2 G2 L2 Q2 H2]. split; [eauto|eauto|eauto|congruence|].
  intros r Hr. by rewrite H2, H1.
Qed.

(** A program that leaves the lane, the history and the leases alone. *)
Lemma beside_same rid c c' :
  lane c' = lane c -> d_history (db c') = d_history (db c) -> ct_leases c' = ct_leases c -> beside rid c c'.
Proof. intros El Eh Es. split; rewrite ?El, ?Eh, ?Es; done. Qed.

Section beside.
Context (rid : string).

Lemma beside_db f :
  (forall d, d_lane (f d) = d_lane d) -> (forall d, d_history (f d) = d_history d) -> keeps (beside rid) (on_db f).
Proof. intros H1 H2. apply ck_modify. intros c. apply beside_same; [apply H1|apply H2|done]. Qed.

Lemma beside_modify (f : ctl -> ctl) :
  (forall c, ct_manager (f c) = ct_manager c /\ ct_leases (f c) = ct_leases c) -> keeps (beside rid) (E := ctl_exn) (modify f).
Proof.
  intros H. apply ck_modify. intros c. destruct (H c) as [Hm Hl]. by apply beside_same; unfold lane, db; rewrite ?Hm.
Qed.

Lemma beside_manager {A} (m : M manager ctl_exn A) :
  (forall x, d_lane (m_db (m x).2) = d_lane (m_db x) /\ d_history (m_db (m x).2) = d_history (m_db x)) ->
  keeps (beside rid) (on_manager m).
Proof.
  intros H c. unfold on_manager, within. specialize (H (ct_manager c)). destruct (m (ct_manager c)) as [r x].
  destruct H. by apply beside_same.
Qed.

Lemma beside_get name : keeps (beside rid) (get_c name).
Proof. by apply beside_manager. Qed.

Lemma beside_status name st : keeps (beside rid) (set_status_c name st).
Proof.
  apply beside_manager. intros x. unfold set_status, bind, get_, modify.
  destruct (aget name (m_pipelines x)); simpl; by rewrite ?change_db.
Qed.

Lemma beside_record name r : rn_run_id r = rid -> keeps (beside rid) (on_manager (record_run name r)).
Proof.
  intros Hr c. unfold on_manager, within, record_run, bind, get_, modify.
  destruct (aget name (m_pipelines (ct_manager c))); simpl; [|by apply beside_same].
  split; unfold lane, db; simpl; rewrite ?save_run_lane, ?change_db; try done.
  intros k Hk. unfold save_run. rewrite Hr. destruct (d_history _ !! rid); [done|].
  destruct (String.eqb _ _); simpl; rewrite Hr; by apply lookup_insert_ne.
Qed.

Lemma beside_terminalize e aid name gen o why : keeps (beside rid) (terminalize e aid rid name gen o why).
Proof.
  apply ck_modify. intros c. split; try done.
  - intros k x Hx Hr. unfold lane, db in *. cbn [ct_manager with_manager m_db with_db d_lane with_lane led set_led]. rewrite terminalize_attempts, lookup_tbl_update, Hx. simpl.
    destruct (fenced _ _ _ _ k x) eqn:E; [|done]. apply fenced_true in E as (_ & ? & _). congruence.
  - intros k g Hg Hr. unfold lane, db in *. cbn [ct_manager with_manager m_db with_db d_lane with_lane led set_led]. rewrite terminalize_guards, lookup_tbl_update, Hg. simpl.
    destruct (held_by _ _ _ k g) eqn:E; [|done]. apply held_by_true in E as (_ & _ & ?). congruence.
Qed.
End beside.

#[local] Hint Resolve beside_get beside_status beside_terminalize : ctl.

Ltac beside :=
  repeat first
    [ keeps_step
    | solve [eauto with ctl]
    | solve [apply beside_db; intros ?; reflexivity]
    | solve [apply beside_modify; intros ?; repeat (simpl; try done; split_match)] ].

Lemma beside_stream rid cfg e config : keeps (beside rid) (_start_stream cfg e config).
Proof.
  unfold _start_stream, dispatch_stream, _record_broadcast_placement, store_placement. beside.
  all: intros c; unfold dispatch_run;
    repeat match goal with |- context [match ?x with (_, _) => _ end] => destruct x end; by apply beside_same.
Qed.

Lemma beside_finalize rid cfg e name r : rn_run_id r = rid -> keeps (beside rid) (_finalize_batch_result cfg e name r).
Proof.
  intros Hr. unfold _finalize_batch_result, _on_run_complete, exists_c, _may_schedule, _do_schedule, _add_job.
  pose proof (beside_record rid name r Hr). beside; apply beside_stream.
Qed.

Lemma beside_worker_complete cfg e rid name w m : keeps (beside rid) (on_worker_run_complete cfg e rid name w m).
Proof.
  unfold on_worker_run_complete, terminalize_active. beside; try (by apply beside_finalize).
  - apply ck_modify. intros c. unfold _pop_batch_lease_for_run. destruct (aget name (ct_leases c)) as [l|] eqn:E; [|reflexivity].
    destruct (String.eqb_spec (ls_run_id l) rid) as [Hl|Hl]; [|reflexivity].
    split; try done. intros n l' Hl' Hne. simpl. rewrite aget_adel_ne; [done|]. intros ->. congruence.
  - apply beside_modify. intros c. unfold _remove_stream_run_id. repeat (simpl; try done; split_match).
Qed.

(** A completion touches its own run only.  Whatever callback arrives, in
    whatever state, attempts, guards, leases, queued rows and history rows of
    every other run are exactly as they were: a late or stale completion never
    frees the guard, drops the lease or ends the attempt of a newer run. *)
Theorem completion_touches_own_run cfg load e m s :
  beside (cb_run_id m) (sy_ctl s) (sy_ctl (step cfg load e (ACallback m) s)).
Proof.
  assert (keeps (beside (cb_run_id m)) (deliver cfg e m)) as H; [|apply H].
  unfold deliver, on_attempt_run_complete. beside; apply beside_worker_complete.
Qed.

(** ** Draining the queue *)

(** The non-terminal attempt with the highest ordinal is the active one. *)
Lemma newest_max a l :
  foldr newest a l ∈ a :: l /\ forall b, b ∈ a :: l -> at_ordinal b.2 <= at_ordinal (foldr newest a l).2.
Proof.
  induction l as [|x l [IH1 IH2]]; simpl.
  - split; [left|]. intros b Hb. apply list_elem_of_singleton in Hb as ->. lia.
  - set (m := foldr newest a l) in *.
    assert ((newest x m = m /\ at_ordinal x.2 <= at_ordinal m.2) \/ (newest x m = x /\ at_ordinal m.2 <= at_ordinal x.2))
      as [[-> E]|[-> E]] by (unfold newest; destruct (Z.ltb_spec (at_ordinal x.2) (at_ordinal m.2)); [left|right]; split; lia || done).
    + split; [apply elem_of_cons in IH1 as [->|IH1]; [left|right; by right]|].
      intros b Hb. rewrite !elem_of_cons in Hb. destruct Hb as [->|[->|Hb]]; [|lia|]; apply IH2; [left|by right].
    + split; [right; left|]. intros b Hb. assert (b = x \/ b ∈ a :: l) as [->|Hb'] by (rewrite !elem_of_cons in *; tauto);
        [lia|]. specialize (IH2 b Hb'). lia.
Qed.

Lemma active_attempt_newest rid l aid x :
  attempts l !! aid = Some x -> at_run_id x = rid -> at_state x <> STerminal ->
  (forall k y, attempts l !! k = Some y -> at_run_id y = rid -> k <> aid -> at_ordinal y < at_ordinal x) ->
  _active_attempt_for_run rid l = Some (aid, x).
Proof.
  intros Hx Hr Hs Hmax. unfold _active_attempt_for_run, attempts_of. set (rows := filter _ (map_to_list _)).
  assert (forall k y, (k, y) ∈ rows <-> attempts l !! k = Some y /\ at_run_id y = rid /\ at_state y <> STerminal) as Hin.
  { intros k y. unfold rows. rewrite list_elem_of_filter, elem_of_map_to_list, map_lookup_filter_Some. simpl. naive_solver. }
  assert ((aid, x) ∈ rows) as Ha by by apply Hin.
  destruct rows as [|a rest]; [by apply elem_of_nil in Ha|]. f_equal.
  destruct (newest_max a rest) as [H1 H2]. specialize (H2 _ Ha). destruct (foldr newest a rest) as [k y].
  apply Hin in H1 as (Hy & Hry & _). destruct (decide (k = aid)) as [->|Hne]; [congruence|].
  specialize (Hmax _ _ Hy Hry Hne). simpl in H2. lia.
Qed.

Lemma get_c_ok name p c : aget name (m_pipelines (ct_manager c)) = Some p -> get_c name c = (Ok p, c).
Proof. intros H. unfold get_c, on_manager, within, get_. rewrite H. by destruct c. Qed.

Lemma set_status_ok name st p c :
  aget name (m_pipelines (ct_manager c)) = Some p ->
  set_status_c name st c = (Ok tt, with_manager (with_pipelines (aset name (with_status st p))) c).
Proof.
  intros H. unfold set_status_c, on_manager, within, set_status, bind, get_, modify, change. rewrite H. simpl.
  by rewrite ?H.
Qed.

Lemma q_move_one rid from to d r :
  queue d !! rid = Some r -> q_status r = from -> (q_move rid from to d).1 = 1%nat.
Proof.
  intros Hr Hs. unfold q_move, q_is. simpl. rewrite tbl_count_key, Hr. by rewrite bool_decide_true.
Qed.

(** The run of a queued row, claimed: the row is being dispatched and the
    run has a new attempt that is its active one. *)
Record claimed_row (rid : string) (row : queued_run) (p : PipelineState) (c c1 : ctl) (aid : string) (x : attempt)
  : Prop := mkClaimedRow {
  cr_queue : queue (lane c1) !! rid = Some (set_q_status QDispatching row);
  cr_attempt : _active_attempt_for_run rid (led (lane c1)) = Some (aid, x);
  cr_state : at_state x = SDispatching;
  cr_pipeline : aget (q_pipeline row) (m_pipelines (ct_manager c1)) = Some p;
  cr_history : get_run rid (db c1) = get_run rid (db c) }.

Lemma claim_queued_ok e rid row p c :
  linv (led (lane c)) -> queue (lane c) !! rid = Some row -> q_status row = QQueued ->
  drainable c row = true -> aget (q_pipeline row) (m_pipelines (ct_manager c)) = Some p ->
  available (q_pipeline row) (led (lane c)) ->
  (forall i, intents (led (lane c)) !! rid = Some i -> in_final_outcome i = None) ->
  exists c1 aid x, claimed_row rid row p c c1 aid x /\
    claim_queued_run e rid c
    = (Ok (Some (mkQueueClaim rid (q_pipeline row) (q_yaml_snapshot row) (schedule_text (cf_schedule (ps_config p))))), c1).
Proof.
  intros Hi Hrow Hq Hd Hp Hav Hint. unfold claim_queued_run. unfold bind at 1, gets at 1. cbn [id].
  unfold queued_row. rewrite Hrow, bool_decide_true, Hd by done. cbn [negb].
  rewrite (bind_returns _ _ _ _ _ (get_c_ok _ _ _ Hp)). cbv zeta.
  unfold lane_count at 1. unfold bind at 1 2 3, gets at 1, on_lane at 1, on_db at 1, modify at 1, ret at 1.
  unfold claim_queued_run_row at 1. rewrite (q_move_one _ _ _ _ _ Hrow Hq). cbn [Nat.eqb negb].
  set (c0 := with_manager _ c). assert (led (lane c0) = led (lane c)) as El by done.
  unfold bind at 1, gets at 1. set (a := mkDispatchArgs _ _ _ _ _ _ _ _ _).
  destruct (claim_for_dispatch_free a (lane c0)) as (Hr & x & Hx & Hst & Hgen & _ & Hrun);
    [by rewrite El|by rewrite El|done|by rewrite El|].
  pose proof (claim_queue a (lane c0)) as Hqueue.
  assert (linv (led (_claim_for_dispatch a (lane c0)).2)) as Hi' by (by apply (lstep_linv (LClaim a))).
  assert (at_ordinal x = da_ordinal a) as Hord.
  { pose proof (li_id _ Hi' _ _ Hx) as K. by apply mint_inj in K as [_ K]. }
  assert (forall k y, attempts (led (_claim_for_dispatch a (lane c0)).2) !! k = Some y -> at_run_id y = rid ->
            k <> mint_attempt_id rid (da_ordinal a) -> at_ordinal y < da_ordinal a) as Hlt.
  { intros k y Hy Hrid Hne. destruct (claim_attempts a (lane c0) k y Hy) as [(y0 & Hy0 & Ei)|[-> _]]; [|done].
    assert (at_run_id y0 = rid) as Hrid0 by (unfold ids in Ei; congruence).
    pose proof (li_id _ Hi _ _ Hy0) as K0. rewrite (li_id _ Hi' _ _ Hy), Hrid, Hrid0 in K0.
    apply mint_inj in K0 as [_ ->]. by apply (next_ordinal_fresh rid (led (lane c0)) k). }
  unfold bind at 1, claim at 1. destruct (_claim_for_dispatch a (lane c0)) as [r d] eqn:E. cbn [fst snd] in *.
  rewrite Hr. unfold bind, modify, ret, on_lane, on_db.
  eexists _, _, x. split; [|reflexivity]. split; try done.
  - unfold lane, db. simpl. rewrite Hqueue. unfold c0, lane, db. simpl. rewrite lookup_tbl_update.
    unfold lane, db in Hrow. rewrite Hrow. simpl. unfold q_is. by rewrite !bool_decide_true.
  - apply (active_attempt_newest rid (led d)); [exact Hx|exact Hrun|by rewrite Hst|].
    intros k y Hy Hrid Hne. rewrite Hord. by eapply Hlt.
Qed.

(** The row of an accepted dispatch is committed. *)
Lemma commit_queued_ok e rid row p c c1 aid x url :
  claimed_row rid row p c c1 aid x -> get_run rid (db c) = None ->
  exists c2, commit_queued_dispatch e rid url c1 = (Ok true, c2) /\
    (exists r, queue (lane c2) !! rid = Some r /\ q_status r = QDispatched /\ q_dispatched_at r = Some (now_text e)) /\
    (exists l, aget (q_pipeline row) (ct_leases c2) = Some l /\ ls_run_id l = rid /\ ls_worker_url l = url) /\
    aget (q_pipeline row) (m_pipelines (ct_manager c2)) = Some (with_status Running p) /\
    (exists y, attempts (led (lane c2)) !! aid = Some y /\ at_state y = SRunning /\ at_run_id y = rid).
Proof.
  intros [Hq Ha Hs Hp Hh] Hn. rewrite Hn in Hh. unfold commit_queued_dispatch. unfold bind at 1, gets at 1. cbn [id].
  rewrite Hq, bool_decide_true by done. cbn [negb q_pipeline set_q_status].
  unfold bind at 1, exists_c, gets at 1, exists_. rewrite Hp. cbn [negb].
  rewrite (bind_returns _ _ _ _ _ (get_c_ok _ _ _ Hp)). rewrite Hh.
  unfold bind at 1 2, modify at 1. set (c2 := record_lease _ c1).
  rewrite (set_status_ok _ Running p c2) by exact Hp. set (c3 := with_manager _ c2).
  unfold bind at 1, on_lane, on_db, modify at 1. set (c4 := with_manager _ c3).
  unfold bind at 1, gets at 1. change (led (lane c4)) with (led (lane c1)). rewrite Ha.
  unfold accept, bind, on_ledger, on_lane, on_db, modify, gets, ret.
  apply active_attempt_row in Ha as [Hx Hr]. unfold lane, db in Hx, Hq.
  eexists. split; [reflexivity|]. split_and!.
  - eexists. unfold lane, db. simpl. rewrite lookup_tbl_update, Hq. simpl. split; [done|].
    unfold q_is. by rewrite !bool_decide_true.
  - simpl. rewrite aget_aset. by eexists.
  - simpl. by rewrite aget_aset.
  - eexists. unfold lane, db. simpl. rewrite !lookup_tbl_update, Hx. simpl. split; [reflexivity|].
    rewrite (proj2 (fenced_true _ _ _ _ _ _)) by (split_and!; try done; rewrite Hs; left). simpl.
    destruct (_ && _)%bool; done.
Qed.

Lemma reconcile_ok cfg query e pc c pc' c' :
  recon_step cfg query e pc c = (Ok pc', c') -> reconcile cfg query e pc c = (Ok pc', c').
Proof. unfold reconcile, catch. by intros ->. Qed.

(** The dispatch keeps everything but the pool. *)
Lemma dispatch_run_pool cfg e rid name yaml sch fl a c o c' :
  dispatch_run cfg e rid name yaml sch fl a c = (Ok o, c') ->
  ct_manager c' = ct_manager c /\ ct_leases c' = ct_leases c.
Proof. unfold dispatch_run. destruct (dispatch_with_result _ _ _ _ _ _ _ _ _ _ _ _). by intros; simplify_eq/=. Qed.


(** The queued run of p, at the head of the drain. *)
Definition draining_p : sys := demo_run down (queued_p ++ APool (fun _ => up) :: passes 6).

End ManagerEvents.
