(* ===== verification/BootLaws.v ===== *)
(** * What a boot of the manager keeps

    An operator's stop survives a restart: whatever the journals of the
    workers answer and whatever they still run, a pipeline that is stopped or
    deleted in the database is neither scheduled nor started by the boot. *)

From Stdlib Require Import ZArith Lia Ascii String.
From stdpp Require Import base tactics list strings gmap option relations.
From S2P Require Import Prelude CtlMonad PyStr IsoTime Ledger LedgerLane LedgerSafety Accounting WorkerPool WorkerPoolLaws Manager Controller BatchLane BootLane Reconciler ManagerSystem ManagerRel ManagerSafety ManagerDemo ManagerLaws ManagerEvents.
Import stdpp.list.

#[local] Open Scope Z_scope.
#[local] Open Scope list_scope.

Module BootLaws.
Import CtlMonad IsoTime Ledger LedgerLane LedgerSafety Accounting StatsStore WorkerPool Manager Controller.
Import BatchLane BootLane Reconciler ManagerSystem ManagerRel ManagerSafety ManagerDemo ManagerLaws ManagerEvents.

(** ** Before any pipeline is loaded *)

Definition bare (c : ctl) : Prop :=
  m_pipelines (ct_manager c) = [] /\ ct_jobs c = ∅ /\ ct_stream_run_ids c = ∅ /\ ct_active_group c = ∅.

Definition boot_rel (c c' : ctl) : Prop := preserves bare c c' /\ d_registered (db c') = d_registered (db c).

#[global] Instance boot_rel_preorder : PreOrder boot_rel.
Proof. split; [intros c; split; [by intros H|done]|]. intros a b c [P1 E1] [P2 E2]. split; [unfold preserves in *; auto|congruence]. Qed.

Lemma bare_db f : (forall d, d_registered (f d) = d_registered d) -> keeps boot_rel (on_db f).
Proof. intros H. apply ck_modify. intros c. split; [by intros Hb|]. apply H. Qed.

Lemma bare_status name st : keeps boot_rel (set_status_c name st).
Proof.
  intros c. unfold set_status_c, on_manager, within, set_status, bind, get_, modify.
  destruct (aget name (m_pipelines (ct_manager c))) eqn:E; simpl.
  - split; [|unfold db; simpl; by rewrite change_db]. intros (Hp & _). by rewrite Hp in E.
  - split; [by intros H|done].
Qed.

Lemma bare_resolve cfg query e op aid x : keeps boot_rel (_resolve_attempt_at_boot cfg query e op aid x).
Proof.
  unfold _resolve_attempt_at_boot, record_completed_lifecycle_operation, _record_lifecycle_operation,
    _complete_lifecycle_operation, _record_adoption_completion_history, _adopt_active_attempt_lease, terminalize,
    on_ledger, on_lane, exists_c. cbv zeta.
  repeat first [ keeps_step | apply bare_status
    | apply bare_db; intros d; unfold save_run; repeat (simpl; try done; split_match)
    | apply ck_modify; intros ?; split; [by intros Hb|done] ].
Qed.

Lemma bare_resolve_all cfg query e : keeps boot_rel (_resolve_non_terminal_attempts_at_boot cfg query e).
Proof.
  unfold _resolve_non_terminal_attempts_at_boot. keeps_step; [by apply bare_db|]. keeps_step; [keeps_step|].
  generalize 0%nat. induction a0 as [|[aid x] l IH]; intros i; simpl; [keeps_step|].
  keeps_step; [|apply IH]. keeps_step; [apply bare_resolve|keeps_step].
Qed.

(** ** Loading the pipelines *)

(** The pipeline is registered at most as stopped, has no job and no stream;
    every registered state carries its own name. *)
Definition quiet (name : string) (c : ctl) : Prop :=
  (forall p, aget name (m_pipelines (ct_manager c)) = Some p -> ps_status p = Stopped) /\
  (forall n p, aget n (m_pipelines (ct_manager c)) = Some p -> cf_name (ps_config p) = n) /\
  name ∉ ct_jobs c /\ ct_stream_run_ids c !! name = None /\ ct_active_group c !! name = None.

Definition Q (name : string) : ctl -> ctl -> Prop := preserves (quiet name).

Section other.
Context (cfg : settings) (name other : string) (Hne : other <> name).

#[local] Instance Q_preorder : PreOrder (Q name).
Proof. unfold Q. apply _. Qed.

Lemma quiet_modify (f : ctl -> ctl) :
  (forall c, ct_manager (f c) = ct_manager c /\ (name ∉ ct_jobs c -> name ∉ ct_jobs (f c)) /\
     ct_stream_run_ids (f c) !! name = ct_stream_run_ids c !! name /\
     ct_active_group (f c) !! name = ct_active_group c !! name) ->
  keeps (Q name) (E := ctl_exn) (modify f).
Proof.
  intros H. apply ck_modify. intros c (H1 & H2 & H3 & H4 & H5). destruct (H c) as (E1 & E2 & E3 & E4).
  unfold quiet. rewrite E1, E3, E4. by auto.
Qed.

Lemma quiet_db f : keeps (Q name) (on_db f).
Proof. apply ck_modify. by intros c H. Qed.

Lemma quiet_status st : keeps (Q name) (set_status_c other st).
Proof.
  intros c H. destruct (aget other (m_pipelines (ct_manager c))) as [p|] eqn:E.
  - rewrite (set_status_ok _ _ _ _ E). destruct H as (H1 & H2 & H3). split_and!; try apply H3; simpl.
    + intros q. rewrite aget_aset_ne by done. apply H1.
    + intros n q. destruct (decide (n = other)) as [->|Hn].
      * rewrite aget_aset. intros [= <-]. simpl. by apply H2.
      * rewrite aget_aset_ne by done. apply H2.
  - unfold set_status_c, on_manager, within, set_status, bind, get_. by rewrite E.
Qed.

Lemma quiet_get n : keeps (Q name) (get_c n).
Proof. intros c H. unfold get_c, on_manager, within, get_. simpl. by destruct c. Qed.

Ltac quiet :=
  repeat first
    [ keeps_step
    | apply quiet_db
    | apply quiet_get
    | apply quiet_status; done
    | solve [apply quiet_modify; intros ?; unfold _sync_stream_run_ids_from_slots;
             repeat (simpl; try done; split_match); split_and!; simpl;
             rewrite ?lookup_insert_ne, ?lookup_delete_ne by done; set_solver] ].

Lemma quiet_store e group r : keeps (Q name) (store_placement e other group r).
Proof. unfold store_placement. quiet. Qed.

Lemma quiet_stream e config : cf_name config = other -> keeps (Q name) (_start_stream cfg e config).
Proof.
  intros Hc. unfold _start_stream, dispatch_stream, _record_broadcast_placement. rewrite Hc. quiet;
    try apply quiet_store; intros c H; unfold dispatch_run;
    repeat match goal with |- context [match ?x with (_, _) => _ end] => destruct x end; exact H.
Qed.

Lemma quiet_schedule e : keeps (Q name) (_do_schedule cfg e other).
Proof.
  intros c H. unfold _do_schedule. destruct (aget other (m_pipelines (ct_manager c))) as [p|] eqn:E.
  - rewrite (bind_returns _ _ _ _ _ (get_c_ok _ _ _ E)).
    assert (cf_name (ps_config p) = other) as Hc by (by apply H).
    assert (keeps (Q name) (_add_job other)) as Ha by (unfold _add_job; quiet).
    rewrite Hc. destruct (cf_schedule (ps_config p)); [by apply quiet_stream|by apply Ha..|by apply quiet_status].
  - unfold bind, get_c, on_manager, within, get_. by rewrite E.
Qed.

Lemma quiet_register config yaml save now :
  cf_name config = other -> keeps (Q name) (on_manager (register config false (Some yaml) save now)).
Proof.
  intros Hc c H. unfold on_manager, within, register. rewrite Hc. destruct (_ && _)%bool; simpl; [by destruct c|].
  set (st := hydrate _ _). assert (cf_name (ps_config st) = other) as Hst.
  { unfold st, hydrate. by destruct (get_runs _ _ _ _ _ _). }
  match goal with |- context [with_manager (fun _ => ?x) c] => set (m' := x) end.
  assert (m_pipelines m' = aset other st (m_pipelines (ct_manager c))) as Em by (unfold m'; by destruct (_ && _)%bool).
  destruct H as (H1 & H2 & H3). split_and!; try apply H3; cbn [ct_manager with_manager]; rewrite Em.
  - intros q. rewrite aget_aset_ne by done. apply H1.
  - intros n q. destruct (decide (n = other)) as [->|Hn]; [rewrite aget_aset; by intros [= <-]|].
    rewrite aget_aset_ne by done. apply H2.
Qed.

Lemma quiet_restore e group r : pr_pipeline_name r = other -> keeps (Q name) (_restore_broadcast_placement e group r).
Proof. intros Hr. unfold _restore_broadcast_placement, adopt_slot. rewrite Hr. quiet. Qed.

Lemma quiet_adopt e config : cf_name config = other -> keeps (Q name) (_adopt_live_stream_if_any cfg e config).
Proof.
  intros Hc. unfold _adopt_live_stream_if_any, _materialize_placement_from_adoption, set_stream_runs. rewrite Hc. quiet.
  all: apply quiet_store.
Qed.

(** The boot of another pipeline. *)
Lemma quiet_boot_other (load : string -> option PipelineConfig) e stopped yaml pl :
  (forall c, load yaml = Some c -> cf_name c = other) ->
  (forall g r, pl = Some (g, r) -> pr_pipeline_name r = other) ->
  keeps (Q name) (boot_pipeline cfg load e stopped other yaml pl).
Proof.
  intros Hload Hpl. unfold boot_pipeline. destruct (load yaml) as [config|] eqn:E; [|by intros c H].
  specialize (Hload _ eq_refl). intros c. unfold bind at 1, lift. cbn [of_option]. revert c.
  match goal with |- forall c, Q name c (?m c).2 => change (keeps (Q name) m) end.
  keeps_step; [by apply quiet_register|]. keeps_step; [by apply quiet_status|]. destruct pl as [[g r]|].
  - keeps_step; [apply quiet_restore; by eapply Hpl|by apply quiet_status].
  - keeps_step. keeps_step; [by apply quiet_adopt|]. destruct a0; [keeps_step|apply quiet_schedule].
Qed.
End other.

(** The boot of the pipeline itself, when it is stopped. *)
Lemma quiet_boot_own (load : string -> option PipelineConfig) cfg e stopped name yaml pl c :
  name ∈ stopped -> (forall cf, load yaml = Some cf -> cf_name cf = name) ->
  quiet name c -> quiet name (boot_pipeline cfg load e stopped name yaml pl c).2.
Proof.
  intros Hin Hload Hq. unfold boot_pipeline. destruct (load yaml) as [config|] eqn:E; [|done].
  specialize (Hload _ eq_refl). unfold bind at 1, lift. cbn [of_option]. rewrite bool_decide_true by done.
  unfold bind, on_manager at 1, within, register. rewrite Hload, andb_true_r. cbn [negb].
  destruct (exists_ name (ct_manager c)) eqn:Ex; [by destruct c|].
  rewrite andb_false_r.
  set (st := hydrate _ _). assert (cf_name (ps_config st) = name /\ ps_status st = Stopped) as [Hst Hs].
  { unfold st, hydrate. by destruct (get_runs _ _ _ _ _ _). }
  set (c1 := with_manager _ c). assert (aget name (m_pipelines (ct_manager c1)) = Some st) as Hc1.
  { unfold c1. simpl. apply aget_aset. }
  rewrite (set_status_ok _ _ _ _ Hc1). destruct Hq as (H1 & H2 & H3). split_and!; try apply H3.
  - intros p. simpl. rewrite aget_aset. by intros [= <-].
  - intros n p. simpl. rewrite aset_aset. destruct (decide (n = name)) as [->|Hn].
    + rewrite aget_aset. by intros [= <-].
    + rewrite aget_aset_ne by done. apply H2.
Qed.

Lemma placement_of_name name d g r : placement_of name d = Some (g, r) -> pr_pipeline_name r = name.
Proof.
  unfold placement_of. intros H. apply last_Some_elem_of in H. apply WorkerPoolLaws.elem_of_lfilter in H as [_ H].
  by apply String.eqb_eq in H.
Qed.

Definition well_named (load : string -> option PipelineConfig) (l : list (string * string)) : Prop :=
  forall n y c, (n, y) ∈ l -> load y = Some c -> cf_name c = n.

Lemma quiet_boot_all cfg load e stopped name d l c :
  name ∈ stopped -> well_named load l -> quiet name c ->
  quiet name (iterM (fun ny : string * string =>
    catch (boot_pipeline cfg load e stopped ny.1 ny.2 (placement_of ny.1 d)) (fun _ => ret tt)) l c).2.
Proof.
  intros Hin. revert c. induction l as [|[n y] l IH]; intros c Hw Hq; simpl; [done|].
  unfold bind. set (m := catch _ _). assert (quiet name (m c).2) as Hm.
  { assert (quiet name (boot_pipeline cfg load e stopped n y (placement_of n d) c).2) as Hb.
    { destruct (decide (n = name)) as [->|Hn].
      - apply quiet_boot_own; [done| |done]. intros cf. apply Hw. left.
      - apply (quiet_boot_other cfg name n Hn); [|apply placement_of_name|done]. intros cf. apply Hw. left. }
    unfold m, catch. simpl. by destruct (boot_pipeline _ _ _ _ _ _ _ c) as [[u|x] c1]. }
  destruct (m c) as [[u|x] c1]; [|done]. apply IH; [|done]. intros n' y' cf Hi. apply Hw. by right.
Qed.

(** The pipeline is stopped or deleted in one of the two tables. *)
Definition stopped_in_db (name : string) (d : database) : Prop :=
  is_pipeline_stopped name d = true \/
  exists r, desired (d_lane d) !! name = Some r /\ (ds_deleted r || negb (ds_running r))%bool = true.

Lemma boot_quiet cfg load query e p s name :
  let c := sy_ctl (step cfg load e (ABoot query p) s) in
  stopped_in_db name (db (sy_ctl s)) -> well_named load (get_all_pipelines (db (sy_ctl s))) ->
  (forall st, aget name (m_pipelines (ct_manager c)) = Some st -> ps_status st = Stopped) /\
  name ∉ ct_jobs c /\ ct_stream_run_ids c !! name = None /\ ct_active_group c !! name = None.
Proof.
  intros c Hst Hw. enough (quiet name c) as (H1 & _ & H3) by done.
  unfold c. cbn [step sy_ctl]. unfold boot, _boot_load. unfold bind at 1, gets at 1. cbn [id].
  set (c0 := fresh_ctl _ _ _). unfold bind at 1.
  pose proof (bare_resolve_all cfg query e c0) as [Hb Hr].
  assert (bare c0) as Hb0 by done. specialize (Hb Hb0).
  assert (quiet name (_resolve_non_terminal_attempts_at_boot cfg query e c0).2) as Hq.
  { destruct Hb as (B1 & B2 & B3 & B4). unfold quiet. rewrite B1, B2, B3, B4.
    split_and!; [done|done|set_solver|apply lookup_empty..]. }
  destruct (_resolve_non_terminal_attempts_at_boot cfg query e c0) as [[u|x] c1]; [|done]. cbn [snd] in *.
  unfold bind, gets. apply quiet_boot_all; [| |done].
  - apply elem_of_app. destruct Hst as [Hs|(r & Hs & Hf)]; [left|right].
    + unfold is_pipeline_stopped, get_stopped_pipeline_names in *. rewrite Hr. change (db c0) with (db (sy_ctl s)).
      destruct (d_registered (db (sy_ctl s)) !! name) as [r|] eqn:E; [|done].
      apply list_elem_of_fmap. exists (name, r). split; [done|]. apply WorkerPoolLaws.elem_of_lfilter.
      split; [by apply elem_of_map_to_list|done].
    + unfold stopped_in. apply list_elem_of_fmap. exists (name, r). split; [done|]. apply WorkerPoolLaws.elem_of_lfilter.
      split; [by apply elem_of_map_to_list|done].
  - unfold get_all_pipelines. by rewrite Hr.
Qed.

(** C13: an operator's stop survives a restart.  When a pipeline is stopped (or
    deleted) in the database, then whatever the workers' journals answer and
    whatever the workers still run, the boot leaves it, if it loads it at all,
    in status stopped, with no scheduled job, no stream run and no active
    placement; the stored configurations carry the names they are stored under. *)
Theorem boot_keeps_stop cfg load query e p s name :
  let c := sy_ctl (step cfg load e (ABoot query p) s) in
  stopped_in_db name (db (sy_ctl s)) -> well_named load (get_all_pipelines (db (sy_ctl s))) ->
  (forall st, aget name (m_pipelines (ct_manager c)) = Some st -> ps_status st = Stopped) /\
  name ∉ ct_jobs c /\ ct_stream_run_ids c !! name = None /\ ct_active_group c !! name = None.
Proof. apply boot_quiet. Qed.

(** The boot after a stop: q has an interval schedule and is enabled. *)
Lemma boot_keeps_stop_witness :
  let s := demo_run up [register_q; AStop "q"] in
  let c := sy_ctl (step demo_cfg demo_load (at_ 9) (ABoot no_reply up) s) in
  (forall st, aget "q"%string (m_pipelines (ct_manager c)) = Some st -> ps_status st = Stopped) /\
  "q"%string ∉ ct_jobs c /\ ct_stream_run_ids c !! "q"%string = None /\ ct_active_group c !! "q"%string = None.
Proof.
  apply (boot_keeps_stop demo_cfg demo_load no_reply (at_ 9) up (demo_run up [register_q; AStop "q"]) "q").
  - left. vm_compute. reflexivity.
  - assert (get_all_pipelines (db (sy_ctl (demo_run up [register_q; AStop "q"]))) = [("q", "q")]%string) as E
      by (vm_compute; reflexivity).
    intros n y c. rewrite E. intros Hin%list_elem_of_singleton. simplify_eq. vm_compute. by intros [= <-].
Defined.
End BootLaws.
