(* ===== verification/BootAdopt.v ===== *)
(** * Boot adoption settles every attempt

    A restarted manager asks the workers' journals for every attempt that had
    not ended, and the answer alone decides: a completion or a revocation ends
    the attempt and frees its pipeline, an active one is taken over, and
    without an answer the attempt is unknown and keeps its guard. *)

From Stdlib Require Import ZArith Lia Ascii String.
From stdpp Require Import base tactics list strings gmap option relations.
From S2P Require Import Prelude CtlMonad PyStr IsoTime Ledger LedgerLane LedgerSafety Accounting WorkerPool WorkerPoolLaws Manager Controller BatchLane BootLane Reconciler ManagerSystem ManagerRel ManagerSafety ManagerDemo ManagerLaws ManagerEvents.
Import stdpp.list.

#[local] Open Scope Z_scope.
#[local] Open Scope list_scope.

Module BootAdopt.
Import CtlMonad IsoTime Ledger LedgerLane LedgerSafety Accounting StatsStore WorkerPool Manager Controller.
Import BatchLane BootLane Reconciler ManagerSystem ManagerRel ManagerSafety ManagerDemo ManagerLaws ManagerEvents.

(** ** The order of the resolution *)

Lemma non_terminal_spec l aid x :
  (aid, x) ∈ _get_non_terminal_attempts l <-> attempts l !! aid = Some x /\ live x.
Proof.
  unfold _get_non_terminal_attempts. rewrite WorkerPoolLaws.sort_by_perm, WorkerPoolLaws.elem_of_lfilter, elem_of_map_to_list. simpl.
  by rewrite bool_decide_eq_true.
Qed.

Lemma non_terminal_nodup l : NoDup (_get_non_terminal_attempts l).
Proof.
  unfold _get_non_terminal_attempts. rewrite WorkerPoolLaws.sort_by_perm. apply NoDup_ListNoDup, List.NoDup_filter, NoDup_ListNoDup.
  apply NoDup_map_to_list.
Qed.

(** ** What the resolution of one attempt leaves to the others *)

Record apart (aid k rid : string) (c c' : ctl) : Prop := mkApart {
  ap_attempt : attempts (led (lane c')) !! aid = attempts (led (lane c)) !! aid;
  ap_guard : guards (led (lane c')) !! k = guards (led (lane c)) !! k;
  ap_lease : aget k (ct_leases c') = aget k (ct_leases c);
  ap_history : is_Some (get_run rid (db c)) -> is_Some (get_run rid (db c')) }.

#[global] Instance apart_preorder aid k rid : PreOrder (apart aid k rid).
Proof. split; [by split|]. intros a b c [A1 G1 L1 H1] [A2 G2 L2 H2]. split; [congruence..|auto]. Qed.

Section apart.
Context (aid k rid : string).
Notation R := (apart aid k rid).

Lemma apart_same c c' :
  led (lane c') = led (lane c) -> d_history (db c') = d_history (db c) -> ct_leases c' = ct_leases c -> R c c'.
Proof. intros El Eh Es. split; unfold get_run; by rewrite ?El, ?Eh, ?Es. Qed.

Lemma apart_db f :
  (forall d, led (d_lane (f d)) = led (d_lane d)) -> (forall d, d_history (f d) = d_history d) -> keeps R (on_db f).
Proof. intros H1 H2. apply ck_modify. intros c. apply apart_same; [apply H1|apply H2|done]. Qed.

Lemma apart_modify (f : ctl -> ctl) :
  (forall c, ct_manager (f c) = ct_manager c /\ ct_leases (f c) = ct_leases c) -> keeps R (E := ctl_exn) (modify f).
Proof. intros H. apply ck_modify. intros c. destruct (H c) as [Hm Hl]. by apply apart_same; unfold lane, db; rewrite ?Hm. Qed.

Lemma apart_get n : keeps R (get_c n).
Proof. intros c. unfold get_c, on_manager, within, get_. simpl. destruct c. reflexivity. Qed.

Lemma apart_status n st : keeps R (set_status_c n st).
Proof.
  intros c. destruct (aget n (m_pipelines (ct_manager c))) as [p|] eqn:E.
  - rewrite (set_status_ok _ _ _ _ E). by apply apart_same.
  - unfold set_status_c, on_manager, within, set_status, bind, get_. rewrite E. simpl. destruct c. reflexivity.
Qed.

Lemma apart_save r : keeps R (on_db (save_run r)).
Proof.
  apply ck_modify. intros c. split; unfold lane, db; simpl; rewrite ?save_run_lane; try done.
  unfold get_run, save_run. destruct (d_history (m_db (ct_manager c)) !! rn_run_id r) eqn:E; [done|]. simpl.
  intros [x Hx]. destruct (String.eqb (rn_node_id r) ""); cbn [rn_run_id with_node];
    (rewrite lookup_insert_ne; [by eexists|]); intros <-; by rewrite E in Hx.
Qed.

Lemma apart_history f n : keeps R (on_db (with_history (alter f n))).
Proof.
  apply ck_modify. intros c. split; try done. unfold get_run, db. simpl. rewrite !fmap_is_Some.
  destruct (decide (n = rid)) as [->|Hn]; [|by rewrite lookup_alter_ne]. rewrite lookup_alter_eq. by rewrite fmap_is_Some.
Qed.
End apart.

#[local] Hint Resolve apart_get apart_status apart_save apart_history : ctl.

Ltac apart :=
  repeat first
    [ keeps_step
    | solve [eauto with ctl]
    | solve [apply apart_db; intros ?; reflexivity]
    | solve [apply apart_modify; intros ?; repeat (simpl; try done; split_match)] ].

Lemma apart_stream aid k rid cfg e config : keeps (apart aid k rid) (_start_stream cfg e config).
Proof.
  unfold _start_stream, dispatch_stream, _record_broadcast_placement, store_placement. apart.
  all: intros c; unfold dispatch_run;
    repeat match goal with |- context [match ?x with (_, _) => _ end] => destruct x end; by apply apart_same.
Qed.

Lemma apart_register aid k rid config yaml now : keeps (apart aid k rid) (on_manager (register config false (Some yaml) false now)).
Proof.
  intros c. unfold on_manager, within, register. rewrite andb_false_r. destruct (_ && _)%bool; by apply apart_same.
Qed.

Lemma apart_load aid k rid cfg load e stopped n yaml pl :
  keeps (apart aid k rid) (boot_pipeline cfg load e stopped n yaml pl).
Proof.
  unfold boot_pipeline, _restore_broadcast_placement, adopt_slot, _adopt_live_stream_if_any,
    _materialize_placement_from_adoption, store_placement, _do_schedule, _add_job.
  apart; try apply apart_register; apply apart_stream.
Qed.

(** Another attempt, of another pipeline, is resolved. *)
Lemma apart_resolve aid k rid cfg query e op aid' x' :
  aid' <> aid -> at_pipeline x' <> k -> keeps (apart aid k rid) (_resolve_attempt_at_boot cfg query e op aid' x').
Proof.
  intros Ha Hk.
  assert (forall o why, keeps (apart aid k rid)
            (terminalize e aid' (at_run_id x') (at_pipeline x') (at_generation x') o why)) as Ht.
  { intros o why. apply ck_modify. intros c. split; try done; unfold lane, db;
      cbn [ct_manager with_manager m_db with_db d_lane with_lane led set_led].
    - rewrite terminalize_attempts, lookup_tbl_update. destruct (attempts _ !! aid) as [y|]; [|done]. simpl.
      destruct (fenced _ _ _ _ aid y) eqn:E; [|done]. by apply fenced_true in E as [? _].
    - rewrite terminalize_guards, lookup_tbl_update. destruct (guards _ !! k) as [y|]; [|done]. simpl.
      destruct (held_by _ _ _ k y) eqn:E; [|done]. by apply held_by_true in E as [? _]. }
  assert (forall why, keeps (apart aid k rid)
            (on_ledger (_mark_attempt_unknown aid' (at_run_id x') (at_generation x') why))) as Hu.
  { intros why. apply ck_modify. intros c. split; try done. unfold lane, db. simpl. rewrite lookup_tbl_update.
    destruct (attempts _ !! aid) as [y|]; [|done]. simpl.
    destruct (fenced _ _ _ _ aid y) eqn:E; [|done]. by apply fenced_true in E as [? _]. }
  unfold _resolve_attempt_at_boot, record_completed_lifecycle_operation, _record_lifecycle_operation,
    _complete_lifecycle_operation, _record_adoption_completion_history, _adopt_active_attempt_lease, exists_c. cbv zeta.
  apart. apply ck_modify. intros c. split; try done. simpl. by apply aget_aset_ne.
Qed.

(** ** The resolution of an attempt *)

Definition verdict_of (query : string -> string -> option attempt_reply) (p : pool) (aid : string) (x : attempt)
  : reply_kind :=
  match (_query_attempt_from_worker query aid (at_worker_id x) p).1 with
  | None => ReplyUnknown
  | Some r => _classify_attempt_query r
  end.

Definition never_sent (x : attempt) : Prop := at_state x = SClaimed /\ at_dispatch_sent_at x = None.

Definition ended_at (aid : string) (c : ctl) : Prop :=
  exists y, attempts (led (lane c)) !! aid = Some y /\ at_state y = STerminal.

Definition freed (k : string) (c : ctl) : Prop :=
  exists g, guards (led (lane c)) !! k = Some g /\ g_attempt_id g = None.

Definition held (k aid : string) (c : ctl) : Prop :=
  exists g, guards (led (lane c)) !! k = Some g /\ g_attempt_id g = Some aid.

(** What the answer makes of the attempt. *)
Definition resolved (v : reply_kind) (aid : string) (x : attempt) (c : ctl) : Prop :=
  let k := at_pipeline x in
  match v with
  | ReplyCompleted _ => ended_at aid c /\ freed k c /\ is_Some (get_run (at_run_id x) (db c))
  | ReplyInterrupted | ReplyTombstone => ended_at aid c /\ freed k c
  | ReplyActive =>
      attempts (led (lane c)) !! aid = Some x /\ held k aid c /\
      exists l, aget k (ct_leases c) = Some l /\ ls_run_id l = at_run_id x /\ ls_attempt_id l = Some aid
  | ReplyUnknown =>
      (exists y, attempts (led (lane c)) !! aid = Some y /\ at_state y = SUnknown) /\ held k aid c
  end.

Lemma resolved_apart v aid x c c' :
  apart aid (at_pipeline x) (at_run_id x) c c' -> resolved v aid x c -> resolved v aid x c'.
Proof.
  intros [A G L H]. unfold resolved, ended_at, freed, held. rewrite A, G, L. destruct v; naive_solver.
Qed.

(** The attempt before its resolution. *)
Definition awaits (aid : string) (x : attempt) (c : ctl) : Prop :=
  attempts (led (lane c)) !! aid = Some x /\
  exists g, guards (led (lane c)) !! at_pipeline x = Some g /\ g_attempt_id g = Some aid /\
    g_run_id g = Some (at_run_id x).

Lemma awaits_apart aid x c c' : apart aid (at_pipeline x) (at_run_id x) c c' -> awaits aid x c -> awaits aid x c'.
Proof. intros [A G _ _]. unfold awaits. by rewrite A, G. Qed.

Lemma terminalize_ends e aid x o why c :
  live x -> awaits aid x c ->
  let c' := (terminalize e aid (at_run_id x) (at_pipeline x) (at_generation x) o why c).2 in
  ended_at aid c' /\ freed (at_pipeline x) c'.
Proof.
  intros Hl (Hx & g & Hg & Ha & Hr). unfold lane, db in Hx, Hg. split; unfold ended_at, freed, lane, db;
    cbn [terminalize on_ledger on_lane on_db modify snd ct_manager with_manager m_db with_db d_lane with_lane led set_led].
  - rewrite terminalize_attempts, lookup_tbl_update, Hx. simpl. eexists. split; [reflexivity|].
    by rewrite (proj2 (fenced_true _ _ _ _ _ _)).
  - rewrite terminalize_guards, lookup_tbl_update, Hg. simpl. eexists. split; [reflexivity|].
    by rewrite (proj2 (held_by_true _ _ _ _ _)).
Qed.

Lemma save_run_there r d : is_Some (get_run (rn_run_id r) (save_run r d)).
Proof.
  unfold get_run, save_run. destruct (d_history d !! rn_run_id r) as [h|] eqn:E; [by rewrite E|].
  destruct (String.eqb _ _); simpl; by rewrite lookup_insert_eq.
Qed.

Section own.
Context (cfg : settings) (query : string -> string -> option attempt_reply) (e : io) (aid : string) (x : attempt).
Notation R := (apart aid (at_pipeline x) (at_run_id x)).

Lemma apart_note op n kind a d : keeps R (record_completed_lifecycle_operation e op n kind a d).
Proof. unfold record_completed_lifecycle_operation, _record_lifecycle_operation, _complete_lifecycle_operation. apart. Qed.

Lemma apart_cancel r why : keeps R (on_lane (_terminal_cancel_queued_run r why)).
Proof. by apply apart_db. Qed.

(** What follows a statement leaves the attempt as the statement made it. *)
Lemma then_keeps {A B} v (m : C A) (k : A -> C B) a c1 c :
  m c = (Ok a, c1) -> keeps R (k a) -> resolved v aid x c1 -> resolved v aid x (bind m k c).2.
Proof. intros Hm Hk Hv. rewrite (bind_returns _ _ _ _ _ Hm). eapply resolved_apart; [apply Hk|done]. Qed.

Lemma unknown_held why c :
  live x -> at_state x <> SClaimed -> awaits aid x c ->
  resolved ReplyUnknown aid x (on_ledger (_mark_attempt_unknown aid (at_run_id x) (at_generation x) why) c).2.
Proof.
  intros Hl Hs (Hx & g & Hg & Ha & _). unfold lane, db in Hx, Hg. split; unfold held, lane, db; simpl.
  - rewrite lookup_tbl_update, Hx. simpl. eexists. split; [reflexivity|].
    rewrite (proj2 (fenced_true _ _ _ _ _ _)); [done|]. split_and!; try done.
    unfold live in Hl. rewrite !elem_of_cons in Hl. destruct Hl as [?|Hl]; [done|]. by rewrite !elem_of_cons.
  - by exists g.
Qed.

(** The verdict on an attempt; one that was never sent is revoked. *)
Definition verdict_at_boot (p : pool) : reply_kind :=
  if bool_decide (never_sent x) then ReplyInterrupted else verdict_of query p aid x.

Lemma resolve_own op c :
  live x -> (at_state x = SClaimed -> at_dispatch_sent_at x = None) -> awaits aid x c ->
  resolved (verdict_at_boot (ct_pool c)) aid x (_resolve_attempt_at_boot cfg query e op aid x c).2.
Proof.
  intros Hl Hcl Hc. unfold verdict_at_boot, _resolve_attempt_at_boot, never_sent.
  assert (forall o why, let c1 := (terminalize e aid (at_run_id x) (at_pipeline x) (at_generation x) o why c).2 in
            ended_at aid c1 /\ freed (at_pipeline x) c1) as Hend by (intros; by apply terminalize_ends).
  assert (forall r why d, keeps R (do* on_lane (_terminal_cancel_queued_run r why) in
            record_completed_lifecycle_operation e op (at_pipeline x) "boot_adopt" (Some aid) d)) as Hrest.
  { intros. keeps_step; [apply apart_cancel|apply apart_note]. }
  destruct (decide (at_state x = SClaimed)) as [Hs|Hs].
  { rewrite bool_decide_true by auto. eapply then_keeps; [reflexivity|apply Hrest|apply Hend]. }
  rewrite bool_decide_false by tauto. unfold verdict_of. unfold bind at 1, gets at 1.
  destruct (_query_attempt_from_worker query aid (at_worker_id x) (ct_pool c)) as [[r|] url]; cbn [fst].
  2: { eapply then_keeps; [reflexivity|apply apart_note|by apply unknown_held]. }
  destruct (_classify_attempt_query r) as [payload| | | |].
  - set (c1 := (terminalize e aid (at_run_id x) (at_pipeline x) (at_generation x)
                  (Some (_completion_outcome payload)) None c).2).
    rewrite (bind_returns (terminalize e aid (at_run_id x) (at_pipeline x) (at_generation x)
                  (Some (_completion_outcome payload)) None) _ c tt c1 eq_refl).
    assert (keeps R (do* on_lane (_terminal_cancel_queued_run (at_run_id x) "boot_adoption_completed") in
              record_completed_lifecycle_operation e op (at_pipeline x) "boot_adopt" (Some aid)
                (Some "boot adoption: attempt resolved from journal completion record"%string))) as Hr1 by apply Hrest.
    destruct (Hend (Some (_completion_outcome payload)) None) as [He Hf]. fold c1 in He, Hf.
    unfold _record_adoption_completion_history. eapply then_keeps; [reflexivity|exact Hr1|].
    set (c2 := (on_db (save_run (adopted_result cfg e x (default empty_payload payload) (_completion_outcome payload))) c1).2).
    eapply (resolved_apart _ _ _ c2); [apply (apart_history aid (at_pipeline x) (at_run_id x) _ (at_run_id x) c2)|].
    unfold resolved. pose proof (apart_save aid (at_pipeline x) (at_run_id x)
      (adopted_result cfg e x (default empty_payload payload) (_completion_outcome payload)) c1) as [A G _ _].
    fold c2 in A, G. split; [|split].
    + unfold ended_at in *. by rewrite A.
    + unfold freed in *. by rewrite G.
    + apply save_run_there.
  - eapply then_keeps; [reflexivity|apply Hrest|apply Hend].
  - eapply then_keeps; [reflexivity|apply Hrest|apply Hend].
  - unfold _adopt_active_attempt_lease. eapply then_keeps; [reflexivity|apart|].
    destruct Hc as (Hx & g & Hg & Ha & _). split_and!; [exact Hx|by exists g|].
    simpl. rewrite aget_aset. by eexists.
  - eapply then_keeps; [reflexivity|apply apart_note|by apply unknown_held].
Qed.

(** ** All of them *)

(** The attempts of a list are this one or have nothing in common with it. *)
Definition separate (l : list (string * attempt)) : Prop :=
  forall aid' x', (aid', x') ∈ l -> (aid', x') = (aid, x) \/ (aid' <> aid /\ at_pipeline x' <> at_pipeline x).

Lemma apart_resolve_all l : forall i, separate l -> (aid, x) ∉ l -> keeps R (resolve_all cfg query e i l).
Proof.
  induction l as [|[a y] l IH]; intros i Hs Hn; simpl; [keeps_step|].
  destruct (Hs a y) as [?|[H1 H2]]; [left|set_solver|].
  keeps_step; [|apply IH; [intros ? ? ?; apply Hs; by right|set_solver]].
  keeps_step; [by apply apart_resolve|keeps_step].
Qed.

Definition same_pool (c c' : ctl) : Prop := ct_pool c' = ct_pool c.

#[local] Instance same_pool_preorder : PreOrder same_pool.
Proof. split; unfold same_pool; [done|congruence]. Qed.

Lemma pool_resolve op a y : keeps same_pool (_resolve_attempt_at_boot cfg query e op a y).
Proof.
  unfold _resolve_attempt_at_boot, record_completed_lifecycle_operation, _record_lifecycle_operation,
    _complete_lifecycle_operation, _record_adoption_completion_history, _adopt_active_attempt_lease, terminalize,
    on_ledger, on_lane, on_db, exists_c, set_status_c, on_manager. cbv zeta.
  repeat first [ keeps_step | apply ck_modify; intros ?; reflexivity
               | intros c; unfold within, same_pool; by destruct (set_status _ _ (ct_manager c)) ].
Qed.

Lemma catch_state {A} (m : C A) (a : A) c : (catch m (fun _ => ret a) c).2 = (m c).2.
Proof. unfold catch, ret. by destruct (m c) as [[v|z] c1]. Qed.

Lemma resolve_all_own l : forall i c,
  live x -> (at_state x = SClaimed -> at_dispatch_sent_at x = None) ->
  NoDup l -> separate l -> (aid, x) ∈ l -> awaits aid x c ->
  resolved (verdict_at_boot (ct_pool c)) aid x (resolve_all cfg query e i l c).2.
Proof.
  induction l as [|[a y] l IH]; intros i c Hl Hcl Hnd Hs Hin Hc; [by apply elem_of_nil in Hin|].
  apply NoDup_cons in Hnd as [Hn Hnd]. assert (separate l) as Hs' by (intros ? ? ?; apply Hs; by right).
  simpl. unfold bind. set (m := catch _ _).
  assert (exists c1, m c = (Ok tt, c1)) as [c1 Em].
  { unfold m, catch, ret. by destruct (_resolve_attempt_at_boot _ _ _ _ _ _ c) as [[[]|z] c1]; eexists. }
  assert (c1 = (_resolve_attempt_at_boot cfg query e (io_uuid e i) a y c).2) as Ec1.
  { rewrite <- (catch_state _ tt). fold m. by rewrite Em. }
  rewrite Em. destruct (Hs a y) as [Heq|[H1 H2]]; [left| |].
  - simplify_eq. eapply resolved_apart; [by apply apart_resolve_all|]. by apply resolve_own.
  - assert (same_pool c c1) as Hp by (rewrite Ec1; apply pool_resolve). rewrite <- Hp. apply IH; try done.
    + apply elem_of_cons in Hin as [?|?]; [|done]. simplify_eq.
    + eapply awaits_apart; [|exact Hc]. rewrite Ec1. by apply apart_resolve.
Qed.
End own.


(** The manager goes down while a worker runs p; the journal has the result. *)
Definition finished_reply (url aid : string) : option attempt_reply :=
  Some (mkReply "completed" (mkIds Absent Absent Absent Absent)
          (Some (Some (mkJournalPayload (mkIds Absent Absent Absent Absent) None (Some "success"%string) true
                         (body "success")))) false).

End BootAdopt.
