(* ===== verification/ManagerFindings.v ===== *)
(** * Where the manager departs from its intent

    Histories of the manager whose outcome differs from what the comments of
    pipeline/controller.py say: a restart the next boot undoes, a deleted and
    re-registered pipeline that is not scheduled after a boot, a queued run
    that stays open after it has finished, a status a late completion resets,
    and a queue above its budget. *)

From Stdlib Require Import ZArith Lia Ascii String.
From stdpp Require Import base tactics list strings gmap option relations.
From S2P Require Import Prelude CtlMonad PyStr IsoTime Ledger LedgerLane LedgerSafety Accounting WorkerPool WorkerPoolLaws Manager Controller BatchLane BootLane Reconciler ManagerSystem ManagerRel ManagerSafety ManagerDemo ManagerLaws ManagerEvents BootLaws.
Import stdpp.list.

#[local] Open Scope Z_scope.
#[local] Open Scope list_scope.

Module ManagerFindings.
Import CtlMonad IsoTime Ledger LedgerLane LedgerSafety Accounting StatsStore WorkerPool Manager Controller.
Import BatchLane BootLane Reconciler ManagerSystem ManagerRel ManagerSafety ManagerDemo ManagerLaws ManagerEvents BootLaws.

(** ** A restart does not reach the desired state *)

Definition same_desired (c c' : ctl) : Prop := desired (lane c') = desired (lane c).

#[global] Instance same_desired_preorder : PreOrder same_desired.
Proof. split; unfold same_desired; [done|congruence]. Qed.

Lemma desired_db f : (forall d, desired (d_lane (f d)) = desired (d_lane d)) -> keeps same_desired (on_db f).
Proof. intros H. apply ck_modify. intros c. apply H. Qed.

Lemma desired_modify (f : ctl -> ctl) :
  (forall c, ct_manager (f c) = ct_manager c) -> keeps same_desired (E := ctl_exn) (modify f).
Proof. intros H. apply ck_modify. intros c. unfold same_desired, lane, db. by rewrite H. Qed.

Lemma desired_get n : keeps same_desired (get_c n).
Proof. intros c. unfold get_c, on_manager, within, get_. simpl. by destruct c. Qed.

Lemma desired_status n st : keeps same_desired (set_status_c n st).
Proof. intros c. unfold same_desired. by rewrite set_status_lane. Qed.

#[local] Hint Resolve desired_get desired_status : ctl.

Ltac desired_ :=
  repeat first
    [ keeps_step
    | solve [eauto with ctl]
    | solve [apply desired_db; intros ?; reflexivity]
    | solve [apply desired_modify; intros ?; repeat (simpl; try done; split_match)] ].

Lemma desired_stream cfg e config : keeps same_desired (_start_stream cfg e config).
Proof.
  unfold _start_stream, dispatch_stream, _record_broadcast_placement, store_placement. desired_.
  all: intros c; unfold dispatch_run;
    repeat match goal with |- context [match ?x with (_, _) => _ end] => destruct x end; done.
Qed.

Lemma desired_restart cfg e name : keeps same_desired (restart_pipeline cfg e name).
Proof.
  unfold restart_pipeline, recorded, _record_lifecycle_operation, _complete_lifecycle_operation, _stop_stream, remove_job,
    cancel_queued, _may_schedule, _do_schedule, _add_job. desired_; apply desired_stream.
Qed.

(** C38: a restart of a stopped pipeline is undone by the next boot.
    restart_pipeline clears the stopped flag and schedules the pipeline, but
    not the desired status that stop_pipeline set, so the boot after it finds
    the pipeline stopped and leaves it without job, stream or placement. *)
Theorem restart_undone_by_boot cfg load query e1 e2 p s name r :
  let s1 := step cfg load e1 (ARestart name) s in
  let c := sy_ctl (step cfg load e2 (ABoot query p) s1) in
  desired (lane (sy_ctl s)) !! name = Some r -> ds_running r = false ->
  well_named load (get_all_pipelines (db (sy_ctl s1))) ->
  (forall st, aget name (m_pipelines (ct_manager c)) = Some st -> ps_status st = Stopped) /\
  name ∉ ct_jobs c /\ ct_stream_run_ids c !! name = None /\ ct_active_group c !! name = None.
Proof.
  intros s1 c Hr Hd Hw. apply boot_quiet; [|done]. right. exists r. split; [|by rewrite Hd, orb_true_r].
  change (desired (lane (sy_ctl s1)) !! name = Some r). unfold s1. cbn [step].
  unfold run_ctl. cbn [sy_ctl]. by rewrite (desired_restart cfg e1 name (sy_ctl s)).
Qed.

Definition stopped_q : list action := [register_q; AStop "q"].

Lemma restart_undone_by_boot_witness :
  status_of_p "q" (demo_run up (stopped_q ++ [ARestart "q"])) = Some Scheduled /\
  "q"%string ∉ ct_jobs (sy_ctl (demo_run up (stopped_q ++ [ARestart "q"; ABoot no_reply up]))).
Proof.
  split; [vm_compute; reflexivity|].
  destruct (restart_undone_by_boot demo_cfg demo_load no_reply (at_ 3) (at_ 4) up (demo_run up stopped_q) "q"
              (mkDesired false 1 false "1970-01-01T00:00:02+00:00")) as (_ & H & _); [vm_compute; reflexivity|reflexivity| |exact H].
  assert (get_all_pipelines (db (sy_ctl (step demo_cfg demo_load (at_ 3) (ARestart "q") (demo_run up stopped_q)))) = [("q", "q")]%string) as E
    by (vm_compute; reflexivity).
  intros n y cf. rewrite E. intros Hin%list_elem_of_singleton. simplify_eq. vm_compute. by intros [= <-].
Defined.

(** ** Histories *)

(** A pipeline that is deleted and registered again is scheduled, but the
    tombstone of its desired state stays, and the next boot leaves it stopped. *)
Lemma reregistered_not_scheduled_after_boot :
  let again := [register_q; ADelete "q"; register_q] in
  reach demo_cfg demo_load (demo_run up again) /\
  status_of_p "q" (demo_run up again) = Some Scheduled /\
  status_of_p "q" (demo_run up (again ++ [ABoot no_reply up])) = Some Stopped.
Proof. split_and!; [apply demo_reach|..]; vm_compute; reflexivity. Qed.

(** The journal answers that the attempt is active. *)
Definition active_reply (url aid : string) : option attempt_reply :=
  Some (mkReply "active" (mkIds Absent Absent Absent Absent) None false).

(** The manager goes down between the dispatch of a queued run and its commit;
    the boot finds the attempt active, and then the run completes. *)
Definition adopted_p : list action :=
  queued_p ++ APool (fun _ => up) :: passes 8 ++ [ABoot active_reply up; callback_p "success"].

(** A queued run adopted by a boot never leaves the queue.  When the
    manager restarts while a drained run is active, the adoption takes over the
    attempt but not its queued row: after the run has completed with success
    the row is still being dispatched, and a manual trigger answers with the
    finished run instead of starting one. *)
Theorem adopted_queue_row_stays_open :
  let s := demo_run down adopted_p in
  reach demo_cfg demo_load s /\
  (q_status <$> queue (lane (sy_ctl s)) !! "run2.0"%string) = Some QDispatching /\
  (rn_status <$> get_run "run2.0" (db (sy_ctl s))) = Some SUCCESS /\
  healthy_workers (ct_pool (sy_ctl s)) <> [] /\
  (trigger_run demo_cfg (at_ 30) "p" (sy_ctl s)).1 = Ok (QueuedAs "run2.0").
Proof.
  split_and!; [apply demo_reach|..]; try (vm_compute; reflexivity). vm_compute. discriminate.
Qed.

(** An update lands between the acceptance of a dispatch and its commit; the
    next run starts, and then the first one completes. *)
Definition replaced_p : list action :=
  [register_p; ATrigger "p" false; AThread 0; AThread 0; AUpdate "p" "p2"; AThread 0; AThread 0;
   ATrigger "p" false; AThread 1; AThread 1; AThread 1].

(** A late completion resets the status of a running pipeline.  After an
    update abandoned a dispatch the worker had accepted, the next run is
    started; when the abandoned run completes, the newer run keeps its lease,
    attempt and guard, but the pipeline's status goes from running to stopped. *)
Theorem late_completion_resets_status :
  let s := demo_run up replaced_p in
  let s' := demo_run up (replaced_p ++ [callback_p "success"]) in
  reach demo_cfg demo_load s' /\
  status_of_p "p" s = Some Running /\ status_of_p "p" s' = Some Stopped /\
  (ls_run_id <$> aget "p"%string (ct_leases (sy_ctl s'))) = Some "run8.0"%string /\
  (at_state <$> attempts (led (lane (sy_ctl s'))) !! "run8.0-a1"%string) = Some SRunning.
Proof. split_and!; [apply demo_reach|..]; vm_compute; reflexivity. Qed.

(** The queue above its budget: with one queued run allowed, a second one is
    admitted while the first is being dispatched, and the first returns. *)
Definition crowded : list action :=
  [register_p; register_q; ATrigger "p" false; APool (fun _ => up)] ++ passes 7 ++ [APool (fun _ => down)]
  ++ passes 1 ++ [ATrigger "q" false] ++ passes 2.

Lemma queue_cap_exceeded :
  let s := demo_run down crowded in
  reach demo_cfg demo_load s /\ se_queue_max_count demo_cfg = 1 /\
  length (get_active_queued_runs (lane (sy_ctl s))) = 2%nat.
Proof. split_and!; [apply demo_reach|..]; vm_compute; reflexivity. Qed.
End ManagerFindings.
