(* ===== verification/PlacementFrame.v ===== *)
(** * What leaves placements alone

    Most programs of the manager change neither the placements, in memory or
    in the table, nor the stored configurations: the ledger, the queue, batch
    runs, completions, the batch reconciler and the first part of a boot. *)

From Stdlib Require Import ZArith Lia Ascii String.
From stdpp Require Import base tactics list strings gmap option relations.
From S2P Require Import Prelude CtlMonad PyStr IsoTime PyVal Ledger LedgerLane LedgerSafety Accounting WorkerPool Manager Controller BatchLane BootLane Reconciler Placements ManagerSystem ManagerRel ManagerSafety ManagerDemo ManagerLaws ManagerEvents.
Import stdpp.list.

#[local] Open Scope Z_scope.
#[local] Open Scope list_scope.

Module PlacementFrame.
Import CtlMonad IsoTime PyVal Ledger LedgerLane LedgerSafety Accounting StatsStore WorkerPool Manager Controller.
Import BatchLane BootLane Reconciler Placements ManagerSystem ManagerRel ManagerSafety ManagerDemo ManagerLaws ManagerEvents.

(** Every registered state is under the name of its configuration. *)
Definition keyed (m : manager) : Prop :=
  forall name p, aget name (m_pipelines m) = Some p -> cf_name (ps_config p) = name.

(** The tables of placements, configurations and versions. *)
Definition tables (d : database) := (d_placements d, d_registered d, d_versions d).

Definition frame (c c' : ctl) : Prop :=
  ct_placements c' = ct_placements c /\ ct_active_group c' = ct_active_group c /\
  tables (db c') = tables (db c) /\ (keyed (ct_manager c) -> keyed (ct_manager c')).

#[global] Instance frame_preorder : PreOrder frame.
Proof.
  split; [by intros c; split_and!|]. intros a b c (A1 & A2 & A3 & A4) (B1 & B2 & B3 & B4).
  split_and!; [congruence..|auto].
Qed.

(** ** Statements *)

Lemma frame_silent (f : ctl -> ctl) :
  (forall c, ct_placements (f c) = ct_placements c /\ ct_active_group (f c) = ct_active_group c /\
     ct_manager (f c) = ct_manager c) -> keeps frame (E := ctl_exn) (modify f).
Proof.
  intros H. apply ck_modify. intros c. destruct (H c) as (H1 & H2 & H3). unfold frame, db. rewrite H1, H2, H3. by split_and!.
Qed.

Lemma frame_db f : (forall d, tables (f d) = tables d) -> keeps frame (on_db f).
Proof. intros H. apply ck_modify. intros c. split_and!; try done. apply H. Qed.

Lemma frame_lane f : keeps frame (on_lane f).
Proof. by apply frame_db. Qed.

Lemma frame_ledger f : keeps frame (on_ledger f).
Proof. apply frame_lane. Qed.

Lemma frame_count f : keeps frame (lane_count f).
Proof. unfold lane_count. repeat keeps_step. apply frame_lane. Qed.

Lemma frame_claim a : keeps frame (claim a).
Proof. intros c. unfold claim. by destruct (_claim_for_dispatch a (lane c)). Qed.

Lemma frame_dispatch cfg e rid name yaml sch fl a : keeps frame (dispatch_run cfg e rid name yaml sch fl a).
Proof. intros c. unfold dispatch_run. by destruct (dispatch_with_result _ _ _ _ _ _ _ _ _ _ _ _). Qed.

Lemma frame_manager {A} (m : M manager ctl_exn A) :
  keeps (fun x y => tables (m_db y) = tables (m_db x) /\ (keyed x -> keyed y)) m -> keeps frame (on_manager m).
Proof. apply ck_within. intros c x [H1 H2]. by split_and!. Qed.

Lemma frame_get name : keeps frame (get_c name).
Proof. apply frame_manager. by intros m. Qed.

Lemma frame_exists name : keeps frame (exists_c name).
Proof. apply ck_gets, _. Qed.

Lemma keyed_aset name p m : cf_name (ps_config p) = name -> keyed m -> keyed (with_pipelines (aset name p) m).
Proof.
  intros Hp H n q. simpl. destruct (decide (n = name)) as [->|Hn].
  - rewrite aget_aset. by intros [= <-].
  - rewrite aget_aset_ne by done. apply H.
Qed.

Lemma keyed_change name f m : (forall p, ps_config (f p) = ps_config p) -> keyed m -> keyed (change name f m).
Proof.
  intros Hf H. unfold change. destruct (aget name (m_pipelines m)) as [p|] eqn:E; [|done].
  apply keyed_aset; [|done]. rewrite Hf. by apply H.
Qed.

Lemma frame_set_status name st : keeps frame (set_status_c name st).
Proof.
  apply frame_manager. intros m. unfold set_status, bind, get_, modify.
  destruct (aget name (m_pipelines m)); simpl; [|done]. rewrite change_db. split; [done|by apply keyed_change].
Qed.

Lemma save_run_tables r d : tables (save_run r d) = tables d.
Proof. unfold save_run. by destruct (d_history d !! rn_run_id r). Qed.

Lemma frame_record_run name r : keeps frame (on_manager (record_run name r)).
Proof.
  apply frame_manager. intros m. unfold record_run, bind, get_, modify.
  destruct (aget name (m_pipelines m)); simpl; [|done]. rewrite save_run_tables, change_db.
  split; [done|]. intros H. by apply (keyed_change name (note_run r) m).
Qed.

Lemma frame_deregister name : keeps frame (on_manager (deregister name)).
Proof.
  apply frame_manager. intros m. unfold deregister, bind, get_, modify.
  destruct (aget name (m_pipelines m)); simpl; [|done]. split; [done|].
  intros H n q. simpl. intros [_ Hn]%aget_adel_some. by apply H.
Qed.

Create HintDb frame.
#[export] Hint Resolve frame_lane frame_ledger frame_count frame_claim frame_dispatch frame_get frame_exists
  frame_set_status frame_record_run frame_deregister : frame.

Ltac framed :=
  repeat first
    [ keeps_step
    | solve [eauto with frame nocore]
    | lazymatch goal with
      | |- keeps _ (modify _) => solve [apply frame_silent; intros ?; repeat (simpl; try done; split_match)]
      | |- keeps _ (on_db _) => solve [apply frame_db; intros ?; rewrite ?save_run_tables; done]
      end ].

(** ** Programs *)

Section programs.
Context (cfg : settings) (query : string -> string -> option attempt_reply).

Lemma frame_may name : keeps frame (_may_schedule name).
Proof. apply ck_gets, _. Qed.

Lemma frame_terminalize e aid rid name gen o why : keeps frame (terminalize e aid rid name gen o why).
Proof. apply frame_ledger. Qed.

Lemma frame_remove_job name : keeps frame (remove_job name).
Proof. unfold remove_job. framed. Qed.

Lemma frame_sync name slots : keeps frame (E := ctl_exn) (modify (_sync_stream_run_ids_from_slots name slots)).
Proof. by apply frame_silent. Qed.

#[local] Hint Resolve frame_may frame_terminalize frame_remove_job frame_sync : frame.

Lemma frame_schedule_job e name p c :
  aget name (m_pipelines (ct_manager c)) = Some p -> cf_schedule (ps_config p) <> StreamSchedule ->
  frame c (_do_schedule cfg e name c).2.
Proof.
  intros Hp Hs. unfold _do_schedule. rewrite (bind_returns _ _ _ _ _ (get_c_ok _ _ _ Hp)).
  assert (keeps frame (_add_job (cf_name (ps_config p)))) as Ha by (unfold _add_job; framed).
  destruct (cf_schedule (ps_config p)); [done|apply Ha..|apply frame_set_status].
Qed.

Lemma frame_on_complete e name st : keeps frame (_on_run_complete cfg e name st).
Proof.
  intros c. unfold _on_run_complete. destruct (aget name (m_pipelines (ct_manager c))) as [p|] eqn:Hp.
  2: { unfold bind at 1, get_c, on_manager, within, get_. rewrite Hp. by destruct c. }
  rewrite (bind_returns _ _ _ _ _ (get_c_ok _ _ _ Hp)).
  case_bool_decide; [done|]. case_bool_decide; [|apply frame_set_status].
  unfold bind at 1, gets. case_bool_decide; [apply frame_set_status|].
  case_bool_decide as Hs; simpl; [|apply frame_set_status]. destruct (cf_enabled _); [|apply frame_set_status].
  unfold bind, _may_schedule, gets. match goal with |- context [if ?b then _ else _] => destruct b end;
    [|apply frame_set_status].
  eapply frame_schedule_job; [exact Hp|]. intros E. rewrite E in Hs. by destruct Hs.
Qed.

#[local] Hint Resolve frame_on_complete : frame.

Lemma frame_finalize e name r : keeps frame (_finalize_batch_result cfg e name r).
Proof. unfold _finalize_batch_result. framed. Qed.

Lemma frame_skipped e name rid why : keeps frame (_record_skipped_manual_run cfg e name rid why).
Proof. unfold _record_skipped_manual_run. framed. Qed.

Lemma frame_accept e aid rid gen url : keeps frame (accept e aid rid gen url).
Proof. unfold accept. framed. Qed.

Lemma frame_enqueue e name rid yaml : keeps frame (_enqueue_manual_run cfg e name rid yaml).
Proof. unfold _enqueue_manual_run, _reject_queue_over_capacity, set_queued. cbv zeta. framed. Qed.

Lemma frame_terminalize_active e rid o why : keeps frame (terminalize_active e rid o why).
Proof. unfold terminalize_active. framed. Qed.

#[local] Hint Resolve frame_finalize frame_skipped frame_accept frame_enqueue frame_terminalize_active : frame.

Lemma frame_trigger e name : keeps frame (trigger_run cfg e name).
Proof. unfold trigger_run, set_queued, submit. cbv zeta. framed. Qed.

Lemma frame_batch_step e tid pc : keeps frame (batch_step cfg e tid pc).
Proof.
  unfold batch_step, batch_claim, batch_outcome, batch_commit, end_attempt, batch_enqueue, batch_finally. framed.
Qed.

Lemma frame_worker_complete e rid name w m : keeps frame (on_worker_run_complete cfg e rid name w m).
Proof.
  unfold on_worker_run_complete. framed; apply frame_silent; intros c;
    unfold _pop_batch_lease_for_run, _remove_stream_run_id; repeat (simpl; try done; split_match).
Qed.

#[local] Hint Resolve frame_worker_complete : frame.

Lemma frame_attempt_complete e aid gen rid name w m :
  keeps frame (on_attempt_run_complete cfg e aid gen rid name w m).
Proof. unfold on_attempt_run_complete. framed. Qed.

#[local] Hint Resolve frame_attempt_complete : frame.

Lemma frame_deliver e m : keeps frame (deliver cfg e m).
Proof. unfold deliver. framed. Qed.

Lemma frame_audit e : keeps frame (audit cfg e).
Proof. unfold audit. framed. Qed.

Lemma frame_reconcile e pc : keeps frame (reconcile cfg query e pc).
Proof.
  unfold reconcile, recon_step, adopt_active_batch_run, lost_complete, lost_end, expire_queued_run, claim_queued_run,
    commit_queued_dispatch, revert_queued_claim, _retire_cancelled_claim_attempt, pop_lease. cbv zeta. framed.
Qed.

Lemma frame_resolve e op aid x : keeps frame (_resolve_attempt_at_boot cfg query e op aid x).
Proof.
  unfold _resolve_attempt_at_boot, record_completed_lifecycle_operation, _record_lifecycle_operation,
    _complete_lifecycle_operation, _record_adoption_completion_history, _adopt_active_attempt_lease. cbv zeta. framed.
Qed.

Lemma frame_resolve_all e : keeps frame (_resolve_non_terminal_attempts_at_boot cfg query e).
Proof.
  unfold _resolve_non_terminal_attempts_at_boot. keeps_step; [framed|]. keeps_step; [keeps_step|].
  generalize 0%nat. induction a0 as [|[aid x] l IH]; intros i; simpl; [keeps_step|].
  keeps_step; [|apply IH]. keeps_step; [apply frame_resolve|keeps_step].
Qed.
End programs.

#[export] Hint Resolve frame_may frame_remove_job frame_sync : frame.
End PlacementFrame.
