(* ===== verification/PlacementSafety.v ===== *)
(** * One active placement for each stream

    With single-stream placements on, the placement in memory, the active
    group of a pipeline and the active row of the table belong together in
    every reachable state: reports, redispatches, drift, adoption of unplaced
    streams, operators and boots interleaved, a pipeline never has two active
    placement rows. *)

From Stdlib Require Import ZArith Lia Ascii String.
From stdpp Require Import base tactics list strings gmap option relations.
From S2P Require Import Prelude CtlMonad PyStr IsoTime PyVal Ledger LedgerLane LedgerSafety Accounting WorkerPool WorkerPoolLaws Manager Controller BatchLane BootLane Reconciler Placements ManagerSystem ManagerRel ManagerSafety ManagerDemo ManagerLaws ManagerEvents BootLaws PlacementFrame.
Import stdpp.list.

#[local] Open Scope Z_scope.
#[local] Open Scope list_scope.

Module PlacementSafety.
Import CtlMonad IsoTime PyVal Ledger LedgerLane LedgerSafety Accounting StatsStore WorkerPool Manager Controller.
Import BatchLane BootLane Reconciler Placements ManagerSystem ManagerRel ManagerSafety ManagerDemo ManagerLaws ManagerEvents.
Import BootLaws PlacementFrame.

Definition one_active (d : database) : Prop :=
  forall g g' r r', d_placements d !! g = Some r -> d_placements d !! g' = Some r' ->
    active_placement r = true -> active_placement r' = true -> pr_pipeline_name r = pr_pipeline_name r' -> g = g'.

(** [g] is the only group of [name] whose row may be active. *)
Definition owns (name g : string) (d : database) : Prop :=
  forall g' r, d_placements d !! g' = Some r -> active_placement r = true -> pr_pipeline_name r = name -> g' = g.

Record pinv (c : ctl) : Prop := mkPinv {
  pv_mem : forall g r, aget g (ct_placements c) = Some r -> ct_active_group c !! pr_pipeline_name r = Some g;
  pv_group : forall n g, ct_active_group c !! n = Some g ->
    exists r, aget g (ct_placements c) = Some r /\ pr_pipeline_name r = n;
  pv_row : forall g r, aget g (ct_placements c) = Some r ->
    exists r', d_placements (db c) !! g = Some r' /\ pr_pipeline_name r' = pr_pipeline_name r;
  pv_owner : forall n g, ct_active_group c !! n = Some g -> owns n g (db c);
  pv_one : one_active (db c) }.

(** The stored configurations carry the names they are stored under. *)
Definition named (load : string -> option PipelineConfig) (name yaml : string) : Prop :=
  forall c, load yaml = Some c -> cf_name c = name.

Definition names_ok (load : string -> option PipelineConfig) (d : database) : Prop :=
  (forall n r, d_registered d !! n = Some r -> named load n (rg_yaml_text r)) /\
  (forall v, v ∈ d_versions d -> named load (vr_name v) (vr_yaml_content v)).

Section statements.
Context (load : string -> option PipelineConfig) (e : io) (W : string -> Prop).

(** No row yet under the group ids that the names of [W] get. *)
Record inv (c : ctl) : Prop := mkInv {
  iv_keyed : keyed (ct_manager c);
  iv_names : names_ok load (db c);
  iv_placements : pinv c;
  iv_fresh : forall n, W n -> d_placements (db c) !! _make_placement_group_id e n = None }.

Lemma frame_inv c c' : frame c c' -> inv c -> inv c'.
Proof.
  unfold frame, tables. intros (E1 & E2 & E3 & Hk) [H1 H2 [P1 P2 P3 P4 P5] H4]. injection E3 as F1 F2 F3.
  split; [auto|unfold names_ok; by rewrite F2, F3| |by rewrite F1].
  unfold owns in P4. split; unfold one_active, owns; rewrite ?E1, ?E2, ?F1; done.
Qed.

Lemma inv_frame {A} (m : C A) : keeps frame m -> keeps (preserves inv) m.
Proof. intros H c Hc. by eapply frame_inv; [apply H|]. Qed.

(** The memory holds a placement of [name] under [g]. *)
Definition holding (g name : string) (c : ctl) : Prop :=
  inv c /\ exists r, aget g (ct_placements c) = Some r /\ pr_pipeline_name r = name.

Lemma holding_frame {A} g name (m : C A) : keeps frame m -> keeps (preserves (holding g name)) m.
Proof.
  intros H c [Hi (r & Hr & Hn)]. specialize (H c). split; [by eapply frame_inv|].
  exists r. destruct H as (E & _). by rewrite E.
Qed.

Lemma holding_set_row g name r :
  pr_pipeline_name r = name -> keeps (preserves (holding g name)) (E := ctl_exn) (modify (set_row g r)).
Proof.
  intros Hr. apply ck_modify. intros c [[H1 H2 [P1 P2 P3 P4 P5] H4] (r0 & Hr0 & Hn)].
  split; [|exists r; simpl; by rewrite aget_aset].
  split; try done. split; simpl; try done.
  - intros g' r'. destruct (decide (g' = g)) as [->|Hg].
    + rewrite aget_aset. intros [= <-]. rewrite Hr, <- Hn. by apply P1.
    + rewrite aget_aset_ne by done. apply P1.
  - intros n g' Hg'. destruct (decide (g' = g)) as [->|Hg].
    + rewrite aget_aset. exists r. split; [done|]. destruct (P2 _ _ Hg') as (r1 & ? & ?). congruence.
    + rewrite aget_aset_ne by done. by apply P2.
  - intros g' r'. destruct (decide (g' = g)) as [->|Hg].
    + rewrite aget_aset. intros [= <-]. destruct (P3 _ _ Hr0) as (r1 & ? & ?). exists r1. split; [done|congruence].
    + rewrite aget_aset_ne by done. apply P3.
Qed.

(** A change of the row of a group that the memory holds. *)
Lemma inv_alter f g name c :
  (forall r, pr_pipeline_name (f r) = pr_pipeline_name r) -> holding g name c ->
  inv (with_manager (with_db (with_placements (alter f g))) c).
Proof.
  intros Hf [[H1 H2 [P1 P2 P3 P4 P5] H4] (r0 & Hr0 & Hn)].
  destruct (P3 _ _ Hr0) as (r1 & Hr1 & Hn1).
  assert (forall g' r, alter f g (d_placements (db c)) !! g' = Some r ->
            exists r', d_placements (db c) !! g' = Some r' /\ pr_pipeline_name r' = pr_pipeline_name r /\
                       (g' = g \/ r' = r)) as Hrow.
  { intros g' r. destruct (decide (g = g')) as [<-|Hg].
    - rewrite lookup_alter_eq, Hr1. intros [= <-]. exists r1. by rewrite Hf; auto.
    - rewrite lookup_alter_ne by done. eauto. }
  assert (forall n g', ct_active_group c !! n = Some g' ->
            owns n g' (with_placements (alter f g) (db c))) as Howner.
  { intros n g' Hg' g2 r Hr Hact Hname. destruct (Hrow _ _ Hr) as (r' & Hr' & Hn' & [-> | ->]).
    - assert (r' = r1) as -> by congruence. pose proof (P1 _ _ Hr0) as E. rewrite <- Hn1, Hn', Hname in E. congruence.
    - by eapply P4. }
  split; try done.
  - split; simpl; try done.
    + intros g' r' Hg'. destruct (P3 _ _ Hg') as (r2 & Hr2 & Hn2). unfold db in *. simpl.
      destruct (decide (g = g')) as [<-|Hg]; [rewrite lookup_alter_eq, Hr2|rewrite lookup_alter_ne by done; eauto].
      exists (f r2). by rewrite Hf.
    + intros g1 g2 r r' Hr Hr' Ha Ha' Hname.
      destruct (Hrow _ _ Hr) as (x & Hx & Hxn & Cx), (Hrow _ _ Hr') as (y & Hy & Hyn & Cy).
      destruct Cx as [-> | <-], Cy as [-> | <-]; [done| | |by eapply P5].
      * assert (x = r1) as -> by congruence. pose proof (P1 _ _ Hr0) as E. rewrite <- Hn1 in E.
        symmetry. eapply (P4 _ _ E); [exact Hy|done|congruence].
      * assert (y = r1) as -> by congruence. pose proof (P1 _ _ Hr0) as E. rewrite <- Hn1 in E.
        eapply (P4 _ _ E); [exact Hx|done|congruence].
  - intros n Hw. specialize (H4 n Hw). unfold db in *. simpl. by rewrite lookup_alter_None.
Qed.

Lemma holding_persist g name r : keeps (preserves (holding g name)) (persist e g r).
Proof.
  apply ck_modify. intros c H. split; [|exact (proj2 H)]. by eapply inv_alter.
Qed.

Lemma slot_run_alter g i rid n x d :
  (update_slot_run_id g i rid n x d).2 = d \/
  exists f, (forall r, pr_pipeline_name (f r) = pr_pipeline_name r) /\
    (update_slot_run_id g i rid n x d).2 = with_placements (alter f g) d.
Proof.
  unfold update_slot_run_id. destruct (d_placements d !! g) as [r|] eqn:Hr; [|by left].
  repeat (split_match; simpl; [by left|]). destruct (find_slot _ _); [|by left]. repeat (split_match; simpl; [by left|]).
  right. exists (fun r => mkPlacement (pr_pipeline_name r) (update_slot i (set_slot_run rid SlotRunning n) (pr_slots r))
                            (pr_target_count r) (pr_started_at r) (pr_status r) (pr_stopped_at r)).
  split; [done|]. unfold with_placements. f_equal. apply map_eq. intros k.
  destruct (decide (g = k)) as [<-|Hk]; [by rewrite lookup_insert_eq, lookup_alter_eq, Hr|].
  by rewrite lookup_insert_ne, lookup_alter_ne.
Qed.

Lemma holding_slot_run g name i rid n x :
  keeps (preserves (holding g name)) (db_count (update_slot_run_id g i rid n x)).
Proof.
  intros c H. unfold db_count, bind, gets, on_db, modify, ret. cbn [snd].
  destruct (slot_run_alter g i rid n x (db c)) as [E|(f & Hf & E)].
  - replace (with_manager _ c) with c; [done|]. unfold with_manager, with_db. change (m_db (ct_manager c)) with (db c).
    rewrite E. by destruct c as [[]].
  - split; [|exact (proj2 H)]. pose proof (inv_alter f g name c Hf H) as Hi.
    replace (with_manager _ c) with (with_manager (with_db (with_placements (alter f g))) c); [done|].
    unfold with_manager, with_db. change (m_db (ct_manager c)) with (db c). by rewrite E.
Qed.

(** A program that works on one placement of the memory. *)
Lemma run_holding {A} g r (m : C A) c :
  keeps (preserves (holding g (pr_pipeline_name r))) m -> aget g (ct_placements c) = Some r -> inv c -> inv (m c).2.
Proof. intros Hm Hr Hc. apply (Hm c). split; [done|eauto]. Qed.

(** A placement leaves the memory and its row is closed. *)
Lemma inv_drop f n g c c' :
  inv c -> ct_active_group c !! n = Some g ->
  (forall r, active_placement (f r) = false) ->
  ct_placements c' = adel g (ct_placements c) -> ct_active_group c' = delete n (ct_active_group c) ->
  tables (db c') = (alter f g (d_placements (db c)), d_registered (db c), d_versions (db c)) ->
  keyed (ct_manager c') -> inv c'.
Proof.
  intros [H1 H2 [P1 P2 P3 P4 P5] H4] Hg Hf E1 E2 E3 Hk. injection E3 as F1 F2 F3.
  assert (forall k r, d_placements (db c') !! k = Some r -> active_placement r = true ->
            k <> g /\ d_placements (db c) !! k = Some r) as Hrow.
  { intros k r. rewrite F1. destruct (decide (g = k)) as [<-|Hne]; [|rewrite lookup_alter_ne by done; by auto].
    rewrite lookup_alter_eq. destruct (d_placements (db c) !! g); simpl; [|done]. intros [= <-]. by rewrite Hf. }
  split; [done|unfold names_ok; by rewrite F2, F3| |].
  - split.
    + intros k r. rewrite E1, E2. intros [Hk' Hr]%aget_adel_some. rewrite lookup_delete_ne; [by apply P1|].
      intros ->. apply P1 in Hr. congruence.
    + intros k h. rewrite E1, E2. intros [Hk' Hr]%lookup_delete_Some. destruct (P2 _ _ Hr) as (r & Hr1 & Hr2).
      exists r. split; [|done]. rewrite aget_adel_ne; [done|]. intros ->.
      destruct (P2 _ _ Hg) as (r' & ? & ?). congruence.
    + intros k r. rewrite E1, F1. intros [Hk' Hr]%aget_adel_some. rewrite lookup_alter_ne by done. by apply P3.
    + intros k h. rewrite E2. intros [Hk' Hr]%lookup_delete_Some h' r Hr' Ha Hn. apply Hrow in Hr' as [_ Hr']; [|done].
      by eapply P4.
    + intros k h r r' Hr Hr' Ha Ha' Hn. apply Hrow in Hr as [_ Hr]; [|done]. apply Hrow in Hr' as [_ Hr']; [|done].
      by eapply P5.
  - intros k Hw. rewrite F1. by rewrite lookup_alter_None, H4.
Qed.

(** A placement of the table enters the memory. *)
Lemma inv_restore n g r r' c c' :
  inv c -> ct_active_group c !! n = None -> d_placements (db c) !! g = Some r -> active_placement r = true ->
  pr_pipeline_name r = n -> pr_pipeline_name r' = n ->
  ct_placements c' = aset g r' (ct_placements c) -> ct_active_group c' = <[n := g]> (ct_active_group c) ->
  tables (db c') = tables (db c) -> keyed (ct_manager c') -> holding g n c'.
Proof.
  intros [H1 H2 [P1 P2 P3 P4 P5] H4] Hg Hr Ha Hn Hn' E1 E2 E3 Hk. injection E3 as F1 F2 F3.
  assert (forall x, aget g (ct_placements c) = Some x -> False) as Hmem.
  { intros x Hx. destruct (P3 _ _ Hx) as (y & Hy & Ey). apply P1 in Hx. congruence. }
  split; [|exists r'; rewrite E1; by rewrite aget_aset].
  split; [done|unfold names_ok; by rewrite F2, F3| |by rewrite F1]. split.
  - intros k x. rewrite E1, E2. destruct (decide (k = g)) as [->|Hne].
    + rewrite aget_aset. intros [= <-]. by rewrite Hn', lookup_insert_eq.
    + rewrite aget_aset_ne by done. intros Hx. apply P1 in Hx. rewrite lookup_insert_ne; [done|]. congruence.
  - intros k h. rewrite E1, E2. intros [[<- <-]|[Hne Hh]]%lookup_insert_Some; [rewrite aget_aset; eauto|].
    destruct (P2 _ _ Hh) as (x & Hx & Ex). exists x. split; [|done]. rewrite aget_aset_ne; [done|].
    intros ->. by eapply Hmem.
  - intros k x. rewrite E1, F1. destruct (decide (k = g)) as [->|Hne].
    + rewrite aget_aset. intros [= <-]. exists r. split; congruence.
    + rewrite aget_aset_ne by done. apply P3.
  - intros k h. rewrite E2. unfold owns. rewrite F1. intros [[<- <-]|[Hne Hh]]%lookup_insert_Some.
    + intros g' x Hx Hax Hnx. eapply P5; [exact Hx|exact Hr|done..|congruence].
    + by apply P4.
  - unfold one_active. by rewrite F1.
Qed.
End statements.

(** A new placement: every other active row of the pipeline is closed. *)
Lemma inv_store load e (W W' : string -> Prop) n g r now c c' :
  inv load e W c -> ct_active_group c !! n = None -> d_placements (db c) !! g = None -> pr_pipeline_name r = n ->
  (forall k, W' k -> W k /\ _make_placement_group_id e k <> g) ->
  ct_placements c' = aset g r (ct_placements c) -> ct_active_group c' = <[n := g]> (ct_active_group c) ->
  tables (db c') = tables (save_broadcast_placement g r (deactivate_other_placements n g now (db c))) ->
  keyed (ct_manager c') -> inv load e W' c'.
Proof.
  intros [H1 H2 [P1 P2 P3 P4 P5] H4] Hg Hr Hn HW E1 E2 E3 Hk. unfold tables in E3. simpl in E3.
  match type of E3 with context [tbl_update ?p ?f] => set (pr := p) in E3; set (cl := f) in E3 end.
  injection E3 as F1 F2 F3.
  assert (forall k x, d_placements (db c') !! k = Some x -> active_placement x = true ->
            (k = g /\ x = r) \/ (k <> g /\ pr_pipeline_name x <> n /\ d_placements (db c) !! k = Some x)) as Hrow.
  { intros k x. rewrite F1. intros [[-> ->]|[Hne Hx]]%lookup_insert_Some; [by auto|]. right. split; [done|].
    rewrite lookup_tbl_update in Hx. destruct (d_placements (db c) !! k) as [y|] eqn:Hy; [|done].
    simpl in Hx. destruct (pr k y) eqn:Ep; simplify_eq/=. split; [|done]. intros Hx. revert Ep. unfold pr.
    rewrite Hx, bool_decide_true, H by done. simpl. intros Ep. apply negb_false_iff, String.eqb_eq in Ep. congruence. }
  assert (forall x, aget g (ct_placements c) = Some x -> False) as Hmem.
  { intros x Hx. destruct (P3 _ _ Hx) as (y & Hy & _). congruence. }
  split; [done|unfold names_ok; by rewrite F2, F3| |]. split.
  - intros k x. rewrite E1, E2. destruct (decide (k = g)) as [->|Hne].
    + rewrite aget_aset. intros [= <-]. by rewrite Hn, lookup_insert_eq.
    + rewrite aget_aset_ne by done. intros Hx. apply P1 in Hx. rewrite lookup_insert_ne; [done|]. congruence.
  - intros k h. rewrite E1, E2. intros [[<- <-]|[Hne Hh]]%lookup_insert_Some; [rewrite aget_aset; eauto|].
    destruct (P2 _ _ Hh) as (x & Hx & Ex). exists x. split; [|done]. rewrite aget_aset_ne; [done|].
    intros ->. by eapply Hmem.
  - intros k x. rewrite E1, F1. destruct (decide (k = g)) as [->|Hne].
    + rewrite aget_aset, lookup_insert_eq. intros [= <-]. eauto.
    + rewrite aget_aset_ne, lookup_insert_ne, lookup_tbl_update by done. intros Hx.
      destruct (P3 _ _ Hx) as (y & -> & Hy). simpl. eexists. split; [done|]. by destruct (pr k y).
  - intros k h. rewrite E2. intros [[<- <-]|[Hne Hh]]%lookup_insert_Some k' x Hx Ha Hnx.
    + apply Hrow in Hx as [[-> _]|(_ & Hx & _)]; done.
    + apply Hrow in Hx as [[-> ->]|(_ & _ & Hx)]; [congruence| |done]. by eapply P4.
  - intros k h x y Hx Hy Hax Hay Hxy. apply Hrow in Hx as [[-> ->]|(A1 & A2 & A3)]; [| |done];
      (apply Hrow in Hy as [[-> ->]|(B1 & B2 & B3)]; [| |done]); try congruence. by eapply P5.
  - intros k [Hw Hne]%HW. rewrite F1, lookup_insert_ne by done. rewrite lookup_tbl_update, H4; done.
Qed.
(** ** Programs on one placement *)

Section held.
Context (load : string -> option PipelineConfig) (e : io) (W : string -> Prop).
Notation inv := (inv load e W).
Notation holding := (holding load e W).

Ltac held :=
  repeat first
    [ keeps_step
    | apply holding_persist
    | apply holding_slot_run
    | apply holding_set_row; done
    | solve [apply holding_frame; framed] ].

Lemma holding_status g name st : keeps (preserves (holding g name)) (_update_broadcast_placement_status e g st).
Proof.
  intros c H. destruct H as [Hi (r & Hr & Hn)]. unfold _update_broadcast_placement_status, bind at 1, gets at 1.
  cbn [id]. rewrite Hr. match goal with |- holding _ _ (?m c).2 => enough (keeps (preserves (holding g name)) m) as Hm end.
  { apply Hm. split; [done|eauto]. }
  held.
Qed.

Lemma inv_status g st : keeps (preserves inv) (_update_broadcast_placement_status e g st).
Proof.
  intros c H. destruct (aget g (ct_placements c)) as [r|] eqn:Hr; [by eapply run_holding; [apply holding_status| |]|].
  unfold _update_broadcast_placement_status, bind, gets. cbn [id]. by rewrite Hr.
Qed.

(** A program that looks its placement up first. *)
Lemma inv_lookup {A} g (k : ctl -> option placement_row -> C A) :
  (forall c, keeps (preserves inv) (k c None)) ->
  (forall c r, keeps (preserves (holding g (pr_pipeline_name r))) (k c (Some r))) ->
  keeps (preserves inv) (let* c := gets id in k c (aget g (ct_placements c))).
Proof.
  intros H1 H2 c H. unfold bind, gets. cbn [id]. destruct (aget g (ct_placements c)) as [r|] eqn:Hr.
  - by eapply run_holding; [apply H2| |].
  - by apply H1.
Qed.

Lemma inv_update_slot g i u : keeps (preserves inv) (update_placement_slot e g i u).
Proof.
  apply (inv_lookup g (fun c o => match o with None => ret false | Some r => _ end)); [intros c; keeps_step|].
  intros c r. held.
Qed.

Lemma inv_redispatch_commit q : keeps (preserves inv) (redispatch_commit e q).
Proof.
  apply (inv_lookup (rd_group q) (fun c o => match o with None => ret false | Some r => _ end)); [intros c; keeps_step|].
  intros c r. held.
Qed.

Lemma inv_drift g : keeps (preserves inv) (drift_begin e g).
Proof.
  apply (inv_lookup g (fun c o => match o with None => ret [] | Some r => _ end)); [intros c; keeps_step|].
  intros c r. held.
Qed.

Lemma holding_stats_slots g name rid l : keeps (preserves (holding g name)) (stats_slots g rid l).
Proof.
  induction l as [|s l IH]; simpl; [keeps_step|]. keeps_step; [unfold stats_slot; held|].
  destruct a as [[s' ch] lost]. keeps_step; [exact IH|held].
Qed.

Lemma inv_report final p : keeps (preserves inv) (report e final p).
Proof.
  unfold report. destruct final; [apply inv_frame; framed|]. keeps_step; [apply inv_frame; framed|].
  unfold on_pipeline_stats. intros c H. unfold bind at 1, gets at 1. cbn [id].
  destruct (ct_active_group c !! sp_pipeline_name p) as [g|]; [|done].
  destruct (aget g (ct_placements c)) as [r|] eqn:Hr; [|done]. destruct (negb _); [done|].
  eapply run_holding; [|exact Hr|done]. keeps_step; [apply holding_stats_slots|]. held. apply holding_status.
Qed.
End held.

(** ** Stop and registration *)

Section changes.
Context (load : string -> option PipelineConfig) (e : io) (W : string -> Prop).
Notation inv := (inv load e W).

Lemma inv_stop_stream name : keeps (preserves inv) (_stop_stream e name).
Proof.
  intros c Hc. unfold _stop_stream, bind at 1, gets at 1. cbn [id]. unfold bind at 1, modify at 1. unfold bind at 1.
  set (c1 := with_streams _ _ _ c). set (m := iterM _ _).
  assert (keeps frame m) as Hm by (unfold m; framed).
  assert (frame c c1) as H1 by by split_and!. specialize (Hm c1). destruct (m c1) as [[u|x] c2]; cbn [snd] in Hm;
    (assert (frame c c2) as H2 by by etrans); [|by eapply frame_inv].
  pose proof (frame_inv _ _ _ _ _ H2 Hc) as Hi. destruct H2 as (E1 & E2 & E3 & _). clear m Hm.
  destruct (ct_active_group c !! name) as [g|] eqn:Hg; [|done].
  destruct (pv_group _ (iv_placements _ _ _ _ Hc) _ _ Hg) as (r & Hr & Hn).
  unfold bind, modify. rewrite Hr, <- E2 in *.
  eapply (inv_drop load e W (fun r0 => _) name g c2); [done|exact Hg| | | | |]; simpl; try done; [by intros r0|apply Hi].
Qed.

Lemma inv_tables f :
  (forall d, d_placements (f d) = d_placements d) -> (forall d, names_ok load d -> names_ok load (f d)) ->
  keeps (preserves inv) (on_db f).
Proof.
  intros H1 H2. apply ck_modify. intros c [A B [P1 P2 P3 P4 P5] D].
  assert (d_placements (db (with_manager (with_db f) c)) = d_placements (db c)) as E by apply H1.
  split; [done|by apply H2| |by rewrite E]. unfold owns in P4. split; unfold one_active, owns; rewrite ?E; done.
Qed.

Lemma names_registered f d :
  (forall n r, (f (d_registered d)) !! n = Some r ->
     named load n (rg_yaml_text r) \/ exists r0, d_registered d !! n = Some r0 /\ rg_yaml_text r0 = rg_yaml_text r) ->
  names_ok load d -> names_ok load (with_registered f d).
Proof.
  intros Hf [H1 H2]. split; [|exact H2]. intros n r Hr. destruct (Hf _ _ Hr) as [?|(r0 & Hr0 & <-)]; [done|by apply H1].
Qed.

Lemma inv_set_stopped b name now : keeps (preserves inv) (on_db (set_stopped b name now)).
Proof.
  apply inv_tables; [done|]. intros d. apply names_registered. intros n r.
  destruct (decide (name = n)) as [<-|Hn]; [|rewrite lookup_alter_ne by done; eauto].
  rewrite lookup_alter_eq. destruct (d_registered d !! name); [|done]. intros [= <-]. eauto.
Qed.

Lemma inv_delete_pipeline name now : keeps (preserves inv) (on_db (delete_pipeline name now)).
Proof.
  apply inv_tables; [done|]. intros d. apply names_registered. intros n r.
  destruct (decide (name = n)) as [<-|Hn]; [|rewrite lookup_alter_ne by done; eauto].
  rewrite lookup_alter_eq. destruct (d_registered d !! name); [|done]. intros [= <-]. eauto.
Qed.

Lemma names_save_pipeline name yaml source now d :
  named load name yaml -> names_ok load d -> names_ok load (save_pipeline name yaml source now d).
Proof.
  intros Hy. apply names_registered. intros n r.
  intros [[<- <-]|[_ Hr]]%lookup_insert_Some; [left|eauto]. by destruct (d_registered d !! name).
Qed.

Lemma inv_save_pipeline name yaml source now :
  named load name yaml -> keeps (preserves inv) (on_db (save_pipeline name yaml source now)).
Proof. intros Hy. apply inv_tables; [done|]. intros d. by apply names_save_pipeline. Qed.

Lemma names_save_version name yaml now d :
  named load name yaml -> names_ok load d -> names_ok load (save_pipeline_version name yaml now d).2.
Proof.
  intros Hy [H1 H2]. unfold save_pipeline_version.
  assert (names_ok load (with_versions (fun vs => (deactivate name <$> vs) ++
            [mkVersion name (max_version (of_name name d) + 1) yaml now true]) d)) as Hnew.
  { split; [exact H1|]. intros v. simpl. rewrite elem_of_app, list_elem_of_fmap, list_elem_of_singleton.
    intros [(v0 & -> & Hv0)| ->]; [|done]. unfold deactivate. destruct (String.eqb _ _); exact (H2 _ Hv0). }
  repeat (split_match; simpl); done.
Qed.

Lemma inv_register config replace yaml save now :
  (save = true -> named load (cf_name config) yaml) ->
  keeps (preserves inv) (on_manager (register config replace (Some yaml) save now)).
Proof.
  intros Hy c [A B [P1 P2 P3 P4 P5] D]. unfold on_manager, within, register.
  destruct (_ && _)%bool; cbn [snd]; [by destruct c|].
  set (m1 := mkManager _ _ _). assert (keyed m1) as Hm1.
  { unfold m1. set (st := hydrate _ _). apply (keyed_aset (cf_name config) st (ct_manager c)); [|done].
    unfold st, hydrate. by destruct (get_runs _ _ _ _ _ _). }
  match goal with |- inv (with_manager (fun _ => ?x) c) => set (m2 := x) end.
  assert (keyed m2 /\ names_ok load (m_db m2) /\ d_placements (m_db m2) = d_placements (db c)) as (K & N & E).
  { unfold m2. destruct (negb (String.eqb yaml "") && save)%bool eqn:Es; [|done].
    apply andb_true_iff in Es as [_ Es]. split_and!; [done|by apply names_save_version; auto|].
    unfold save_pipeline_version. simpl. by repeat (split_match; simpl). }
  split; [done..| |by intros n Hn; unfold db; simpl; rewrite E; apply D].
  unfold owns in P4. split; unfold one_active, owns, db; simpl; rewrite ?E; done.
Qed.
End changes.
(** ** Programs that may place a stream *)

Definition hoare {A} (P Q : ctl -> Prop) (m : C A) : Prop := forall c, P c -> Q (m c).2.

Lemma hoare_first {A B} (P Q : ctl -> Prop) (m : C A) (k : A -> C B) :
  keeps (preserves P) m -> (forall c, P c -> Q c) -> (forall a, hoare P Q (k a)) -> hoare P Q (bind m k).
Proof.
  intros Hm HQ Hk c Hc. specialize (Hm c Hc). unfold bind. destruct (m c) as [[a|x] c']; [by apply Hk|by apply HQ].
Qed.

Lemma hoare_last {A B} (P Q : ctl -> Prop) (m : C A) (k : A -> C B) :
  hoare P Q m -> (forall a, keeps (preserves Q) (k a)) -> hoare P Q (bind m k).
Proof.
  intros Hm Hk c Hc. specialize (Hm c Hc). unfold bind. destruct (m c) as [[a|x] c']; [by apply Hk|done].
Qed.

Lemma hoare_keeps {A} (P Q : ctl -> Prop) (m : C A) :
  (forall c, P c -> Q c) -> keeps (preserves P) m -> hoare P Q m.
Proof. intros HQ Hm c Hc. by apply HQ, Hm. Qed.

Lemma append_inj_r x : forall y s, (x ++ s)%string = (y ++ s)%string -> x = y.
Proof.
  assert (forall a y s, s <> (String a y ++ s)%string) as Hlen.
  { assert (forall u w, String.length (u ++ w) = (String.length u + String.length w)%nat) as Happ.
    { intros u w. induction u as [|b u IHu]; simpl; [done|]. by rewrite IHu. }
    intros a y s H. apply (f_equal String.length) in H. rewrite Happ in H. simpl in H. lia. }
  induction x as [|a x IH]; intros [|b y] s H; [done|by apply Hlen in H|symmetry in H; by apply Hlen in H|].
  simpl in H. injection H as -> H. f_equal. by eapply IH.
Qed.

Lemma group_inj e n n' : _make_placement_group_id e n = _make_placement_group_id e n' -> n = n'.
Proof. apply append_inj_r. Qed.

Section store.
Context (load : string -> option PipelineConfig) (e : io).
Notation inv := (inv load e).

Definition without (W : string -> Prop) (n : string) (k : string) : Prop := W k /\ k <> n.

Lemma inv_weaken (W W' : string -> Prop) c : (forall k, W' k -> W k) -> inv W c -> inv W' c.
Proof. intros HW [A B D E]. split; auto. Qed.

Lemma store_inv (W : string -> Prop) n r c :
  W n -> pr_pipeline_name r = n -> ct_active_group c !! n = None -> inv W c ->
  inv (without W n) (store_placement e n (_make_placement_group_id e n) r c).2.
Proof.
  intros Hw Hr Hg Hc. eapply (inv_store load e W _ n _ r (now_text e)); [exact Hc|exact Hg| |exact Hr| | | | |]; try done.
  - by apply (iv_fresh _ _ _ _ Hc).
  - intros k [Hk Hne]. split; [done|]. by intros ?%group_inj.
  - apply (iv_keyed _ _ _ _ Hc).
Qed.
End store.

(** From [P], a program that may place the stream of [n] ends in [Q]. *)
Section place.
Context (cfg : settings) (e : io) (n : string) (P Q : ctl -> Prop).
Context (Hflag : se_single_stream_placements cfg = true).
Context (HP : forall c c', frame c c' -> P c -> P c') (HQ : forall c c', frame c c' -> Q c -> Q c').
Context (HPQ : forall c, P c -> Q c) (Hkeyed : forall c, P c -> keyed (ct_manager c)).
Context (Hstore : forall r c, pr_pipeline_name r = n -> ct_active_group c !! n = None -> P c ->
           Q (store_placement e n (_make_placement_group_id e n) r c).2).

Lemma place_frame {A} (m : C A) : keeps frame m -> hoare P Q m.
Proof. intros Hm c Hc. apply HPQ. by eapply HP; [apply Hm|]. Qed.

Lemma placed_frame {A} (m : C A) : keeps frame m -> keeps (preserves Q) m.
Proof. intros Hm c Hc. by eapply HQ; [apply Hm|]. Qed.

Lemma place_dispatch config yaml c :
  cf_name config = n -> ct_active_group c !! n = None -> P c -> Q (dispatch_stream cfg e config yaml c).2.
Proof.
  intros Hn Hg Hc. unfold dispatch_stream. rewrite Hn. unfold bind at 1.
  destruct (multi_dispatch _ _ _ _ _ _ _ _ _ _ _ _ _) as [res q].
  assert (P (with_pool (fun _ => q) c)) as Hc1 by (by eapply HP; [|exact Hc]).
  assert (ct_active_group (with_pool (fun _ => q) c) !! n = None) as Hg1 by done.
  revert Hc1 Hg1. generalize (with_pool (fun _ => q) c). clear c Hg Hc. intros c Hc Hg.
  destruct (br_accepted res); [by apply place_frame; [apply frame_set_status|]|].
  apply (hoare_last (fun x => x = c) Q); [|intros ?; apply placed_frame, frame_set_status|done].
  intros ? ->. unfold _record_broadcast_placement, bind, gets. by apply Hstore.
Qed.

Lemma place_start config : cf_name config = n -> hoare P Q (_start_stream cfg e config).
Proof.
  intros Hn c Hc. unfold _start_stream. rewrite Hn.
  destruct (_ && _)%bool; [by apply place_frame; [apply frame_set_status|]|].
  unfold bind at 1, gets at 1. cbn [id]. case_bool_decide; [by apply HPQ|].
  destruct (aget n (m_pipelines (ct_manager c))) as [p|] eqn:Hp.
  2: { unfold bind, get_c, on_manager, within, get_. rewrite Hp. destruct c. by apply HPQ. }
  rewrite (bind_returns _ _ _ _ _ (get_c_ok _ _ _ Hp)), Hflag.
  case_bool_decide as Hg; [by apply HPQ|]. apply place_dispatch; [done| |done]. by apply eq_None_not_Some.
Qed.

Lemma place_schedule : hoare P Q (_do_schedule cfg e n).
Proof.
  intros c Hc. destruct (aget n (m_pipelines (ct_manager c))) as [p|] eqn:Hp.
  2: { unfold _do_schedule, bind, get_c, on_manager, within, get_. rewrite Hp. destruct c. by apply HPQ. }
  destruct (decide (cf_schedule (ps_config p) = StreamSchedule)) as [Hs|Hs].
  - unfold _do_schedule. rewrite (bind_returns _ _ _ _ _ (get_c_ok _ _ _ Hp)), Hs. apply place_start; [|done].
    by apply (Hkeyed c).
  - apply HPQ. by eapply HP; [eapply frame_schedule_job|].
Qed.

Lemma place_materialize config live c :
  cf_name config = n -> ct_active_group c !! n = None -> P c ->
  Q (_materialize_placement_from_adoption e config live c).2.
Proof.
  intros Hn Hg Hc. unfold _materialize_placement_from_adoption. rewrite Hn. destruct live as [[url rid] st].
  unfold bind at 1, gets. apply (hoare_last (fun x => x = c) Q); [|intros ?; apply placed_frame; framed|done].
  intros ? ->. by apply Hstore.
Qed.
End place.

Section placing.
Context (load : string -> option PipelineConfig) (cfg : settings) (e : io).
Context (Hflag : se_single_stream_placements cfg = true).
Notation inv := (inv load e).

(** ** Lifecycle operations *)

Notation all := (fun _ : string => True).
Notation none := (fun _ : string => False).
Notation before := (inv all).
Notation after := (inv none).

Lemma before_after c : before c -> after c.
Proof. by apply inv_weaken. Qed.

Lemma store_after n r c :
  pr_pipeline_name r = n -> ct_active_group c !! n = None -> before c ->
  after (store_placement e n (_make_placement_group_id e n) r c).2.
Proof. intros Hr Hg Hc. eapply inv_weaken; [|by apply (store_inv load e all)]. done. Qed.

Lemma schedule_after name : hoare before after (_do_schedule cfg e name).
Proof.
  apply place_schedule; [done|apply frame_inv..|apply before_after|apply iv_keyed|apply store_after].
Qed.

Lemma hoare_recorded name kind doing done_ failed body :
  hoare before after body -> hoare before after (recorded e name kind doing done_ failed body).
Proof.
  intros Hb. unfold recorded, _record_lifecycle_operation, _complete_lifecycle_operation.
  apply hoare_first; [apply inv_frame; framed|apply before_after|intros _]. intros c Hc. unfold catch.
  assert (hoare before after (do* body in on_db (complete_operation (io_uuid e 1) OpComplete (Some done_) (now_text e)))) as H.
  { apply hoare_last; [done|]. intros ?. apply inv_frame. framed. }
  specialize (H c Hc). destruct (bind body _ c) as [[u|x] c1]; [done|].
  match goal with |- after (?m c1).2 => enough (keeps (preserves after) m) as Hm by by apply Hm end.
  apply inv_frame. framed.
Qed.

Ltac hstep :=
  lazymatch goal with
  | |- hoare _ _ (bind (_do_schedule _ _ _) _) => apply hoare_last; [apply schedule_after|intros ?]
  | |- hoare _ _ (bind _ _) => apply hoare_first; [|apply before_after|intros ?]
  | |- hoare _ _ (when ?b _) => destruct b; cbn [when]
  | |- hoare _ _ (match ?x with _ => _ end) => destruct x
  | |- hoare _ _ (_do_schedule _ _ _) => apply schedule_after
  | |- hoare _ _ (recorded _ _ _ _ _ _ _) => apply hoare_recorded
  | |- hoare _ _ _ => apply hoare_keeps; [apply before_after|]
  end.

Ltac stmt :=
  repeat first
    [ keeps_step
    | lazymatch goal with
      | |- keeps _ (_stop_stream _ _) => apply inv_stop_stream
      | |- keeps _ (update_placement_slot _ _ _ _) => apply inv_update_slot
      | |- keeps _ (redispatch_commit _ _) => apply inv_redispatch_commit
      | |- keeps _ (drift_begin _ _) => apply inv_drift
      | |- keeps _ (_update_broadcast_placement_status _ _ _) => apply inv_status
      | |- keeps _ (on_db (start_pipeline_flag _ _)) => apply inv_set_stopped
      | |- keeps _ (on_db (db_stop_pipeline _ _)) => apply inv_set_stopped
      | |- keeps _ (on_db (delete_pipeline _ _)) => apply inv_delete_pipeline
      | |- keeps _ (on_db (save_pipeline _ _ _ _)) => apply inv_save_pipeline; done
      | |- _ => solve [apply inv_frame; framed]
      end ].

Lemma inv_stop_execution W name : keeps (preserves (inv W)) (_stop_execution e name).
Proof. unfold _stop_execution. stmt. Qed.

Lemma register_after config yaml source :
  load yaml = Some config -> hoare before after (register_pipeline cfg e config yaml source).
Proof.
  intros Hl. assert (named load (cf_name config) yaml) as Hn by (intros x Hx; congruence).
  unfold register_pipeline. repeat hstep; [by apply inv_register|stmt..].
Qed.

Lemma update_after name yaml : named load name yaml -> hoare before after (update cfg load e name yaml).
Proof.
  intros Hn. unfold update. hstep; [stmt|]. hstep; [hstep; stmt|].
  destruct (load yaml) as [config|] eqn:Hl; [|by intros c Hc; apply before_after].
  intros c. unfold bind at 1, lift. cbn [of_option]. revert c. apply hoare_recorded.
  unfold bump, cancel_queued, drop_transform_state. repeat hstep; stmt.
  - apply inv_stop_execution.
  - apply inv_register. intros _ x Hx. congruence.
Qed.

Lemma delete_after name : hoare before after (delete_ e name).
Proof.
  apply hoare_recorded. unfold bump, cancel_queued, drop_transform_state, pop_lease. repeat hstep; stmt.
  apply inv_stop_execution.
Qed.

Lemma start_after name : hoare before after (start_pipeline cfg e name).
Proof.
  unfold start_pipeline. repeat hstep; stmt.
Qed.

Lemma stop_after name : hoare before after (stop_pipeline e name).
Proof.
  apply hoare_recorded. unfold cancel_queued. repeat hstep; stmt. apply inv_stop_execution.
Qed.

Lemma restart_after name : hoare before after (restart_pipeline cfg e name).
Proof.
  unfold restart_pipeline, cancel_queued. repeat hstep; stmt.
Qed.

Lemma names_activate name v yaml d d' :
  activate_pipeline_version name v d = Some (yaml, d') -> names_ok load d ->
  names_ok load d' /\ named load name yaml /\ d_placements d' = d_placements d.
Proof.
  unfold activate_pipeline_version. destruct (get_pipeline_version name v d) as [y|] eqn:Hy; [|done].
  intros [= <- <-] [H1 H2]. split_and!; [split; [exact H1|]| |done].
  - intros w. simpl. rewrite list_elem_of_fmap. intros (w0 & -> & Hw). destruct (String.eqb _ _); exact (H2 _ Hw).
  - unfold get_pipeline_version in Hy. destruct (List.find _ _) as [w|] eqn:Hw; [|done]. injection Hy as <-.
    apply find_some in Hw as [Hin Hw]. apply andb_true_iff in Hw as [Hw _]. apply String.eqb_eq in Hw as <-.
    apply H2. by apply list_elem_of_In.
Qed.

Lemma inv_rollback W name v : keeps (preserves (inv W)) (rollback_pipeline load e name v).
Proof.
  intros c Hc. unfold rollback_pipeline, on_manager, within, rollback, bind, lift.
  destruct (get_pipeline_version name v (m_db (ct_manager c))) as [y|] eqn:Hy; cbn [of_option]; [|by destruct c].
  destruct (load y) as [config|] eqn:Hl; cbn [of_option]; [|by destruct c].
  destruct (activate_pipeline_version name v (m_db (ct_manager c))) as [[y' d]|] eqn:E; [|by destruct c].
  assert (y' = y) as -> by (unfold activate_pipeline_version in E; rewrite Hy in E; by simplify_eq).
  destruct (names_activate _ _ _ _ _ E (iv_names _ _ _ _ Hc)) as (N & Hn & Ed).
  set (c1 := with_manager (with_db (fun _ => d)) c). assert (inv W c1) as H1.
  { destruct Hc as [A B [P1 P2 P3 P4 P5] D]. unfold c1. unfold owns in P4.
    split; [done|done|split; unfold one_active, owns, db; simpl; rewrite ?Ed; done|].
    intros k Hk. unfold db. simpl. rewrite Ed. by apply D. }
  pose proof (inv_save_pipeline load e W name y "api" (now_text e) Hn c1 H1) as H2.
  pose proof (inv_register load e W config true y false (now_text e) ltac:(done) _ H2) as H3.
  unfold modify. revert H3. unfold on_manager, within. simpl.
  match goal with |- context [register ?a ?b ?y0 ?s ?n ?m] => destruct (register a b y0 s n m) as [[u|x] m'] end; done.
Qed.

(** ** The placement reconciler *)

Lemma materialize_after config live c :
  ct_active_group c !! cf_name config = None -> before c -> after (_materialize_placement_from_adoption e config live c).2.
Proof.
  intros Hg Hc. eapply place_materialize; [apply frame_inv|apply store_after|done..].
Qed.

Lemma adopt_unplaced_after name rid url st : hoare before after (adopt_unplaced_stream_bookkeeping cfg e name rid url st).
Proof.
  intros c Hc. unfold adopt_unplaced_stream_bookkeeping, bind at 1, gets at 1. cbn [id].
  destruct (aget name (m_pipelines (ct_manager c))) as [p|] eqn:Hp; [|by apply before_after].
  pose proof (iv_keyed _ _ _ _ Hc _ _ Hp) as Hn. case_bool_decide as Hg; [by apply before_after|].
  destruct (_is_broadcast_workers _); [by apply before_after|]. destruct (_ && _)%bool.
  - apply (hoare_last (fun x => x = c) after); [|intros ?; apply inv_frame; framed|done].
    intros ? ->. apply materialize_after; [|done]. rewrite Hn. by apply eq_None_not_Some.
  - match goal with |- after (?m c).2 => enough (keeps (preserves after) m) as Hm by (apply Hm; by apply before_after) end.
    apply inv_frame. unfold set_stream_runs. framed.
Qed.

Lemma recover_after name : hoare before after (recover_unplaced_stream cfg e name).
Proof.
  unfold recover_unplaced_stream. repeat hstep; stmt.
Qed.

Lemma unplaced_after live name placed todo m : hoare before after (unplaced_step cfg e live name placed todo m).
Proof.
  unfold unplaced_step. hstep; [stmt|]. hstep; [hstep; stmt|].
  destruct (sort_by _ _) as [|first extra].
  - repeat match goal with |- hoare _ _ (match ?x with _ => _ end) => destruct x end;
      first [apply hoare_last; [apply recover_after|intros ?; stmt] | hstep; stmt].
  - apply hoare_last; [apply adopt_unplaced_after|intros ?]. stmt.
Qed.

Lemma placements_after live m : hoare before after (reconcile_placements cfg e live m).
Proof.
  assert (hoare before after (place_step cfg e live m)) as H.
  2: { intros c Hc. specialize (H c Hc). unfold reconcile_placements, catch. by destruct (place_step cfg e live m c) as [[u|x] c1]. }
  assert (forall q, keeps frame (redispatch_send cfg e q)) as Hsend.
  { intros q c. unfold redispatch_send. by destruct (dispatch_to_worker _ _ _ _ _ _ _ _ _ _ _). }
  unfold place_step. hstep; [stmt|]. destruct (pl_pc m) as [|a0|a0|a0 q|a0 q|a0 todo|a0 q todo|a0 q todo|a0|seen todo].
  10: destruct todo as [|[name placed] todo]; [hstep; stmt|apply unplaced_after].
  all: apply hoare_keeps; [apply before_after|]; unfold live_slot, quiet_slot, pipeline_config_sha, redispatch_claim; stmt.
  all: apply inv_frame, Hsend.
Qed.

(** ** Boot *)

Lemma register_placements config replace yaml save now c :
  d_placements (db (on_manager (register config replace yaml save now) c).2) = d_placements (db c) /\
  ct_active_group (on_manager (register config replace yaml save now) c).2 = ct_active_group c.
Proof.
  unfold on_manager, within, register, db. destruct (_ && _)%bool; [done|]. destruct yaml; simpl; [|done].
  destruct (_ && _)%bool; simpl; [|done]. unfold save_pipeline_version. simpl. by repeat (split_match; simpl).
Qed.

(** Before the pipelines of [l] are loaded: none of them has a group, and the
    rows of their placements are those of the snapshot [d]. *)
Record booting (d : database) (l : list string) (c : ctl) : Prop := mkBooting {
  bo_inv : inv (fun n => n ∈ l) c;
  bo_groups : forall n, n ∈ l -> ct_active_group c !! n = None;
  bo_rows : forall g r, d_placements d !! g = Some r -> pr_pipeline_name r ∈ l ->
    d_placements (db c) !! g = Some r }.

Lemma booting_frame d l c c' : frame c c' -> booting d l c -> booting d l c'.
Proof.
  intros Hf [A B D]. split; [by eapply frame_inv|..]; destruct Hf as (E1 & E2 & E3 & _); injection E3 as F1 _ _;
    rewrite ?E2, ?F1; done.
Qed.

Lemma booting_tail d n l c : booting d (n :: l) c -> booting d l c.
Proof.
  intros [A B D]. split; [eapply inv_weaken; [|exact A]; by right|intros; apply B; by right|].
  intros g r Hr Hn. apply D; [done|by right].
Qed.

Lemma booting_store d n l r c :
  n ∉ l -> pr_pipeline_name r = n -> ct_active_group c !! n = None -> booting d (n :: l) c ->
  booting d l (store_placement e n (_make_placement_group_id e n) r c).2.
Proof.
  intros Hnl Hr Hg [A B D]. assert (n ∈ n :: l) as Hn by left.
  pose proof (iv_fresh _ _ _ _ A n Hn) as Hf. split.
  - eapply inv_weaken; [|by apply (store_inv load e (fun k => k ∈ n :: l))]. intros k Hk. split; [by right|congruence].
  - intros k Hk. simpl. rewrite lookup_insert_ne by congruence. apply B. by right.
  - intros g x Hx Hk. assert (d_placements (db c) !! g = Some x) as Hgx by (apply D; [done|by right]).
    unfold db in *. simpl. rewrite lookup_insert_ne by congruence. rewrite lookup_tbl_update, Hgx. simpl.
    rewrite bool_decide_false by congruence. done.
Qed.

Lemma booting_restore d n l g r :
  n ∉ l -> placement_of n d = Some (g, r) -> hoare (booting d (n :: l)) (booting d l) (_restore_broadcast_placement e g r).
Proof.
  intros Hnl Hpl c [A B D]. pose proof (placement_of_name _ _ _ _ Hpl) as Hname.
  assert (d_placements d !! g = Some r /\ active_placement r = true) as [Hr Ha].
  { unfold placement_of in Hpl. apply last_Some_elem_of in Hpl. apply WorkerPoolLaws.elem_of_lfilter in Hpl as [Hpl _].
    unfold get_active_broadcast_placements in Hpl. apply WorkerPoolLaws.elem_of_sort_by, WorkerPoolLaws.elem_of_lfilter in Hpl as [Hpl Ha].
    by apply elem_of_map_to_list in Hpl. }
  subst n. set (n := pr_pipeline_name r) in *. assert (n ∈ n :: l) as Hn by left.
  unfold _restore_broadcast_placement. fold n. unfold bind at 1, modify at 1. set (c1 := with_streams _ _ _ c).
  assert (holding load e (fun k => k ∈ n :: l) g n c1) as Hh.
  { eapply (inv_restore load e _ n g r (mkPlacement n _ _ _ _ _)); [exact A|by apply B|by apply D|done..|].
    apply (iv_keyed _ _ _ _ A). }
  set (P := fun c' => holding load e (fun k => k ∈ n :: l) g n c' /\ ct_active_group c' = ct_active_group c1 /\
              d_placements (db c') = d_placements (db c)).
  assert (forall m : C unit, keeps frame m -> keeps (preserves P) m) as Hfr.
  { intros m Hk x (X1 & X2 & X3). pose proof (Hk x) as Hm. split_and!.
    - by apply (holding_frame load e _ g n m Hk).
    - destruct Hm as (_ & -> & _). done.
    - destruct Hm as (_ & _ & Ht & _). unfold tables in Ht. congruence. }
  assert (forall c', P c' -> booting d l c') as Hend.
  { intros x (X1 & X2 & X3). split.
    - eapply inv_weaken; [|exact (proj1 X1)]. by right.
    - intros k Hk. rewrite X2. unfold c1. simpl. rewrite lookup_insert_ne by congruence. apply B. by right.
    - intros h y Hy Hk. rewrite X3. apply D; [done|by right]. }
  enough (hoare P (booting d l) (do* modify (_sync_stream_run_ids_from_slots n (pr_slots r)) in
     do* iterM (adopt_slot n) (pr_slots r) in
     on_db (update_broadcast_placement_status g Reconciling (pr_slots r) (now_text e)))) as Hrest
    by by apply Hrest.
  apply hoare_first; [apply Hfr; framed|done|intros _].
  apply hoare_first; [apply Hfr; unfold adopt_slot; framed|done|intros _].
  intros x (X1 & X2 & X3). split.
  - eapply inv_weaken; [|by eapply inv_alter; [|exact X1]]. by right.
  - intros k Hk. simpl. rewrite X2. unfold c1. simpl. rewrite lookup_insert_ne by congruence. apply B. by right.
  - intros h y Hy Hk. unfold db in *. simpl. rewrite lookup_alter_ne; [rewrite X3; apply D; [done|by right]|].
    intros ->. assert (y = r) as -> by congruence. done.
Qed.

Lemma booting_adopt d n l config :
  n ∉ l -> cf_name config = n ->
  hoare (booting d (n :: l)) (fun c => booting d l c) (
    let* adopted := _adopt_live_stream_if_any cfg e config in if adopted then ret tt else _do_schedule cfg e n).
Proof.
  intros Hnl Hn.
  assert (hoare (booting d (n :: l)) (booting d l) (_do_schedule cfg e n)) as Hsched.
  { apply place_schedule; [done|apply booting_frame..|apply booting_tail| |intros r c; by apply booting_store].
    intros c Hc. apply (iv_keyed _ _ _ _ (bo_inv _ _ _ Hc)). }
  intros c Hc. unfold _adopt_live_stream_if_any.
  destruct (negb _); [by apply Hsched|]. destruct (_is_broadcast_workers _); [by apply Hsched|].
  unfold bind at 1. rewrite (bind_returns (gets ct_pool) _ c (ct_pool c) c eq_refl), Hn.
  destruct (find_pipeline_runs e true n (ct_pool c)) as [|x rest]; [by apply Hsched|].
  rewrite Hflag. set (m := _materialize_placement_from_adoption e config _).
  assert (booting d l (m c).2) as Hm.
  { eapply place_materialize; [apply booting_frame|intros r c1; by apply booting_store|done| |done].
    apply (bo_groups _ _ _ Hc). left. }
  unfold bind. destruct (m c) as [[u|y] c1]; [|done].
  pose proof (frame_set_status n Running c1) as Hf. destruct (set_status_c n Running c1) as [[v|y] c2];
    by eapply booting_frame.
Qed.

Lemma boot_pipeline_booting d n l stopped yaml :
  n ∉ l -> named load n yaml ->
  hoare (booting d (n :: l)) (booting d l) (boot_pipeline cfg load e stopped n yaml (placement_of n d)).
Proof.
  intros Hnl Hy c Hc. unfold boot_pipeline. destruct (load yaml) as [config|] eqn:Hl; [|by eapply booting_tail].
  specialize (Hy _ Hl). unfold bind at 1, lift. cbn [of_option]. revert c Hc.
  change (hoare (booting d (n :: l)) (booting d l) (
    do* on_manager (register config false (Some yaml) false (now_text e)) in
    if bool_decide (n ∈ stopped) then set_status_c n Stopped
    else match placement_of n d with
         | Some (group, r) => do* _restore_broadcast_placement e group r in set_status_c n Reconciling
         | None => when (cf_enabled config) (let* adopted := _adopt_live_stream_if_any cfg e config in
                     if adopted then ret tt else _do_schedule cfg e n)
         end)).
  apply hoare_first; [|apply booting_tail|intros _].
  { intros c [A B D]. destruct (register_placements config false (Some yaml) false (now_text e) c) as [E1 E2].
    split; [by apply inv_register|by rewrite E2|by rewrite E1]. }
  assert (forall m : C unit, keeps frame m -> hoare (booting d (n :: l)) (booting d l) m) as Hf.
  { intros m Hm c Hc. eapply booting_frame; [apply Hm|]. by eapply booting_tail. }
  case_bool_decide; [apply Hf, frame_set_status|]. destruct (placement_of n d) as [[g r]|] eqn:Hpl.
  - apply hoare_last; [by apply booting_restore|]. intros ? c Hc. by eapply booting_frame; [apply frame_set_status|].
  - destruct (cf_enabled config); cbn [when]; [by apply booting_adopt|apply Hf; framed].
Qed.

Lemma pipeline_names_nodup d : NoDup (get_all_pipelines d).*1.
Proof.
  unfold get_all_pipelines. rewrite <- list_fmap_compose.
  change (NoDup ((fun kv : string * registered_row => kv.1) <$> sort_by (fun a b => str_ltb a.1 b.1)
    (List.filter (fun kv : string * registered_row => negb (rg_deleted kv.2)) (map_to_list (d_registered d))))).
  rewrite WorkerPoolLaws.sort_by_perm.
  assert (forall l : list (string * registered_row), NoDup l.*1 ->
    NoDup (List.filter (fun kv : string * registered_row => negb (rg_deleted kv.2)) l).*1) as H.
  { induction l as [|[k r] l IH]; simpl; [done|]. intros [Hk Hl]%NoDup_cons. destruct (negb _); [|by apply IH].
    simpl. constructor; [|by apply IH]. intros Hin. apply Hk. apply list_elem_of_fmap in Hin as ([k' r'] & -> & Hin).
    apply WorkerPoolLaws.elem_of_lfilter in Hin as [Hin _]. apply list_elem_of_fmap. by exists (k', r'). }
  apply H, NoDup_fst_map_to_list.
Qed.

Lemma boot_after query p c :
  names_ok load (db c) -> one_active (db c) ->
  (forall n, d_placements (db c) !! _make_placement_group_id e n = None) ->
  after (boot cfg load query e p c).
Proof.
  intros Hn Ho Hfresh. unfold boot, _boot_load. set (c0 := fresh_ctl _ _ _).
  assert (before c0) as H0.
  { split; [by intros ? ?|done| |auto]. split; try done; intros n g; simpl; by rewrite lookup_empty. }
  unfold bind at 1, gets at 1. cbn [id]. unfold bind at 1. pose proof (frame_resolve_all cfg query e c0) as Hf.
  destruct (_resolve_non_terminal_attempts_at_boot cfg query e c0) as [[u|x] c1]; cbn [snd] in Hf;
    pose proof (frame_inv _ _ _ _ _ Hf H0) as H1; [|by apply before_after].
  unfold bind, gets. set (stopped := _ ++ _). generalize stopped. clear stopped. intros stopped.
  assert (forall l, NoDup l.*1 -> (forall n y, (n, y) ∈ l -> named load n y) ->
    hoare (booting (db c1) l.*1) after (iterM (fun ny : string * string =>
      catch (boot_pipeline cfg load e stopped ny.1 ny.2 (placement_of ny.1 (db c1))) (fun _ => ret tt)) l)) as Hloop.
  { induction l as [|[n y] l IH]; intros Hd Hw; simpl.
    - intros x Hx. eapply inv_weaken; [|apply (bo_inv _ _ _ Hx)]. done.
    - apply NoDup_cons in Hd as [Hnl Hd]. intros x Hx. unfold bind, catch.
      pose proof (boot_pipeline_booting (db c1) n l.*1 stopped y Hnl (Hw n y ltac:(left)) x Hx) as Hb.
      destruct (boot_pipeline _ _ _ _ _ _ _ x) as [[v|z] x1]; cbn [snd fst] in *;
        (apply IH; [done|intros n' y' Hin; apply Hw; by right|exact Hb]). }
  apply Hloop; clear Hloop.
  - apply pipeline_names_nodup.
  - intros n y. unfold get_all_pipelines. rewrite list_elem_of_fmap. intros ([k r] & [= -> ->] & Hin).
    apply WorkerPoolLaws.elem_of_sort_by, WorkerPoolLaws.elem_of_lfilter in Hin as [Hin _].
    apply elem_of_map_to_list in Hin. by apply (proj1 (iv_names _ _ _ _ H1)).
  - split; [by eapply inv_weaken; [|exact H1]| |done].
    intros n _. destruct Hf as (_ & -> & _). apply lookup_empty.
Qed.

(** ** Every action *)

(** What the routes check before they call the controller: a configuration is
    the one its text loads to, and an update keeps the name. *)
Definition routed (a : action) : Prop :=
  match a with
  | ARegister config yaml _ => load yaml = Some config
  | AUpdate name yaml => named load name yaml
  | _ => True
  end.

Lemma step_after a s : routed a -> before (sy_ctl s) -> after (sy_ctl (step cfg load e a s)).
Proof.
  intros Ha Hs.
  assert (forall A (m : C A), keeps frame m -> after (m (sy_ctl s)).2) as Hf.
  { intros A m Hm. apply before_after. by eapply frame_inv; [apply Hm|]. }
  destruct a; simpl in Ha; cbn [step].
  - by apply register_after.
  - by apply update_after.
  - by apply delete_after.
  - by apply start_after.
  - by apply stop_after.
  - by apply restart_after.
  - apply before_after. by apply inv_rollback.
  - specialize (Hf _ _ (frame_trigger cfg e name)). unfold trigger. by destruct (trigger_run cfg e name (sy_ctl s)).
  - case_bool_decide; by apply before_after.
  - unfold run_thread. destruct (sy_threads s !! tid) as [t|]; [|by apply before_after].
    specialize (Hf _ _ (frame_batch_step cfg e tid (th_pc t))).
    destruct (batch_step cfg e tid (th_pc t) (sy_ctl s)) as [r c]. cbn [snd sy_ctl] in *.
    destruct (th_pc t); try done. destruct (th_submitted t); [|done].
    assert (keeps frame tracked_end) as Ht by (unfold tracked_end; framed).
    by eapply frame_inv; [apply Ht|].
  - specialize (Hf _ _ (frame_reconcile cfg query e (sy_recon s))). unfold run_recon.
    by destruct (reconcile cfg query e (sy_recon s) (sy_ctl s)).
  - apply Hf, frame_deliver.
  - apply Hf. framed.
  - apply before_after. by apply inv_report.
  - pose proof (placements_after seen (sy_placer s) (sy_ctl s) Hs) as Hp. unfold run_placer.
    by destruct (reconcile_placements cfg e seen (sy_placer s) (sy_ctl s)).
  - apply Hf, frame_audit.
  - destruct Hs as [A B [P1 P2 P3 P4 P5] D]. apply boot_after; [done|done|auto].
Qed.
End placing.

(** Runs in which the routes did their checks and placement ids (a time stamp
    and six digits of a uuid) do not repeat. *)
Inductive routed_reach (cfg : settings) (load : string -> option PipelineConfig) : sys -> Prop :=
| rr_init node_id p interval : routed_reach cfg load (initial node_id p interval)
| rr_step e a s :
    routed_reach cfg load s -> routed load a ->
    (forall n, d_placements (db (sy_ctl s)) !! _make_placement_group_id e n = None) ->
    routed_reach cfg load (step cfg load e a s).

Lemma routed_inv cfg load e s :
  se_single_stream_placements cfg = true -> routed_reach cfg load s -> inv load e (fun _ => False) (sy_ctl s).
Proof.
  intros Hflag Hs. revert e. induction Hs as [node p interval|e0 a s Hs IH Ha Hf]; intros e.
  - assert (forall g, d_placements (db (sy_ctl (initial node p interval))) !! g = None) as He
      by (intros g; apply lookup_empty).
    split; [by intros ? ?| | |done].
    + split; [intros n r H; cbn in H; by rewrite lookup_empty in H|]. intros v Hv. by apply elem_of_nil in Hv.
    + split; [by intros ? ?|intros n g H; cbn in H; by rewrite lookup_empty in H|by intros ? ?| |].
      * intros n g H. cbn in H. by rewrite lookup_empty in H.
      * intros g g' r r' H. by rewrite He in H.
  - assert (inv load e0 (fun _ => True) (sy_ctl s)) as Hb. { destruct (IH e0) as [A B D _]. by split. }
    destruct (step_after load cfg e0 Hflag a s Ha Hb) as [A B D _]. by split.
Qed.

(** C14: a stream is placed once.  With single-stream placements on, in every
    state the manager can reach, with reports, redispatches, configuration
    drift, adoption of unplaced streams, operators' calls and restarts
    interleaved, no two active rows of the placement table are for the same
    pipeline; the placement in memory is the active group of its pipeline, and
    an active row of that pipeline can only be its own. *)
Theorem one_active_placement cfg load s :
  se_single_stream_placements cfg = true -> routed_reach cfg load s ->
  let c := sy_ctl s in
  (forall g g' r r', d_placements (db c) !! g = Some r -> d_placements (db c) !! g' = Some r' ->
     active_placement r = true -> active_placement r' = true -> pr_pipeline_name r = pr_pipeline_name r' -> g = g') /\
  (forall g r, aget g (ct_placements c) = Some r -> ct_active_group c !! pr_pipeline_name r = Some g) /\
  (forall n g g' r, ct_active_group c !! n = Some g -> d_placements (db c) !! g' = Some r ->
     active_placement r = true -> pr_pipeline_name r = n -> g' = g).
Proof.
  intros Hflag Hs. destruct (routed_inv cfg load (at_ 0) s Hflag Hs) as [_ _ [P1 P2 P3 P4 P5] _].
  split_and!; [exact P5|exact P1|]. intros n g g' r Hg. by apply P4.
Qed.

(** ** A run with placements *)

Fixpoint ends_with (suf k : string) : bool :=
  (String.eqb k suf || match k with EmptyString => false | String _ k' => ends_with suf k' end)%bool.

Lemma ends_with_app suf n : ends_with suf (n ++ suf)%string = true.
Proof. induction n as [|a n IH]; simpl; [|by rewrite IH, orb_true_r]. destruct suf; simpl; by rewrite ?Ascii.eqb_refl, ?String.eqb_refl. Qed.

Definition fresh_groups (e : io) (s : sys) : bool :=
  forallb (fun kv : string * placement_row => negb (ends_with (_make_placement_group_id e "") kv.1))
    (map_to_list (d_placements (db (sy_ctl s)))).

Lemma fresh_groups_spec e s : fresh_groups e s = true ->
  forall n, d_placements (db (sy_ctl s)) !! _make_placement_group_id e n = None.
Proof.
  unfold fresh_groups. rewrite forallb_forall. intros H n.
  destruct (d_placements _ !! _) as [r|] eqn:E; [|done]. apply elem_of_map_to_list, list_elem_of_In, H in E.
  apply negb_true_iff in E. change (_make_placement_group_id e n) with (n ++ _make_placement_group_id e "")%string in E.
  simpl in E. by rewrite ends_with_app in E.
Qed.

Fixpoint trace_fresh (cfg : settings) (load : string -> option PipelineConfig) (l : list (io * action)) (s : sys) : bool :=
  match l with
  | [] => true
  | (e, a) :: l' => (fresh_groups e s && trace_fresh cfg load l' (step cfg load e a s))%bool
  end.

Lemma trace_routed cfg load l : forall s,
  routed_reach cfg load s -> Forall (fun ea => routed load ea.2) l -> trace_fresh cfg load l s = true ->
  routed_reach cfg load (trace cfg load l s).
Proof.
  induction l as [|[e a] l IH]; intros s Hs Hr; simpl; [done|]. apply Forall_cons in Hr as [Ha Hr].
  intros [Hu Hl]%andb_true_iff. apply IH; [|done..]. apply rr_step; [done|done|by apply fresh_groups_spec].
Qed.

Definition register_s : action := ARegister (demo_config "s") "s" "api".

(** s is placed, its worker goes quiet and the slot is dispatched again; an
    operator stops and starts it, and the manager restarts. *)
Definition placed_s : list (io * action) :=
  [(at_ 1, register_s); (at_ 40, APlacement []); (at_ 41, APlacement []); (at_ 42, APlacement []);
   (at_ 43, APlacement []); (at_ 44, APlacement []); (at_ 45, APlacement []); (at_ 46, APlacement []);
   (at_ 50, AStop "s"); (at_ 51, AStart "s"); (at_ 52, ABoot no_reply up)]%string.

Definition s_run (l : list (io * action)) : sys := trace demo_cfg demo_load l (demo_init up).

Lemma s_run_routed n : routed_reach demo_cfg demo_load (s_run (take n placed_s)).
Proof.
  apply trace_routed; [apply rr_init|apply Forall_take; by repeat constructor|].
  do 12 (destruct n as [|n]; [vm_compute; reflexivity|]). vm_compute. reflexivity.
Qed.

(** The run of [placed_s], at its end: two rows of s, one of them active. *)
Lemma one_active_placement_witness :
  let c := sy_ctl (s_run (take 11 placed_s)) in
  size (d_placements (db c)) = 2%nat /\
  (forall g g' r r', d_placements (db c) !! g = Some r -> d_placements (db c) !! g' = Some r' ->
     active_placement r = true -> active_placement r' = true -> pr_pipeline_name r = pr_pipeline_name r' -> g = g').
Proof.
  split; [vm_compute; reflexivity|].
  exact (proj1 (one_active_placement demo_cfg demo_load (s_run (take 11 placed_s)) eq_refl (s_run_routed 11))).
Defined.
End PlacementSafety.
