(* ===== verification/PlacementLaws.v ===== *)
(** * Run ids of placement slots, reports, stops

    The restart suffix orders the runs of a slot: a redispatch names a run of
    a higher count, a report never takes a slot back to a lower one, and a
    stop closes the placement.  The last part shows where the code falls short
    of that: slots whose ids are prefixes of one another, slots without a run
    id, a stop during a redispatch, broadcast streams with the flag off. *)

From Stdlib Require Import ZArith Lia Ascii String DecimalString DecimalZ DecimalPos SpecFloat.
From stdpp Require Import base tactics list strings gmap option relations.
From S2P Require Import Prelude CtlMonad PyStr IsoTime PyVal Ledger LedgerLane LedgerSafety Accounting WorkerPool Manager Controller BatchLane BootLane Reconciler Placements ManagerSystem ManagerRel ManagerSafety ManagerDemo ManagerLaws ManagerEvents BootLaws PlacementFrame PlacementSafety.
Import stdpp.list.

#[local] Open Scope Z_scope.
#[local] Open Scope list_scope.

Module PlacementLaws.
Import CtlMonad IsoTime PyVal Ledger LedgerLane LedgerSafety Accounting StatsStore WorkerPool Manager Controller.
Import BatchLane BootLane Reconciler Placements ManagerSystem ManagerRel ManagerSafety ManagerDemo ManagerLaws ManagerEvents.
Import BootLaws PlacementFrame PlacementSafety.

(** ** Restart counts *)

Lemma py_str_digits n : 0 <= n ->
  py_str n <> ""%string /\ all_digits (py_str n) = true /\ py_uint (py_str n) = Some n.
Proof.
  intros Hn. destruct n as [|p|p]; [done| |lia]. unfold py_str. simpl.
  pose proof (pos_to_uint_nonnil p) as Hp.
  assert (NilZero.string_of_uint (Pos.to_uint p) = NilEmpty.string_of_uint (Pos.to_uint p)) as -> by (by destruct (Pos.to_uint p)).
  split_and!.
  - by destruct (Pos.to_uint p).
  - apply all_digits_string_of_uint.
  - rewrite py_uint_string by done. unfold Z.of_uint. by rewrite Unsigned.of_to.
Qed.

Lemma dash_no_digits q d : all_digits (q ++ String "-" d)%string = false.
Proof. induction q as [|a q IH]; simpl; [done|]. by rewrite IH, andb_false_r. Qed.

Lemma restart_suffix_prefix a q d : restart_suffix (String a q ++ String "-" (String "r" d))%string = None.
Proof.
  destruct q as [|b q]; unfold restart_suffix; simpl; [by rewrite andb_false_r|].
  by rewrite dash_no_digits, !andb_false_r.
Qed.

Lemma restart_count_of prefix n : 0 <= n -> _run_restart_count (prefix ++ "-r" ++ py_str n)%string = n.
Proof.
  intros Hn. destruct (py_str_digits n Hn) as (H1 & H2 & H3). induction prefix as [|a q IH].
  - change (_run_restart_count (String "-" (String "r" (py_str n))) = n). cbn [_run_restart_count].
    assert (restart_suffix (String "-" (String "r" (py_str n))) = Some n) as ->; [|done].
    unfold restart_suffix. rewrite H2, H3. by destruct (String.eqb_spec (py_str n) "").
  - change (_run_restart_count (String a (q ++ "-r" ++ py_str n)) = n). cbn [_run_restart_count].
    assert (restart_suffix (String a (q ++ "-r" ++ py_str n)) = None) as -> by apply restart_suffix_prefix. exact IH.
Qed.

(** ** Reports *)

(** What a report of the run [rid] may do to a slot. *)
Definition reported (rid : string) (s s' : placed_slot) : Prop :=
  pt_worker_index s' = pt_worker_index s /\ pt_worker_url s' = pt_worker_url s /\
  pt_restart_count s' = pt_restart_count s /\
  (pt_current_run_id s' = pt_current_run_id s \/
   pt_current_run_id s' = Some rid /\ starts_with (pt_run_id_prefix s) rid = true /\
   _run_restart_count (run_id_text s) <= _run_restart_count rid).

Lemma stats_slot_reported g rid s c s' ch lost c' :
  stats_slot g rid s c = (Ok (s', ch, lost), c') -> reported rid s s'.
Proof.
  unfold stats_slot, reported. destruct (negb _) eqn:E1; [unfold ret; intros; simplify_eq; by auto|].
  case_bool_decide as E2.
  { destruct (pt_status s); unfold ret; intros; simplify_eq; simpl; by auto. }
  apply negb_false_iff, orb_true_iff in E1 as [E1|E1]; [done|].
  destruct (_ <? _) eqn:E3; [unfold ret; intros; simplify_eq; by auto|]. apply Z.ltb_ge in E3.
  intros H. apply bind_ok_inv in H as (n & u & _ & H). revert H.
  destruct (n =? 0)%nat; [unfold ret; intros; simplify_eq; by auto|].
  cbn [pt_status]. destruct (pt_status s); unfold ret; intros; simplify_eq; simpl; by auto 10.
Qed.

Lemma stats_slots_reported g rid l : forall c l' ch lost c',
  stats_slots g rid l c = (Ok (l', ch, lost), c') -> Forall2 (reported rid) l l'.
Proof.
  induction l as [|s l IH]; intros c l' ch lost c'; simpl; [unfold ret; intros; simplify_eq; constructor|].
  intros H. apply bind_ok_inv in H as ([[s' ch1] lost1] & c1 & H1 & H).
  apply bind_ok_inv in H as ([[r ch2] lost2] & c2 & H2 & H). unfold ret in H. simplify_eq.
  constructor; [by eapply stats_slot_reported|by eapply IH].
Qed.
Lemma reported_refl rid s : reported rid s s.
Proof. unfold reported. by auto. Qed.

Lemma reported_all rid l : Forall2 (reported rid) l l.
Proof. apply Forall2_same_length_lookup_2; [done|]. intros i x y Hx Hy. simplify_eq. apply reported_refl. Qed.

(** The slots in memory are as they were. *)
Definition slots_kept (c c' : ctl) : Prop :=
  forall g r, aget g (ct_placements c) = Some r ->
    exists r', aget g (ct_placements c') = Some r' /\ pr_slots r' = pr_slots r.

#[global] Instance slots_kept_preorder : PreOrder slots_kept.
Proof.
  split; [intros c g r Hr; eauto|]. intros a b c H1 H2 g r Hr. destruct (H1 _ _ Hr) as (r1 & Hr1 & <-). by apply H2.
Qed.

Lemma kept_frame {A} (m : C A) : keeps frame m -> keeps slots_kept m.
Proof. intros H c g r Hr. destruct (H c) as (-> & _). eauto. Qed.

Lemma kept_db f : keeps slots_kept (on_db f).
Proof. intros c g r Hr. eauto. Qed.

Lemma kept_status e g st : keeps slots_kept (_update_broadcast_placement_status e g st).
Proof.
  intros c. unfold _update_broadcast_placement_status, bind at 1, gets at 1. cbn [id].
  destruct (aget g (ct_placements c)) as [r|] eqn:Hr; [|done]. unfold bind at 1, modify at 1.
  assert (slots_kept c (set_row g (with_row_status st r) c)) as H.
  { intros g' r' Hr'. simpl. destruct (decide (g' = g)) as [->|Hne].
    - rewrite aget_aset. eexists. split; [done|]. by simplify_eq.
    - rewrite aget_aset_ne by done. eauto. }
  etrans; [exact H|]. match goal with |- slots_kept _ (?m _).2 => enough (keeps slots_kept m) as Hm by apply Hm end.
  unfold persist. repeat first [keeps_step | apply kept_db | apply kept_frame; framed].
Qed.

Lemma kept_stats_slots g rid l : keeps slots_kept (stats_slots g rid l).
Proof.
  induction l as [|s l IH]; simpl; [keeps_step|]. unfold stats_slot, db_count.
  repeat first [keeps_step | apply kept_db | exact IH].
Qed.

(** Of every placement in memory, a report keeps the workers and restart counts
    of the slots, and a run id stays or becomes one of no lower restart count. *)
Lemma report_slots e final p c g r :
  aget g (ct_placements c) = Some r ->
  exists r', aget g (ct_placements (report e final p c).2) = Some r' /\
    Forall2 (reported (sp_run_id p)) (pr_slots r) (pr_slots r').
Proof.
  assert (forall c c' : ctl, slots_kept c c' -> aget g (ct_placements c) = Some r ->
            exists r', aget g (ct_placements c') = Some r' /\ Forall2 (reported (sp_run_id p)) (pr_slots r) (pr_slots r')) as Hk.
  { intros x y Hxy Hx. destruct (Hxy _ _ Hx) as (r' & Hr' & Es). exists r'. rewrite Es. split; [done|apply reported_all]. }
  intros Hr. unfold report. destruct final; [eauto using reported_all|]. unfold bind at 1, modify at 1.
  set (c1 := with_stats _ c). assert (aget g (ct_placements c1) = Some r) as Hr1 by done. revert Hr1.
  generalize c1. clear c1 c Hr. intros c Hr. unfold on_pipeline_stats, bind at 1, gets at 1. cbn [id].
  destruct (ct_active_group c !! sp_pipeline_name p) as [g'|]; [|eauto using reported_all].
  destruct (aget g' (ct_placements c)) as [r0|] eqn:Hr0; [|eauto using reported_all].
  destruct (negb _); [eauto using reported_all|]. unfold bind at 1.
  pose proof (kept_stats_slots g' (sp_run_id p) (pr_slots r0) c) as Hs.
  destruct (stats_slots g' (sp_run_id p) (pr_slots r0) c) as [[[[l ch] lost]|x] c2] eqn:E; cbn [snd] in Hs;
    [|by eapply Hk].
  apply stats_slots_reported in E. unfold bind at 1, modify at 1. unfold bind at 1, modify at 1.
  set (c3 := _sync_stream_run_ids_from_slots _ _ _).
  assert (exists r', aget g (ct_placements c3) = Some r' /\ Forall2 (reported (sp_run_id p)) (pr_slots r) (pr_slots r'))
    as (r3 & Hr3 & Hf).
  { unfold c3. simpl. destruct (decide (g = g')) as [->|Hne].
    - rewrite aget_aset. eexists. split; [done|]. by simplify_eq.
    - rewrite aget_aset_ne by done. destruct (Hs _ _ Hr) as (r' & -> & Hr'). exists r'. rewrite Hr'.
      split; [done|apply reported_all]. }
  match goal with |- context [(?m c3).2] => assert (keeps slots_kept m) as Hm end.
  { unfold persist. repeat first [keeps_step | apply kept_db | apply kept_status]. }
  destruct (Hm c3 _ _ Hr3) as (r4 & Hr4 & E4). exists r4. by rewrite E4.
Qed.
Lemma find_reported rid i l l' s :
  Forall2 (reported rid) l l' -> find_slot i l = Some s -> exists s', find_slot i l' = Some s' /\ reported rid s s'.
Proof.
  unfold find_slot. induction 1 as [|x y l l' Hxy Hl IH]; simpl; [done|].
  destruct Hxy as (Ei & Hrest). rewrite Ei. destruct (pt_worker_index x =? i); [|done].
  intros [= <-]. exists y. exact (conj eq_refl (conj Ei Hrest)).
Qed.

Lemma find_update i f l s :
  find_slot i l = Some s -> (forall x, pt_worker_index (f x) = pt_worker_index x) ->
  find_slot i (update_slot i f l) = Some (f s).
Proof.
  intros H Hf. unfold find_slot in *. induction l as [|x l IH]; simpl in *; [done|].
  destruct (pt_worker_index x =? i) eqn:E; simpl; [|by rewrite E; auto]. simplify_eq. by rewrite Hf, E.
Qed.

Lemma claim_redispatch g i u c q c' r s :
  aget g (ct_placements c) = Some r -> find_slot i (pr_slots r) = Some s ->
  redispatch_claim g i u c = (Ok (Some q), c') ->
  rd_group q = g /\ rd_index q = i /\ rd_restarts q = pt_restart_count s + 1 /\
  rd_run_id q = (pt_run_id_prefix s ++ "-r" ++ py_str (pt_restart_count s + 1))%string.
Proof.
  intros Hr Hs. unfold redispatch_claim, bind at 1, gets at 1. cbn [id]. rewrite Hr, Hs. cbv zeta. intros H.
  apply bind_ok_inv in H as (there & c1 & _ & H). destruct there; [|by unfold ret in H].
  apply bind_ok_inv in H as (state & c2 & _ & H). destruct (truthy_text _) as [v|]; unfold ret in H; simplify_eq/=.
  done.
Qed.

Lemma commit_redispatch e q c r s :
  aget (rd_group q) (ct_placements c) = Some r -> find_slot (rd_index q) (pr_slots r) = Some s ->
  exists r', aget (rd_group q) (ct_placements (redispatch_commit e q c).2) = Some r' /\
    find_slot (rd_index q) (pr_slots r') = Some (redispatched e q (ct_pool c) s).
Proof.
  intros Hr Hs. unfold redispatch_commit, bind at 1, gets at 1. cbn [id]. rewrite Hr, Hs.
  unfold bind, modify, persist, on_db, ret. simpl. rewrite aget_aset. eexists. split; [done|]. by apply find_update.
Qed.


(** ** Stop *)

(** Only the manager changed, and not the table of placements. *)
Definition outside (c c' : ctl) : Prop :=
  ct_placements c' = ct_placements c /\ ct_active_group c' = ct_active_group c /\
  ct_stream_run_ids c' = ct_stream_run_ids c /\ ct_log c' = ct_log c /\
  d_placements (db c') = d_placements (db c).

#[global] Instance outside_preorder : PreOrder outside.
Proof.
  split; [by intros c; split_and!|]. intros a b c (A1 & A2 & A3 & A4 & A5) (B1 & B2 & B3 & B4 & B5).
  split_and!; congruence.
Qed.

Lemma outside_db f : (forall d, d_placements (f d) = d_placements d) -> keeps outside (on_db f).
Proof. intros H. apply ck_modify. intros c. split_and!; try done. apply H. Qed.

Lemma outside_status name st : keeps outside (set_status_c name st).
Proof.
  intros c. unfold set_status_c, on_manager, within, set_status, bind, get_, modify.
  destruct (aget name (m_pipelines (ct_manager c))); simpl; split_and!; try done. unfold db. simpl. by rewrite change_db.
Qed.

(** Nothing of the pipeline's stream is left. *)
Definition closed (name : string) (c : ctl) : Prop :=
  ct_active_group c !! name = None /\ ct_stream_run_ids c !! name = None /\
  (forall g r, aget g (ct_placements c) = Some r -> pr_pipeline_name r <> name) /\
  (forall g r, d_placements (db c) !! g = Some r -> pr_pipeline_name r = name -> active_placement r = false) /\
  SentStopPipeline name ∈ ct_log c.

Lemma closed_outside name c c' : outside c c' -> closed name c -> closed name c'.
Proof. intros (E1 & E2 & E3 & E4 & E5). unfold closed. by rewrite E1, E2, E3, E4, E5. Qed.

(** The stop messages of a list of runs only reach the log. *)
Lemma stops_sent name l : forall c, exists log,
  iterM (fun r => modify (send (SentStopRun r name))) l c =
    (Ok tt : res ctl_exn unit, mkCtl (ct_manager c) (ct_next c) (ct_jobs c) (ct_stream_run_ids c) (ct_placements c) (ct_active_group c)
       (ct_leases c) (ct_dispatching c) (ct_pending c) (ct_pool c) (ct_stats c) log).
Proof.
  induction l as [|r l IH]; intros c; simpl.
  - exists (ct_log c). by destruct c.
  - destruct (IH (send (SentStopRun r name) c)) as (log & E). exists log. unfold bind, modify at 1. by rewrite E.
Qed.

Lemma stop_stream_closed load e W name g c :
  inv load e W c -> ct_active_group c !! name = Some g -> closed name (_stop_stream e name c).2.
Proof.
  intros Hi Hg. destruct (iv_placements _ _ _ _ Hi) as [P1 P2 P3 P4 P5].
  destruct (P2 _ _ Hg) as (r & Hr & Hn). unfold _stop_stream, bind at 1, gets at 1. cbn [id].
  unfold bind at 1, modify at 1. set (c1 := with_streams _ _ _ c).
  destruct (stops_sent name (default [] (ct_stream_run_ids c !! name)) c1) as (log & E).
  rewrite (bind_returns _ _ _ _ _ E), Hg. unfold bind, modify. rewrite Hr. unfold on_db, modify. simpl.
  split_and!; simpl; [apply lookup_delete_eq|apply lookup_delete_eq| | |].
  - intros g' r' [Hne Hr']%aget_adel_some Hname. apply P1 in Hr'. congruence.
  - intros g' r'. unfold db. simpl. change (m_db (ct_manager c)) with (db c).
    destruct (decide (g = g')) as [<-|Hne].
    + rewrite lookup_alter_eq. destruct (d_placements (db c) !! g); [|done]. by intros [= <-] _.
    + rewrite lookup_alter_ne by done. intros Hr' Hname. apply not_true_is_false. intros Ha.
      apply Hne. symmetry. by eapply (P4 _ _ Hg).
  - apply elem_of_app. right. by apply list_elem_of_singleton.
Qed.

(** ** Runs *)

Definition group_s : string := "s-19700101000001-abcdef".



(** ** Where the code falls short *)

(** C40: a stop that comes while a slot is being redispatched does not stop the
    run that is under way.  In a state the manager reaches, the pipeline is
    stopped and no longer placed, the worker has accepted the redispatched run
    after the stop, and no message to stop it was sent: the commit only gives
    up on the vanished placement. *)
Theorem stop_misses_redispatch :
  exists s, routed_reach demo_cfg demo_load s /\
    status_of_p "s" s = Some Stopped /\ ct_active_group (sy_ctl s) !! "s"%string = None /\
    p_assignments (ct_pool (sy_ctl s)) !! (group_s ++ "-r1")%string = Some "http://w1"%string /\
    SentStopRun (group_s ++ "-r1") "s" ∉ ct_log (sy_ctl s) /\
    (exists s0, s = step demo_cfg demo_load (at_ 45) (APlacement []) (step demo_cfg demo_load (at_ 44) (APlacement []) s0) /\
       status_of_p "s" s0 = Some Stopped /\ ct_log (sy_ctl s0) = ct_log (sy_ctl s) /\
       p_assignments (ct_pool (sy_ctl s0)) !! (group_s ++ "-r1")%string = None).
Proof.
  set (l := (take 4 placed_s ++ [(at_ 43, AStop "s"%string)])).
  exists (s_run (l ++ [(at_ 44, APlacement []); (at_ 45, APlacement [])])). split_and!.
  - apply trace_routed; [apply rr_init|by repeat constructor|vm_compute; reflexivity].
  - vm_compute. reflexivity.
  - vm_compute. reflexivity.
  - vm_compute. reflexivity.
  - match goal with |- _ ∉ ?x => assert (x = [SentStopRun group_s "s"; SentStopPipeline "s"]) as -> end.
    { vm_compute. reflexivity. }
    rewrite !not_elem_of_cons. split_and!; [done|done|apply not_elem_of_nil].
  - exists (s_run l). split_and!; [reflexivity|vm_compute; reflexivity..].
Qed.

(** A stream on [n] workers. *)
Definition config_b (n : Z) : PipelineConfig := mkConfig "b" true StreamSchedule (mkWorkers (Some (Count n)) None) [].
Definition load_b (n : Z) (yaml : string) : option PipelineConfig :=
  if String.eqb yaml "b" then Some (config_b n) else None.
Definition register_b (n : Z) : action := ARegister (config_b n) "b" "api".
Definition pool_of (n : nat) : pool :=
  workers ((fun i => ("http://w" ++ py_str (Z.of_nat i))%string) <$> seq 0 n) true.
Definition saw (rid : string) : PipelineStatsPayload := mkStat rid "b" "" 0 0 0 (S754_zero false).
Definition group_b : string := "b-19700101000001-abcdef".

(** The run ids of the slots of b, in the table. *)
Definition runs_b (s : sys) : list (option string) :=
  match d_placements (db (sy_ctl s)) !! group_b with Some r => pt_current_run_id <$> pr_slots r | None => [] end.

(** Slots whose indices are prefixes of one another are confused.  With
    eleven slots, after a restart, one report of the run of slot 10 makes it
    the run of slot 1 too, since its id starts with the id of slot 1; the
    placement counts as running again and slot 1's own run is tracked by
    nobody. *)
Theorem slot_prefixes_confused :
  exists s, routed_reach demo_cfg (load_b 11) s /\
    runs_b s !! 1%nat = Some (Some (group_b ++ "-w1"))%string /\
    let s' := step demo_cfg (load_b 11) (at_ 3) (AReport false (saw (group_b ++ "-w10"))) s in
    runs_b s' !! 1%nat = Some (Some (group_b ++ "-w10"))%string /\
    runs_b s' !! 10%nat = Some (Some (group_b ++ "-w10"))%string /\
    status_of_p "b" s' = Some Running.
Proof.
  exists (trace demo_cfg (load_b 11) [(at_ 1, register_b 11); (at_ 2, ABoot no_reply (pool_of 11))]
            (demo_init (pool_of 11))).
  split; [|vm_compute; by split_and!].
  apply trace_routed; [apply rr_init|by repeat constructor|vm_compute; reflexivity].
Qed.

(** The worker w1 takes the run but its answer is lost. *)
Definition lost_answer (k : Z) : io :=
  mkIo (k * 1000000) (io_uuid (at_ k)) "abcdef" "fence"
    (fun u _ => if String.eqb u "http://w1" then Some "timeout"%string else None) (fun _ => Some (mkWorkerStatus [] [])).

(** A slot without a run id never gets one from a report.  When the
    worker's answer to a dispatch is lost, the slot has no run id; every report
    of the run it did start is refused as a lost race (the text None is
    compared with a JSON null), so the slot and the placement stay as they
    are. *)
Theorem null_run_never_adopted :
  exists s, routed_reach demo_cfg (load_b 2) s /\
    runs_b s = [Some (group_b ++ "-w0"); None]%string /\
    let s' := step demo_cfg (load_b 2) (at_ 3) (AReport false (saw (group_b ++ "-w1"))) s in
    runs_b s' = runs_b s /\ status_of_p "b" s' = Some Reconciling.
Proof.
  exists (trace demo_cfg (load_b 2) [(lost_answer 1, register_b 2); (at_ 2, ABoot no_reply (pool_of 2))]
            (demo_init (pool_of 2))).
  split; [|vm_compute; by split_and!].
  apply trace_routed; [apply rr_init|by repeat constructor|vm_compute; reflexivity].
Qed.

(** The same settings with single-stream placements off. *)
Definition flag_off : settings := mkSettings "http://m" "mgr" true 900 1 100 2 false true 30 demo_pool.

Definition ended_b (w : string) : action :=
  ACallback (mkCallback None (group_b ++ w) "b" None (body "success")).

(** With single-stream placements off a broadcast stream can be placed
    twice.  When all its runs have ended and an operator starts it again, the
    old placement is still in memory; the next pass of the reconciler writes
    it back and both rows are active. *)
Theorem flag_off_places_twice :
  exists s g g' r r', routed_reach flag_off (load_b 2) s /\
    d_placements (db (sy_ctl s)) !! g = Some r /\ d_placements (db (sy_ctl s)) !! g' = Some r' /\ g <> g' /\
    active_placement r = true /\ active_placement r' = true /\ pr_pipeline_name r = pr_pipeline_name r'.
Proof.
  exists (trace flag_off (load_b 2) [(at_ 1, register_b 2); (at_ 2, ended_b "-w0"); (at_ 3, ended_b "-w1");
    (at_ 5, AStart "b"%string); (at_ 40, APlacement []); (at_ 41, APlacement [])] (demo_init (pool_of 2))).
  exists group_b, "b-19700101000005-abcdef"%string. eexists _, _. split_and!.
  - apply trace_routed; [apply rr_init|by repeat constructor|vm_compute; reflexivity].
  - vm_compute. reflexivity.
  - vm_compute. reflexivity.
  - done.
  - reflexivity.
  - reflexivity.
  - reflexivity.
Qed.
End PlacementLaws.
