(* ===== verification/FileNames.v ===== *)
(** * File names of the file sinks

    The pure helpers of src/tram/connectors/file_sink_common.py: the identity
    of a source unit, filename templates with [string.Formatter.parse], the
    state key of a template, roll-over, and what is appended to a file.

    Paths are POSIX paths of [pathlib]: components between slashes, empty and
    [.] components dropped. *)

From Stdlib Require Import ZArith Lia Ascii String Strings.Byte.
From stdpp Require Import base tactics list strings gmap option.
From S2P Require Import Prelude PyStr IsoTime PyVal Paths Transforms CounterDelta Accounting ExecKeys.
Import stdpp.list.

#[local] Open Scope Z_scope.
#[local] Open Scope list_scope.

Module FileNames.
Import IsoTime PyVal Paths Transforms CounterDelta Accounting ExecKeys.

(** [format(value, spec)] and [ascii(value)]. *)
Class Formatting := { format_value : pyval -> string -> res exn string; ascii_text : pyval -> string }.

Notation bytes := (list Byte.byte).

Definition bad {A} (what : string) : res exn A := Raise (Exn COther what).

(** ** Paths *)

Definition slash : ascii := "/".

Definition path_parts (p : string) : list string :=
  List.filter (fun x => negb (String.eqb x "" || String.eqb x ".")) (split_on slash p).

Definition path_absolute (p : string) : bool := starts_with "/" p.

Definition path_text (absolute : bool) (parts : list string) : string :=
  match absolute, parts with
  | false, [] => "."
  | true, _ => ("/" ++ py_join "/" parts)%string
  | false, _ => py_join "/" parts
  end.

(** [str(Path(root) / p)]. *)
Definition path_join (root p : string) : string :=
  if path_absolute p then path_text true (path_parts p)
  else path_text (path_absolute root) (path_parts root ++ path_parts p).

Definition path_name (p : string) : string := default ""%string (list.last (path_parts p)).

(** [str(Path(p).parent)]. *)
Definition path_parent (p : string) : string := path_text (path_absolute p) (removelast (path_parts p)).

(** [str(Path(p).with_name(name))]. *)
Definition with_name (p name : string) : res exn string :=
  if String.eqb (path_name p) "" then bad "has an empty name"
  else if (has_char slash name || String.eqb name "" || String.eqb name ".")%bool then bad "Invalid name"
  else Ok (path_text (path_absolute p) (removelast (path_parts p) ++ [name])).

(** The last dot of a name that neither starts nor ends with it. *)
Definition split_suffix (name : string) : string * string :=
  match rsplit1 "." name with
  | Some (a, b) => if (String.eqb a "" || String.eqb b "")%bool then (name, ""%string) else (a, ("." ++ b)%string)
  | None => (name, ""%string)
  end.

Definition path_stem (p : string) : string := (split_suffix (path_name p)).1.
Definition path_suffix (p : string) : string := (split_suffix (path_name p)).2.

(** [s.endswith(suf)]. *)
Fixpoint has_suffix (suf s : string) : bool :=
  (String.eqb s suf || match s with EmptyString => false | String _ s' => has_suffix suf s' end)%bool.

(** ** Source units *)

(** [rstrip("/")] after backslashes became slashes. *)
Fixpoint to_slashes (s : string) : string :=
  match s with
  | EmptyString => EmptyString
  | String a s' => String (if Ascii.eqb a (ascii_of_nat 92) then slash else a) (to_slashes s')
  end.

Fixpoint rstrip_slash (s : string) : string :=
  match s with
  | EmptyString => EmptyString
  | String a s' =>
      match rstrip_slash s' with
      | EmptyString => if Ascii.eqb a slash then EmptyString else String a EmptyString
      | r => String a r
      end
  end.

Definition _basename (path : string) : string :=
  let n := rstrip_slash (to_slashes path) in
  match rsplit1 slash n with Some (_, b) => b | None => n end.

Section names.
Context {PT : PyText} {FM : Formatting}.

Definition _resolve_source_filename (meta : dict) : string :=
  let filename := meta_text "source_filename" meta in
  if negb (String.eqb filename "") then filename
  else
    let basename := _basename (meta_text "source_path" meta) in
    if String.eqb basename "" then "data" else basename.

(** Path, filename and run of a source unit. *)
Notation source_key := (string * string * string)%type.

Definition source_unit_key (meta : dict) : source_key :=
  (meta_text "source_path" meta, _resolve_source_filename meta, meta_text "run_id" meta).

Definition is_record_safe_serializer (t : string) : bool := (String.eqb t "ndjson" || String.eqb t "csv")%bool.

Definition should_stage_file_output (meta : dict) (serializer_type : string) : bool :=
  if negb (truthy (dget_or_none "enable_safe_finalize" meta)) then false
  else if negb (is_record_safe_serializer serializer_type) then false
  else
    let '(path, filename, run_id) := source_unit_key meta in
    (negb (String.eqb run_id "") && (negb (String.eqb path "") || negb (String.eqb filename "")))%bool.

(** ** Templates *)

(** [f"{part_index:0{width}d}"] of a positive index. *)
Definition format_part_index (part_index max_index : Z) : string :=
  let t := py_str part_index in
  let width := String.length (py_str max_index) in
  (String.concat "" (replicate (width - String.length t) "0"%string) ++ t)%string.

Definition build_filename_vars (opened_at part_index max_index : Z) (meta : dict) : dict :=
  let source_filename := _resolve_source_filename meta in
  let sp := default (VStr "") (dget "source_path" meta) in
  let part := format_part_index part_index max_index in
  let stem := path_stem source_filename in
  [("pipeline", default (VStr "tram") (dget "pipeline_name" meta));
   ("timestamp", VStr (run_timestamp opened_at));
   ("epoch", VInt (timestamp_s opened_at));
   ("epoch_m", VInt (timestamp_ms opened_at));
   ("epoch_ms", VInt (timestamp_ms opened_at));
   ("part", VStr part);
   ("index", VStr part);
   ("run_timestamp", default (VStr "") (dget "run_timestamp" meta));
   ("run_id", default (VStr "") (dget "run_id" meta));
   ("source_filename", VStr source_filename);
   ("source_stem", VStr (if String.eqb stem "" then source_filename else stem));
   ("source_suffix", VStr (path_suffix source_filename));
   ("source_path", VStr (py_text (if truthy sp then sp else VStr source_filename)))]%string.

Definition _ROLLING_TOKENS : list string := ["timestamp"; "epoch"; "epoch_m"; "epoch_ms"; "part"; "index"]%string.

(** A value that is None or the empty text. *)
Definition blank (v : pyval) : bool := match v with VNone => true | VStr s => String.eqb s "" | _ => false end.

Definition _resolve_field_path (values : pyval) (path : string) : string :=
  match values with
  | VDict d =>
      let by_segments := match lookup_segments (split_on dot path) (VDict d) with
                         | Some v => if blank v then "unknown"%string else py_text v
                         | None => "unknown"%string
                         end in
      match dget path d with
      | Some v => if blank v then by_segments else py_text v
      | None => by_segments
      end
  | _ => "unknown"
  end.

(** A piece of a template: a character, or a replacement field with its
    format spec and conversion. *)
Inductive piece := PText (a : ascii) | PField (name spec : string) (conv : option ascii).

Fixpoint take_spec (depth : nat) (s : string) : res exn (string * string) :=
  match s with
  | EmptyString => bad "unmatched '{' in format spec"
  | String c s' =>
      if Ascii.eqb c "{" then let? r := take_spec (S depth) s' in Ok (String c r.1, r.2)
      else if Ascii.eqb c "}" then
        match depth with
        | O => Ok (EmptyString, s')
        | S d => let? r := take_spec d s' in Ok (String c r.1, r.2)
        end
      else let? r := take_spec depth s' in Ok (String c r.1, r.2)
  end.

Definition take_conversion (s : string) : res exn (ascii * string * string) :=
  match s with
  | EmptyString => bad "end of string while looking for conversion specifier"
  | String _ EmptyString => bad "unmatched '{' in format spec"
  | String a (String c s') =>
      if Ascii.eqb c "}" then Ok (a, EmptyString, s')
      else if Ascii.eqb c ":" then let? r := take_spec 0 s' in Ok (a, r.1, r.2)
      else bad "expected ':' after conversion specifier"
  end.

(** The field that starts after a brace and the text after it; [in_index]:
    between brackets, where nothing ends the name. *)
Fixpoint take_field (in_index : bool) (s : string) : res exn (piece * string) :=
  let named c (r : piece * string) :=
    match r.1 with PField n sp cv => (PField (String c n) sp cv, r.2) | p => (p, r.2) end in
  match s with
  | EmptyString => bad "expected '}' before end of string"
  | String c s' =>
      if in_index then let? r := take_field (negb (Ascii.eqb c "]")) s' in Ok (named c r)
      else if Ascii.eqb c "{" then bad "unexpected '{' in field name"
      else if Ascii.eqb c "}" then Ok (PField EmptyString EmptyString None, s')
      else if Ascii.eqb c ":" then let? r := take_spec 0 s' in Ok (PField EmptyString r.1 None, r.2)
      else if Ascii.eqb c "!" then
        let? r := take_conversion s' in Ok (PField EmptyString r.1.2 (Some r.1.1), r.2)
      else let? r := take_field (Ascii.eqb c "[") s' in Ok (named c r)
  end.

(** [Formatter.parse]; [fuel] is the length of the text, of which every step
    consumes at least one character. *)
Fixpoint formatter_parse (fuel : nat) (s : string) : res exn (list piece) :=
  match fuel, s with
  | O, _ | _, EmptyString => Ok []
  | S n, String c s' =>
      let text a rest := let? ps := formatter_parse n rest in Ok (PText a :: ps) in
      if Ascii.eqb c "{" then
        match s' with
        | EmptyString => bad "Single '{' encountered in format string"
        | String c' s'' =>
            if Ascii.eqb c' "{" then text c s''
            else
              let? fr := take_field false s' in
              let? ps := formatter_parse n fr.2 in
              Ok (fr.1 :: ps)
        end
      else if Ascii.eqb c "}" then
        match s' with
        | String c' s'' =>
            if Ascii.eqb c' "}" then text c s'' else bad "Single '}' encountered in format string"
        | EmptyString => bad "Single '}' encountered in format string"
        end
      else text c s'
  end.

Definition parse_template (template : string) : res exn (list piece) :=
  formatter_parse (String.length template) template.

Definition validate_template_tokens (template : string) : res exn (list string) :=
  let allowed := keys (build_filename_vars 0 1 1 []) in
  let? ps := parse_template template in
  Ok (omap (fun p =>
        match p with
        | PField name _ _ =>
            if (String.eqb name "" || starts_with "field." name || bool_decide (name ∈ allowed))%bool then None
            else Some ("unknown template token '" ++ name ++ "'")%string
        | PText _ => None
        end) ps).

Definition file_state_key (now : Z) (template : string) (meta : dict) : res exn (list (string * string)) :=
  let base := build_filename_vars now 1 1 meta in
  let values := default (VDict []) (dget "field_values" meta) in
  let? ps := parse_template template in
  Ok (omap (fun p =>
        match p with
        | PText _ => None
        | PField name _ _ =>
            if (String.eqb name "" || bool_decide (name ∈ _ROLLING_TOKENS))%bool then None
            else match cut_prefix "field." name with
                 | Some path => Some (name, _resolve_field_path values path)
                 | None => match dget name base with Some v => Some (name, py_text v) | None => None end
                 end
        end) ps).

Definition _resolve_template_value (name : string) (base : dict) (values : pyval) : res exn pyval :=
  match cut_prefix "field." name with
  | Some path => Ok (VStr (_resolve_field_path values path))
  | None => of_option (Exn COther name) (dget name base)
  end.

Definition render_piece (base : dict) (values : pyval) (p : piece) : res exn string :=
  match p with
  | PText a => Ok (String a EmptyString)
  | PField name spec conv =>
      let? v := _resolve_template_value name base values in
      let v := match conv with
               | Some a => if Ascii.eqb a "r" then VStr (repr_text v)
                           else if Ascii.eqb a "a" then VStr (ascii_text v)
                           else if Ascii.eqb a "s" then VStr (py_text v) else v
               | None => v
               end in
      if String.eqb spec "" then Ok (py_text v) else format_value v spec
  end.

Fixpoint render_pieces (base : dict) (values : pyval) (ps : list piece) : res exn string :=
  match ps with
  | [] => Ok ""%string
  | p :: ps' => let? a := render_piece base values p in let? b := render_pieces base values ps' in Ok (a ++ b)%string
  end.

Definition render_filename (template : string) (opened_at part_index max_index : Z) (meta : dict) : res exn string :=
  let? ps := parse_template template in
  render_pieces (build_filename_vars opened_at part_index max_index meta)
    (default (VDict []) (dget "field_values" meta)) ps.
End names.

Fixpoint has_text (sub s : string) : bool :=
  (starts_with sub s || match s with EmptyString => false | String _ s' => has_text sub s' end)%bool.

Definition ensure_rolling_token (template : string) : string :=
  if (has_text "{part}" template || has_text "{index}" template || has_text "{epoch_m}" template
      || has_text "{epoch_ms}" template)%bool then template
  else if negb (String.eqb (path_suffix template) "")
  then (path_stem template ++ "_{part}" ++ path_suffix template)%string
  else (template ++ "_{part}")%string.

(** ** Roll-over *)

Record FilePartState := mkPart {
  fp_part_index : Z;
  fp_opened_at : Z;
  fp_records_written : Z;
  fp_bytes_written : Z }.

(** A threshold that is set and passed. *)
Definition passed (limit : option Z) (f : Z -> bool) : bool := match limit with Some n => f n | None => false end.

Definition should_roll (state : option FilePartState) (now incoming_records incoming_bytes : Z)
  (max_records max_time max_bytes : option Z) : bool :=
  match state with
  | None => false
  | Some st =>
      (passed max_time (fun n => n * 1000000 <=? now - fp_opened_at st)
       || passed max_records (fun n => (0 <? fp_records_written st) && (n <? fp_records_written st + incoming_records))
       || passed max_bytes (fun n => (0 <? fp_bytes_written st) && (n <? fp_bytes_written st + incoming_bytes)))%bool
  end.

(** ** Payloads *)

Definition LF : Byte.byte := Byte.x0a.
Definition CR : Byte.byte := Byte.x0d.

(** [bytes.splitlines(keepends=True)]: lines end with LF, CR or CR LF. *)
Fixpoint splitlines (b : bytes) : list bytes :=
  match b with
  | [] => []
  | c :: b' =>
      let rest := splitlines b' in
      let join := match rest with l :: ls => (c :: l) :: ls | [] => [[c]] end in
      if Byte.eqb c LF then [c] :: rest
      else if Byte.eqb c CR then
        match b' with
        | d :: _ => if Byte.eqb d LF then join else [c] :: rest
        | [] => [[c]]
        end
      else join
  end.

#[global] Instance byte_eq_dec : EqDecision Byte.byte := Byte.byte_eq_dec.

Definition ends_with_bytes (suf b : bytes) : bool :=
  bool_decide (drop (length b - length suf) b = suf).

Definition prepare_payload_for_append `{!PyText} (data : bytes) (serializer_type : string) (config : dict)
  (is_new_file : bool) : bytes :=
  match data with
  | [] => []
  | _ =>
      let data := if (String.eqb serializer_type "csv" && negb is_new_file
                      && truthy (default (VBool true) (dget "has_header" config)))%bool
                  then mjoin (drop 1 (splitlines data)) else data in
      if String.eqb serializer_type "ndjson" then
        let newline := String.list_byte_of_string
                         (py_text (default (VStr (String (ascii_of_nat 10) EmptyString)) (dget "newline" config))) in
        if (negb (bool_decide (data = [])) && negb (ends_with_bytes newline data))%bool then data ++ newline else data
      else data
  end.
End FileNames.
