(* ===== verification/FileSink.v ===== *)
(** * The rolling writer of the file sinks

    src/tram/connectors/file_sink_common.py from [StagedFileTarget] on: the
    publication manifest of a source unit, the backends, and [RollingWriter].

    A method is a program of [CtlMonad]; its state is the writer beside the
    state of the backend.  [RollingFileBackend] is the interface between them;
    its local instance runs on a disk with a page cache, where every system
    call may fail and only what was synced survives a power loss, its SFTP
    instance on the calls of an SFTP client, which are parameters.

    The clock is an argument of [write].  Paths are their normalized text;
    [..] components, links and renamed directories are outside the model. *)

From Stdlib Require Import ZArith Lia Ascii String Strings.Byte.
From stdpp Require Import base tactics list strings gmap option.
From S2P Require Import Prelude PyStr IsoTime PyVal Paths Transforms CounterDelta Accounting ExecKeys ExecMonad FileNames CtlMonad.
Import stdpp.list.

#[local] Open Scope Z_scope.
#[local] Open Scope list_scope.
#[local] Open Scope tram_scope.

Module FileSink.
Import PyVal Transforms CounterDelta Accounting ExecKeys FileNames CtlMonad.

Notation state_key := (list (string * string)).
Notation source_key := (string * string * string)%type.

(** [SinkError] is a [TramError]. *)
Definition SinkError (what : string) : exn := Exn CTram what.

(** [except SinkError: raise  except Exception as exc: raise SinkError(...)]. *)
Definition as_sink_error {S A} (what : string) (m : M S exn A) : M S exn A :=
  catch m (fun e => if is_tram e then throw e else throw (SinkError (what ++ ": " ++ exn_str e))).

(** ** The backend *)

Class RollingFileBackend (S : Type) := {
  overwrite : bool;
  join_root : string -> string;
  ensure_dir : M S exn unit;
  temp_path : string -> string -> res exn string;
  cleanup_stale_temp : string -> string -> M S exn unit;
  exists_ : string -> M S exn bool;
  append : string -> bytes -> M S exn unit;
  write_bytes : string -> bytes -> M S exn unit;
  replace : string -> string -> M S exn unit;
  remove : string -> M S exn unit;
  fsync : string -> M S exn unit;
  fsync_dir : string -> M S exn unit }.

(** ** A disk *)

(** Names to inodes and inodes to data as the processes see them, with the
    names whose directory was not synced since they changed, and the inodes
    whose data was not. *)
Record disk := mkDisk {
  dk_dirs : gset string;
  dk_entries : gmap string nat;
  dk_data : gmap nat bytes;
  dk_dirty : gset string;
  dk_unsynced : gset nat }.

Definition content (d : disk) (p : string) : option bytes := dk_entries d !! p ≫= fun i => dk_data d !! i.

(** The directories above a path. *)
Definition ancestors (p : string) : list string :=
  (fun k => path_text (path_absolute p) (take k (path_parts p))) <$> seq 0 (length (path_parts p)).

(** What [open] and [read] find: the directories must be there too. *)
Definition reads (d : disk) (p : string) : option bytes :=
  if bool_decide (Forall (fun a => a ∈ dk_dirs d) (ancestors p)) then content d p else None.

(** A power loss keeps synced names and synced data; of the rest, anything
    may be found. *)
Definition power_loss (d d' : disk) : Prop :=
  (forall p, p ∉ dk_dirty d ->
     dk_entries d' !! p = dk_entries d !! p /\ (p ∈ dk_dirs d' <-> p ∈ dk_dirs d)) /\
  (forall i, i ∉ dk_unsynced d -> dk_data d' !! i = dk_data d !! i).

(** What a system call does: it works, fails, or, for a write, fails after
    some bytes. *)
Inductive fate := Works | Fails | Partly (n : nat).

(** The disk and the fates of the calls to come; all work when none is left. *)
Record lfs := mkLfs { lf_disk : disk; lf_fates : list fate }.

Definition ENOENT : exn := Exn COther "[Errno 2] No such file or directory".
Definition EIO : exn := Exn COther "[Errno 5] Input/output error".
Definition EEXIST : exn := Exn COther "[Errno 17] File exists".

Definition next_fate : M lfs exn fate := fun s =>
  match lf_fates s with
  | [] => (Ok Works, s)
  | f :: r => (Ok f, mkLfs (lf_disk s) r)
  end.

(** A call without effect when it fails. *)
Definition syscall {A} (f : disk -> res exn (A * disk)) : M lfs exn A := fun s =>
  match next_fate s with
  | (Ok Works, s') => match f (lf_disk s') with
                      | Ok (a, d) => (Ok a, mkLfs d (lf_fates s'))
                      | Raise e => (Raise e, s')
                      end
  | (_, s') => (Raise EIO, s')
  end.

Definition has_dir (d : disk) (p : string) : bool := bool_decide (Forall (fun a => a ∈ dk_dirs d) (ancestors p)).

Definition fs_mkdir (root : string) (d : disk) : res exn (unit * disk) :=
  let new := list_to_set (ancestors root ++ [root]) ∖ dk_dirs d in
  if bool_decide (Exists (fun p => is_Some (dk_entries d !! p)) (elements new)) then Raise EEXIST
  else Ok (tt, mkDisk (dk_dirs d ∪ new) (dk_entries d) (dk_data d) (dk_dirty d ∪ new) (dk_unsynced d)).
Definition sys_mkdir (root : string) : M lfs exn unit := syscall (fs_mkdir root).

Definition fs_exists (p : string) (d : disk) : res exn (bool * disk) :=
  Ok ((has_dir d p && (bool_decide (is_Some (dk_entries d !! p)) || bool_decide (p ∈ dk_dirs d)))%bool, d).
Definition sys_exists (p : string) : M lfs exn bool := syscall (fs_exists p).

(** The names of a directory. *)
Definition fs_glob (dir : string) (d : disk) : res exn (list string * disk) :=
  Ok (List.filter (fun p => String.eqb (path_parent p) dir) (elements (dom (dk_entries d))), d).
Definition sys_glob (dir : string) : M lfs exn (list string) := syscall (fs_glob dir).

Definition fs_unlink (p : string) (d : disk) : res exn (unit * disk) :=
  match dk_entries d !! p with
  | None => Raise ENOENT
  | Some _ => Ok (tt, mkDisk (dk_dirs d) (delete p (dk_entries d)) (dk_data d) ({[p]} ∪ dk_dirty d) (dk_unsynced d))
  end.
Definition sys_unlink (p : string) : M lfs exn unit := syscall (fs_unlink p).

Definition fs_rename (p q : string) (d : disk) : res exn (unit * disk) :=
  match dk_entries d !! p with
  | None => Raise ENOENT
  | Some i =>
      if (negb (has_dir d q) || bool_decide (q ∈ dk_dirs d))%bool then Raise ENOENT
      else Ok (tt, mkDisk (dk_dirs d) (<[q := i]> (delete p (dk_entries d))) (dk_data d)
                     ({[p; q]} ∪ dk_dirty d) (dk_unsynced d))
  end.
Definition sys_rename (p q : string) : M lfs exn unit := syscall (fs_rename p q).

(** [open(path, "ab")] and [open(path, "wb")]. *)
Definition fs_open (truncate : bool) (p : string) (d : disk) : res exn (nat * disk) :=
  if (negb (has_dir d p) || bool_decide (p ∈ dk_dirs d))%bool then Raise ENOENT
  else match dk_entries d !! p with
       | Some i =>
           Ok (i, if truncate
                  then mkDisk (dk_dirs d) (dk_entries d) (<[i := []]> (dk_data d)) (dk_dirty d) ({[i]} ∪ dk_unsynced d)
                  else d)
       | None =>
           let i := fresh (dom (dk_data d)) in
           Ok (i, mkDisk (dk_dirs d) (<[p := i]> (dk_entries d)) (<[i := []]> (dk_data d))
                    ({[p]} ∪ dk_dirty d) ({[i]} ∪ dk_unsynced d))
       end.
Definition sys_open (truncate : bool) (p : string) : M lfs exn nat := syscall (fs_open truncate p).

Definition put (i : nat) (b : bytes) (s : lfs) : lfs :=
  let d := lf_disk s in
  mkLfs (mkDisk (dk_dirs d) (dk_entries d) (<[i := default [] (dk_data d !! i) ++ b]> (dk_data d))
           (dk_dirty d) ({[i]} ∪ dk_unsynced d)) (lf_fates s).

(** [fh.write(payload)] and the close of the file. *)
Definition sys_write (i : nat) (payload : bytes) : M lfs exn unit :=
  let* f := next_fate in
  match f with
  | Works => modify (put i payload)
  | Fails => throw EIO
  | Partly n => do* modify (put i (take n payload)) in throw EIO
  end.

Definition fs_fsync (p : string) (d : disk) : res exn (unit * disk) :=
  match dk_entries d !! p with
  | None => Raise ENOENT
  | Some i => Ok (tt, mkDisk (dk_dirs d) (dk_entries d) (dk_data d) (dk_dirty d) (dk_unsynced d ∖ {[i]}))
  end.
Definition sys_fsync (p : string) : M lfs exn unit := syscall (fs_fsync p).

(** After the sync of a directory its names are durable. *)
Definition fs_fsync_dir (dir : string) (d : disk) : res exn (unit * disk) :=
  if bool_decide (dir ∈ dk_dirs d)
  then Ok (tt, mkDisk (dk_dirs d) (dk_entries d) (dk_data d)
                 (filter (fun p => path_parent p <> dir) (dk_dirty d)) (dk_unsynced d))
  else Raise ENOENT.
Definition sys_fsync_dir (dir : string) : M lfs exn unit := syscall (fs_fsync_dir dir).

(** ** LocalRollingBackend *)

Section local_backend.
Context (root : string) (_overwrite : bool).

Definition local_join_root (rendered : string) : string := path_join root rendered.

Definition local_temp_path (final run_id : string) : res exn string :=
  with_name final ("." ++ path_name final ++ ".tram-" ++ run_id ++ ".tmp")%string.

(** The pattern [.<name>.tram-*.tmp], of a name without pattern characters. *)
Definition stale_name (name candidate : string) : bool :=
  let prefix := ("." ++ name ++ ".tram-")%string in
  (starts_with prefix candidate && has_suffix ".tmp" candidate
   && (String.length prefix + 4 <=? String.length candidate)%nat)%bool.

Definition local_cleanup_stale_temp (final keep : string) : M lfs exn unit :=
  let* names := sys_glob (path_parent final) in
  iterM (fun candidate =>
    if String.eqb candidate keep then ret tt
    else catch (sys_unlink candidate) (fun e => if decide (e = ENOENT) then ret tt else throw e))
    (List.filter (fun p => stale_name (path_name final) (path_name p)) names).

Definition local_append (path : string) (payload : bytes) : M lfs exn unit :=
  let* i := sys_open false path in sys_write i payload.

Definition local_write_bytes (path : string) (data : bytes) : M lfs exn unit :=
  let* i := sys_open true path in sys_write i data.

Definition local_replace (temp final : string) : M lfs exn unit :=
  let* there := sys_exists temp in
  if negb there then ret tt
  else
    let* taken := sys_exists final in
    do* (if taken then
           if negb _overwrite then throw (SinkError ("File already exists and overwrite=false: " ++ final))
           else sys_unlink final
         else ret tt) in
    sys_rename temp final.

Definition local_remove (path : string) : M lfs exn unit :=
  catch (sys_unlink path) (fun e => if decide (e = ENOENT) then ret tt else throw e).

#[global] Instance LocalRollingBackend : RollingFileBackend lfs := {|
  overwrite := _overwrite;
  join_root := local_join_root;
  ensure_dir := sys_mkdir root;
  temp_path := local_temp_path;
  cleanup_stale_temp := local_cleanup_stale_temp;
  exists_ := sys_exists;
  append := local_append;
  write_bytes := local_write_bytes;
  replace := local_replace;
  remove := local_remove;
  fsync := sys_fsync;
  fsync_dir := fun path => sys_fsync_dir (path_parent path) |}.
End local_backend.

(** ** SftpRollingBackend *)

(** The calls of the SFTP client. *)
Class SftpClient (S : Type) := {
  sftp_stat : string -> M S exn unit;
  sftp_mkdir : string -> M S exn unit;
  sftp_listdir : string -> M S exn (list string);
  sftp_remove : string -> M S exn unit;
  sftp_append : string -> bytes -> M S exn unit;
  sftp_write : string -> bytes -> M S exn unit;
  sftp_posix_rename : option (string -> string -> M S exn unit);
  sftp_rename : string -> string -> M S exn unit;
  sftp_connect : M S exn unit;
  sftp_close : S -> S }.

Section sftp_backend.
Context {S : Type} {CL : SftpClient S} (_remote_path : string).

Definition sftp_join_root (rendered : string) : string := (_remote_path ++ "/" ++ rendered)%string.

Definition sftp_ensure_dir : M S exn unit :=
  catch (sftp_stat _remote_path) (fun e => if decide (e = ENOENT) then sftp_mkdir _remote_path else throw e).

Definition sftp_temp_path (final run_id : string) : string :=
  match rsplit1 slash final with
  | Some (directory, filename) => (directory ++ "/." ++ filename ++ ".tram-" ++ run_id ++ ".tmp")%string
  | None => ("." ++ final ++ ".tram-" ++ run_id ++ ".tmp")%string
  end.

(** [try: m  except Exception: ...]. *)
Definition or_else {A} (m : M S exn A) (a : A) : M S exn A := catch m (fun _ => ret a).

Definition sftp_cleanup_stale_temp (final keep : string) : M S exn unit :=
  let '(directory, filename) := default (""%string, final) (rsplit1 slash final) in
  let prefix := ("." ++ filename ++ ".tram-")%string in
  let* names := or_else (sftp_listdir (if String.eqb directory "" then "." else directory)) [] in
  iterM (fun name =>
    if negb (starts_with prefix name && has_suffix ".tmp" name) then ret tt
    else
      let candidate := if String.eqb directory "" then name else (directory ++ "/" ++ name)%string in
      if String.eqb candidate keep then ret tt
      else or_else (sftp_remove candidate) tt) names.

Definition sftp_exists (path : string) : M S exn bool :=
  or_else (do* sftp_stat path in ret true) false.

Definition sftp_replace (temp final : string) : M S exn unit :=
  match sftp_posix_rename with
  | Some posix_rename => posix_rename temp final
  | None => do* or_else (sftp_remove final) tt in sftp_rename temp final
  end.

#[global] Instance SftpRollingBackend : RollingFileBackend S := {|
  overwrite := true;
  join_root := sftp_join_root;
  ensure_dir := sftp_ensure_dir;
  temp_path := fun final run_id => Ok (sftp_temp_path final run_id);
  cleanup_stale_temp := sftp_cleanup_stale_temp;
  exists_ := sftp_exists;
  append := sftp_append;
  write_bytes := sftp_write;
  replace := sftp_replace;
  remove := fun path => or_else (sftp_remove path) tt;
  fsync := fun _ => ret tt;
  fsync_dir := fun _ => ret tt |}.
End sftp_backend.

(** ** Publication manifests *)

Record StagedFileTarget := mkTarget {
  tg_state_key : state_key;
  tg_temp_path : string;
  tg_final_path : string }.

#[global] Instance StagedFileTarget_eq_dec : EqDecision StagedFileTarget.
Proof. solve_decision. Defined.

Record PublicationManifest := mkManifest {
  mf_source_key : source_key;
  mf_targets : list StagedFileTarget;
  mf_confirmed : list string }.

Definition add_target (target : StagedFileTarget) (m : PublicationManifest) : PublicationManifest :=
  if existsb (fun e => String.eqb (tg_temp_path e) (tg_temp_path target)
                       && String.eqb (tg_final_path e) (tg_final_path target))%bool (mf_targets m)
  then m
  else mkManifest (mf_source_key m) (mf_targets m ++ [target]) (mf_confirmed m).

Definition state_keys (m : PublicationManifest) : list state_key := tg_state_key <$> mf_targets m.

Definition confirmed (m : PublicationManifest) (p : string) : bool := bool_decide (p ∈ mf_confirmed m).

Definition complete (m : PublicationManifest) : bool :=
  forallb (fun t => confirmed m (tg_final_path t)) (mf_targets m).

(** [self.confirmed.add(p)]. *)
Definition confirm (p : string) (m : PublicationManifest) : PublicationManifest :=
  mkManifest (mf_source_key m) (mf_targets m) (mf_confirmed m ++ [p]).

Section writer.
Context {PT : PyText} {FM : Formatting} {S : Type} {BE : RollingFileBackend S}.

Definition _publish_staged_target (target : StagedFileTarget) : M S exn unit :=
  let* final_exists := exists_ (tg_final_path target) in
  let* temp_exists := exists_ (tg_temp_path target) in
  if temp_exists then
    do* fsync (tg_temp_path target) in
    do* replace (tg_temp_path target) (tg_final_path target) in
    fsync_dir (tg_final_path target)
  else if final_exists then
    do* fsync (tg_final_path target) in
    fsync_dir (tg_final_path target)
  else throw (SinkError ("Staged temp file " ++ tg_temp_path target ++ " is gone and final "
                         ++ tg_final_path target ++ " does not exist")).

(** The manifest and the backend. *)
Notation unit_st := (PublicationManifest * S)%type.

Definition on_backend {T A} (m : M S exn A) : M (T * S) exn A := within snd (fun b s => (s.1, b)) m.

Definition publish_target (target : StagedFileTarget) : M unit_st exn unit :=
  let* done := gets (fun s : unit_st => confirmed s.1 (tg_final_path target)) in
  if (done : bool) then ret tt
  else
    do* as_sink_error ("Error publishing " ++ tg_final_path target)
          (on_backend (_publish_staged_target target)) in
    modify (fun s : unit_st => (confirm (tg_final_path target) s.1, s.2)).

Definition publish : M unit_st exn unit :=
  let* targets := gets (fun s : unit_st => mf_targets s.1) in
  iterM publish_target targets.

(** ** RollingWriter *)

Record RollingWriter := mkWriter {
  rw_filename_template : string;
  rw_file_mode : string;
  rw_max_records : option Z;
  rw_max_time : option Z;
  rw_max_bytes : option Z;
  rw_max_index : Z;
  rw_sink_name : string;
  rw_states : list (state_key * FilePartState);
  rw_current_paths : list (state_key * string);
  rw_part_counters : list (state_key * Z);
  rw_manifests : list (source_key * PublicationManifest);
  rw_dropped_after_cap : list (state_key * Z) }.

Definition set_states v (w : RollingWriter) :=
  let 'mkWriter a b c d e f g _ i j k l := w in mkWriter a b c d e f g v i j k l.
Definition set_current_paths v (w : RollingWriter) :=
  let 'mkWriter a b c d e f g h _ j k l := w in mkWriter a b c d e f g h v j k l.
Definition set_part_counters v (w : RollingWriter) :=
  let 'mkWriter a b c d e f g h i _ k l := w in mkWriter a b c d e f g h i v k l.
Definition set_manifests v (w : RollingWriter) :=
  let 'mkWriter a b c d e f g h i j _ l := w in mkWriter a b c d e f g h i j v l.
Definition set_dropped v (w : RollingWriter) :=
  let 'mkWriter a b c d e f g h i j k _ := w in mkWriter a b c d e f g h i j k v.

Definition new_writer (template file_mode : string) (max_records max_time max_bytes : option Z) (max_index : Z)
  (sink_name : string) : RollingWriter :=
  let rolls := (String.eqb file_mode "append"
                && (bool_decide (is_Some max_records) || bool_decide (is_Some max_time)
                    || bool_decide (is_Some max_bytes)))%bool in
  mkWriter (if rolls then ensure_rolling_token template else template) file_mode max_records max_time max_bytes
    max_index sink_name [] [] [] [] [].

Definition dropped_past_cap_total (w : RollingWriter) : Z := foldr Z.add 0 (rw_dropped_after_cap w).*2.

Notation W := (RollingWriter * S)%type.
Definition getw {A} (f : RollingWriter -> A) : M W exn A := gets (fun s => f s.1).
Definition upd (f : RollingWriter -> RollingWriter) : M W exn unit := modify (fun s => (f s.1, s.2)).

Definition _next_path (meta : dict) (now : Z) (k : state_key) : M W exn (string * FilePartState) :=
  let* part := getw (fun w => default 0 (aget k (rw_part_counters w)) + 1) in
  let* cap := getw rw_max_index in
  if cap <? part then
    do* upd (fun w => set_dropped (aset k (default 0 (aget k (rw_dropped_after_cap w)) + 1) (rw_dropped_after_cap w)) w) in
    let* dropped := getw (fun w => default 0 (aget k (rw_dropped_after_cap w))) in
    let* name := getw rw_sink_name in
    throw (SinkError (name ++ " sink exceeded max_index=" ++ py_str cap ++ "; " ++ py_str dropped
                      ++ " record(s) past the cap skipped"))
  else
    do* upd (fun w => set_part_counters (aset k part (rw_part_counters w)) w) in
    let state := mkPart part now 0 0 in
    let* template := getw rw_filename_template in
    let* filename := lift (render_filename template now part cap meta) in
    ret (join_root filename, state).

Definition _add_staged_target (src : source_key) (target : StagedFileTarget) : M W exn unit :=
  upd (fun w =>
    let manifest := default (mkManifest src [] []) (aget src (rw_manifests w)) in
    set_manifests (aset src (add_target target manifest) (rw_manifests w)) w).

(** The staging name of a new part, registered on the unit's manifest. *)
Definition stage (meta : dict) (k : state_key) (final : string) : M W exn string :=
  let run_id := dget_or_none "run_id" meta in
  let* temp := lift (temp_path final (py_text (if truthy run_id then run_id else VStr "run"))) in
  do* on_backend (cleanup_stale_temp final temp) in
  do* _add_staged_target (source_unit_key meta) (mkTarget k temp final) in
  ret temp.

Definition count (records : Z) (payload : bytes) (st : FilePartState) : FilePartState :=
  mkPart (fp_part_index st) (fp_opened_at st) (fp_records_written st + records)
    (fp_bytes_written st + Z.of_nat (length payload)).

Definition write_append (data : bytes) (meta : dict) (now : Z) (serializer_type : string) (config : dict)
  (record_count : Z) (k : state_key) : M W exn (option string) :=
  let staged := should_stage_file_output meta serializer_type in
  let* rolls := getw (fun w => should_roll (aget k (rw_states w)) now record_count (Z.of_nat (length data))
                                 (rw_max_records w) (rw_max_time w) (rw_max_bytes w)) in
  do* when rolls (upd (fun w => set_current_paths (adel k (rw_current_paths w)) (set_states (adel k (rw_states w)) w))) in
  let* state := getw (fun w => aget k (rw_states w)) in
  let* current := getw (fun w => aget k (rw_current_paths w)) in
  let is_new_file := match state, current with Some _, Some _ => false | _, _ => true end in
  let* ds :=
    match state, current with
    | Some st, Some path => ret (path, st)
    | _, _ =>
        let* fs := _next_path meta now k in
        let '(final, st) := fs in
        let* path := (if staged then stage meta k final else ret final) in
        do* upd (fun w => set_current_paths (aset k path (rw_current_paths w)) w) in
        do* upd (fun w => set_states (aset k st (rw_states w)) w) in
        ret (path, st)
    end in
  let '(dest, state) := ds in
  match prepare_payload_for_append data serializer_type config is_new_file with
  | [] => ret None
  | payload =>
      do* on_backend (append dest payload) in
      do* upd (fun w => set_states (aset k (count record_count payload state) (rw_states w)) w) in
      ret (Some dest)
  end.

Definition write_single (data : bytes) (meta : dict) (now : Z) (serializer_type : string) (config : dict)
  (record_count : Z) (k : state_key) : M W exn (option string) :=
  let* fs := _next_path meta now k in
  let '(final, st) := fs in
  let* ds :=
    if should_stage_file_output meta serializer_type then
      let* dest := stage meta k final in
      let* existing := on_backend (exists_ dest) in
      match prepare_payload_for_append data serializer_type config (negb existing) with
      | [] => ret (dest, st)
      | payload => do* on_backend (append dest payload) in ret (dest, count record_count payload st)
      end
    else
      let* there := on_backend (exists_ final) in
      if (there && negb overwrite)%bool
      then throw (SinkError ("File already exists and overwrite=false: " ++ final))
      else do* on_backend (write_bytes final data) in ret (final, st)
  in
  let '(dest, st) := ds in
  do* upd (fun w => set_states (aset k st (rw_states w)) w) in
  do* upd (fun w => set_current_paths (aset k dest (rw_current_paths w)) w) in
  ret (Some dest).

(** [dict(meta.get("serializer_config", {}))]; the executor passes a dict. *)
Definition serializer_config (meta : dict) : res exn dict :=
  match default (VDict []) (dget "serializer_config" meta) with
  | VDict d => Ok d
  | _ => bad "object is not a mapping"
  end.

Definition write (data : bytes) (meta : dict) (now : Z) : M W exn (option string) :=
  do* on_backend ensure_dir in
  let serializer_type := py_text (default (VStr "json") (dget "serializer_type" meta)) in
  let* config := lift (serializer_config meta) in
  let* record_count := lift (py_int_of (default (VInt 0) (dget "output_record_count" meta))) in
  let* template := getw rw_filename_template in
  let* k := lift (file_state_key now template meta) in
  let* mode := getw rw_file_mode in
  if String.eqb mode "append" then write_append data meta now serializer_type config record_count k
  else write_single data meta now serializer_type config record_count k.

Definition has_staged_targets (src : source_key) (w : RollingWriter) : bool :=
  bool_decide (is_Some (aget src (rw_manifests w))).

Definition _clear_unit_bookkeeping (m : PublicationManifest) (w : RollingWriter) : RollingWriter :=
  foldl (fun w k =>
    set_dropped (adel k (rw_dropped_after_cap w))
      (set_part_counters (adel k (rw_part_counters w))
         (set_current_paths (adel k (rw_current_paths w)) (set_states (adel k (rw_states w)) w)))) w (state_keys m).

(** A method of the manifest of a source unit, which the writer's dict holds. *)
Definition on_manifest (src : source_key) (m : PublicationManifest) {A} (p : M unit_st exn A) : M W exn A :=
  fun s => let '(r, (m', b)) := p (m, s.2) in (r, (set_manifests (aset src m' (rw_manifests s.1)) s.1, b)).

Definition publish_source (src : source_key) : M W exn unit :=
  let* manifest := getw (fun w => aget src (rw_manifests w)) in
  match manifest with
  | None => ret tt
  | Some m =>
      do* as_sink_error "Error publishing sink output" (on_manifest src m publish) in
      let* m := getw (fun w => default m (aget src (rw_manifests w))) in
      when (complete m)
        (do* upd (fun w => set_manifests (adel src (rw_manifests w)) w) in
         upd (_clear_unit_bookkeeping m))
  end.

Definition publish_all : M W exn unit :=
  let* sources := getw (fun w => (rw_manifests w).*1) in
  do* iterM publish_source sources in
  let* paths := getw (fun w => (rw_current_paths w).*2) in
  iterM (fun path => on_backend (do* fsync path in fsync_dir path)) paths.

Definition _discard_source (src : source_key) : M W exn unit :=
  let* manifest := getw (fun w => aget src (rw_manifests w)) in
  match manifest with
  | None => ret tt
  | Some m =>
      do* upd (fun w => set_manifests (adel src (rw_manifests w)) w) in
      do* iterM (fun t => if confirmed m (tg_final_path t) then ret tt
                          else catch (on_backend (remove (tg_temp_path t))) (fun _ => ret tt)) (mf_targets m) in
      upd (_clear_unit_bookkeeping m)
  end.

Definition finalize_source (src : source_key) (success : bool) : M W exn unit :=
  if success then publish_source src else _discard_source src.
End writer.

(** ** LocalSink *)

(** The receipt of a commit, which never raises, and the latched error. *)
Definition receipt (sink_key : string) (r : res exn unit) : ExecMonad.SinkCommitReceipt :=
  match r with
  | Ok _ => ExecMonad.mkReceipt sink_key ExecMonad.FSYNCED_LOCAL true ""
  | Raise e => ExecMonad.mkReceipt sink_key ExecMonad.FSYNCED_LOCAL false ("publication failed: " ++ exn_str e)
  end.

Definition latch (r : res exn unit) (old : option exn) : option exn :=
  match r with Ok _ => old | Raise e => Some e end.

Section local_sink.
Context {PT : PyText} {FM : Formatting} (path : string) (ow : bool).
#[local] Existing Instance LocalRollingBackend.

Record LocalSink := mkLocal { ls_writer : RollingWriter; ls_fs : lfs; ls_latched_error : option exn }.

Definition in_writer {A} (m : M (RollingWriter * lfs) exn A) : M LocalSink exn A := fun s =>
  let '(r, (w, f)) := m (ls_writer s, ls_fs s) in (r, mkLocal w f (ls_latched_error s)).

Definition local_write (data : bytes) (meta : dict) (now : Z) : M LocalSink exn unit :=
  do* as_sink_error ("Error writing to " ++ path) (in_writer (write (BE := LocalRollingBackend path ow) data meta now)) in
  ret tt.

Definition local_finalize_source (meta : dict) (success : bool) : M LocalSink exn unit :=
  as_sink_error "Error finalizing local sink output"
    (in_writer (finalize_source (BE := LocalRollingBackend path ow) (source_unit_key meta) success)).

Definition local_commit (s : LocalSink) : ExecMonad.SinkCommitReceipt * LocalSink :=
  let '(r, s') := in_writer (publish_all (BE := LocalRollingBackend path ow)) s in
  (receipt "local" r, mkLocal (ls_writer s') (ls_fs s') (latch r (ls_latched_error s'))).

Definition local_latched_error (s : LocalSink) : option exn * LocalSink :=
  (ls_latched_error s, mkLocal (ls_writer s) (ls_fs s) None).
End local_sink.

(** ** SFTPSink *)

Section sftp_sink.
Context {PT : PyText} {FM : Formatting} {S : Type} {CL : SftpClient S} (host remote_path : string).

(** The writer, the client, whether a connection is pooled, the latched error. *)
Record SFTPSink := mkSftp { ss_writer : RollingWriter; ss_client : S; ss_pooled : bool; ss_latched_error : option exn }.

Definition on_client {A} (m : M S exn A) : M SFTPSink exn A := fun s =>
  let '(r, c) := m (ss_client s) in (r, mkSftp (ss_writer s) c (ss_pooled s) (ss_latched_error s)).

Definition set_pooled (b : bool) (s : SFTPSink) : SFTPSink := mkSftp (ss_writer s) (ss_client s) b (ss_latched_error s).

Definition _connect : M SFTPSink exn unit :=
  let* pooled := gets ss_pooled in
  if (pooled : bool) then ret tt
  else
    do* catch (on_client sftp_connect)
          (fun e => throw (SinkError ("SFTP connect failed to " ++ host ++ " " ++ exn_str e))) in
    modify (set_pooled true).

Definition _disconnect : M SFTPSink exn unit :=
  modify (fun s => mkSftp (ss_writer s) (if ss_pooled s then sftp_close (ss_client s) else ss_client s) false
                     (ss_latched_error s)).

Definition in_sftp_writer {A} (m : M (RollingWriter * S) exn A) : M SFTPSink exn A := fun s =>
  let '(r, (w, c)) := m (ss_writer s, ss_client s) in (r, mkSftp w c (ss_pooled s) (ss_latched_error s)).

(** One call on the pooled connection and, unless it ends in a [SinkError],
    one more on a fresh one. *)
Definition reconnecting {A} (what : string) (m : M (RollingWriter * S) exn A) : M SFTPSink exn A :=
  let attempt := do* _connect in in_sftp_writer m in
  catch attempt (fun e =>
    if is_tram e then throw e
    else do* _disconnect in as_sink_error what attempt).

Definition sftp_sink_write (data : bytes) (meta : dict) (now : Z) : M SFTPSink exn unit :=
  do* reconnecting ("Error writing to SFTP " ++ host)
        (write (BE := SftpRollingBackend remote_path) data meta now) in
  ret tt.

Definition sftp_finalize_source (meta : dict) (success : bool) : M SFTPSink exn unit :=
  let src := source_unit_key meta in
  let* staged := gets (fun s => has_staged_targets src (ss_writer s)) in
  if negb staged then ret tt
  else reconnecting "Error finalizing SFTP sink output"
         (finalize_source (BE := SftpRollingBackend remote_path) src success).

Definition sftp_commit (s : SFTPSink) : ExecMonad.SinkCommitReceipt * SFTPSink :=
  let attempt := do* _connect in in_sftp_writer (publish_all (BE := SftpRollingBackend remote_path)) in
  let '(r, s') := catch attempt (fun _ => do* _disconnect in attempt) s in
  (receipt "sftp" r, mkSftp (ss_writer s') (ss_client s') (ss_pooled s') (latch r (ss_latched_error s'))).

Definition sftp_latched_error (s : SFTPSink) : option exn * SFTPSink :=
  (ss_latched_error s, mkSftp (ss_writer s) (ss_client s) (ss_pooled s) None).

(** [close], which logs and releases the connection. *)
Definition sftp_sink_close : M SFTPSink exn unit := _disconnect.
End sftp_sink.
End FileSink.
