(* ===== verification/FileSinkLaws.v ===== *)
(** * What a confirmed commit of the local sink promises

    A staged target is published by syncing its temp file, renaming it over
    the final name and syncing the directory; the manifest remembers what was
    confirmed, so that a retry resumes.  Shown here: whatever calls fail on the
    way, once a commit is confirmed the bytes every target was staged with are
    under its final name after a power loss ([commit_is_durable]), and a commit
    during which no call fails is confirmed ([commit_resumes]). *)

From Stdlib Require Import ZArith Lia Ascii String Strings.Byte.
From stdpp Require Import base tactics list strings gmap option relations.
From S2P Require Import Prelude PyStr IsoTime PyVal Paths Transforms CounterDelta Accounting ExecKeys ExecMonad FileNames CtlMonad FileSink.
Import stdpp.list.

#[local] Open Scope Z_scope.
#[local] Open Scope list_scope.

Module FileSinkLaws.
Import PyVal Transforms CounterDelta Accounting ExecKeys FileNames CtlMonad FileSink.

(** ** Triples *)

(** From a state with [P], [m] returns with [Q] or raises with [X]. *)
Definition triple {S A} (P : S -> Prop) (m : M S exn A) (Q : A -> S -> Prop) (X : S -> Prop) : Prop :=
  forall s, P s -> match m s with (Ok a, s') => Q a s' | (Raise _, s') => X s' end.

Lemma triple_bind {S A B} P (m : M S exn A) R (k : A -> M S exn B) Q X :
  triple P m R X -> (forall a, triple (R a) (k a) Q X) -> triple P (bind m k) Q X.
Proof.
  intros Hm Hk s Hs. unfold bind. specialize (Hm s Hs). destruct (m s) as [[a|e] s']; [|done]. by apply Hk.
Qed.

Lemma triple_ret {S A} (P : S -> Prop) (a : A) X : triple P (ret a) (fun b s => b = a /\ P s) X.
Proof. intros s Hs. done. Qed.

Lemma triple_conseq {S A} (P P' : S -> Prop) (m : M S exn A) Q Q' X X' :
  triple P' m Q' X' -> (forall s, P s -> P' s) -> (forall a s, Q' a s -> Q a s) -> (forall s, X' s -> X s) ->
  triple P m Q X.
Proof.
  intros Hm HP HQ HX s Hs. specialize (Hm s (HP s Hs)). destruct (m s) as [[a|e] s']; auto.
Qed.

Lemma triple_rewrap {S A} (P : S -> Prop) what (m : M S exn A) Q X :
  triple P m Q X -> triple P (as_sink_error what m) Q X.
Proof.
  intros Hm s Hs. specialize (Hm s Hs). unfold as_sink_error, catch.
  destruct (m s) as [[a|e] s']; [done|]. by destruct (is_tram e).
Qed.

Lemma triple_iterM {S A} (I : S -> Prop) (f : A -> M S exn unit) l X :
  (forall a, triple I (f a) (fun _ => I) X) -> triple I (iterM f l) (fun _ => I) X.
Proof.
  intros Hf. induction l as [|a l IH]; simpl; [by intros ?|]. eapply triple_bind; [apply Hf|]. intros u. exact IH.
Qed.

(** [calm]: no call is going to fail.  A program that is calm from the start
    has no exception to answer for. *)
Definition on_disk (calm : Prop) (P : disk -> Prop) (s : lfs) : Prop := P (lf_disk s) /\ (calm -> lf_fates s = []).
Definition failed (calm : Prop) (P : disk -> Prop) (s : lfs) : Prop := P (lf_disk s) /\ ~ calm.

(** A call either leaves the disk alone and raises, or has its effect. *)
Lemma triple_syscall {A} calm (P : disk -> Prop) (f : disk -> res exn (A * disk)) (Q : A -> disk -> Prop)
  (X : disk -> Prop) :
  (forall d, P d -> X d) ->
  (forall d, P d -> exists ad, f d = Ok ad) ->
  (forall d a d', P d -> f d = Ok (a, d') -> Q a d') ->
  triple (on_disk calm P) (syscall f) (fun a => on_disk calm (Q a)) (failed calm X).
Proof.
  intros HX Hok HQ [d fs] [Hd Hc]. unfold syscall, next_fate, on_disk, failed in *. simpl in *.
  destruct (Hok d Hd) as [[a d'] E]. destruct fs as [|[| |n] fs]; simpl; try rewrite E; simpl;
    (split; [eauto|]); intros H; specialize (Hc H); done.
Qed.

(** ** Which names a program touches *)

Record touches (ps : list string) (d d' : disk) : Prop := {
  to_data : dk_data d' = dk_data d;
  to_dirs : dk_dirs d' = dk_dirs d;
  to_entries p : p ∉ ps -> dk_entries d' !! p = dk_entries d !! p;
  to_dirty p : p ∉ ps -> p ∈ dk_dirty d' -> p ∈ dk_dirty d;
  to_unsynced : dk_unsynced d' ⊆ dk_unsynced d }.

#[global] Instance touches_preorder ps : PreOrder (touches ps).
Proof.
  split; [done|]. intros a b c H H'. split.
  - by rewrite (to_data _ _ _ H'), (to_data _ _ _ H).
  - by rewrite (to_dirs _ _ _ H'), (to_dirs _ _ _ H).
  - intros p Hp. by rewrite (to_entries _ _ _ H'), (to_entries _ _ _ H).
  - intros p Hp Hd. by apply (to_dirty _ _ _ H p Hp), (to_dirty _ _ _ H' p Hp).
  - etrans; [apply (to_unsynced _ _ _ H')|apply (to_unsynced _ _ _ H)].
Qed.

Definition touches_fs (ps : list string) (s s' : lfs) : Prop := touches ps (lf_disk s) (lf_disk s').

#[global] Instance touches_fs_preorder ps : PreOrder (touches_fs ps).
Proof. split; unfold touches_fs; [intros ?; reflexivity|intros ? ? ?; apply transitivity]. Qed.

Lemma syscall_touches {A} ps (f : disk -> res exn (A * disk)) :
  (forall d a d', f d = Ok (a, d') -> touches ps d d') -> keeps (touches_fs ps) (syscall f).
Proof.
  intros Hf [d fs]. unfold syscall, next_fate, touches_fs. simpl.
  destruct fs as [|[| |n] fs]; simpl; try reflexivity; destruct (f d) as [[a d']|e] eqn:E; simpl; eauto; reflexivity.
Qed.

Lemma fs_exists_touches ps p d a d' : fs_exists p d = Ok (a, d') -> touches ps d d'.
Proof. intros [= <- <-]. reflexivity. Qed.

Lemma fs_unlink_touches ps p d a d' : p ∈ ps -> fs_unlink p d = Ok (a, d') -> touches ps d d'.
Proof.
  intros Hp. unfold fs_unlink. case_match; [|done]. intros [= <- <-].
  split; simpl; [done|done| | |done]; intros q Hq; [rewrite lookup_delete_ne; [done|congruence]|].
  rewrite elem_of_union, elem_of_singleton. intros [->|?]; done.
Qed.

Lemma fs_rename_touches ps p q d a d' : p ∈ ps -> q ∈ ps -> fs_rename p q d = Ok (a, d') -> touches ps d d'.
Proof.
  intros Hp Hq. unfold fs_rename. case_match; [|done]. case_match; [done|]. intros [= <- <-].
  split; simpl; [done|done| | |done]; intros x Hx.
  - rewrite lookup_insert_ne, lookup_delete_ne; congruence.
  - rewrite !elem_of_union, !elem_of_singleton. intros [[-> | ->]|?]; done.
Qed.

Lemma fs_fsync_touches ps p d a d' : fs_fsync p d = Ok (a, d') -> touches ps d d'.
Proof.
  unfold fs_fsync. case_match; [|done]. intros [= <- <-]. split; simpl; [done..|]. apply subseteq_difference_l. done.
Qed.

Lemma fs_fsync_dir_touches ps p d a d' : fs_fsync_dir p d = Ok (a, d') -> touches ps d d'.
Proof.
  unfold fs_fsync_dir. case_match; [|done]. intros [= <- <-].
  split; simpl; [done|done|done| |done]. intros q _ [_ ?]%elem_of_filter. done.
Qed.

Section local.
Context {PT : PyText} {FM : Formatting} (root : string) (ow : bool) (calm : Prop) (Hcalm : calm -> ow = true).
#[local] Instance local_be : RollingFileBackend lfs := LocalRollingBackend root ow.

Ltac touch :=
  repeat first
    [ keeps_step
    | lazymatch goal with
      | |- keeps _ (sys_exists _) => apply syscall_touches; intros ? ? ?; apply fs_exists_touches
      | |- keeps _ (sys_unlink _) => apply syscall_touches; intros ? ? ?; apply fs_unlink_touches; set_solver
      | |- keeps _ (sys_rename _ _) => apply syscall_touches; intros ? ? ?; apply fs_rename_touches; set_solver
      | |- keeps _ (sys_fsync _) => apply syscall_touches; intros ? ? ?; apply fs_fsync_touches
      | |- keeps _ (sys_fsync_dir _) => apply syscall_touches; intros ? ? ?; apply fs_fsync_dir_touches
      end ].

Lemma publish_one_touches t :
  keeps (touches_fs [tg_temp_path t; tg_final_path t]) (_publish_staged_target t).
Proof. unfold _publish_staged_target. simpl. unfold local_replace. touch. Qed.

(** ** One target *)

(** A file of settled directories. *)
Definition settled (d : disk) (p : string) : Prop :=
  p ∉ dk_dirs d /\ Forall (fun a => a ∈ dk_dirs d /\ a ∉ dk_dirty d) (path_parent p :: ancestors p).

Definition durable (d : disk) (p : string) (b : bytes) : Prop :=
  settled d p /\ p ∉ dk_dirty d /\
  exists i, dk_entries d !! p = Some i /\ dk_data d !! i = Some b /\ i ∉ dk_unsynced d.

Lemma durable_survives d d' p b : durable d p b -> power_loss d d' -> reads d' p = Some b.
Proof.
  intros ([_ Hdir] & Hp & i & He & Hb & Hi) [Hn Hd]. unfold reads, content.
  rewrite bool_decide_eq_true_2.
  - destruct (Hn p Hp) as [-> _]. rewrite He. simpl. by rewrite Hd.
  - apply Forall_cons in Hdir as [_ Hdir]. eapply Forall_impl; [exact Hdir|]. intros a [Ha Hc].
    by apply (Hn a Hc).
Qed.

(** Not yet confirmed: staged, or renamed and not yet synced. *)
Definition pending (d : disk) (t : StagedFileTarget) (b : bytes) : Prop :=
  settled d (tg_temp_path t) /\ settled d (tg_final_path t) /\
  (content d (tg_temp_path t) = Some b \/
   dk_entries d !! tg_temp_path t = None /\ content d (tg_final_path t) = Some b).

Lemma settled_touches ps d d' p :
  touches ps d d' -> (forall a, a ∈ path_parent p :: ancestors p -> a ∉ ps) -> settled d p -> settled d' p.
Proof.
  intros H Ha [Hp Hd]. split; rewrite (to_dirs _ _ _ H); [done|].
  apply Forall_forall. intros a Hin. rewrite Forall_forall in Hd. destruct (Hd a Hin) as [? Hc]. split; [done|].
  intros Hc'. by apply Hc, (to_dirty _ _ _ H a (Ha a Hin)).
Qed.

Lemma durable_touches ps d d' p b :
  touches ps d d' -> (forall a, a ∈ p :: path_parent p :: ancestors p -> a ∉ ps) -> durable d p b -> durable d' p b.
Proof.
  intros H Ha (Hs & Hp & i & He & Hb & Hi). split; [eapply settled_touches; [exact H| |exact Hs]; intros a Hin; apply Ha; by right|].
  assert (p ∉ ps) by (apply Ha; left). split; [intros Hc; by apply Hp, (to_dirty _ _ _ H p)|].
  exists i. rewrite (to_entries _ _ _ H) by done. rewrite (to_data _ _ _ H). split_and!; [done|done|].
  intros Hc. by apply Hi, (to_unsynced _ _ _ H).
Qed.

Lemma content_touches ps d d' p : touches ps d d' -> p ∉ ps -> content d' p = content d p.
Proof. intros H Hp. unfold content. by rewrite (to_entries _ _ _ H), (to_data _ _ _ H). Qed.

Definition own_names (t : StagedFileTarget) : list string := [tg_temp_path t; tg_final_path t].
Definition own_dirs (t : StagedFileTarget) : list string :=
  (path_parent (tg_temp_path t) :: ancestors (tg_temp_path t)) ++
  (path_parent (tg_final_path t) :: ancestors (tg_final_path t)).

Lemma pending_touches ps d d' t b :
  touches ps d d' -> (forall a, a ∈ own_names t ++ own_dirs t -> a ∉ ps) -> pending d t b -> pending d' t b.
Proof.
  intros H Ha (Hst & Hsf & Hc). split_and!.
  - eapply settled_touches; [exact H| |exact Hst]. intros a Hin. apply Ha, elem_of_app. right. apply elem_of_app. by left.
  - eapply settled_touches; [exact H| |exact Hsf]. intros a Hin. apply Ha, elem_of_app. right. apply elem_of_app. by right.
  - assert (tg_temp_path t ∉ ps) by (apply Ha; left). assert (tg_final_path t ∉ ps) by (apply Ha; right; left).
    by rewrite !(content_touches ps d d'), (to_entries _ _ _ H).
Qed.

Lemma exists_spec (P X : disk -> Prop) p :
  (forall d, P d -> X d) -> (forall d, P d -> settled d p) ->
  triple (on_disk calm P) (sys_exists p)
    (fun b => on_disk calm (fun d => P d /\ b = bool_decide (is_Some (dk_entries d !! p)))) (failed calm X).
Proof.
  intros HX HP. apply triple_syscall; [done|unfold fs_exists; eauto|]. intros d a d' Hd [= <- <-]. split; [done|].
  destruct (HP d Hd) as [Hn Ha]. unfold has_dir. rewrite (bool_decide_eq_true_2 (Forall _ _)).
  - rewrite (bool_decide_eq_false_2 (p ∈ _)) by done. by rewrite orb_false_r.
  - apply Forall_cons in Ha as [_ Ha]. eapply Forall_impl; [exact Ha|]. by intros a [? _].
Qed.

(** The steps of a publication: synced under the temp name, then renamed. *)
Definition synced (d : disk) (p : string) (b : bytes) : Prop :=
  exists i, dk_entries d !! p = Some i /\ dk_data d !! i = Some b /\ i ∉ dk_unsynced d.
Definition ready (t : StagedFileTarget) (b : bytes) (d : disk) : Prop :=
  settled d (tg_temp_path t) /\ settled d (tg_final_path t) /\ synced d (tg_temp_path t) b.
Definition moved (t : StagedFileTarget) (b : bytes) (d : disk) : Prop :=
  settled d (tg_temp_path t) /\ settled d (tg_final_path t) /\ synced d (tg_final_path t) b /\
  dk_entries d !! tg_temp_path t = None.

Lemma synced_content d p b : synced d p b -> content d p = Some b.
Proof. intros (i & He & Hb & _). unfold content. by rewrite He. Qed.

Lemma ready_pending t b d : ready t b d -> pending d t b.
Proof. intros (? & ? & ?%synced_content). split_and!; auto. Qed.

Lemma moved_pending t b d : moved t b d -> pending d t b.
Proof. intros (? & ? & ?%synced_content & ?). split_and!; auto. Qed.

Section one_target.
Context (t : StagedFileTarget) (b : bytes).
Context (Hne : tg_temp_path t <> tg_final_path t) (Hdirs : forall a, a ∈ own_dirs t -> a ∉ own_names t).

Lemma fsync_spec (P X : disk -> Prop) p :
  (forall d, P d -> X d) -> (forall d, P d -> content d p = Some b) ->
  (forall d i, P d -> P (mkDisk (dk_dirs d) (dk_entries d) (dk_data d) (dk_dirty d) (dk_unsynced d ∖ {[i]}))) ->
  triple (on_disk calm P) (sys_fsync p) (fun _ => on_disk calm (fun d => P d /\ synced d p b)) (failed calm X).
Proof.
  intros HX HP Hs. unfold content in HP. apply triple_syscall; [done| |].
  { intros d Hd. specialize (HP d Hd). unfold fs_fsync. destruct (dk_entries d !! p); eauto; done. }
  intros d a d' Hd. specialize (HP d Hd). unfold fs_fsync.
  destruct (dk_entries d !! p) as [i|] eqn:E; [|done]. intros [= <- <-]. split; [by apply Hs|].
  exists i. simpl in *. split_and!; [done|done|set_solver].
Qed.

Lemma settled_both d d' :
  touches (own_names t) d d' -> settled d (tg_temp_path t) -> settled d (tg_final_path t) ->
  settled d' (tg_temp_path t) /\ settled d' (tg_final_path t).
Proof.
  intros H ? ?. split; (eapply settled_touches; [exact H| |done]); intros a Ha; apply Hdirs; unfold own_dirs;
    apply elem_of_app; auto.
Qed.

Lemma own_temp : tg_temp_path t ∈ own_names t.
Proof. left. Qed.
Lemma own_final : tg_final_path t ∈ own_names t.
Proof. right. left. Qed.

Lemma has_dir_settled d p : settled d p -> has_dir d p = true.
Proof.
  intros [_ Ha]. apply bool_decide_eq_true_2. apply Forall_cons in Ha as [_ Ha].
  eapply Forall_impl; [exact Ha|]. by intros a [? _].
Qed.

Lemma unlink_spec :
  triple (on_disk calm (fun d => ready t b d /\ is_Some (dk_entries d !! tg_final_path t)))
    (sys_unlink (tg_final_path t)) (fun _ => on_disk calm (ready t b)) (failed calm (ready t b)).
Proof.
  apply triple_syscall; [by intros d [? _]| |].
  { intros d [_ [i Hi]]. unfold fs_unlink. rewrite Hi. eauto. }
  intros d a d' ((Hst & Hsf & i & He & Hb & Hi) & _) E.
  destruct (settled_both d d') as [? ?]; [eapply fs_unlink_touches; [apply own_final|exact E]|done|done|].
  split_and!; [done..|]. unfold fs_unlink in E. case_match; [|done]. injection E as <- <-.
  exists i. simpl. by rewrite lookup_delete_ne.
Qed.

Lemma rename_spec :
  triple (on_disk calm (ready t b)) (sys_rename (tg_temp_path t) (tg_final_path t))
    (fun _ => on_disk calm (moved t b)) (failed calm (ready t b)).
Proof.
  apply triple_syscall; [done| |].
  { intros d (_ & Hsf & i & He & _). unfold fs_rename. rewrite He, has_dir_settled by done.
    rewrite bool_decide_eq_false_2 by apply Hsf. simpl. eauto. }
  intros d a d' (Hst & Hsf & i & He & Hb & Hi) E.
  destruct (settled_both d d') as [? ?];
    [eapply fs_rename_touches; [apply own_temp|apply own_final|exact E]|done|done|].
  unfold fs_rename in E. rewrite He in E. case_match; [done|]. injection E as <- <-.
  split_and!; [done..| |].
  - exists i. simpl. by rewrite lookup_insert_eq.
  - simpl. rewrite lookup_insert_ne by done. by rewrite lookup_delete_eq.
Qed.

Lemma fsync_dir_spec :
  triple (on_disk calm (moved t b)) (sys_fsync_dir (path_parent (tg_final_path t)))
    (fun _ => on_disk calm (fun d => durable d (tg_final_path t) b)) (failed calm (moved t b)).
Proof.
  apply triple_syscall; [done| |].
  { intros d (_ & [_ Hd] & _). apply Forall_cons in Hd as [[Hd _] _]. unfold fs_fsync_dir.
    rewrite bool_decide_eq_true_2 by done. eauto. }
  intros d a d' (Hst & Hsf & Hy & He) E.
  destruct (settled_both d d') as [_ ?]; [eapply fs_fsync_dir_touches; exact E|done|done|].
  unfold fs_fsync_dir in E. case_match; [|done]. injection E as <- <-.
  split_and!; [done| |exact Hy]. simpl. rewrite elem_of_filter. naive_solver.
Qed.

Lemma replace_spec :
  triple (on_disk calm (ready t b)) (local_replace ow (tg_temp_path t) (tg_final_path t))
    (fun _ => on_disk calm (moved t b)) (failed calm (ready t b)).
Proof.
  eapply triple_bind; [apply (exists_spec (ready t b) (ready t b)); [done|by intros d (? & _)]|]. intros there.
  destruct there; simpl.
  2: { intros s [((_ & _ & i & He & _) & Hf) _]. exfalso. symmetry in Hf. apply bool_decide_eq_false in Hf.
       rewrite He in Hf. by apply Hf. }
  eapply triple_bind; [apply (exists_spec _ (ready t b)); [by intros d [? _]|by intros d [(_ & ? & _) _]]|]. intros taken.
  apply triple_bind with (R := fun _ => on_disk calm (ready t b)); [|intros ?; apply rename_spec].
  destruct taken; [destruct (negb ow) eqn:Eo|].
  - intros s [[[Hs _] _] _]. split; [exact Hs|]. intros Hc. by rewrite (Hcalm Hc) in Eo.
  - intros s [[[Hs _] Hi] Hf]. apply unlink_spec. split; [|exact Hf]. split; [exact Hs|].
    symmetry in Hi. by apply bool_decide_eq_true in Hi.
  - intros s [[[Hs _] _] Hf]. done.
Qed.

(** The two ways into a publication. *)
Lemma sync_temp :
  triple (on_disk calm (fun d => pending d t b /\ is_Some (dk_entries d !! tg_temp_path t))) (sys_fsync (tg_temp_path t))
    (fun _ => on_disk calm (ready t b)) (failed calm (fun d => pending d t b)).
Proof.
  eapply triple_conseq; [apply (fsync_spec (fun d => settled d (tg_temp_path t) /\ settled d (tg_final_path t)
    /\ content d (tg_temp_path t) = Some b) (fun d => pending d t b) (tg_temp_path t))| | |done].
  - intros d (? & ? & ?). split_and!; auto.
  - by intros d (? & ? & ?).
  - intros d i (? & ? & ?). done.
  - intros s [[(Hst & Hsf & [Hc|[Hn _]]) [i Hi]] Hf]; [done|]. congruence.
  - intros a s [[(? & ? & _) ?] ?]. done.
Qed.

Lemma sync_final :
  triple (on_disk calm (fun d => pending d t b /\ dk_entries d !! tg_temp_path t = None)) (sys_fsync (tg_final_path t))
    (fun _ => on_disk calm (moved t b)) (failed calm (fun d => pending d t b)).
Proof.
  eapply triple_conseq; [apply (fsync_spec (fun d => settled d (tg_temp_path t) /\ settled d (tg_final_path t)
    /\ content d (tg_final_path t) = Some b /\ dk_entries d !! tg_temp_path t = None)
    (fun d => pending d t b) (tg_final_path t))| | |done].
  - intros d (? & ? & ? & ?). split_and!; auto.
  - by intros d (? & ? & ? & ?).
  - intros d i (? & ? & ? & ?). done.
  - intros s [[(Hst & Hsf & [Hc|[_ Hc]]) Hn] Hf]; [|done]. unfold content in Hc. by rewrite Hn in Hc.
  - intros a s [[(? & ? & _ & ?) ?] ?]. done.
Qed.

(** Publication of a pending target makes it durable, or leaves it pending. *)
Lemma publish_one_spec :
  triple (on_disk calm (fun d => pending d t b)) (_publish_staged_target t)
    (fun _ => on_disk calm (fun d => durable d (tg_final_path t) b)) (failed calm (fun d => pending d t b)).
Proof.
  unfold _publish_staged_target. simpl.
  eapply triple_bind; [apply (exists_spec _ (fun d => pending d t b)); [done|by intros d (_ & ? & _)]|].
  intros final_exists.
  eapply triple_bind; [apply (exists_spec _ (fun d => pending d t b)); [by intros d [? _]|by intros d [(? & _) _]]|].
  intros temp_exists. destruct temp_exists; [|destruct final_exists].
  - eapply triple_bind; [eapply triple_conseq; [apply sync_temp| |intros ? ? H; exact H|done]|intros ?].
    { intros s [[[? _] Ht] ?]. split; [|done]. split; [done|]. symmetry in Ht. by apply bool_decide_eq_true in Ht. }
    eapply triple_bind; [eapply triple_conseq; [apply replace_spec|done|intros ? ? H; exact H|]|intros ?].
    { intros s [? ?]. split; [by apply ready_pending|done]. }
    eapply triple_conseq; [apply fsync_dir_spec|done|done|]. intros s [? ?]. split; [by apply moved_pending|done].
  - eapply triple_bind; [eapply triple_conseq; [apply sync_final| |intros ? ? H; exact H|done]|intros ?].
    { intros s [[[? _] Ht] ?]. split; [|done]. split; [done|]. symmetry in Ht. apply bool_decide_eq_false in Ht.
      by apply eq_None_not_Some. }
    eapply triple_conseq; [apply fsync_dir_spec|done|done|]. intros s [? ?]. split; [by apply moved_pending|done].
  - intros s [[[Hp Hf] Ht] _]. exfalso. symmetry in Hf, Ht. apply bool_decide_eq_false, eq_None_not_Some in Hf, Ht.
    destruct Hp as (_ & _ & [Hc|[_ Hc]]); unfold content in Hc; [by rewrite Ht in Hc|by rewrite Hf in Hc].
Qed.
End one_target.

(** ** All targets *)

(** The staged targets with the bytes they were staged with. *)
Context (B : list (StagedFileTarget * bytes)).

Definition apart : Prop :=
  (forall t b, (t, b) ∈ B -> tg_temp_path t <> tg_final_path t) /\
  (forall t b t' b' a, (t, b) ∈ B -> (t', b') ∈ B -> a ∈ own_dirs t -> a ∉ own_names t') /\
  (forall t b t' b' a, (t, b) ∈ B -> (t', b') ∈ B -> (t, b) <> (t', b') -> a ∈ own_names t -> a ∉ own_names t').

Context (Hapart : apart).

(** [F]: the final names published so far. *)
Definition good (F : string -> bool) (d : disk) : Prop :=
  forall t b, (t, b) ∈ B -> if F (tg_final_path t) then durable d (tg_final_path t) b else pending d t b.

Definition with_name_done (p : string) (F : string -> bool) (q : string) : bool := (String.eqb q p || F q)%bool.

Lemma other_names t b t' b' :
  (t, b) ∈ B -> (t', b') ∈ B -> (t', b') <> (t, b) -> forall a, a ∈ own_names t' ++ own_dirs t' -> a ∉ own_names t.
Proof.
  destruct Hapart as (_ & Hd & Hn). intros Hin Hin' Hne a [Ha|Ha]%elem_of_app; [by eapply Hn|by eapply Hd].
Qed.

(** What happens to one target is nothing to the others. *)
Lemma good_touches (F G : string -> bool) t b d d' :
  (t, b) ∈ B -> touches (own_names t) d d' -> good F d ->
  (forall t' b', (t', b') ∈ B -> (t', b') <> (t, b) -> G (tg_final_path t') = F (tg_final_path t')) ->
  (if G (tg_final_path t) then durable d' (tg_final_path t) b else pending d' t b) -> good G d'.
Proof.
  intros Hin Ht Hg HG Hown t' b' Hin'. destruct (decide ((t', b') = (t, b))) as [[= -> ->]|Hne]; [done|].
  rewrite (HG t' b') by done. specialize (Hg t' b' Hin'). pose proof (other_names t b t' b' Hin Hin' Hne) as Ho.
  destruct (F (tg_final_path t')).
  - eapply durable_touches; [exact Ht| |exact Hg]. intros a Ha. apply Ho. unfold own_names, own_dirs.
    apply elem_of_cons in Ha as [->|Ha]; [right; left|]. apply elem_of_app. right. apply elem_of_app. by right.
  - by eapply pending_touches.
Qed.

Lemma publish_one_good F t b :
  (t, b) ∈ B -> F (tg_final_path t) = false ->
  triple (on_disk calm (good F)) (_publish_staged_target t)
    (fun _ => on_disk calm (good (with_name_done (tg_final_path t) F))) (failed calm (good F)).
Proof.
  intros Hin HF s [Hg Hf]. destruct Hapart as (Hne & Hd & Hn).
  pose proof (publish_one_touches t s) as Ht. unfold touches_fs in Ht. pose proof (Hg t b Hin) as Hp. rewrite HF in Hp.
  pose proof (publish_one_spec t b (Hne t b Hin) (fun a => Hd t b t b a Hin Hin) s (conj Hp Hf)) as Hs.
  destruct (_publish_staged_target t s) as [[[]|e] s']; simpl in *; destruct Hs as [Hs Hc]; (split; [|exact Hc]).
  - eapply good_touches; [exact Hin|exact Ht|exact Hg| |].
    + intros t' b' Hin' Hne'. unfold with_name_done. rewrite (proj2 (String.eqb_neq _ _)); [done|].
      intros E. eapply (Hn t' b' t b (tg_final_path t)); [done|done|done| |apply own_final].
      rewrite <- E. apply own_final.
    + unfold with_name_done. by rewrite String.eqb_refl.
  - eapply good_touches; [exact Hin|exact Ht|exact Hg|done|]. by rewrite HF.
Qed.

(** ** One manifest *)

(** The manifest of targets [T]; [F0] is what was published of the others. *)
Definition unit_inv (F0 : string -> bool) (T : list StagedFileTarget) (x : PublicationManifest * lfs) : Prop :=
  mf_targets x.1 = T /\ exists F, good F (lf_disk x.2) /\
    (forall t, t ∈ T -> confirmed x.1 (tg_final_path t) = F (tg_final_path t)) /\
    (forall p, p ∉ tg_final_path <$> T -> F p = F0 p).

Definition unit_ok F0 T (l : list StagedFileTarget) (x : PublicationManifest * lfs) : Prop :=
  unit_inv F0 T x /\ (calm -> lf_fates x.2 = []) /\ forall t, t ∈ l -> confirmed x.1 (tg_final_path t) = true.
Definition unit_failed F0 T (x : PublicationManifest * lfs) : Prop := unit_inv F0 T x /\ ~ calm.

Lemma confirmed_confirm p q m : confirmed (confirm p m) q = (String.eqb q p || confirmed m q)%bool.
Proof.
  unfold confirmed, confirm. simpl. destruct (String.eqb_spec q p) as [->|Hne]; simpl.
  - apply bool_decide_eq_true_2. apply elem_of_app. right. left.
  - apply bool_decide_ext. rewrite elem_of_app, list_elem_of_singleton. naive_solver.
Qed.

Lemma publish_target_spec F0 T l t :
  t ∈ T -> (forall t, t ∈ T -> exists b, (t, b) ∈ B) ->
  triple (unit_ok F0 T l) (publish_target t) (fun _ => unit_ok F0 T (t :: l)) (unit_failed F0 T).
Proof.
  intros Ht HT [m s] [[HTm (F & Hg & Hc & Ho)] [Hf Hl]]. simpl in *. unfold publish_target, bind, gets. simpl.
  destruct (confirmed m (tg_final_path t)) eqn:Ec.
  - split; [split; [done|by exists F]|]. split; [done|]. intros t' [->|?]%elem_of_cons; auto.
  - destruct (HT t Ht) as [b Hin]. rewrite Hc in Ec by done.
    pose proof (triple_rewrap _ ("Error publishing " ++ tg_final_path t)%string _ _ _ (publish_one_good F t b Hin Ec)) as Hp.
    assert (forall r s', as_sink_error ("Error publishing " ++ tg_final_path t)%string (on_backend (_publish_staged_target t))
       (m, s) = (r, s') -> exists s1, s' = (m, s1) /\
       as_sink_error ("Error publishing " ++ tg_final_path t)%string (_publish_staged_target t) s = (r, s1)) as Hb.
    { intros r s'. unfold as_sink_error, catch, on_backend, within. simpl.
      destruct (_publish_staged_target t s) as [[[]|e] s1]; [|destruct (is_tram e)]; intros [= <- <-]; eauto. }
    destruct (as_sink_error _ (on_backend _) (m, s)) as [r s'] eqn:E. destruct (Hb r s' eq_refl) as (s1 & -> & E1).
    specialize (Hp s (conj Hg Hf)). rewrite E1 in Hp. destruct r as [[]|e]; simpl.
    + destruct Hp as [Hg' Hf']. split; [|split; [done|]].
      * split; [done|]. exists (with_name_done (tg_final_path t) F). split; [done|]. split.
        -- intros t' Ht'. simpl. rewrite confirmed_confirm. unfold with_name_done. by rewrite Hc.
        -- intros p Hp. unfold with_name_done. rewrite (proj2 (String.eqb_neq _ _)); [by apply Ho|].
           intros ->. apply Hp. by apply list_elem_of_fmap_2.
      * intros t' Ht'. simpl. rewrite confirmed_confirm. apply elem_of_cons in Ht' as [->|Ht'].
        -- by rewrite String.eqb_refl.
        -- rewrite (Hl t' Ht'). apply orb_true_r.
    + destruct Hp as [Hg' Hf']. split; [|done]. split; [done|]. by exists F.
Qed.

Lemma publish_loop_spec F0 T l l' :
  (forall t, t ∈ l' -> t ∈ T) -> (forall t, t ∈ T -> exists b, (t, b) ∈ B) ->
  triple (unit_ok F0 T l) (iterM publish_target l') (fun _ => unit_ok F0 T (rev l' ++ l)) (unit_failed F0 T).
Proof.
  intros Hl HT. revert l. induction l' as [|t l' IH]; intros l; simpl; [by intros ?|].
  eapply triple_bind; [apply publish_target_spec; [apply Hl; left|done]|]. intros ?.
  rewrite <- app_assoc. apply IH. intros t' Ht'. apply Hl. by right.
Qed.

Lemma publish_spec F0 T :
  (forall t, t ∈ T -> exists b, (t, b) ∈ B) ->
  triple (unit_ok F0 T []) publish (fun _ => unit_ok F0 T T) (unit_failed F0 T).
Proof.
  intros HT x Hx. unfold publish, bind, gets. replace (mf_targets x.1) with T by (symmetry; apply Hx).
  pose proof (publish_loop_spec F0 T [] T (fun t H => H) HT x Hx) as Hp.
  destruct (iterM publish_target T x) as [[[]|e] x']; [|done]. destruct Hp as (? & ? & Hl). split_and!; [done..|].
  intros t Ht. apply Hl. rewrite app_nil_r. rewrite list_elem_of_In, <- in_rev. by apply list_elem_of_In.
Qed.

(** ** The writer *)

(** Every target is either published or on the manifest of one unit, and every
    open file belongs to a unit. *)
Record writer_inv (x : RollingWriter * lfs) : Prop := {
  wi_good : exists F, good F (lf_disk x.2) /\
    (forall src m t, aget src (rw_manifests x.1) = Some m -> t ∈ mf_targets m ->
       confirmed m (tg_final_path t) = F (tg_final_path t)) /\
    (forall t b, (t, b) ∈ B -> F (tg_final_path t) = false ->
       exists src m, aget src (rw_manifests x.1) = Some m /\ t ∈ mf_targets m);
  wi_planned src m t : aget src (rw_manifests x.1) = Some m -> t ∈ mf_targets m -> exists b, (t, b) ∈ B;
  wi_units src m src' m' t t' : aget src (rw_manifests x.1) = Some m -> aget src' (rw_manifests x.1) = Some m' ->
    t ∈ mf_targets m -> t' ∈ mf_targets m' -> tg_final_path t = tg_final_path t' -> src = src';
  wi_open k p : (k, p) ∈ rw_current_paths x.1 ->
    exists src m, aget src (rw_manifests x.1) = Some m /\ k ∈ state_keys m }.

Lemma manifests_set v w : rw_manifests (set_manifests v w) = v.
Proof. by destruct w. Qed.
Lemma paths_set_manifests v w : rw_current_paths (set_manifests v w) = rw_current_paths w.
Proof. by destruct w. Qed.

Lemma clear_manifests m w : rw_manifests (_clear_unit_bookkeeping m w) = rw_manifests w.
Proof.
  unfold _clear_unit_bookkeeping. revert w. induction (state_keys m) as [|k ks IH]; intros w; simpl; [done|].
  rewrite IH. by destruct w.
Qed.

Lemma clear_paths m w k p :
  (k, p) ∈ rw_current_paths (_clear_unit_bookkeeping m w) -> (k, p) ∈ rw_current_paths w /\ k ∉ state_keys m.
Proof.
  unfold _clear_unit_bookkeeping. revert w. induction (state_keys m) as [|k' ks IH]; intros w; simpl.
  - intros H. split; [done|]. apply not_elem_of_nil.
  - intros [H Hk]%IH. destruct w; simpl in *. apply list_elem_of_filter in H as [? ?]. split; [done|].
    by apply not_elem_of_cons.
Qed.

(** The manifest of a unit after a publication that stopped or ended. *)
Lemma writer_inv_update F0 src m m' w s s' :
  writer_inv (w, s) -> aget src (rw_manifests w) = Some m ->
  good F0 (lf_disk s) ->
  (forall src m t, aget src (rw_manifests w) = Some m -> t ∈ mf_targets m ->
     confirmed m (tg_final_path t) = F0 (tg_final_path t)) ->
  (forall t b, (t, b) ∈ B -> F0 (tg_final_path t) = false ->
     exists src m, aget src (rw_manifests w) = Some m /\ t ∈ mf_targets m) ->
  unit_inv F0 (mf_targets m) (m', s') ->
  writer_inv (set_manifests (aset src m' (rw_manifests w)) w, s').
Proof.
  intros [_ Hpl Hun Hop] Hm Hg Hc Hleft (HT & F & HgF & HcF & HoF). simpl in *.
  assert (forall src0 m0, aget src0 (aset src m' (rw_manifests w)) = Some m0 ->
    exists m1, aget src0 (rw_manifests w) = Some m1 /\ mf_targets m0 = mf_targets m1 /\
      (src0 = src /\ m0 = m' /\ m1 = m \/ src0 <> src /\ m0 = m1)) as Hback.
  { intros src0 m0. destruct (decide (src0 = src)) as [->|Hne].
    - rewrite aget_aset. intros [= <-]. exists m. split_and!; [done|done|]. by left.
    - rewrite aget_aset_ne by done. intros H. exists m0. split_and!; [done|done|]. by right. }
  assert (forall src1 m1, aget src1 (rw_manifests w) = Some m1 ->
    exists m2, aget src1 (aset src m' (rw_manifests w)) = Some m2 /\ mf_targets m2 = mf_targets m1) as Hforth.
  { intros src1 m1 H1. destruct (decide (src1 = src)) as [->|Hne].
    - rewrite aget_aset. exists m'. split; [done|]. congruence.
    - rewrite aget_aset_ne by done. eauto. }
  split; simpl; rewrite ?manifests_set, ?paths_set_manifests.
  - exists F. split; [done|]. split.
    + intros src0 m0 t H0 Ht. destruct (Hback src0 m0 H0) as (m1 & H1 & Ht1 & [(-> & -> & ->)|[Hne ->]]).
      * apply HcF. by rewrite <- HT.
      * rewrite (Hc src0 m1 t H1 Ht). symmetry. apply HoF. intros (t' & E & Ht')%list_elem_of_fmap.
        apply Hne. eapply (Hun src0 m1 src m); eauto.
    + intros t b Hin Hf. destruct (decide (tg_final_path t ∈ tg_final_path <$> mf_targets m)) as [Hi|Hi].
      * apply list_elem_of_fmap in Hi as (t' & E & Ht'). destruct (Hpl src m t' Hm Ht') as [b' Hin'].
        assert ((t, b) = (t', b')) as [= -> ->].
        { destruct (decide ((t, b) = (t', b'))) as [?|Hne]; [done|]. exfalso.
          destruct Hapart as (_ & _ & Hn). eapply (Hn t b t' b' (tg_final_path t)); [done|done|done|apply own_final|].
          rewrite E. apply own_final. }
        exists src, m'. rewrite aget_aset. split; [done|]. by rewrite HT.
      * rewrite (HoF _ Hi) in Hf. destruct (Hleft t b Hin Hf) as (src1 & m1 & H1 & Ht1).
        destruct (Hforth src1 m1 H1) as (m2 & H2 & E2). exists src1, m2. by rewrite E2.
  - intros src0 m0 t H0 Ht. destruct (Hback src0 m0 H0) as (m1 & H1 & E & _). rewrite E in Ht. eauto.
  - intros src0 m0 src1 m1 t t' H0 H1 Ht Ht' E.
    destruct (Hback src0 m0 H0) as (? & ? & E0 & _). destruct (Hback src1 m1 H1) as (? & ? & E1 & _).
    rewrite E0 in Ht. rewrite E1 in Ht'. eauto.
  - intros k p H. destruct (Hop k p H) as (src1 & m1 & H1 & Hk). destruct (Hforth src1 m1 H1) as (m2 & H2 & E2).
    exists src1, m2. split; [done|]. unfold state_keys. by rewrite E2.
Qed.

(** A unit all of whose targets are confirmed can go. *)
Lemma writer_inv_removed src m w s :
  writer_inv (w, s) -> aget src (rw_manifests w) = Some m ->
  (forall t, t ∈ mf_targets m -> confirmed m (tg_final_path t) = true) ->
  writer_inv (_clear_unit_bookkeeping m (set_manifests (adel src (rw_manifests w)) w), s).
Proof.
  intros [(F & Hg & Hc & Hleft) Hpl Hun Hop] Hm Hall. simpl in *.
  split; simpl; rewrite ?clear_manifests, ?manifests_set.
  - exists F. split; [done|]. split.
    + intros src0 m0 t [_ H0]%aget_adel_some Ht. eauto.
    + intros t b Hin Hf. destruct (Hleft t b Hin Hf) as (src1 & m1 & H1 & Ht1). exists src1, m1. split; [|done].
      rewrite aget_adel_ne; [done|]. intros ->. rewrite Hm in H1. injection H1 as <-.
      rewrite <- (Hc src m t Hm Ht1) in Hf. by rewrite (Hall t Ht1) in Hf.
  - intros src0 m0 t [_ H0]%aget_adel_some Ht. eauto.
  - intros src0 m0 src1 m1 t t' [_ H0]%aget_adel_some [_ H1]%aget_adel_some. eauto.
  - intros k p [H Hk]%clear_paths. rewrite paths_set_manifests in H. destruct (Hop k p H) as (src1 & m1 & H1 & Hk1).
    exists src1, m1. split; [|done]. rewrite aget_adel_ne; [done|]. intros ->. by rewrite Hm in H1; injection H1 as <-.
Qed.
Definition writer_ok (K : list source_key) (gone : list source_key) (x : RollingWriter * lfs) : Prop :=
  writer_inv x /\ (calm -> lf_fates x.2 = []) /\
  (forall src, is_Some (aget src (rw_manifests x.1)) -> src ∈ K /\ src ∉ gone).
Definition writer_failed (x : RollingWriter * lfs) : Prop := writer_inv x /\ ~ calm.

Lemma complete_all m : (forall t, t ∈ mf_targets m -> confirmed m (tg_final_path t) = true) -> complete m = true.
Proof. intros H. apply forallb_forall. intros t Ht. apply H. by apply list_elem_of_In. Qed.

Lemma publish_source_spec K gone src :
  triple (writer_ok K gone) (publish_source src) (fun _ => writer_ok K (src :: gone)) writer_failed.
Proof.
  intros [w s] (Hw & Hf & Hk). unfold publish_source, bind, getw, gets. simpl in *.
  destruct (aget src (rw_manifests w)) as [m|] eqn:Em.
  2: { split_and!; [done..|]. intros src' H'. destruct (Hk src' H'). split; [done|]. apply not_elem_of_cons.
       split; [|done]. intros E. destruct H' as [? H']. simpl in H'. congruence. }
  destruct (wi_good _ Hw) as (F & Hg & Hc & Hleft).
  assert (Hpub : triple (unit_ok F (mf_targets m) []) publish (fun _ => unit_ok F (mf_targets m) (mf_targets m))
    (unit_failed F (mf_targets m))) by (apply publish_spec; intros t Ht; by eapply (wi_planned _ Hw)).
  assert (unit_ok F (mf_targets m) [] (m, s)) as Hu.
  { split_and!; [|done|by intros t ?%elem_of_nil]. split; [done|]. exists F. split_and!; eauto. }
  specialize (Hpub (m, s) Hu). unfold as_sink_error, catch, on_manifest. simpl.
  destruct (publish (m, s)) as [[[]|e] [m' s']].
  - destruct Hpub as (Hui & Hf' & Hall). simpl in *.
    pose proof (writer_inv_update F src m m' w s s' Hw Em Hg Hc Hleft Hui) as Hw'.
    rewrite manifests_set, aget_aset. simpl. destruct Hui as [HT _]. simpl in HT. rewrite <- HT in Hall.
    rewrite (complete_all m' Hall). simpl. unfold bind, upd, modify. simpl. split_and!; simpl.
    + apply writer_inv_removed; [done|by rewrite manifests_set, aget_aset|done].
    + done.
    + rewrite clear_manifests, !manifests_set. intros src' [m1 [Hne H1]%aget_adel_some].
      rewrite aget_aset_ne in H1 by done. destruct (Hk src' (mk_is_Some _ _ H1)). split; [done|]. by apply not_elem_of_cons.
  - destruct Hpub as [Hui Hnc].
    pose proof (writer_inv_update F src m m' w s s' Hw Em Hg Hc Hleft Hui) as Hw'.
    destruct (is_tram e); by split.
Qed.

Lemma publish_sources_spec K gone l :
  triple (writer_ok K gone) (iterM publish_source l) (fun _ => writer_ok K (rev l ++ gone)) writer_failed.
Proof.
  revert gone. induction l as [|src l IH]; intros gone; simpl; [by intros ?|].
  eapply triple_bind; [apply publish_source_spec|]. intros ?. rewrite <- app_assoc. apply IH.
Qed.

(** All published: every target durable, no file left open. *)
Definition all_durable (x : RollingWriter * lfs) : Prop :=
  rw_current_paths x.1 = [] /\ forall t b, (t, b) ∈ B -> durable (lf_disk x.2) (tg_final_path t) b.

Lemma writer_ok_done K x : writer_ok K K x -> all_durable x.
Proof.
  intros (Hw & _ & Hk). assert (forall src, aget src (rw_manifests x.1) = None) as Hnone.
  { intros src. apply eq_None_not_Some. intros H. by destruct (Hk src H). }
  split.
  - destruct (rw_current_paths x.1) as [|[k p] l] eqn:E; [done|]. exfalso.
    destruct (wi_open _ Hw k p) as (src & m & H & _); [rewrite E; left|]. by rewrite Hnone in H.
  - intros t b Hin. destruct (wi_good _ Hw) as (F & Hg & _ & Hleft). specialize (Hg t b Hin).
    destruct (F (tg_final_path t)) eqn:EF; [done|]. destruct (Hleft t b Hin EF) as (src & m & H & _).
    by rewrite Hnone in H.
Qed.

Lemma publish_all_spec :
  triple (fun x => writer_inv x /\ (calm -> lf_fates x.2 = [])) publish_all (fun _ => all_durable) writer_failed.
Proof.
  intros [w s] [Hw Hf]. unfold publish_all, bind, getw, gets. simpl.
  pose proof (publish_sources_spec (rw_manifests w).*1 [] (rw_manifests w).*1 (w, s)) as Hp.
  destruct (iterM publish_source (rw_manifests w).*1 (w, s)) as [[[]|e] x]; [|apply Hp].
  - assert (all_durable x) as Hx.
    { apply (writer_ok_done (rw_manifests w).*1). destruct Hp as (? & ? & Hk).
      + split_and!; [done..|]. intros src [m H]. split; [|by intros ?%elem_of_nil]. apply aget_Some_elem in H.
        apply list_elem_of_fmap. exists (src, m). done.
      + split_and!; [done..|]. intros src H'. destruct (Hk src H') as [Hin Hg]. split; [done|].
        rewrite app_nil_r in Hg. by rewrite list_elem_of_In, <- in_rev, <- list_elem_of_In in Hg. }
    by rewrite (proj1 Hx).
  - split_and!; [done..|]. intros src [m H]. split; [|by intros ?%elem_of_nil]. apply aget_Some_elem in H.
    apply list_elem_of_fmap. exists (src, m). done.
Qed.
(** ** Commits *)

(** The sink holds the bytes [B] staged, every target on the manifest of one
    unit, nothing of them published. *)
Record staged_plan (s : LocalSink) : Prop := {
  sp_files t b : (t, b) ∈ B ->
    settled (lf_disk (ls_fs s)) (tg_temp_path t) /\ settled (lf_disk (ls_fs s)) (tg_final_path t) /\
    content (lf_disk (ls_fs s)) (tg_temp_path t) = Some b;
  sp_listed t b : (t, b) ∈ B -> exists src m, aget src (rw_manifests (ls_writer s)) = Some m /\ t ∈ mf_targets m;
  sp_fresh src m : aget src (rw_manifests (ls_writer s)) = Some m -> mf_confirmed m = [];
  sp_planned src m t : aget src (rw_manifests (ls_writer s)) = Some m -> t ∈ mf_targets m -> exists b, (t, b) ∈ B;
  sp_units src m src' m' t t' : aget src (rw_manifests (ls_writer s)) = Some m ->
    aget src' (rw_manifests (ls_writer s)) = Some m' -> t ∈ mf_targets m -> t' ∈ mf_targets m' ->
    tg_final_path t = tg_final_path t' -> src = src';
  sp_open k p : (k, p) ∈ rw_current_paths (ls_writer s) ->
    exists src m, aget src (rw_manifests (ls_writer s)) = Some m /\ k ∈ state_keys m }.

Lemma staged_writer_inv s : staged_plan s -> writer_inv (ls_writer s, ls_fs s).
Proof.
  intros [Hf Hl Hn Hp Hu Ho]. split; simpl; [|exact Hp|exact Hu|exact Ho]. exists (fun _ => false). split_and!.
  - intros t b Hin. destruct (Hf t b Hin) as (? & ? & ?). split_and!; auto.
  - intros src m t Hm _. unfold confirmed. rewrite (Hn src m Hm). by apply bool_decide_eq_false_2, not_elem_of_nil.
  - intros t b Hin _. eauto.
Qed.

(** A commit whose receipt is not confirmed. *)
Definition failed_commit (s s' : LocalSink) : Prop :=
  (local_commit root ow s).2 = s' /\ ExecMonad.rc_confirmed (local_commit root ow s).1 = false.

Lemma commit_spec s :
  writer_inv (ls_writer s, ls_fs s) -> (calm -> lf_fates (ls_fs s) = []) ->
  let '(r, s') := local_commit root ow s in
  if ExecMonad.rc_confirmed r then all_durable (ls_writer s', ls_fs s')
  else writer_inv (ls_writer s', ls_fs s') /\ ~ calm.
Proof.
  intros Hw Hf. pose proof (publish_all_spec (ls_writer s, ls_fs s) (conj Hw Hf)) as Hp.
  unfold local_commit, in_writer. fold local_be.
  destruct (publish_all (ls_writer s, ls_fs s)) as [[[]|e] [w' s']]; exact Hp.
Qed.
End local.

(** ** A plan of one target *)

Lemma one_target_apart t b d :
  tg_temp_path t <> tg_final_path t -> settled d (tg_temp_path t) -> settled d (tg_final_path t) -> apart [(t, b)].
Proof.
  intros Hne [Ht Htd] [Hf Hfd]. rewrite Forall_forall in Htd, Hfd. split_and!.
  - by intros t' b' [= -> ->]%list_elem_of_singleton.
  - intros t1 b1 t2 b2 a [= -> ->]%list_elem_of_singleton [= -> ->]%list_elem_of_singleton.
    assert (a ∈ dk_dirs d -> a ∉ own_names t) as Hin.
    { intros Ha. unfold own_names. rewrite !not_elem_of_cons. split_and!; [by intros -> ..|]. apply not_elem_of_nil. }
    intros [Ha|Ha]%elem_of_app; apply Hin; [by apply Htd|by apply Hfd].
  - by intros t1 b1 t2 b2 a [= -> ->]%list_elem_of_singleton [= -> ->]%list_elem_of_singleton.
Qed.

Lemma one_target_plan t b src p s :
  rw_manifests (ls_writer s) = [(src, mkManifest src [t] [])] ->
  rw_current_paths (ls_writer s) = [(tg_state_key t, p)] ->
  settled (lf_disk (ls_fs s)) (tg_temp_path t) -> settled (lf_disk (ls_fs s)) (tg_final_path t) ->
  content (lf_disk (ls_fs s)) (tg_temp_path t) = Some b ->
  staged_plan [(t, b)] s.
Proof.
  intros Hm Hp Ht Hf Hc. split; rewrite ?Hm, ?Hp.
  - by intros t' b' [= -> ->]%list_elem_of_singleton.
  - intros t' b' [= -> ->]%list_elem_of_singleton. exists src. eexists. simpl. rewrite decide_True by done.
    split; [done|]. by apply list_elem_of_singleton.
  - intros src' m. simpl. case_match; [|done]. by intros [= <-].
  - intros src' m t'. simpl. case_match; [|done]. intros [= <-] ->%list_elem_of_singleton. exists b.
    by apply list_elem_of_singleton.
  - intros src' m src'' m'' t1 t2. simpl. repeat case_match; try done. congruence.
  - intros k' p' [= -> ->]%list_elem_of_singleton. exists src. eexists. simpl. rewrite decide_True by done.
    split; [done|]. by apply list_elem_of_singleton.
Qed.

(** Every commit that is not confirmed keeps what the next one needs. *)
Lemma failed_commits_inv `{!PyText, !Formatting} root ow B s s' :
  apart B -> rtc (failed_commit root ow) s s' ->
  writer_inv B (ls_writer s, ls_fs s) -> writer_inv B (ls_writer s', ls_fs s').
Proof.
  intros Ha. induction 1 as [|s u s' [<- Hr] _ IH]; [done|]. intros Hw. apply IH.
  pose proof (commit_spec root ow False (False_ind _) B Ha s Hw (False_ind _)) as Hc.
  destruct (local_commit root ow s) as [r u]. simpl in *. rewrite Hr in Hc. apply Hc.
Qed.

(** C4: A confirmed commit of the local sink is durable.  Let every target of
    the sink's manifests have its bytes staged under its temp name, and let any
    number of commits fail, at any system call of the publication: once a
    commit is confirmed, after a power loss the final name of every target
    holds exactly the bytes it was staged with.  (A power loss keeps nothing
    but names and data synced before it; names of different targets differ and
    their directories are synced.) *)
Theorem commit_is_durable `{!PyText, !Formatting} root ow B s s' t b d' :
  apart B -> staged_plan B s -> rtc (failed_commit root ow) s s' ->
  ExecMonad.rc_confirmed (local_commit root ow s').1 = true ->
  (t, b) ∈ B -> power_loss (lf_disk (ls_fs (local_commit root ow s').2)) d' ->
  reads d' (tg_final_path t) = Some b.
Proof.
  intros Ha Hs Hr Hc Hin. apply durable_survives.
  pose proof (failed_commits_inv root ow B s s' Ha Hr (staged_writer_inv B s Hs)) as Hw.
  pose proof (commit_spec root ow False (False_ind _) B Ha s' Hw (False_ind _)) as Hd.
  destruct (local_commit root ow s') as [r u]. simpl in *. rewrite Hc in Hd. by apply Hd.
Qed.


(** ** A sink with one staged unit *)

Definition demo_text : PyText := {| repr_text := fun _ => ""%string |}.
Definition demo_format : Formatting :=
  {| format_value := fun _ spec => Ok spec; ascii_text := fun _ => ""%string |}.

#[local] Existing Instance demo_text.
#[local] Existing Instance demo_format.

Definition demo_meta (file ser : string) : dict :=
  [("pipeline_name", VStr "p"); ("run_id", VStr "r1"); ("source_path", VStr ("/in/" ++ file));
   ("source_filename", VStr file); ("enable_safe_finalize", VBool true); ("serializer_type", VStr ser);
   ("output_record_count", VInt 1)]%string.
Definition demo_disk : disk := mkDisk {["/"; "/out"]} ∅ ∅ ∅ ∅.
Definition demo_sink (fates : list fate) : LocalSink :=
  mkLocal (new_writer "{pipeline}_{timestamp}.bin" "append" None None None 99999 "Local") (mkLfs demo_disk fates) None.
Definition demo_now : Z := 1700000000000000.

(** One chunk written; the rename of the first commit will fail. *)
Definition demo_staged : LocalSink :=
  let s := (local_write "/out" true (String.list_byte_of_string "one") (demo_meta "a" "ndjson") demo_now (demo_sink [])).2 in
  mkLocal (ls_writer s) (mkLfs (lf_disk (ls_fs s)) [Works; Works; Works; Works; Works; Fails]) None.
Definition demo_target : StagedFileTarget :=
  mkTarget [("pipeline", "p")]%string "/out/.p_20231114T221320.bin.tram-r1.tmp" "/out/p_20231114T221320.bin".
Definition demo_bytes : bytes := String.list_byte_of_string "one" ++ [LF].
Definition demo_retry : LocalSink := (local_commit "/out" true demo_staged).2.

Lemma demo_settled_temp : settled (lf_disk (ls_fs demo_staged)) (tg_temp_path demo_target).
Proof. unfold settled. apply (bool_decide_unpack _). vm_compute. exact I. Qed.

Lemma demo_settled_final : settled (lf_disk (ls_fs demo_staged)) (tg_final_path demo_target).
Proof. unfold settled. apply (bool_decide_unpack _). vm_compute. exact I. Qed.

Lemma demo_plan : staged_plan [(demo_target, demo_bytes)] demo_staged.
Proof.
  eapply (one_target_plan demo_target demo_bytes ("/in/a", "a", "r1")%string);
    [by vm_compute|by vm_compute|apply demo_settled_temp|apply demo_settled_final|by vm_compute].
Qed.

Lemma demo_apart : apart [(demo_target, demo_bytes)].
Proof. eapply one_target_apart; [|apply demo_settled_temp|apply demo_settled_final]. by intros [=]. Qed.

Lemma demo_failed : rtc (failed_commit "/out" true) demo_staged demo_retry.
Proof. apply rtc_once. split; [done|]. by vm_compute. Qed.

Lemma commit_is_durable_witness :
  ExecMonad.rc_confirmed (local_commit "/out" true demo_retry).1 = true /\
  forall d', power_loss (lf_disk (ls_fs (local_commit "/out" true demo_retry).2)) d' ->
  reads d' "/out/p_20231114T221320.bin" = Some demo_bytes.
Proof.
  assert (ExecMonad.rc_confirmed (local_commit "/out" true demo_retry).1 = true) as H by by vm_compute.
  split; [exact H|]. intros d' Hd.
  apply (commit_is_durable "/out" true _ demo_staged demo_retry demo_target demo_bytes d' demo_apart demo_plan demo_failed H);
    [left|exact Hd].
Defined.

End FileSinkLaws.
