(* ===== verification/FileSinkWrites.v ===== *)
(** * What the rolling writer puts into files

    Part numbers and record counts stay within their caps on every backend
    ([parts_within_caps]); the chunks of a source unit reach its final file, in
    order and once each, and survive a power loss ([unit_output_survives]); and
    what the writer does not promise: the output of a unit finalized in the
    same second as another replaces it ([second_unit_overwrites]). *)

From Stdlib Require Import ZArith Lia Ascii String Strings.Byte.
From stdpp Require Import base tactics list strings gmap option relations.
From S2P Require Import Prelude PyStr IsoTime PyVal Paths Transforms CounterDelta Accounting ExecKeys ExecMonad FileNames CtlMonad FileSink FileSinkLaws.
Import stdpp.list.

#[local] Open Scope Z_scope.
#[local] Open Scope list_scope.

Module FileSinkWrites.
Import PyVal Transforms CounterDelta Accounting ExecKeys FileNames CtlMonad FileSink FileSinkLaws.

(** ** Caps *)

(** The calls a sink makes of its writer. *)
Inductive writer_op :=
| OWrite (data : bytes) (meta : dict) (now : Z)
| OFinalize (src : string * string * string) (success : bool)
| OPublishAll.

Section caps.
Context {PT : PyText} {FM : Formatting} {S : Type} {BE : RollingFileBackend S}.
Context (m cap : Z) (Hm : 0 <= m).
Notation W := (RollingWriter * S)%type.

(** One call, whether it raises or not. *)
Definition run_op (o : writer_op) (x : W) : W :=
  match o with
  | OWrite data meta now => (write data meta now x).2
  | OFinalize src success => (finalize_source src success x).2
  | OPublishAll => (publish_all x).2
  end.

(** No chunk alone has more records than a part may hold. *)
Definition fits (o : writer_op) : Prop :=
  match o with
  | OWrite _ meta _ => forall n, py_int_of (default (VInt 0) (dget "output_record_count" meta)) = Ok n -> n <= m
  | _ => True
  end.

Record caps (w : RollingWriter) : Prop := {
  cp_records : rw_max_records w = Some m;
  cp_index : rw_max_index w = cap;
  cp_counters k n : aget k (rw_part_counters w) = Some n -> n <= cap;
  cp_states k st : aget k (rw_states w) = Some st -> fp_part_index st <= cap /\ fp_records_written st <= m }.

Definition capped (x : W) : Prop := caps x.1.

Lemma triple_getw {A} (P : W -> Prop) (f : RollingWriter -> A) X :
  triple P (getw f) (fun a x => a = f x.1 /\ P x) X.
Proof. intros x Hx. done. Qed.

Lemma triple_upd (P Q : W -> Prop) f X : (forall w b, P (w, b) -> Q (f w, b)) -> triple P (upd f) (fun _ => Q) X.
Proof. intros H [w b] Hx. by apply H. Qed.

Lemma triple_backend {A} (P : RollingWriter -> Prop) (p : M S exn A) :
  triple (fun x : W => P x.1) (on_backend p) (fun _ x => P x.1) (fun x => P x.1).
Proof. intros [w b] Hx. unfold on_backend, within. simpl. destruct (p b) as [[a|e] b']; done. Qed.

Lemma triple_lift {A} (P : W -> Prop) (r : res exn A) (X : W -> Prop) :
  (forall x, P x -> X x) -> triple P (lift r) (fun a x => r = Ok a /\ P x) X.
Proof. intros HX x Hx. destruct r; simpl; auto. Qed.

Lemma triple_keep {A} (P : W -> Prop) (p : M W exn A) :
  triple P p (fun _ => P) P <-> keeps (preserves P) p.
Proof.
  split; intros H s.
  - intros Hs. specialize (H s Hs). by destruct (p s) as [[a|e] s'].
  - intros Hs. specialize (H s Hs). by destruct (p s) as [[a|e] s'].
Qed.

(** A new part has a number within the cap. *)
Lemma next_path_capped meta now k :
  triple capped (_next_path meta now k)
    (fun fs x => capped x /\ fp_part_index fs.2 <= cap /\ fp_records_written fs.2 = 0) capped.
Proof.
  unfold _next_path. eapply triple_bind; [apply triple_getw|]. intros part.
  eapply triple_bind; [apply triple_getw|]. intros c. destruct (Z.ltb_spec c part) as [Hlt|Hle].
  - intros x (-> & -> & Hx). destruct x as [[] b]. destruct Hx. split; done.
  - apply triple_bind with (R := fun _ x => capped x /\ part <= cap).
    { apply triple_upd. intros w b (-> & -> & Hx). destruct Hx as [H1 H2 H3 H4]. simpl in *. split; [|lia].
      destruct w; simpl in *. split; simpl; [done|done| |exact H4]. intros k' n. destruct (decide (k' = k)) as [->|Hne].
      - rewrite aget_aset. intros [= <-]. lia.
      - rewrite aget_aset_ne by done. apply H3. }
    intros ?. eapply triple_bind; [apply triple_getw|]. intros template.
    eapply triple_bind; [apply triple_lift; by intros x [_ [? _]]|]. intros filename.
    intros x (_ & _ & Hx & Hp). done.
Qed.

Lemma stage_capped meta k final : triple capped (stage meta k final) (fun _ => capped) capped.
Proof.
  unfold stage. eapply triple_bind; [by apply triple_lift|]. intros temp.
  eapply triple_bind; [eapply triple_conseq; [apply (triple_backend caps)|by intros x [_ ?]|intros ? ? H; exact H|done]|].
  intros ?. eapply triple_bind with (R := fun _ => capped); [|by intros ? x ?].
  apply triple_upd. intros w b Hx. destruct w, Hx. by split.
Qed.

Lemma set_states_capped k st :
  fp_part_index st <= cap -> fp_records_written st <= m ->
  triple capped (upd (fun w => set_states (aset k st (rw_states w)) w)) (fun _ => capped) capped.
Proof.
  intros Hp Hr. apply triple_upd. intros w b [H1 H2 H3 H4]. destruct w; simpl in *. split; simpl; [done|done|exact H3|].
  intros k' st'. destruct (decide (k' = k)) as [->|Hne].
  - rewrite aget_aset. by intros [= <-].
  - rewrite aget_aset_ne by done. apply H4.
Qed.

Lemma set_path_capped k p :
  triple capped (upd (fun w => set_current_paths (aset k p (rw_current_paths w)) w)) (fun _ => capped) capped.
Proof. apply triple_upd. intros w b Hx. destruct w, Hx. by split. Qed.

(** What [should_roll] leaves in place has room for the chunk. *)
Lemma not_rolled st now n bytes mt mb :
  n <= m -> should_roll (Some st) now n bytes (Some m) mt mb = false -> fp_records_written st + n <= m.
Proof.
  intros Hn. unfold should_roll. simpl. rewrite !orb_false_iff, andb_false_iff. rewrite !Z.ltb_ge. intros [[_ [H|H]] _]; lia.
Qed.

Definition room (k : list (string * string)) (n : Z) (x : W) : Prop :=
  capped x /\ forall st, aget k (rw_states x.1) = Some st -> fp_records_written st + n <= m.

(** The part a chunk goes to. *)
Definition chosen (n : Z) (ds : string * FilePartState) (x : W) : Prop :=
  capped x /\ fp_part_index ds.2 <= cap /\ fp_records_written ds.2 + n <= m.

Lemma open_part_capped staged meta now k n :
  n <= m ->
  triple capped
    (let* fs := _next_path meta now k in
     let '(final, st) := fs in
     let* path := (if (staged : bool) then stage meta k final else ret final) in
     do* upd (fun w => set_current_paths (aset k path (rw_current_paths w)) w) in
     do* upd (fun w => set_states (aset k st (rw_states w)) w) in
     ret (path, st))%tram (chosen n) capped.
Proof.
  intros Hn x Hx. pose proof (next_path_capped meta now k x Hx) as Hnp. unfold bind at 1.
  destruct (_next_path meta now k x) as [[[final st]|e] x1]; [|done]. destruct Hnp as (Hx1 & Hp & Hr). simpl in Hp, Hr.
  revert x1 Hx1. change (triple capped
    (let* path := (if (staged : bool) then stage meta k final else ret final) in
     do* upd (fun w => set_current_paths (aset k path (rw_current_paths w)) w) in
     do* upd (fun w => set_states (aset k st (rw_states w)) w) in ret (path, st))%tram (chosen n) capped).
  eapply triple_bind with (R := fun _ => capped).
  { destruct staged; [apply stage_capped|by intros y ?]. }
  intros path. eapply triple_bind; [apply set_path_capped|]. intros ?.
  eapply triple_bind; [apply set_states_capped; lia|]. intros ? y Hy. split_and!; simpl; [done|done|lia].
Qed.

Lemma write_append_capped data meta now ser config n k :
  n <= m -> triple capped (write_append data meta now ser config n k) (fun _ => capped) capped.
Proof.
  intros Hn. unfold write_append. eapply triple_bind; [apply triple_getw|]. intros rolls.
  apply triple_bind with (R := fun _ => room k n).
  { destruct rolls; simpl.
    - apply triple_upd. intros w b [_ [H1 H2 H3 H4]]. destruct w; simpl in *. split; simpl.
      + split; simpl; [done|done|exact H3|]. intros k' st' [_ H]%aget_adel_some. by apply (H4 k').
      + intros st. by rewrite aget_adel.
    - intros x [Hr Hx]. split; [done|]. intros st Hst. symmetry in Hr. rewrite Hst, (cp_records _ Hx) in Hr.
      by eapply not_rolled. }
  intros ?. eapply triple_bind; [apply triple_getw|]. intros state.
  eapply triple_bind; [apply triple_getw|]. intros current.
  apply triple_bind with (R := chosen n).
  - destruct state as [st|]; [destruct current as [path|]|].
    + intros x (_ & Hst & Hx & Hroom). split_and!; [done|by eapply (cp_states _ Hx)|by apply Hroom].
    + eapply triple_conseq; [by apply open_part_capped|by intros x (_ & _ & ? & _)|done|done].
    + eapply triple_conseq; [by apply open_part_capped|by intros x (_ & _ & ? & _)|done|done].
  - intros [dest st]. destruct (prepare_payload_for_append _ _ _ _) as [|c payload]; [by intros x [? _]|].
    intros x (Hx & Hp & Hr). simpl in Hp, Hr. revert x Hx.
    change (triple capped (do* on_backend (append dest (c :: payload)) in
      do* upd (fun w => set_states (aset k (count n (c :: payload) st) (rw_states w)) w) in ret (Some dest))%tram
      (fun _ => capped) capped).
    eapply triple_bind; [apply (triple_backend caps)|]. intros ?.
    eapply triple_bind; [by apply set_states_capped|]. by intros ? x ?.
Qed.

Lemma write_single_capped data meta now ser config n k :
  n <= m -> triple capped (write_single data meta now ser config n k) (fun _ => capped) capped.
Proof.
  intros Hn x Hx. unfold write_single. pose proof (next_path_capped meta now k x Hx) as Hnp. unfold bind at 1.
  destruct (_next_path meta now k x) as [[[final st]|e] x1]; [|done]. destruct Hnp as (Hx1 & Hp & Hr). simpl in Hp, Hr.
  revert x1 Hx1. lazymatch goal with |- forall x1, capped x1 -> match ?p x1 with _ => _ end =>
    change (triple capped p (fun _ => capped) capped) end.
  apply triple_bind with (R := chosen 0).
  - destruct (should_stage_file_output meta ser).
    + eapply triple_bind; [apply stage_capped|]. intros dest.
      eapply triple_bind; [apply (triple_backend caps)|]. intros there.
      destruct (prepare_payload_for_append _ _ _ _) as [|c payload].
      * intros y Hy. split_and!; simpl; [done|done|lia].
      * eapply triple_bind; [apply (triple_backend caps)|]. intros ? y Hy. split_and!; simpl; [done|done|lia].
    + eapply triple_bind; [apply (triple_backend caps)|]. intros there. case_match; [by intros y ?|].
      eapply triple_bind; [apply (triple_backend caps)|]. intros ? y Hy. split_and!; simpl; [done|done|lia].
  - intros [dest st'] y (Hy & Hp' & Hr'). simpl in Hp', Hr'. revert y Hy.
    lazymatch goal with |- forall x1, capped x1 -> match ?p x1 with _ => _ end =>
      change (triple capped p (fun _ => capped) capped) end.
    eapply triple_bind; [apply set_states_capped; lia|]. intros ?.
    eapply triple_bind; [apply set_path_capped|]. by intros ? z ?.
Qed.

Lemma write_capped data meta now :
  fits (OWrite data meta now) -> triple capped (write data meta now) (fun _ => capped) capped.
Proof.
  intros Hfit. unfold write. eapply triple_bind; [apply (triple_backend caps)|]. intros ?.
  eapply triple_bind; [by apply triple_lift|]. intros config.
  eapply triple_bind; [apply triple_lift; by intros x [_ ?]|]. intros n.
  eapply triple_bind; [apply triple_getw|]. intros template.
  eapply triple_bind; [apply triple_lift; by intros x (_ & _ & _ & ?)|]. intros k.
  eapply triple_bind; [apply triple_getw|]. intros mode.
  intros x (_ & _ & _ & Hn & _ & Hx). specialize (Hfit n Hn).
  destruct (String.eqb mode "append"); [by apply write_append_capped|by apply write_single_capped].
Qed.

(** Publishing and discarding only drop bookkeeping. *)
Lemma clear_capped mf : triple capped (upd (_clear_unit_bookkeeping mf)) (fun _ => capped) capped.
Proof.
  apply triple_upd. intros w b Hx. unfold capped in *. simpl in *. unfold _clear_unit_bookkeeping. revert w Hx.
  induction (state_keys mf) as [|k ks IH]; intros w Hx; simpl; [done|]. apply IH. destruct w, Hx as [H1 H2 H3 H4].
  split; simpl in *; [done|done| |]; intros k' ? [_ H]%aget_adel_some; [by apply (H3 k')|by apply (H4 k')].
Qed.

Lemma set_manifests_capped f :
  triple capped (upd (fun w => set_manifests (f w) w)) (fun _ => capped) capped.
Proof. apply triple_upd. intros w b Hx. destruct w, Hx. by split. Qed.

Lemma publish_source_capped src : triple capped (publish_source src) (fun _ => capped) capped.
Proof.
  unfold publish_source. eapply triple_bind; [apply triple_getw|]. intros [mf|]; [|by intros x [_ ?]].
  eapply triple_bind with (R := fun _ => capped).
  - apply triple_rewrap. intros [w b] [_ Hx]. unfold on_manifest.
    destruct (publish _) as [[[]|e] [mf' b']]; destruct w, Hx; by split.
  - intros ?. eapply triple_bind; [apply triple_getw|]. intros mf'. destruct (complete mf'); [|by intros x [_ ?]].
    simpl. eapply triple_bind; [|intros ?; apply clear_capped].
    eapply triple_conseq; [apply (set_manifests_capped (fun w => adel src (rw_manifests w)))|by intros x [_ ?]|done|done].
Qed.

Lemma discard_capped src : triple capped (_discard_source src) (fun _ => capped) capped.
Proof.
  unfold _discard_source. eapply triple_bind; [apply triple_getw|]. intros [mf|]; [|by intros x [_ ?]].
  eapply triple_bind with (R := fun _ => capped).
  { eapply triple_conseq; [apply (set_manifests_capped (fun w => adel src (rw_manifests w)))|by intros x [_ ?]|done|done]. }
  intros ?. eapply triple_bind; [|intros ?; apply clear_capped]. apply triple_iterM. intros t. case_match; [by intros x ?|].
  intros x Hx. pose proof (triple_backend caps (remove (tg_temp_path t)) x Hx) as Hb. unfold catch.
  by destruct (on_backend _ x) as [[[]|e] x'].
Qed.

Lemma publish_all_capped : triple capped publish_all (fun _ => capped) capped.
Proof.
  unfold publish_all. eapply triple_bind; [apply triple_getw|]. intros srcs.
  eapply triple_bind with (R := fun _ => capped).
  { eapply triple_conseq; [apply triple_iterM; intros src; apply publish_source_capped|by intros x [_ ?]|done|done]. }
  intros ?. eapply triple_bind; [apply triple_getw|]. intros paths.
  eapply triple_conseq; [apply triple_iterM; intros p; apply (triple_backend caps)|by intros x [_ ?]|done|done].
Qed.

Lemma run_op_capped o x : fits o -> capped x -> capped (run_op o x).
Proof.
  intros Hf Hx. destruct o as [data meta now|src []|]; simpl.
  - pose proof (write_capped data meta now Hf x Hx) as H. by destruct (write data meta now x) as [[]].
  - pose proof (publish_source_capped src x Hx) as H. by destruct (publish_source src x) as [[]].
  - pose proof (discard_capped src x Hx) as H. by destruct (_discard_source src x) as [[]].
  - pose proof (publish_all_capped x Hx) as H. by destruct (publish_all x) as [[]].
Qed.
End caps.

(** ** The output of a unit *)

(** The state key does not depend on the clock: its tokens are not the rolling
    ones. *)
Lemma vars_now `{!PyText} now now' meta name :
  name ∉ _ROLLING_TOKENS ->
  dget name (build_filename_vars now 1 1 meta) = dget name (build_filename_vars now' 1 1 meta).
Proof.
  unfold _ROLLING_TOKENS, build_filename_vars. rewrite !not_elem_of_cons. intros (? & ? & ? & ? & _).
  cbn [dget]. rewrite (proj2 (String.eqb_neq "timestamp" name)), (proj2 (String.eqb_neq "epoch" name)),
    (proj2 (String.eqb_neq "epoch_m" name)), (proj2 (String.eqb_neq "epoch_ms" name)) by congruence. done.
Qed.

Lemma state_key_now `{!PyText} now now' template meta :
  file_state_key now template meta = file_state_key now' template meta.
Proof.
  unfold file_state_key. destruct (parse_template template) as [ps|e]; [|done]. cbn [res_bind]. f_equal.
  induction ps as [|[a|name spec conv] ps IH]; [done|exact IH|]. cbn [omap list_omap].
  destruct (String.eqb name "" || bool_decide (name ∈ _ROLLING_TOKENS))%bool eqn:E; [exact IH|].
  apply orb_false_iff in E as [_ E%bool_decide_eq_false]. rewrite (vars_now now now') by done. by rewrite IH.
Qed.

#[local] Arguments render_filename : simpl never.
#[local] Arguments local_temp_path : simpl never.
#[local] Arguments local_cleanup_stale_temp : simpl never.
#[local] Arguments local_append : simpl never.
#[local] Arguments source_unit_key : simpl never.
#[local] Arguments prepare_payload_for_append : simpl never.
#[local] Arguments should_stage_file_output : simpl never.
#[local] Arguments Z.ltb : simpl never.

Section unit_output.
Context {PT : PyText} {FM : Formatting} (root : string) (ow : bool).
#[local] Instance local_backend : RollingFileBackend lfs := LocalRollingBackend root ow.
Context (template name : string) (cap : Z) (ser : string) (config : dict).
Context (src : string * string * string) (k : list (string * string)) (temp final : string).
Context (Hcap : 1 <= cap) (Hne : temp <> final).

Definition w0 : RollingWriter := new_writer template "append" None None None cap name.
Definition target : StagedFileTarget := mkTarget k temp final.

(** A chunk of the unit: its bytes, its meta and the clock. *)
Notation chunk := (bytes * dict * Z)%type.

Record of_unit (meta : dict) : Prop := {
  ou_ser : py_text (default (VStr "json") (dget "serializer_type" meta)) = ser;
  ou_config : serializer_config meta = Ok config;
  ou_count : exists n, py_int_of (default (VInt 0) (dget "output_record_count" meta)) = Ok n;
  ou_staged : should_stage_file_output meta ser = true;
  ou_key : file_state_key 0 template meta = Ok k;
  ou_src : source_unit_key meta = src }.

(** The names the first chunk gives the unit's file. *)
Record opens (c : chunk) : Prop := {
  op_unit : of_unit c.1.2;
  op_final : exists filename, render_filename template c.2 1 cap c.1.2 = Ok filename /\ path_join root filename = final;
  op_temp : let r := dget_or_none "run_id" c.1.2 in
    local_temp_path final (py_text (if truthy r then r else VStr "run")) = Ok temp }.

(** A disk the unit can be written to: the sink's directories are there and
    synced, and no staging file of this name is. *)
Record ready_disk (d : disk) : Prop := {
  rd_root : Forall (fun a => a ∈ dk_dirs d) (ancestors root ++ [root]);
  rd_temp : settled d temp;
  rd_final : settled d final;
  rd_new : dk_entries d !! temp = None;
  rd_stale : List.filter (fun p => stale_name (path_name final) (path_name p))
    (List.filter (fun p => String.eqb (path_parent p) (path_parent final)) (elements (dom (dk_entries d)))) = [] }.

(** What the chunks written so far left. *)
Record written (payload : bytes) (x : RollingWriter * lfs) : Prop := {
  wn_limits : rw_max_records x.1 = None /\ rw_max_time x.1 = None /\ rw_max_bytes x.1 = None;
  wn_mode : rw_file_mode x.1 = "append"%string;
  wn_template : rw_filename_template x.1 = template;
  wn_states : exists st, rw_states x.1 = [(k, st)];
  wn_paths : rw_current_paths x.1 = [(k, temp)];
  wn_manifests : rw_manifests x.1 = [(src, mkManifest src [target] [])];
  wn_calm : lf_fates x.2 = [];
  wn_root : Forall (fun a => a ∈ dk_dirs (lf_disk x.2)) (ancestors root ++ [root]);
  wn_temp : settled (lf_disk x.2) temp;
  wn_final : settled (lf_disk x.2) final;
  wn_content : exists i, dk_entries (lf_disk x.2) !! temp = Some i /\ dk_data (lf_disk x.2) !! i = Some payload }.

Lemma mkdir_there d : Forall (fun a => a ∈ dk_dirs d) (ancestors root ++ [root]) -> fs_mkdir root d = Ok (tt, d).
Proof.
  intros H. unfold fs_mkdir. replace (list_to_set (ancestors root ++ [root]) ∖ dk_dirs d) with (∅ : gset string).
  - rewrite bool_decide_eq_false_2.
    + by rewrite !union_empty_r_L; destruct d.
    + rewrite elements_empty. intros Hx. by apply Exists_nil in Hx.
  - symmetry. apply set_eq. intros a. rewrite elem_of_difference, elem_of_list_to_set.
    rewrite Forall_forall in H. split; [|by intros ?%elem_of_empty]. intros [Ha Hn]. destruct Hn. by apply H.
Qed.

(** Every method starts the same way. *)
Lemma write_enters data meta now w d :
  of_unit meta -> Forall (fun a => a ∈ dk_dirs d) (ancestors root ++ [root]) ->
  rw_file_mode w = "append"%string -> rw_filename_template w = template ->
  exists n, write data meta now (w, mkLfs d []) = write_append data meta now ser config n k (w, mkLfs d []).
Proof.
  intros Hu Hr Hm Ht. destruct (ou_count _ Hu) as [n Hn]. exists n.
  unfold write, bind at 1, on_backend, within. simpl. unfold sys_mkdir, syscall, next_fate. simpl.
  rewrite mkdir_there by done. unfold bind, lift, getw, gets. simpl.
  rewrite (ou_config _ Hu), Hn, Ht, (state_key_now now 0), (ou_key _ Hu), Hm, (ou_ser _ Hu). done.
Qed.

Definition grown (d : disk) (i : nat) (b : bytes) : disk :=
  mkDisk (dk_dirs d) (dk_entries d) (<[i := b]> (dk_data d)) (dk_dirty d) ({[i]} ∪ dk_unsynced d).

Lemma append_there d i b p :
  settled d temp -> dk_entries d !! temp = Some i -> dk_data d !! i = Some b ->
  local_append temp p (mkLfs d []) = (Ok tt, mkLfs (grown d i (b ++ p)) []).
Proof.
  intros Hs He Hb. unfold local_append, bind, sys_open, syscall, next_fate, fs_open. simpl.
  rewrite has_dir_settled, (bool_decide_eq_false_2 (temp ∈ _)) by (done || apply Hs). simpl. rewrite He. simpl.
  unfold sys_write, bind, next_fate, modify, put. simpl. by rewrite Hb.
Qed.

Lemma write_next data meta now payload x :
  of_unit meta -> written payload x ->
  is_ok (write data meta now x).1 = true /\
  written (payload ++ prepare_payload_for_append data ser config false) (write data meta now x).2.
Proof.
  intros Hu Hw. destruct x as [w [d fs]]. pose proof (wn_calm _ _ Hw) as Hf. simpl in Hf. subst fs.
  destruct (write_enters data meta now w d Hu (wn_root _ _ Hw) (wn_mode _ _ Hw) (wn_template _ _ Hw)) as [n ->].
  destruct Hw as [[H1 [H2 H3]] Hm Ht [st Hst] Hp Hmf _ Hr Hte Hfi (i & He & Hb)]. simpl in *.
  unfold write_append, bind, getw, gets. simpl.
  repeat (first [rewrite Hst|rewrite Hp|rewrite H1|rewrite H2|rewrite H3|rewrite decide_True by done]; simpl).
  destruct (prepare_payload_for_append data ser config false) as [|c p] eqn:E; simpl.
  - rewrite app_nil_r. split; [done|]. split; simpl; eauto.
  - unfold on_backend, within. simpl. rewrite (append_there d i payload) by done. simpl. split; [done|].
    destruct w; simpl in *; subst. split; simpl; eauto.
    + rewrite decide_True by done. eauto.
    + exists i. split; [done|]. apply lookup_insert_eq.
Qed.

Lemma append_new d p :
  settled d temp -> dk_entries d !! temp = None ->
  exists i dirty, local_append temp p (mkLfs d []) =
    (Ok tt, mkLfs (mkDisk (dk_dirs d) (<[temp := i]> (dk_entries d)) (<[i := p]> (dk_data d)) dirty
                     ({[i]} ∪ dk_unsynced d)) []) /\ dirty = {[temp]} ∪ dk_dirty d.
Proof.
  intros Hs He. exists (fresh (dom (dk_data d))). eexists. split; [|reflexivity].
  unfold local_append, bind, sys_open, syscall, next_fate, fs_open. simpl.
  rewrite has_dir_settled, (bool_decide_eq_false_2 (temp ∈ _)) by (done || apply Hs). simpl. rewrite He. simpl.
  unfold sys_write, bind, next_fate, modify, put. simpl. rewrite lookup_insert_eq, insert_insert_eq. simpl.
  by rewrite union_assoc_L, union_idemp_L.
Qed.

Lemma cleanup_nothing d :
  ready_disk d -> local_cleanup_stale_temp final temp (mkLfs d []) = (Ok tt, mkLfs d []).
Proof.
  intros Hd. unfold local_cleanup_stale_temp, bind, sys_glob, syscall, next_fate, fs_glob. simpl.
  by rewrite (rd_stale _ Hd).
Qed.

Lemma settled_new d i p dirty b data unsynced :
  settled d p -> Forall (fun a => a <> b) (path_parent p :: ancestors p) -> dirty = {[b]} ∪ dk_dirty d ->
  settled (mkDisk (dk_dirs d) (<[b := i]> (dk_entries d)) data dirty unsynced) p.
Proof.
  intros [Hp Hd] Hn ->. split; [done|]. rewrite Forall_forall in Hd, Hn. apply Forall_forall. intros a Ha. simpl.
  destruct (Hd a Ha). split; [done|]. rewrite elem_of_union, elem_of_singleton. intros [?|?]; [|done]. by apply (Hn a).
Qed.

Lemma dirs_not_temp d p : settled d temp -> settled d p -> Forall (fun a => a <> temp) (path_parent p :: ancestors p).
Proof. intros [Ht _] [_ Hd]. eapply Forall_impl; [exact Hd|]. intros a [Ha _] ->. done. Qed.

Definition opened (counters : list (list (string * string) * Z)) manifests : RollingWriter :=
  mkWriter template "append" None None None cap name [] [] counters manifests [].

Lemma next_path_first data meta now d :
  opens (data, meta, now) ->
  _next_path meta now k (opened [] [], mkLfs d []) =
    (Ok (final, mkPart 1 now 0 0), (opened [(k, 1)] [], mkLfs d [])).
Proof.
  intros [_ (filename & Hren & Hfin) _]. unfold _next_path, bind, getw, gets, upd, modify, lift. simpl in *.
  change (0 + 1) with 1. rewrite (proj2 (Z.ltb_ge cap 1)) by lia. simpl. rewrite Hren. simpl. unfold ret. by rewrite <- Hfin.
Qed.

Lemma stage_first data meta now d counters :
  opens (data, meta, now) -> ready_disk d ->
  stage meta k final (opened counters [], mkLfs d []) =
    (Ok temp, (opened counters [(src, mkManifest src [target] [])], mkLfs d [])).
Proof.
  intros [Hu _ Htemp] Hd. unfold stage, bind, lift. simpl in *. rewrite Htemp. unfold on_backend, within. simpl.
  rewrite cleanup_nothing by done. unfold _add_staged_target, upd, modify. simpl. by rewrite (ou_src _ Hu).
Qed.

Lemma write_first data meta now d :
  opens (data, meta, now) -> ready_disk d -> prepare_payload_for_append data ser config true <> [] ->
  exists r x, write data meta now (w0, mkLfs d []) = (Ok r, x) /\
  written (prepare_payload_for_append data ser config true) x.
Proof.
  intros Ho Hd Hne0. pose proof (op_unit _ Ho) as Hu. simpl in Hu.
  destruct (write_enters data meta now w0 d Hu (rd_root _ Hd) eq_refl eq_refl) as [n ->].
  destruct (prepare_payload_for_append data ser config true) as [|c p] eqn:E; [done|].
  destruct (append_new d (c :: p) (rd_temp _ Hd) (rd_new _ Hd)) as (i & dirty & Happ & ->).
  eexists _, _. split.
  - change w0 with (opened [] []). unfold write_append. unfold bind at 1 2 3 4, getw, gets, when. simpl.
    erewrite bind_returns; [|erewrite bind_returns by (by eapply next_path_first); simpl; rewrite (ou_staged _ Hu);
      erewrite bind_returns by (by eapply stage_first); reflexivity].
    simpl. rewrite E. unfold bind, on_backend, within. simpl. rewrite Happ. simpl. reflexivity.
  - pose proof (rd_temp _ Hd) as Ht. pose proof (rd_final _ Hd) as Hf. split; simpl; try done.
    + rewrite decide_True by done. eauto.
    + apply (rd_root _ Hd).
    + eapply settled_new; [done|by apply (dirs_not_temp d)|done].
    + eapply settled_new; [done|by apply (dirs_not_temp d)|done].
    + exists i. split; [apply lookup_insert_eq|apply lookup_insert_eq].
Qed.

(** ** The unit as a plan of one target *)

Lemma written_apart payload x : written payload x -> apart [(target, payload)].
Proof. intros Hw. apply (one_target_apart target payload (lf_disk x.2) Hne (wn_temp _ _ Hw) (wn_final _ _ Hw)). Qed.

Lemma written_plan payload x latched :
  written payload x -> staged_plan [(target, payload)] (mkLocal x.1 x.2 latched).
Proof.
  intros Hw. eapply one_target_plan;
    [apply (wn_manifests _ _ Hw)|apply (wn_paths _ _ Hw)|apply (wn_temp _ _ Hw)|apply (wn_final _ _ Hw)|].
  destruct (wn_content _ _ Hw) as (i & He & Hb). unfold content. simpl. by rewrite He.
Qed.

Definition write_all (chunks : list chunk) : M LocalSink exn unit :=
  iterM (fun c => local_write root ow c.1.1 c.1.2 c.2) chunks.

(** The bytes of a unit: every chunk as it is appended, a CSV header once. *)
Definition unit_bytes (chunks : list chunk) : bytes :=
  match chunks with
  | [] => []
  | c :: cs => prepare_payload_for_append c.1.1 ser config true
               ++ mjoin ((fun c => prepare_payload_for_append c.1.1 ser config false) <$> cs)
  end.

Lemma local_write_of data meta now s r x :
  write data meta now (ls_writer s, ls_fs s) = (Ok r, x) ->
  local_write root ow data meta now s = (Ok tt, mkLocal x.1 x.2 (ls_latched_error s)).
Proof.
  intros E. unfold local_write, bind, as_sink_error, catch, in_writer. fold local_backend. rewrite E. by destruct x.
Qed.

Lemma write_rest chunks payload s :
  Forall (fun c => of_unit c.1.2) chunks -> written payload (ls_writer s, ls_fs s) ->
  exists s', write_all chunks s = (Ok tt, s') /\
    written (payload ++ mjoin ((fun c => prepare_payload_for_append c.1.1 ser config false) <$> chunks))
      (ls_writer s', ls_fs s').
Proof.
  intros Hc. revert payload s. induction Hc as [|[[data meta] now] cs Hu _ IH]; intros payload s Hw; simpl.
  - exists s. by rewrite app_nil_r.
  - destruct (write_next data meta now payload _ Hu Hw) as [Hok Hw'].
    destruct (write data meta now (ls_writer s, ls_fs s)) as [[r|e] x] eqn:E; [|done].
    unfold write_all. simpl. erewrite bind_returns by by eapply local_write_of.
    destruct (IH (payload ++ prepare_payload_for_append data ser config false) (mkLocal x.1 x.2 (ls_latched_error s))) as (s' & Hs1 & Hs'); [by destruct x|].
    exists s'. unfold write_all in Hs1. rewrite Hs1. split; [done|]. by rewrite app_assoc.
Qed.
End unit_output.

(** ** Runs *)

#[local] Existing Instance demo_text.
#[local] Existing Instance demo_format.

Definition text (t : string) : bytes := String.list_byte_of_string t.
Definition nl : string := String (ascii_of_nat 10) EmptyString.


Lemma demo_opens data :
  opens "/out" "{pipeline}_{timestamp}.bin" 99999 "ndjson" [] ("/in/a", "a", "r1")%string [("pipeline", "p")]%string
    (tg_temp_path demo_target) (tg_final_path demo_target) (data, demo_meta "a" "ndjson", demo_now).
Proof.
  split; [split; try by vm_compute| |by vm_compute].
  - exists 1. by vm_compute.
  - exists "p_20231114T221320.bin"%string. split; by vm_compute.
Qed.

Lemma demo_ready : ready_disk "/out" (tg_temp_path demo_target) (tg_final_path demo_target) demo_disk.
Proof.
  split; try (unfold settled; apply (bool_decide_unpack _); vm_compute; exact I).
Qed.


(** ** What is not promised *)

(** A unit: its chunk, and its finalization as successful. *)
Definition deliver (file : string) (data : bytes) (now : Z) (s : LocalSink) : bool * LocalSink :=
  let '(r, s1) := local_write "/out" true data (demo_meta file "ndjson") now s in
  let '(r', s2) := local_finalize_source "/out" true (demo_meta file "ndjson") true s1 in
  ((is_ok r && is_ok r')%bool, s2).


(** A CSV chunk whose first write fails to open the file is written without its
    header when the sink is called again: the part counts as open. *)
Lemma retry_loses_csv_header :
  let data := text ("h" ++ nl ++ "1" ++ nl) in
  let '(r1, s1) := local_write "/out" true data (demo_meta "a" "csv") demo_now (demo_sink [Works; Works; Fails]) in
  let '(r2, s2) := local_write "/out" true data (demo_meta "a" "csv") demo_now s1 in
  is_ok r1 = false /\ is_ok r2 = true /\
  content (lf_disk (ls_fs s2)) "/out/.p_20231114T221320.bin.tram-r1.tmp" = Some (text ("1" ++ nl)).
Proof. by vm_compute. Qed.

(** [replace] removes the old file before it renames the new one: a rename
    that fails leaves neither under the final name. *)
Lemma replace_not_atomic :
  let s1 := (deliver "a" (text "one") demo_now (demo_sink [])).2 in
  let '(r, s2) := local_write "/out" true (text "two") (demo_meta "b" "ndjson") demo_now s1 in
  let s3 := mkLocal (ls_writer s2) (mkLfs (lf_disk (ls_fs s2)) [Works; Works; Works; Works; Works; Works; Fails]) None in
  let '(r', s4) := local_finalize_source "/out" true (demo_meta "b" "ndjson") true s3 in
  reads (lf_disk (ls_fs s3)) "/out/p_20231114T221320.bin" = Some (text ("one" ++ nl)) /\
  is_ok r' = false /\ reads (lf_disk (ls_fs s4)) "/out/p_20231114T221320.bin" = None.
Proof. by vm_compute. Qed.

(** The directory the sink creates is not synced into its parent: a power loss
    after a confirmed commit may take it with the published file. *)
Definition fresh_root_sink : LocalSink :=
  mkLocal (new_writer "{pipeline}_{timestamp}.bin" "append" None None None 99999 "Local")
    (mkLfs (mkDisk {["/"%string]} ∅ ∅ ∅ ∅) []) None.

Definition fresh_root_commit : ExecMonad.SinkCommitReceipt * LocalSink :=
  local_commit "/out" true
    (local_write "/out" true (text "one") (demo_meta "a" "ndjson") demo_now fresh_root_sink).2.

Lemma unsynced_directory_lost d :
  dk_dirs d = {["/"; "/out"]}%string -> dk_dirty d = {["/out"%string]} ->
  exists d', power_loss d d' /\ reads d' "/out/p_20231114T221320.bin" = None.
Proof.
  intros Hdirs Hdirty. exists (mkDisk {["/"%string]} (dk_entries d) (dk_data d) ∅ ∅). split.
  - split; [|done]. intros p. rewrite Hdirty, not_elem_of_singleton. intros Hp. split; [done|]. simpl. rewrite Hdirs.
    rewrite elem_of_union, !elem_of_singleton. naive_solver.
  - unfold reads. rewrite bool_decide_eq_false_2; [done|].
    change (ancestors "/out/p_20231114T221320.bin") with ["/"; "/out"]%string.
    rewrite !Forall_cons. intros (_ & H & _). cbn [dk_dirs] in H. by apply elem_of_singleton in H.
Qed.

Lemma new_directory_not_durable :
  ExecMonad.rc_confirmed fresh_root_commit.1 = true /\
  exists d', power_loss (lf_disk (ls_fs fresh_root_commit.2)) d' /\ reads d' "/out/p_20231114T221320.bin" = None.
Proof. split; [by vm_compute|]. apply unsynced_directory_lost; by vm_compute. Qed.

(** The template a rolling sink uses loses the directory part of the
    configured one, and a field token at its end. *)
Lemma rolling_token_drops_directory :
  ensure_rolling_token "{source_stem}/out_{timestamp}.csv" = "out_{timestamp}_{part}.csv"%string.
Proof. by vm_compute. Qed.

Lemma rolling_token_breaks_field :
  let t := ensure_rolling_token "{pipeline}_{field.region}" in
  t = "{pipeline}_{field_{part}.region}"%string /\ is_ok (parse_template t) = false.
Proof. split; by vm_compute. Qed.

(** An SFTP [stat] that fails for another reason than a missing file counts as
    one: when the final name is taken, the target is confirmed as published
    though nothing was renamed. *)
Lemma sftp_failed_stat_confirms {S} `{CL : !SftpClient S} root t e (s s1 s2 : S) :
  sftp_stat (tg_final_path t) s = (Ok tt, s1) -> sftp_stat (tg_temp_path t) s1 = (Raise e, s2) ->
  _publish_staged_target (BE := SftpRollingBackend root) t s = (Ok tt, s2).
Proof.
  intros Hf Ht. unfold _publish_staged_target. simpl. unfold bind, sftp_exists, or_else, catch, bind. rewrite Hf. simpl.
  by rewrite Ht.
Qed.
End FileSinkWrites.
